(* ===== verification/_CoqProject ===== *)
-Q . S2P
Prelude.v
RustStr.v
Net.v
Model.v
SendLimit.v
Message.v
Store.v
Spf.v
Session.v
Server.v
MemoryStore.v
Template.v
Ssrf.v
Bounce.v
Dkim.v
SmtpClient.v
Sender.v
Queue.v
Mime.v
Tracking.v
Arf.v
MailDb.v
Worker.v
Webhooks.v
Retention.v
RustStrFacts.v
PgSink.v
SessionFacts.v
SessionAuth.v
Concrete.v
SessionProps.v
ServerFacts.v
SendLimitFacts.v
SpfFacts.v
TemplateFacts.v
SsrfFacts.v
ClientFacts.v
BounceFacts.v
MemoryFacts.v
MessageFacts.v
DkimFacts.v
QueueFacts.v
TrackingFacts.v
MailDbFacts.v
MailInvariant.v
RetentionFacts.v
WorkerFacts.v
Lifecycle.v
LifecycleFacts.v
Housekeeping.v
HousekeepingFacts.v
PgStore.v
PgStoreFacts.v
Compose.v
ApiSend.v
ApiSendFacts.v
Auth.v
AuthStore.v
AuthPg.v
AppMailer.v
AdminStore.v
AdminPg.v
Workspace.v
AuthApi.v
Authorize.v
AdminApi.v
Members.v
Resources.v
AdminRouter.v
AuthStoreFacts.v
AuthLaws.v
AuthApiFacts.v
HandlerLogic.v
Tenancy.v
TenancyFacts.v
Tenants.v
Isolation.v
ServerDb.v
ServerApi.v
CampaignFacts.v
