(* ===== verification/Prelude.v ===== *)
(** * Camelmailer: a verification library for the mail delivery platform

    Camelmailer accepts mail over SMTP and HTTP, stores it in PostgreSQL, and a pool
    of workers delivers it: outgoing mail to remote servers, incoming mail to the
    HTTP endpoints of routes, events to webhooks.  Organizations own mail servers;
    accounts and machine keys administer them over HTTP, and the token of a server
    gives access to its streams, templates and campaigns.  This library models the
    path of mail from the first byte a client sends to the last row a worker writes,
    and the API around it from the key or session of a request to the rows it
    changes, and proves what makes them correct.  Definitions follow the source
    function by function and keep its names; a statement of PostgreSQL has the name of
    its function behind [pg_].  File names below are relative to [src/crates/].

    ** The parts

    Accepting mail over SMTP:
    - [Session]: [camelmailer-smtp/src/session.rs], the state machine of one SMTP
      session.  Every handler of [Session] is one function of the world (the store
      and the sink) and the session; [None] is a panic.
    - [Server]: [camelmailer-smtp/src/server.rs], reading lines from chunks, the
      loop over them, SPF and the greeting, TLS being part of the peer's script.
    - [Spf]: [camelmailer-core/src/spf.rs], the evaluator with its lookup budget.
    - [Store], [Message]: the interfaces between the session and storage.  The store
      is the class [Store], next to the DNS names of the configuration; the sink is
      the class [MessageSink] with its laws [MessageSinkLaws], against which the
      session's theorems are proved, so that they hold for [Message.MemorySink] and
      for [PgSink].
    - [MemoryStore]: [camelmailer-core/src/store.rs], the in-memory store: IP
      credentials, authenticated domains, counters and usage alerts, idempotent send
      operations, retention, requeueing, tenant checks.
    - [PgStore], [PgSink]: the lookups and the sink of
      [camelmailer-db/src/pg_store.rs]: queries that may fail, and one transaction per
      submission (per message for one without a key), with its queue rows, counters,
      alerts, unsubscribe tokens and idempotency row.  [PgSink.PgMessageSink] is the
      sink with the script of the transactions that fail.

    Accepting mail over HTTP:
    - [Compose]: the building half of [camelmailer-core/src/mime.rs], up to the text a
      message builder writes for its tree.
    - [ApiSend]: the send handlers of [camelmailer-api/src/server_api.rs]: the token,
      idempotency, checks, the plan of messages, storing and answering, with the other
      requests that run in between as an argument.

    Delivering it:
    - [Queue]: [camelmailer-db/src/queue.rs], every SQL statement of the delivery
      queue as a function of the table, and the turns between servers.
    - [MailDb]: the transactions of [pg_store.rs] on messages, deliveries, webhook
      requests, suppressions, bounces, complaints, tracking and requeueing; a
      transaction is one function of the tables.
    - [Worker]: [camelmailer-worker/src/worker.rs], [process_next] with everything
      behind it, as a state-passing computation that can fail at any transaction
      (the script [ws_faults]) or panic.
    - [SmtpClient], [Sender]: [smtp_client.rs] and [sender.rs], the outbound client
      against a scripted network that records every byte written, and the loop over
      relays and MX hosts.
    - [Dkim], [Tracking], [Mime], [Bounce], [Arf]: what happens to the bytes:
      signing, link and open tracking, MIME reading, bounce classification and
      message tokens, feedback reports.
    - [Webhooks], [Lifecycle]: the outboxes of webhook requests and of installation
      events, and the worker steps that deliver them; [Ssrf]: the address guard every
      request to a tenant's URL passes.
    - [Retention], [Housekeeping]: the hourly clean-up, class by class and statement
      by statement, in batches that may fail.

    Accounts and administration:
    - [Auth], [AuthStore], [AuthPg]: base32, TOTP and roles; the class [AuthStore] with
      its in-memory and PostgreSQL instances.
    - [AuthApi], [AppMailer]: [auth_api.rs] over any store of accounts: login,
      registration, sessions, resets, second factor, invitations; platform mail.
    - [AdminStore], [AdminPg]: the class of the admin API's storage, and its PostgreSQL
      instance with constraints, cascades and failures.  [Deployment] is the state of
      an installation: the sending tables, the accounts, the admin tables.
    - [Workspace]: lifecycle events of the web server, the delivery of platform mail
      through the send path, the starter workspace.
    - [Authorize], [AdminApi], [Members], [Resources], [AdminRouter]: the middleware
      (keys, sessions, roles, two-factor), the handlers, and the routes on raw and
      decoded path segments.

    What a server token reaches besides sending:
    - [ServerDb]: the tables of streams, subscriptions, campaigns, templates and
      layouts and every statement on them, on top of a [Deployment].
    - [ServerApi]: their handlers, templated sends, and campaigns.  An expansion of a
      campaign is the list of statements it has left, so that expansions, requests
      and schedulers interleave statement by statement.
    - [Template]: [camelmailer-core/src/template.rs], parser, renderer and layouts.

    [SendLimit], [Model]: allowances, quotas, retention periods, the records shared by
    all.  [RustStr] and [Net] are the fragment of Rust's standard library the source
    uses: strings as byte lists, with char boundaries and the panics of slicing;
    addresses, networks and their text.  [Concrete] has concrete functions for every
    parameter, for the witnesses.

    ** What is proved

    - Sessions ([SessionProps], over [SessionFacts], [SessionAuth]): an invariant of
      every reachable session, no panic on ASCII command lines, no authentication in
      the clear where TLS is required, credentials are earned, exactly the acknowledged
      messages reach the sink, and send limits hold; the hashed text that recognises a
      repeated submission is injective; three behaviours nobody would want.
    - Connections ([ServerFacts]): the line loop terminates, chunking does not
      matter, and what [SmtpClient] writes [Session] reads back (dot-stuffing).
    - Storage ([MessageFacts], [MemoryFacts], [PgStoreFacts]): idempotent sends, a
      well-formedness invariant of the store, tenant isolation; a submission is stored
      whole or not at all, without a key message by message, whichever transactions
      fail; on tables that represent the in-memory store PostgreSQL answers alike, and
      [PgSink_laws] makes the session's theorems hold on it where no transaction fails.
    - HTTP sends ([ApiSendFacts]): who may send what to whom; limits under concurrent
      requests; a repeated request, after the first or while it is in flight; the token
      in a broadcast message opts its recipient out.
    - Queue ([QueueFacts]): what a dequeue hands out, round robin between servers,
      exclusive delivery under interleaving (and how a stale worker breaks it).
    - Mail tables ([MailDbFacts]): no transaction of one tenant touches rows of
      another; a bounce is final and counted once.
    - Workers ([MailInvariant], [WorkerFacts]): no mail is stranded, attempts are
      bounded, an attempt is recorded once or not at all, whatever transaction fails;
      what one webhook attempt does.  [RetentionFacts], [HousekeepingFacts]: batches
      add up, and the clean-up changes no answer and no limit.  [LifecycleFacts]:
      events are signed, and stay until an attempt succeeded everywhere or ten failed.
    - Outbound ([ClientFacts], [DkimFacts], [TrackingFacts], [SsrfFacts],
      [BounceFacts]): the client follows the protocol of an abstract SMTP client and
      keeps credentials off cleartext; a signed message splits back into what was
      signed; tracking changes one MIME part and what it writes reads back; the
      guard is exactly the reserved networks; message tokens round trip.
    - [SpfFacts], [TemplateFacts], [SendLimitFacts]: termination within the lookup
      budget, bounded nesting and output, escaping, retention order.
    - Accounts ([AuthStoreFacts], [AuthLaws], [AuthApiFacts]): the constraints of the
      account tables are kept; both stores have the laws [AuthStoreLaws], against which
      the handlers are proved: a login needs every secret, guesses one after the other are
      bounded, a session lives exactly as long as configured, changes and resets of a
      password end sessions, invitations grant their role and no more.  The laws are of
      stores whose statements succeed; theorems on failures quantify over any store.
    - Administration ([HandlerLogic], [Tenancy], [TenancyFacts], [Tenants],
      [Isolation]): a program logic for handlers; the type of the tables, which every
      request keeps; a request changes no row of an organization it does not reach,
      and how an escaped permalink gets around that; a reading request changes nothing
      but what marks its key or session as used.
    - Campaigns ([CampaignFacts]): a campaign is expanded at most once where requests
      do not interleave, an expansion ends, and two requests that interleave always
      start it twice.

    ** Conventions

    Bytes are [ascii], integers are [Z] or [N] with the source's bounds written out
    where they matter (ids, [u64] counters, ports, prefix lengths).  A panic is
    [None] (in [Worker], [Panicked]).  Tables are lists in insertion order or maps; a
    transaction is atomic (a COMMIT whose answer is lost is not modelled, nor is what
    READ COMMITTED lets two open transactions see of each other), and statements of
    several workers interleave as steps ([QueueFacts.fleet_step],
    [MailDbFacts.db_step], [CampaignFacts.sys_step]).  In
    [WorkerFacts.system_step] a worker's step runs as a block that may stop at any of
    its transactions; in [CampaignFacts.sys_step] a request does.  The handlers of
    [ApiSend] and [ServerApi] take what runs before their [n]-th statement as an
    argument [others].  SQL is modelled by its effect on the rows, row-level security
    by the tenant argument of a transaction; [dp_failing], [ps_failing], [sd_failing]
    say which statements fail.  The clock stands still within one handler.

    Random tokens and uuids (numbered, and injective where that matters), clocks,
    base64, hashes, Argon2, HMAC, DNS, TLS, IDNA, JSON text, message building, RSA, the
    percent-decoding of paths, and the ids and times of subscription rows are
    parameters ([Crates], [Payloads], [Outbound], [SpfResolver], [AuthCrates],
    [AdminCrates], [AudienceCrates], [PathParams], ...), with only their documented
    laws (a base64 round trip, sorted hash order, a path without escapes decodes to
    itself).

    Fuel: [rcpt_to] calls itself at most once (fuel 2); the SPF walk follows at most
    ten redirects (11, [spf_terminates]); the template parser consumes its input
    (length + 1); [drive_loop] has one step per pending line (pending + 1,
    [drive_session_terminates]); a reply is read until the script ends; MIME walks
    stop at the source's depth limits (9 levels in [Tracking] and [Mime], 6 in [Arf]);
    loops over bytes (splitting, entities, links, delimiter lines) consume at least
    one and have the length of the text; a retention sweep removes a row per round
    (rows + 1); base32 emits at most three groups per byte; [claim_permalink] stops at
    the source's number of attempts; [chunks] has the length of the list; the fuel
    [expand_campaign] needs is proved ([expansion_finishes]).

    ** Not modelled

    The reporting half of the server-token API (messages, activity, statistics, DMARC
    reports) and the retries of inbound mail, the tracking and share endpoints, the
    overview, domain health, template copies and message imports of the admin API:
    queries for display over the same tables.  Sign-on (OIDC, SAML, WebAuthn, SCIM):
    protocols on cryptographic and XML libraries.  Billing, rspamd, ClamAV and DNS
    adapters: clients of services, whose answers are parameters.  The in-memory tables
    behind [AdminStore] and the server-token API, which serve tests.  The DMARC parser
    (XML, gzip, zip), configuration loading, request parsing (serde, axum), timers,
    and the wiring of tasks. *)

From Stdlib Require Export Ascii String.
From stdpp Require Export base tactics option list gmap strings pretty.

(** ** Byte strings *)

(** Rust's [&str], [String], [&[u8]] and [Vec<u8>] are all lists of bytes here.
    A [str] is its UTF-8 encoding, so [len()], indexing and slicing count bytes
    exactly as the source does. *)
Abbreviation bytes := (list ascii).

Declare Scope bytes_scope.
Delimit Scope bytes_scope with bytes.

(** A string literal of the source. *)
Definition lit (s : string) : bytes := list_ascii_of_string s.
Arguments lit : simpl never.

Notation "! s" := (lit s%string) (at level 1, s at level 0, format "! s").

(** ** Functional record update

    [r <| f := v |>] is the record [r] with field [f] replaced by [v]: the model's
    form of the source's field assignment [self.f = v]. *)

Class Eta (R : Type) : Type := eta_expand : R → R.
Class FieldUpd {R T : Type} (proj : R → T) : Type := field_upd : (T → T) → R → R.

Ltac derive_field_upd :=
  match goal with
  | |- @FieldUpd ?R ?T ?proj =>
      let e := constr:(_ : Eta R) in
      let e := eval hnf in e in
      let e := eval unfold eta_expand in e in
      lazymatch eval pattern proj in e with
      | ?k _ => exact (fun (g : T → T) => k (fun r => g (proj r)))
      end
  end.
#[export] Hint Extern 0 (FieldUpd _) => derive_field_upd : typeclass_instances.

Notation "r <| f := v |>" := (field_upd (proj := f) (fun _ => v) r)
  (at level 1, left associativity, f at next level, v at level 200,
   format "r  <| f  :=  v |>") : stdpp_scope.

(** ** Sorting *)

(** [sort_by_key]: stable, by a boolean "goes before or ties". *)
Fixpoint insert_by {A} (le : A → A → bool) (x : A) (l : list A) : list A :=
  match l with
  | [] => [x]
  | y :: t => if le x y then x :: l else y :: insert_by le x t
  end.
Definition stable_sort {A} (le : A → A → bool) (l : list A) : list A := foldr (insert_by le) [] l.
