(* ===== verification/RustStr.v ===== *)
(** * RustStr: the parts of Rust's [str], [slice] and integer parsing the program uses

    A [str] is the list of bytes of its UTF-8 encoding.  Searching for an ASCII
    needle, [len], slicing and the ASCII case functions are byte operations in
    Rust as well; [trim] and [split_whitespace] remove the code points with the
    Unicode property White_Space, which are recognised here by their UTF-8
    encodings.  Slicing at an offset that is not a character boundary panics:
    the slicing functions return [None] there. *)

From S2P Require Import Prelude.

(** ** Bytes *)

Definition byte_n (c : ascii) : N := N_of_ascii c.
Definition b_in (lo hi : N) (c : ascii) : bool :=
  (lo <=? byte_n c)%N && (byte_n c <=? hi)%N.

Definition is_ascii_digit : ascii → bool := b_in 48 57.
Definition is_ascii_upper : ascii → bool := b_in 65 90.
Definition is_ascii_lower : ascii → bool := b_in 97 122.
Definition is_ascii_alphanumeric (c : ascii) : bool :=
  is_ascii_digit c || is_ascii_upper c || is_ascii_lower c.
Definition is_ascii_byte (c : ascii) : bool := (byte_n c <? 128)%N.
(** A continuation byte [10xxxxxx] of UTF-8. *)
Definition is_cont : ascii → bool := b_in 128 191.

Definition byte_to_lower (c : ascii) : ascii :=
  if is_ascii_upper c then ascii_of_N (byte_n c + 32) else c.
Definition byte_to_upper (c : ascii) : ascii :=
  if is_ascii_lower c then ascii_of_N (byte_n c - 32) else c.
Definition to_ascii_lowercase (s : bytes) : bytes := map byte_to_lower s.
Definition to_ascii_uppercase (s : bytes) : bytes := map byte_to_upper s.

Definition SP : ascii := ascii_of_N 32.
Definition TAB : ascii := ascii_of_N 9.
Definition LF : ascii := ascii_of_N 10.
Definition CR : ascii := ascii_of_N 13.
Definition NUL : ascii := ascii_of_N 0.
Definition DQ : ascii := ascii_of_N 34.
Definition CRLF : bytes := [CR; LF].

(** ** Equality and prefixes *)

Fixpoint bytes_eqb (a b : bytes) : bool :=
  match a, b with
  | [], [] => true
  | x :: a', y :: b' => Ascii.eqb x y && bytes_eqb a' b'
  | _, _ => false
  end.
Infix "=b" := bytes_eqb (at level 70, no associativity) : bytes_scope.
Open Scope bytes_scope.

Definition eq_ignore_ascii_case (a b : bytes) : bool :=
  to_ascii_lowercase a =b to_ascii_lowercase b.

Fixpoint strip_prefix (p s : bytes) : option bytes :=
  match p, s with
  | [], _ => Some s
  | c :: p', d :: s' => if Ascii.eqb c d then strip_prefix p' s' else None
  | _ :: _, [] => None
  end.
Definition starts_with (s p : bytes) : bool :=
  match strip_prefix p s with Some _ => true | None => false end.
Definition strip_suffix (p s : bytes) : option bytes :=
  match strip_prefix (rev p) (rev s) with Some r => Some (rev r) | None => None end.
Definition ends_with (s p : bytes) : bool :=
  match strip_suffix p s with Some _ => true | None => false end.

(** ** Searching *)

(** [str::find] of a literal: the byte offset of the first occurrence. *)
Fixpoint find_sub (p s : bytes) : option nat :=
  if starts_with s p then Some 0
  else match s with
       | [] => None
       | _ :: s' => match find_sub p s' with Some i => Some (S i) | None => None end
       end.
Definition contains (s p : bytes) : bool :=
  match find_sub p s with Some _ => true | None => false end.

(** Offset of the first, resp. last, byte satisfying a predicate. *)
Fixpoint find_byte (P : ascii → bool) (s : bytes) : option nat :=
  match s with
  | [] => None
  | c :: s' => if P c then Some 0
               else match find_byte P s' with Some i => Some (S i) | None => None end
  end.
Fixpoint rfind_byte (P : ascii → bool) (s : bytes) : option nat :=
  match s with
  | [] => None
  | c :: s' => match rfind_byte P s' with
               | Some i => Some (S i)
               | None => if P c then Some 0 else None
               end
  end.

(** ** Splitting *)

(** [split] on single bytes satisfying [P]: never the empty list. *)
Fixpoint split_on (P : ascii → bool) (s : bytes) : list bytes :=
  match s with
  | [] => [[]]
  | c :: s' =>
      if P c then [] :: split_on P s'
      else match split_on P s' with
           | [] => [[c]]
           | h :: t => (c :: h) :: t
           end
  end.

(** [split_once] and [splitn(2, _)] on the first byte satisfying [P];
    [rsplit_once] on the last one. *)
Fixpoint split_once (P : ascii → bool) (s : bytes) : option (bytes * bytes) :=
  match s with
  | [] => None
  | c :: s' => if P c then Some ([], s')
               else match split_once P s' with
                    | Some (a, b) => Some (c :: a, b)
                    | None => None
                    end
  end.
Definition rsplit_once (P : ascii → bool) (s : bytes) : option (bytes * bytes) :=
  match split_once P (rev s) with
  | Some (a, b) => Some (rev b, rev a)
  | None => None
  end.

(** [slice::split_inclusive(|b| b == '\n')]: every piece but possibly the last
    ends with the separator; the empty slice has no pieces. *)
Fixpoint split_inclusive (P : ascii → bool) (s : bytes) : list bytes :=
  match s with
  | [] => []
  | c :: s' =>
      if P c then [c] :: split_inclusive P s'
      else match split_inclusive P s' with
           | [] => [[c]]
           | h :: t => (c :: h) :: t
           end
  end.

Definition is_byte (c : ascii) : ascii → bool := Ascii.eqb c.

(** ** White space *)

(** The White_Space code points by encoded length. *)
Definition ws1 (c : ascii) : bool := b_in 9 13 c || (byte_n c =? 32)%N.
Definition ws2 (c d : ascii) : bool :=
  (byte_n c =? 194)%N && ((byte_n d =? 133)%N || (byte_n d =? 160)%N).
Definition ws3 (c d e : ascii) : bool :=
  ((byte_n c =? 225)%N && (byte_n d =? 154)%N && (byte_n e =? 128)%N)
  || ((byte_n c =? 226)%N && (byte_n d =? 128)%N
      && (b_in 128 138 e || (byte_n e =? 168)%N || (byte_n e =? 169)%N || (byte_n e =? 175)%N))
  || ((byte_n c =? 226)%N && (byte_n d =? 129)%N && (byte_n e =? 159)%N)
  || ((byte_n c =? 227)%N && (byte_n d =? 128)%N && (byte_n e =? 128)%N).

(** Drop every leading character recognised by the three predicates. *)
Fixpoint drop_ws (w1 : ascii → bool) (w2 : ascii → ascii → bool)
    (w3 : ascii → ascii → ascii → bool) (s : bytes) : bytes :=
  match s with
  | [] => []
  | a :: s1 =>
      if w1 a then drop_ws w1 w2 w3 s1 else
      match s1 with
      | [] => s
      | b :: s2 =>
          if w2 a b then drop_ws w1 w2 w3 s2 else
          match s2 with
          | [] => s
          | c :: s3 => if w3 a b c then drop_ws w1 w2 w3 s3 else s
          end
      end
  end.

Definition trim_start (s : bytes) : bytes := drop_ws ws1 ws2 ws3 s.
Definition trim_end (s : bytes) : bytes :=
  rev (drop_ws ws1 (λ a b, ws2 b a) (λ a b c, ws3 c b a) (rev s)).
Definition trim (s : bytes) : bytes := trim_end (trim_start s).

(** [trim_start_matches] / [trim_end_matches] of a set of ASCII characters. *)
Fixpoint trim_start_matches (P : ascii → bool) (s : bytes) : bytes :=
  match s with
  | c :: s' => if P c then trim_start_matches P s' else s
  | [] => []
  end.
Definition trim_end_matches (P : ascii → bool) (s : bytes) : bytes :=
  rev (trim_start_matches P (rev s)).
Definition trim_matches (P : ascii → bool) (s : bytes) : bytes :=
  trim_end_matches P (trim_start_matches P s).

(** [line.starts_with(char::is_whitespace)] *)
Definition starts_with_whitespace (s : bytes) : bool :=
  match s with
  | [] => false
  | a :: s1 =>
      ws1 a ||
      match s1 with
      | [] => false
      | b :: s2 => ws2 a b || match s2 with [] => false | c :: _ => ws3 a b c end
      end
  end.

(** [split_whitespace]: the maximal runs of non-white-space characters.  [cur] is
    the reversed run being read. *)
Fixpoint split_ws_go (cur : bytes) (s : bytes) : list bytes :=
  let flush := match cur with [] => [] | _ => [rev cur] end in
  match s with
  | [] => flush
  | a :: s1 =>
      if ws1 a then flush ++ split_ws_go [] s1 else
      match s1 with
      | [] => split_ws_go (a :: cur) s1
      | b :: s2 =>
          if ws2 a b then flush ++ split_ws_go [] s2 else
          match s2 with
          | [] => split_ws_go (a :: cur) s1
          | c :: s3 => if ws3 a b c then flush ++ split_ws_go [] s3
                       else split_ws_go (a :: cur) s1
          end
      end
  end.
Definition split_whitespace (s : bytes) : list bytes := split_ws_go [] s.

(** ** UTF-8 *)

(** The replacement character U+FFFD. *)
Definition REPLACEMENT : bytes := map ascii_of_N [239; 191; 189]%N.

Definition utf8_second3 (a b : ascii) : bool :=
  if (byte_n a =? 224)%N then b_in 160 191 b
  else if (byte_n a =? 237)%N then b_in 128 159 b
  else is_cont b.
Definition utf8_second4 (a b : ascii) : bool :=
  if (byte_n a =? 240)%N then b_in 144 191 b
  else if (byte_n a =? 244)%N then b_in 128 143 b
  else is_cont b.

(** [String::from_utf8_lossy]: every maximal invalid prefix of a sequence becomes
    one U+FFFD. *)
Fixpoint from_utf8_lossy (s : bytes) : bytes :=
  match s with
  | [] => []
  | a :: s1 =>
      if is_ascii_byte a then a :: from_utf8_lossy s1
      else if b_in 194 223 a then
        match s1 with
        | b :: s2 => if is_cont b then a :: b :: from_utf8_lossy s2
                     else REPLACEMENT ++ from_utf8_lossy s1
        | [] => REPLACEMENT
        end
      else if b_in 224 239 a then
        match s1 with
        | b :: s2 =>
            if utf8_second3 a b then
              match s2 with
              | c :: s3 => if is_cont c then a :: b :: c :: from_utf8_lossy s3
                           else REPLACEMENT ++ from_utf8_lossy s2
              | [] => REPLACEMENT
              end
            else REPLACEMENT ++ from_utf8_lossy s1
        | [] => REPLACEMENT
        end
      else if b_in 240 244 a then
        match s1 with
        | b :: s2 =>
            if utf8_second4 a b then
              match s2 with
              | c :: s3 =>
                  if is_cont c then
                    match s3 with
                    | d :: s4 => if is_cont d then a :: b :: c :: d :: from_utf8_lossy s4
                                 else REPLACEMENT ++ from_utf8_lossy s3
                    | [] => REPLACEMENT
                    end
                  else REPLACEMENT ++ from_utf8_lossy s2
              | [] => REPLACEMENT
              end
            else REPLACEMENT ++ from_utf8_lossy s1
        | [] => REPLACEMENT
        end
      else REPLACEMENT ++ from_utf8_lossy s1
  end.

(** [s.is_char_boundary(i)] on a valid [str]. *)
Definition is_char_boundary (s : bytes) (i : nat) : bool :=
  (i =? 0)%nat || (i =? length s)%nat
  || match s !! i with Some c => negb (is_cont c) | None => false end.

(** [&s[..i]] and [&s[i..]]; [None] is the panic. *)
Definition slice_to (s : bytes) (i : nat) : option bytes :=
  if is_char_boundary s i then Some (take i s) else None.
Definition slice_from (s : bytes) (i : nat) : option bytes :=
  if is_char_boundary s i then Some (drop i s) else None.

Definition is_ascii (s : bytes) : bool := forallb is_ascii_byte s.

(** [to_lowercase] / [to_uppercase] follow the Unicode tables.  The model is
    parametric in them; what the code relies on is that they agree with the
    ASCII functions on ASCII text. *)
Class UnicodeCase := {
  to_lowercase : bytes → bytes;
  to_uppercase : bytes → bytes;
  to_lowercase_ascii s : is_ascii s = true → to_lowercase s = to_ascii_lowercase s;
  to_uppercase_ascii s : is_ascii s = true → to_uppercase s = to_ascii_uppercase s;
}.

(** ** Integers *)

Definition digit_val (c : ascii) : option N :=
  if is_ascii_digit c then Some (byte_n c - 48)%N else None.

Fixpoint digits_val (acc : N) (s : bytes) : option N :=
  match s with
  | [] => Some acc
  | c :: s' => match digit_val c with
               | Some d => digits_val (acc * 10 + d) s'
               | None => None
               end
  end.

(** [s.parse::<uN>()]: an optional [+], at least one digit, no overflow. *)
Definition parse_uint (max : N) (s : bytes) : option N :=
  let ds := match s with c :: s' => if Ascii.eqb c "+" then s' else s | [] => s end in
  match ds with
  | [] => None
  | _ => match digits_val 0 ds with
         | Some n => if (n <=? max)%N then Some n else None
         | None => None
         end
  end.
Definition parse_u8 : bytes → option N := parse_uint 255.
Definition parse_u16 : bytes → option N := parse_uint 65535.
Definition parse_u32 : bytes → option N := parse_uint 4294967295.

(** [format!("{}")] of integers. *)
Definition show_N (n : N) : bytes := lit (pretty n).
Definition show_Z (z : Z) : bytes := lit (pretty z).

Definition join (sep : bytes) (l : list bytes) : bytes :=
  match l with
  | [] => []
  | h :: t => h ++ flat_map (λ x, sep ++ x) t
  end.
