(* ===== verification/Net.v ===== *)
(** * Net: [std::net] addresses and the interfaces of third-party crates

    [IpAddr] with the address parser of the standard library, and the type
    classes that stand for crates whose sources are not part of the repository
    (ipnet, base64, sha2, hmac/md5, idna, chrono).  Each class states the
    documented behaviour the program relies on as a law. *)

From S2P Require Import Prelude RustStr.

(** ** [std::net::IpAddr] *)

(** An IPv4 address as a 32-bit, an IPv6 address as a 128-bit number. *)
Inductive IpAddr :=
| V4 (a : N)
| V6 (a : N).
#[export] Instance IpAddr_eq_dec : EqDecision IpAddr.
Proof. solve_decision. Defined.

Definition is_ipv4 (ip : IpAddr) : bool := match ip with V4 _ => true | V6 _ => false end.

(** [octets()\[i\]] of an IPv4 and [segments()\[i\]] of an IPv6 address. *)
Definition octet (a : N) (i : N) : N := N.land (N.shiftr a (8 * (3 - i))) 255.
Definition segment (a : N) (i : N) : N := N.land (N.shiftr a (16 * (7 - i))) 65535.

(** [Ipv6Addr::to_ipv4_mapped]: [::ffff:a.b.c.d]. *)
Definition to_ipv4_mapped (a : N) : option N :=
  if (N.shiftr a 32 =? 65535)%N then Some (N.land a 4294967295) else None.

(** ** The address parser: [p.read_*] functions over the remaining input *)

Definition hex_val (c : ascii) : option N :=
  if is_ascii_digit c then Some (byte_n c - 48)%N
  else if b_in 97 102 c then Some (byte_n c - 87)%N
  else if b_in 65 70 c then Some (byte_n c - 55)%N
  else None.

(** [read_number(radix, Some(max_digits), allow_zero_prefix)] for values up to
    [max]; [count] digits were read so far. *)
Fixpoint read_digits (val : ascii → option N) (radix max : N) (max_digits count : nat)
    (acc : N) (s : bytes) : option (N * nat * bytes) :=
  match s with
  | [] => Some (acc, count, [])
  | c :: s' =>
      match val c with
      | None => Some (acc, count, s)
      | Some d =>
          let acc' := (acc * radix + d)%N in
          if (max <? acc')%N then None
          else if (max_digits <? S count)%nat then None
          else read_digits val radix max max_digits (S count) acc' s'
      end
  end.
Definition read_number (val : ascii → option N) (radix max : N) (max_digits : nat)
    (allow_zero_prefix : bool) (s : bytes) : option (N * bytes) :=
  match read_digits val radix max max_digits 0 0 s with
  | Some (n, count, rest) =>
      if (count =? 0)%nat then None
      else if negb allow_zero_prefix && starts_with s !"0" && (1 <? count)%nat then None
      else Some (n, rest)
  | None => None
  end.
Definition read_octet : bytes → option (N * bytes) := read_number digit_val 10 255 3 false.
Definition read_group : bytes → option (N * bytes) := read_number hex_val 16 65535 4 true.

Definition read_char (c : ascii) (s : bytes) : option bytes := strip_prefix [c] s.

Definition read_ipv4 (s : bytes) : option (N * bytes) :=
  '(a, s) ← read_octet s; s ← read_char "." s;
  '(b, s) ← read_octet s; s ← read_char "." s;
  '(c, s) ← read_octet s; s ← read_char "." s;
  '(d, s) ← read_octet s;
  Some (a * 16777216 + b * 65536 + c * 256 + d, s)%N.

(** [read_separator(':', i, _)] *)
Definition read_sep {A} (i : nat) (p : bytes → option (A * bytes)) (s : bytes) :
    option (A * bytes) :=
  if (i =? 0)%nat then p s else s ← read_char ":" s; p s.

(** [read_groups]: up to [left] more groups after [i]; the groups read, whether an
    embedded IPv4 address ended them, and the remaining input. *)
Fixpoint read_groups (left i : nat) (s : bytes) : list N * bool * bytes :=
  match left with
  | 0 => ([], false, s)
  | S left' =>
      let v4 := if (1 <=? left')%nat then read_sep i read_ipv4 s else None in
      match v4 with
      | Some (a, s') => ([N.shiftr a 16; N.land a 65535], true, s')
      | None =>
          match read_sep i read_group s with
          | Some (g, s') =>
              let '(gs, v4, rest) := read_groups left' (S i) s' in (g :: gs, v4, rest)
          | None => ([], false, s)
          end
      end
  end.

Definition of_groups (gs : list N) : N := fold_left (λ a g, a * 65536 + g)%N gs 0%N.

Definition read_ipv6 (s : bytes) : option (N * bytes) :=
  let '(head, head_ipv4, s1) := read_groups 8 0 s in
  if (length head =? 8)%nat then Some (of_groups head, s1)
  else if head_ipv4 then None
  else
    s2 ← read_char ":" s1; s3 ← read_char ":" s2;
    let '(tail, _, s4) := read_groups (8 - S (length head)) 0 s3 in
    Some (of_groups (head ++ replicate (8 - length head - length tail) 0%N ++ tail), s4).

(** [s.parse::<IpAddr>()] *)
Definition parse_ip (s : bytes) : option IpAddr :=
  match read_ipv4 s with
  | Some (a, []) => Some (V4 a)
  | Some (_, _ :: _) => None
  | None =>
      match read_ipv6 s with
      | Some (a, []) => Some (V6 a)
      | _ => None
      end
  end.

(** ** ipnet *)

Record IpNet := { net_addr : IpAddr; net_prefix_len : N }.

(** The most significant [len] bits of an address. *)
Definition addr_bits (ip : IpAddr) : N := match ip with V4 _ => 32 | V6 _ => 128 end.
Definition same_network (net : IpNet) (ip : IpAddr) : bool :=
  match net_addr net, ip with
  | V4 n, V4 a => (N.shiftr n (32 - net_prefix_len net) =? N.shiftr a (32 - net_prefix_len net))%N
  | V6 n, V6 a => (N.shiftr n (128 - net_prefix_len net) =? N.shiftr a (128 - net_prefix_len net))%N
  | _, _ => false
  end.

Class IpNetCrate := {
  (** ["addr/len".parse::<IpNet>()] *)
  ipnet_parse : bytes → option IpNet;
  (** [IpNet::new]: an error for a prefix longer than the address. *)
  ipnet_new : IpAddr → N → option IpNet;
  ipnet_contains : IpNet → IpAddr → bool;
  ipnet_parse_bounded s net : ipnet_parse s = Some net →
    (net_prefix_len net <= addr_bits (net_addr net))%N;
  ipnet_new_spec ip len :
    ipnet_new ip len = if (len <=? addr_bits ip)%N then Some {| net_addr := ip; net_prefix_len := len |}
                       else None;
  ipnet_contains_spec net ip : (net_prefix_len net <= addr_bits (net_addr net))%N →
    ipnet_contains net ip = same_network net ip;
}.

(** [IpNet::from(IpAddr)]: the full-length network. *)
Definition ipnet_from (ip : IpAddr) : IpNet :=
  {| net_addr := ip; net_prefix_len := addr_bits ip |}.

(** ** Hashing, encoding and time *)

(** Instants ([DateTime<Utc>]) are nanoseconds since the epoch. *)
Abbreviation datetime := Z.
Definition hours (n : Z) : Z := n * 3600 * 1000000000.
Definition days (n : Z) : Z := hours (24 * n).

Class Crates := {
  (** base64: [STANDARD.encode], and decoding with indifferent padding. *)
  b64_encode : bytes → bytes;
  b64_decode : bytes → option bytes;
  (** sha2 and hmac/md5: the digest bytes. *)
  sha256 : bytes → bytes;
  hmac_md5 : bytes → bytes → bytes;
  (** [idna::domain_to_ascii] *)
  idna_to_ascii : bytes → option bytes;
  (** chrono: [time.format("%a, %d %b %Y %H:%M:%S +0000")], and the calendar
      year and month of an instant. *)
  fmt_rfc2822 : datetime → bytes;
  date_year : datetime → Z;
  date_month : datetime → N;
  b64_roundtrip s : b64_decode (b64_encode s) = Some s;
}.

(** ** Lower-case hexadecimal, [format!("{b:02x}")] *)
Definition hex_digit (n : N) : ascii :=
  ascii_of_N (if (n <? 10)%N then n + 48 else n + 87)%N.
Definition hex_byte (c : ascii) : bytes :=
  [hex_digit (N.shiftr (byte_n c) 4); hex_digit (N.land (byte_n c) 15)].
Definition to_hex (s : bytes) : bytes := flat_map hex_byte s.

(** ** [Display] of addresses *)

Definition show_v4 (a : N) : bytes :=
  join !"." (map (λ i, show_N (octet a i)) [0; 1; 2; 3]%N).

(** [{:x}] of a 16-bit group. *)
Definition show_hex16 (n : N) : bytes :=
  let ds := map (λ k, hex_digit (N.land (N.shiftr n (4 * k)) 15)) [3; 2; 1; 0]%N in
  match trim_start_matches (is_byte "0") ds with [] => !"0" | ds' => ds' end.

(** The longest run of zero groups, as (start, length); the first one on a tie. *)
Fixpoint zero_run (i : nat) (current longest : nat * nat) (gs : list N) : nat * nat :=
  match gs with
  | [] => longest
  | g :: gs' =>
      if (g =? 0)%N then
        let current := (if (current.2 =? 0)%nat then i else current.1, S current.2) in
        zero_run (S i) current (if (longest.2 <? current.2)%nat then current else longest) gs'
      else zero_run (S i) (0, 0) longest gs'
  end.

Definition show_v6 (a : N) : bytes :=
  match to_ipv4_mapped a with
  | Some v4 => !"::ffff:" ++ show_v4 v4
  | None =>
      let gs := map (segment a) [0; 1; 2; 3; 4; 5; 6; 7]%N in
      let '(start, len) := zero_run 0 (0, 0) (0, 0) gs in
      let show l := join !":" (map show_hex16 l) in
      if (1 <? len)%nat then show (take start gs) ++ !"::" ++ show (drop (start + len) gs)
      else show gs
  end.

Definition show_ip (ip : IpAddr) : bytes := match ip with V4 a => show_v4 a | V6 a => show_v6 a end.

Example parse_v4 : parse_ip !"192.0.2.15" = Some (V4 3221225999).
Proof. vm_compute. reflexivity. Qed.
Example parse_v6 : parse_ip !"::ffff:1.2.3.4" = Some (V6 281470698652420).
Proof. vm_compute. reflexivity. Qed.
Example parse_v6_short : parse_ip !"2001:db8::1" = Some (V6 42540766411282592856903984951653826561).
Proof. vm_compute. reflexivity. Qed.
Example parse_bad : (parse_ip !"1.2.3", parse_ip !"01.2.3.4", parse_ip !"1::2::3") = (None, None, None).
Proof. vm_compute. reflexivity. Qed.
Example show_examples : map (λ s, show_ip <$> parse_ip (lit s))
    ["192.0.2.15"; "2001:db8::1"; "::"; "::1"; "::ffff:10.0.0.1"; "1:0:0:2:0:0:0:3"; "fe80::a:0:b"]%string
  = map (λ s, Some (lit s))
    ["192.0.2.15"; "2001:db8::1"; "::"; "::1"; "::ffff:10.0.0.1"; "1:0:0:2::3"; "fe80::a:0:b"]%string.
Proof. vm_compute. reflexivity. Qed.
