(* ===== verification/Model.v ===== *)
(** * Model: the domain records of [camelmailer-core/src/model.rs]

    One Record per struct and one Inductive per enum, with the source's fields
    in the source's order; fields carry a short prefix because Rocq has one name
    space for projections.  [Id] is [u64] as [N]; [f64] fields are carried as
    bit patterns and never inspected. *)

From S2P Require Import Prelude RustStr Net.

Abbreviation Id := N.
Abbreviation f64 := N.

(** [serde_json::Value]: an object's members in serialisation order; a number is
    kept as its printed form. *)
#[local] Set Warnings "-register-all".

Inductive Value :=
| VNull
| VBool (b : bool)
| VNumber (printed : bytes)
| VString (s : bytes)
| VArray (items : list Value)
| VObject (members : list (bytes * Value)).

Record Organization := mkOrganization {
  org_id : Id;
  org_uuid : bytes;
  org_name : bytes;
  org_permalink : bytes;
  org_require_two_factor : bool;
}.

Inductive ServerMode := Live | Development.

Record Server := mkServer {
  srv_id : Id;
  srv_uuid : bytes;
  srv_organization_id : Id;
  srv_name : bytes;
  srv_permalink : bytes;
  srv_token : bytes;
  srv_mode : ServerMode;
  srv_suspended : bool;
  srv_suspension_reason : option bytes;
  srv_privacy_mode : bool;
  srv_log_smtp_data : bool;
  srv_allow_sender : bool;
  srv_ip_pool_id : option Id;
  srv_track_opens : bool;
  srv_track_clicks : bool;
  srv_send_limit : option Z;
  srv_spam_threshold : option f64;
  srv_outbound_spam_threshold : option f64;
  srv_bounce_hook_url : option bytes;
  srv_delivery_hook_url : option bytes;
  srv_inbound_domain : option bytes;
  srv_broadcast_physical_address : option bytes;
  srv_color : option bytes;
  srv_default_stream_id : option Id;
}.

(** [Server::full_permalink] *)
Definition full_permalink (s : Server) (o : Organization) : bytes :=
  org_permalink o ++ !"/" ++ srv_permalink s.

Inductive DomainOwner := OwnerOrganization (id : Id) | OwnerServer (id : Id).
#[export] Instance DomainOwner_eq_dec : EqDecision DomainOwner.
Proof. solve_decision. Defined.

Record Domain := mkDomain {
  dom_id : Id;
  dom_uuid : bytes;
  dom_owner : DomainOwner;
  dom_name : bytes;
  dom_verified : bool;
  dom_verification_token : bytes;
  dom_check_dmarc : bool;
  dom_check_spf : bool;
  dom_dkim_private_key : option bytes;
}.

Inductive RouteMode := Endpoint | Accept | Hold | Bounce | Reject.
#[export] Instance RouteMode_eq_dec : EqDecision RouteMode.
Proof. solve_decision. Defined.

Record Route := mkRoute {
  rt_id : Id;
  rt_uuid : bytes;
  rt_server_id : Id;
  rt_domain_id : option Id;
  rt_name : bytes;
  rt_token : bytes;
  rt_mode : RouteMode;
  rt_endpoint_url : option bytes;
}.

Inductive CredentialType := CtSmtp | CtApi | CtSmtpIp.
#[export] Instance CredentialType_eq_dec : EqDecision CredentialType.
Proof. solve_decision. Defined.

Record Credential := mkCredential {
  cred_id : Id;
  cred_uuid : bytes;
  cred_server_id : Id;
  cred_credential_type : CredentialType;
  cred_name : bytes;
  cred_key : bytes;
  cred_hold : bool;
  cred_last_used_at : option datetime;
}.

Record ResolvedRoute := mkResolvedRoute {
  rr_route : Route;
  rr_server : Server;
  rr_domain_name : bytes;
}.

Record AdminApiKey := mkAdminApiKey {
  key_id : Id;
  key_uuid : bytes;
  key_name : bytes;
  key_prefix : bytes;
  key_organization_id : option Id;
  key_server_id : option Id;
}.

(** [AdminApiKey::is_global] *)
Definition is_global (k : AdminApiKey) : bool :=
  match key_organization_id k, key_server_id k with None, None => true | _, _ => false end.

Definition WEBHOOK_EVENTS : list bytes :=
  [!"MessageSent"; !"MessageDelayed"; !"MessageDeliveryFailed"; !"MessageHeld";
   !"MessageBounced"; !"MessageLoaded"; !"MessageLinkClicked"; !"MessageComplained"].

Record Webhook := mkWebhook {
  wh_id : Id;
  wh_uuid : bytes;
  wh_server_id : Id;
  wh_name : bytes;
  wh_url : bytes;
  wh_all_events : bool;
  wh_enabled : bool;
  wh_sign : bool;
  wh_events : list bytes;
  wh_headers : list (bytes * bytes);
}.

(** [Webhook::subscribes_to] *)
Definition subscribes_to (w : Webhook) (event : bytes) : bool :=
  wh_enabled w && (match wh_events w with [] => true | _ => existsb (λ e, e =b event) (wh_events w) end).

Record SenderAddress := mkSenderAddress {
  sa_id : Id;
  sa_uuid : bytes;
  sa_server_id : Id;
  sa_email_address : bytes;
  sa_verified : bool;
  sa_verification_token_hash : option bytes;
}.

#[export] Instance eta_Credential : Eta Credential := λ c,
  mkCredential (cred_id c) (cred_uuid c) (cred_server_id c) (cred_credential_type c)
    (cred_name c) (cred_key c) (cred_hold c) (cred_last_used_at c).
#[export] Instance eta_Route : Eta Route := λ r,
  mkRoute (rt_id r) (rt_uuid r) (rt_server_id r) (rt_domain_id r) (rt_name r) (rt_token r)
    (rt_mode r) (rt_endpoint_url r).
