(* ===== verification/SendLimit.v ===== *)
(** * SendLimit: send limits, organization quota and data retention

    [camelmailer-core/src/send_limit.rs], [quota.rs] and [retention.rs]: the
    arithmetic both send paths share.  [i64] values are [Z]; the subtraction in
    [remaining] and the products in [reached_thresholds] are the places where
    width matters. *)

From S2P Require Import Prelude RustStr Net.

Definition i64_min : Z := -9223372036854775808.
Definition i64_max : Z := 9223372036854775807.
Definition is_i64 (z : Z) : Prop := (i64_min <= z <= i64_max)%Z.
Definition is_i128 (z : Z) : Prop := (-(2 ^ 127) <= z < 2 ^ 127)%Z.

(** ** Send allowances *)

Inductive LimitScope := ScopeServer | ScopeOrganization.
#[export] Instance LimitScope_eq_dec : EqDecision LimitScope.
Proof. solve_decision. Defined.

Record SendAllowance := mkSendAllowance {
  sl_limit : option Z;
  sl_used : Z;
  sl_scope : LimitScope;
}.
#[export] Instance SendAllowance_eq_dec : EqDecision SendAllowance.
Proof. solve_decision. Defined.

Definition unlimited : SendAllowance := mkSendAllowance None 0 ScopeServer.
Definition allowance_server (limit : option Z) (used : Z) : SendAllowance :=
  mkSendAllowance limit used ScopeServer.
Definition allowance_organization (limit : option Z) (used : Z) : SendAllowance :=
  mkSendAllowance limit used ScopeOrganization.

Definition remaining (a : SendAllowance) : option Z :=
  match sl_limit a with Some limit => Some (Z.max (limit - sl_used a) 0) | None => None end.

Definition stricter (self other : SendAllowance) : SendAllowance :=
  match remaining self, remaining other with
  | None, _ => other
  | _, None => self
  | Some a, Some b =>
      if (a <? b)%Z then self
      else if (b <? a)%Z then other
      else if decide (sl_scope self = ScopeOrganization) then self else other
  end.

Definition error_code (a : SendAllowance) : bytes :=
  match sl_scope a with
  | ScopeServer => !"SendLimitExceeded"
  | ScopeOrganization => !"OrganizationQuotaExceeded"
  end.

Definition allows (a : SendAllowance) (count : Z) : bool :=
  match remaining a with
  | None => true
  | Some r => (count <=? 0)%Z || (count <=? r)%Z
  end.

Definition rejection_message (a : SendAllowance) : bytes :=
  match sl_scope a, sl_limit a with
  | ScopeServer, None => !"This mail server has no send limit"
  | ScopeServer, Some limit =>
      !"This mail server has reached its send limit of " ++ show_Z limit
      ++ !" messages per 30 days (" ++ show_Z (sl_used a) ++ !" used)"
  | ScopeOrganization, None => !"This organization has no monthly send limit"
  | ScopeOrganization, Some limit =>
      !"This organization has reached its monthly send limit of " ++ show_Z limit
      ++ !" messages (" ++ show_Z (sl_used a)
      ++ !" used this month); it resets on the first day of the next month (UTC)"
  end.

(** ** Retention *)

Record RetentionPeriods := mkRetentionPeriods {
  rp_message_content_days : option N;
  rp_message_metadata_days : option N;
  rp_webhook_log_days : option N;
  rp_dmarc_report_days : option N;
}.
#[export] Instance RetentionPeriods_eq_dec : EqDecision RetentionPeriods.
Proof. solve_decision. Defined.

Record RetentionOverrides := mkRetentionOverrides {
  ro_message_content_days : option N;
  ro_message_metadata_days : option N;
  ro_webhook_log_days : option N;
  ro_dmarc_report_days : option N;
}.
#[export] Instance RetentionOverrides_eq_dec : EqDecision RetentionOverrides.
Proof. solve_decision. Defined.

Definition overrides_default : RetentionOverrides := mkRetentionOverrides None None None None.
Definition overrides_is_empty (o : RetentionOverrides) : bool := bool_decide (o = overrides_default).

Definition retention_days (value : N) : option N := if (0 <? value)%N then Some value else None.

Definition normalized (p : RetentionPeriods) : RetentionPeriods :=
  match rp_message_metadata_days p with
  | Some metadata =>
      mkRetentionPeriods
        (Some match rp_message_content_days p with
              | None => metadata
              | Some content => N.min content metadata
              end)
        (rp_message_metadata_days p) (rp_webhook_log_days p) (rp_dmarc_report_days p)
  | None => p
  end.

Definition from_days (content metadata webhook_log dmarc : N) : RetentionPeriods :=
  normalized (mkRetentionPeriods (retention_days content) (retention_days metadata)
    (retention_days webhook_log) (retention_days dmarc)).

Definition pick (default override_ : option N) : option N :=
  match override_ with None => default | Some value => retention_days value end.

Definition with_overrides (p : RetentionPeriods) (o : RetentionOverrides) : RetentionPeriods :=
  normalized (mkRetentionPeriods
    (pick (rp_message_content_days p) (ro_message_content_days o))
    (pick (rp_message_metadata_days p) (ro_message_metadata_days o))
    (pick (rp_webhook_log_days p) (ro_webhook_log_days o))
    (pick (rp_dmarc_report_days p) (ro_dmarc_report_days o))).

Definition cutoff (now : datetime) (d : option N) : option datetime :=
  match d with Some n => Some (now - days (Z.of_N n))%Z | None => None end.

(** ** Organization policy and monthly usage *)

Record OrganizationPolicy := mkOrganizationPolicy {
  pol_monthly_send_limit : option Z;
  pol_suspended : bool;
  pol_suspension_reason : option bytes;
  pol_retention : RetentionOverrides;
}.
Definition policy_default : OrganizationPolicy :=
  mkOrganizationPolicy None false None overrides_default.

Definition USAGE_THRESHOLDS : list N := [80; 100]%N.

(** [reached_thresholds]: the products are computed in [i128]. *)
Definition reached_thresholds (sent : Z) (limit : option Z) : list N :=
  match limit with
  | Some l => if (0 <? l)%Z then filter (λ t, (sent * 100 >=? l * Z.of_N t)%Z = true) USAGE_THRESHOLDS
              else []
  | None => []
  end.

Record UsageMonth := mkUsageMonth { um_year : Z; um_month : N }.
#[export] Instance UsageMonth_eq_dec : EqDecision UsageMonth.
Proof. solve_decision. Defined.
#[export] Program Instance UsageMonth_countable : Countable UsageMonth :=
  inj_countable' (λ m, (um_year m, um_month m)) (λ p, mkUsageMonth p.1 p.2) _.
Next Obligation. by intros []. Qed.

Definition usage_month_of `{Crates} (at_ : datetime) : UsageMonth :=
  mkUsageMonth (date_year at_) (date_month at_).

(** [format!("{:0w$}")]: the digits padded on the left with zeros to [w]. *)
Definition pad0 (w : nat) (ds : bytes) : bytes := replicate (w - length ds) "0"%char ++ ds.

(** [UsageMonth::label]: [format!("{:04}-{:02}")].  A negative year is padded
    after its sign. *)
Definition label (m : UsageMonth) : bytes :=
  (if (um_year m <? 0)%Z then !"-" ++ pad0 3 (show_Z (- um_year m)) else pad0 4 (show_Z (um_year m)))
  ++ !"-" ++ pad0 2 (show_N (um_month m)).

(** [iN::from_str]: an optional sign, digits, within range. *)
Definition parse_int (min max : N) (s : bytes) : option Z :=
  match s with
  | "-"%char :: ds =>
      match ds with
      | [] => None
      | _ => match digits_val 0 ds with
             | Some n => if (n <=? min)%N then Some (- Z.of_N n)%Z else None
             | None => None
             end
      end
  | _ => match parse_uint max s with Some n => Some (Z.of_N n) | None => None end
  end.
Definition parse_i32 : bytes → option Z := parse_int 2147483648 2147483647.
Definition parse_i64 : bytes → option Z := parse_int 9223372036854775808 9223372036854775807.

(** [NaiveDate::from_ymd_opt(year, month, 1).is_some()]: chrono's year range and
    the months 1 to 12. *)
Definition valid_first_of_month (y : Z) (m : N) : bool :=
  ((-262143 <=? y) && (y <=? 262142))%Z && ((1 <=? m) && (m <=? 12))%N.

(** [UsageMonth::parse] *)
Definition parse_usage_month (value : bytes) : option UsageMonth :=
  '(year, month) ← split_once (is_byte "-") value;
  if negb (length year =? 4)%nat || negb (length month =? 2)%nat then None
  else
    y ← parse_i32 year; m ← parse_u32 month;
    if valid_first_of_month y m then Some (mkUsageMonth y m) else None.

(** [UsageMonth::next_first_day]: the year and month of the following month. *)
Definition next_month (m : UsageMonth) : UsageMonth :=
  if (um_month m =? 12)%N then mkUsageMonth (um_year m + 1) 1
  else mkUsageMonth (um_year m) (um_month m + 1).
