(* ===== verification/Message.v ===== *)
(** * Message: header parsing, the queued message and its sink

    [camelmailer-core/src/message.rs].  [MessageSink] is the trait the SMTP
    session hands accepted messages to; [MessageSinkLaws] states what the session
    relies on, and [MemorySink] is the in-memory implementation, proved to keep
    those laws. *)

From S2P Require Import Prelude RustStr Net Model SendLimit.

(** ** Headers *)

(** [line.strip_suffix(b"\r").unwrap_or(line)] *)
Definition strip_cr (line : bytes) : bytes := from_option id line (strip_suffix [CR] line).

(** Append to the last header's value, as [headers.last_mut()] does. *)
Fixpoint append_last (headers : list (bytes * bytes)) (text : bytes) : list (bytes * bytes) :=
  match headers with
  | [] => []
  | [(k, v)] => [(k, v ++ text)]
  | h :: t => h :: append_last t text
  end.

Definition starts_folded (text : bytes) : bool :=
  match text with c :: _ => Ascii.eqb c SP || Ascii.eqb c TAB | [] => false end.

Section Headers.
Context `{UnicodeCase}.

Fixpoint parse_headers_go (lines : list bytes) (headers : list (bytes * bytes)) :
    list (bytes * bytes) :=
  match lines with
  | [] => headers
  | l :: rest =>
      let line := strip_cr l in
      match line with
      | [] => headers
      | _ =>
          let text := from_utf8_lossy line in
          if starts_folded text then
            parse_headers_go rest (append_last headers (SP :: trim text))
          else
            match split_once (is_byte ":") text with
            | Some (key, value) =>
                parse_headers_go rest (headers ++ [(to_lowercase (trim key), trim value)])
            | None => parse_headers_go rest headers
            end
      end
  end.

Definition parse_headers (raw_message : bytes) : list (bytes * bytes) :=
  parse_headers_go (split_on (is_byte LF) raw_message) [].

Definition header_value (raw_message name : bytes) : option bytes :=
  let name := to_lowercase name in
  match List.find (λ kv, kv.1 =b name) (parse_headers raw_message) with
  | Some (_, value) => Some value
  | None => None
  end.
End Headers.

(** ** Queued messages *)

Inductive MessageScope := Incoming | Outgoing.
#[export] Instance MessageScope_eq_dec : EqDecision MessageScope.
Proof. solve_decision. Defined.

Definition scope_as_str (s : MessageScope) : bytes :=
  match s with Incoming => !"incoming" | Outgoing => !"outgoing" end.

Record QueuedMessage := mkQueuedMessage {
  qm_server_id : Id;
  qm_rcpt_to : bytes;
  qm_mail_from : bytes;
  qm_raw_message : bytes;
  qm_received_with_ssl : bool;
  qm_scope : MessageScope;
  qm_bounce : bool;
  qm_domain_id : option Id;
  qm_credential_id : option Id;
  qm_route_id : option Id;
  qm_tag : option bytes;
  qm_metadata : option Value;
  qm_stream_id : option Id;
}.

(** [server_store::IdempotencyRequest] *)
Record IdempotencyRequest := mkIdempotencyRequest {
  ir_key_hash : bytes;
  ir_request_hash : bytes;
  ir_operation : bytes;
  ir_expires_at : datetime;
}.

Inductive QueueMessagesOutcome :=
| Stored
| Replayed
| Conflict
| LimitExceeded (message : bytes)
| SinkFailed (error : bytes).

(** [messages.iter().filter(|m| m.scope == Outgoing).count() as i64] *)
Definition outgoing_count (messages : list QueuedMessage) : Z :=
  Z.of_nat (length (List.filter (λ m, bool_decide (qm_scope m = Outgoing)) messages)).

(** ** The sink interface *)

Class MessageSink (K : Type) := {
  queue_message : K → QueuedMessage → K;
  queue_messages : datetime → K → list QueuedMessage → option IdempotencyRequest →
                   SendAllowance → K * QueueMessagesOutcome;
}.

(** The messages a sink has taken, and what the two operations do to them. *)
Class MessageSinkLaws (K : Type) `{MessageSink K} := {
  accepted : K → list QueuedMessage;
  queue_message_accepted k m : accepted (queue_message k m) = accepted k ++ [m];
  queue_messages_stored now k ms idem a :
    (queue_messages now k ms idem a).2 = Stored →
    accepted (queue_messages now k ms idem a).1 = accepted k ++ ms ∧
    allows a (outgoing_count ms) = true;
  queue_messages_refused now k ms idem a :
    (queue_messages now k ms idem a).2 ≠ Stored →
    accepted (queue_messages now k ms idem a).1 = accepted k;
}.

(** ** The in-memory sink *)

Record MemorySink := mkMemorySink {
  ms_messages : list QueuedMessage;
  ms_idempotency_requests : gmap (Id * bytes) (bytes * bytes * datetime);
}.

Definition memory_sink_new : MemorySink := mkMemorySink [] ∅.

Definition mem_queue_message (k : MemorySink) (m : QueuedMessage) : MemorySink :=
  mkMemorySink (ms_messages k ++ [m]) (ms_idempotency_requests k).

(** [(messages.first().map(|m| m.server_id).unwrap_or(0), request.key_hash)] *)
Definition cache_key (messages : list QueuedMessage) (r : IdempotencyRequest) : Id * bytes :=
  (match messages with m :: _ => qm_server_id m | [] => 0%N end, ir_key_hash r).

(** The verdict of the idempotency table, [None] when the send must go ahead. *)
Definition mem_lookup (now : datetime) (k : MemorySink) (messages : list QueuedMessage)
    (r : IdempotencyRequest) : option QueueMessagesOutcome :=
  match ms_idempotency_requests k !! cache_key messages r with
  | Some (request_hash, operation, expires_at) =>
      if (now <? expires_at)%Z then
        if (request_hash =b ir_request_hash r) && (operation =b ir_operation r)
        then Some Replayed else Some Conflict
      else None
  | None => None
  end.

Definition mem_queue_messages (now : datetime) (k : MemorySink) (messages : list QueuedMessage)
    (idempotency : option IdempotencyRequest) (allowance : SendAllowance) :
    MemorySink * QueueMessagesOutcome :=
  match idempotency ≫= mem_lookup now k messages with
  | Some verdict => (k, verdict)
  | None =>
      if negb (allows allowance (outgoing_count messages)) then
        (k, LimitExceeded (rejection_message allowance))
      else
        let requests :=
          match idempotency with
          | Some r => <[cache_key messages r :=
                          (ir_request_hash r, ir_operation r, ir_expires_at r)]>
                        (delete (cache_key messages r) (ms_idempotency_requests k))
          | None => ms_idempotency_requests k
          end in
        (mkMemorySink (ms_messages k ++ messages) requests, Stored)
  end.

#[export] Instance MemorySink_sink : MessageSink MemorySink :=
  {| queue_message := mem_queue_message; queue_messages := mem_queue_messages |}.

Lemma mem_lookup_verdict now k ms r v :
  mem_lookup now k ms r = Some v → v = Replayed ∨ v = Conflict.
Proof. unfold mem_lookup. repeat case_match; naive_solver. Qed.

(** The result of a batch, by the table's verdict and the allowance. *)
Lemma mem_queue_messages_cases now k ms idem a :
  (∃ v, idem ≫= mem_lookup now k ms = Some v ∧ (v = Replayed ∨ v = Conflict) ∧
        mem_queue_messages now k ms idem a = (k, v)) ∨
  (idem ≫= mem_lookup now k ms = None ∧ allows a (outgoing_count ms) = false ∧
   mem_queue_messages now k ms idem a = (k, LimitExceeded (rejection_message a))) ∨
  (idem ≫= mem_lookup now k ms = None ∧ allows a (outgoing_count ms) = true ∧
   (mem_queue_messages now k ms idem a).2 = Stored ∧
   ms_messages (mem_queue_messages now k ms idem a).1 = ms_messages k ++ ms).
Proof.
  unfold mem_queue_messages.
  destruct (idem ≫= mem_lookup now k ms) as [v|] eqn:E.
  - left. exists v. split_and!; [done| |done].
    destruct idem as [r|]; [|done]. by eapply mem_lookup_verdict.
  - right. destruct (allows a (outgoing_count ms)); simpl; [right|left]; done.
Qed.

#[export] Program Instance MemorySink_laws : MessageSinkLaws MemorySink :=
  {| accepted := ms_messages |}.
Next Obligation. done. Qed.
Next Obligation.
  intros now k ms idem a. simpl.
  destruct (mem_queue_messages_cases now k ms idem a)
    as [(v & _ & [-> | ->] & ->)|[(_ & _ & ->)|(_ & ? & _ & ?)]]; done.
Qed.
Next Obligation.
  intros now k ms idem a. simpl.
  destruct (mem_queue_messages_cases now k ms idem a)
    as [(v & _ & _ & ->)|[(_ & _ & ->)|(_ & _ & -> & _)]]; done.
Qed.
