(* ===== verification/Store.v ===== *)
(** * Store: what the SMTP server relies on

    The configured DNS names and the [Received] header, and trait [Store] of
    [camelmailer-core/src/store.rs]: the lookups the session makes.
    Methods that read the current time take it as an argument, and the one
    method with an effect, [record_credential_use], returns the new store. *)

From S2P Require Import Prelude RustStr Net Model SendLimit.

(** ** DNS names of the configuration, and the [Received] header

    [normalize_dns_domain_name] and [Dns::normalized_return_path_domain] of
    [camelmailer-config/src/lib.rs], and
    [camelmailer-core/src/received_header.rs]. *)


Section Config.
Context `{Crates}.

(** The per-label test of [normalize_dns_domain_name]. *)
Definition label_ok (label : bytes) : bool :=
  negb (bool_decide (label = [])) && (length label <=? 63)%nat
  && forallb (λ b, is_ascii_alphanumeric b || Ascii.eqb b "-") label
  && match head label with Some b => is_ascii_alphanumeric b | None => false end
  && match last label with Some b => is_ascii_alphanumeric b | None => false end.

Definition normalize_dns_domain_name (value : bytes) : option bytes :=
  let domain := trim_end_matches (is_byte ".") (trim value) in
  ascii_domain ← idna_to_ascii domain;
  let domain := to_ascii_lowercase ascii_domain in
  let labels := split_on (is_byte ".") domain in
  if (length labels <? 2)%nat || (253 <? length domain)%nat || negb (forallb label_ok labels)
  then None
  else Some domain.

Definition RESERVED_SUFFIXES : list bytes :=
  [!"example"; !"example.com"; !"example.net"; !"example.org"; !"invalid"; !"localhost"; !"test"].

Definition normalized_return_path_domain (return_path_domain : bytes) : option bytes :=
  domain ← normalize_dns_domain_name return_path_domain;
  if existsb (λ suffix, (domain =b suffix)
               || match strip_suffix suffix domain with
                  | Some prefix => ends_with prefix !"."
                  | None => false
                  end) RESERVED_SUFFIXES
  then None
  else Some domain.
End Config.

(** ** [received_header::generate] *)

Inductive ReceiveMethod := MethodSmtp | MethodHttp.
Definition method_as_str (m : ReceiveMethod) : bytes :=
  match m with MethodSmtp => !"SMTP" | MethodHttp => !"HTTP" end.

Section Received.
Context `{Crates}.

Definition rfc2822 (time : datetime) : bytes := fmt_rfc2822 time.

Definition generate (privacy_mode : bool) (helo resolved_hostname ip_address : bytes)
    (method : ReceiveMethod) (our_hostname : bytes) (now : datetime) : bytes :=
  let header := !"by " ++ our_hostname ++ !" with " ++ method_as_str method ++ !"; "
                ++ rfc2822 now in
  if privacy_mode then header
  else !"from " ++ helo ++ !" (" ++ resolved_hostname ++ !" [" ++ ip_address ++ !"]) " ++ header.
End Received.

(** ** The storage trait *)

Class Store (S : Type) := {
  st_organization : S → Id → option Organization;
  st_server : S → Id → option Server;
  find_smtp_credential_by_key : S → bytes → option Credential;
  find_server_by_token : S → bytes → option Server;
  find_route_by_token : S → bytes → option ResolvedRoute;
  find_route_by_name_and_domain : S → bytes → bytes → option ResolvedRoute;
  find_ip_credential : S → IpAddr → option Credential;
  smtp_credentials_for_server : S → Id → list Credential;
  find_server_by_permalinks : S → bytes → bytes → option Server;
  st_find_authenticated_domain : S → Id → list bytes → option Id;
  send_usage : datetime → S → Id → Z;
  send_policy_for_organization : S → Id → OrganizationPolicy;
  organization_month_usage : datetime → S → Id → Z;
  return_path_route_for_server : S → Id → option ResolvedRoute;
  record_credential_use : datetime → S → Id → S;
  find_confirmed_sender_address : S → Id → list bytes → bool;
}.
