(* ===== verification/Spf.v ===== *)
(** * Spf: inbound SPF evaluation

    [camelmailer-core/src/spf.rs].  The evaluator's two interior-mutable cells,
    the DNS lookup budget and the first unresolvable term, are the [EvalState]
    threaded through the walk; DNS is the [SpfResolver] interface.  [check_host]
    recurses through [include:] and [redirect=]; its [fuel] bounds that recursion
    and [None] means the fuel ran out. *)

From S2P Require Import Prelude RustStr Net.

Inductive SpfResult := Pass | Fail_ | SoftFail | Neutral | None_ | TempError | PermError.
#[export] Instance SpfResult_eq_dec : EqDecision SpfResult.
Proof. solve_decision. Defined.

Definition spf_as_str (r : SpfResult) : bytes :=
  match r with
  | Pass => !"pass" | Fail_ => !"fail" | SoftFail => !"softfail" | Neutral => !"neutral"
  | None_ => !"none" | TempError => !"temperror" | PermError => !"permerror"
  end.

Definition from_qualifier (q : ascii) : SpfResult :=
  if Ascii.eqb q "-" then Fail_
  else if Ascii.eqb q "~" then SoftFail
  else if Ascii.eqb q "?" then Neutral
  else Pass.

Inductive UnsupportedKind := KMacro | KExists | KPtr.
Definition kind_as_str (k : UnsupportedKind) : bytes :=
  match k with KMacro => !"macro" | KExists => !"exists" | KPtr => !"ptr" end.

Record UnsupportedTerm := mkUnsupportedTerm {
  ut_term : bytes; ut_domain : bytes; ut_kind : UnsupportedKind }.

Inductive SpfVerdict := Determined (r : SpfResult) | Unverifiable (t : UnsupportedTerm).

Definition term_uses_macro (term : bytes) : bool := contains term !"%{".

Definition unsupported_kind (term : bytes) : option UnsupportedKind :=
  if term_uses_macro term then Some KMacro
  else
    let lower := to_ascii_lowercase term in
    if starts_with lower !"exists:" then Some KExists
    else if (lower =b !"ptr") || starts_with lower !"ptr:" then Some KPtr
    else None.

(** The resolver; [None] is a failed lookup. *)
Class SpfResolver (R : Type) := {
  txt : R → bytes → option (list bytes);
  ip_addresses : R → bytes → option (list IpAddr);
  mx_hosts : R → bytes → option (list bytes);
}.

Definition MAX_DNS_LOOKUPS : N := 10.
Definition MAX_MX_ADDRESS_LOOKUPS : nat := 10.

Inductive MacroMode := Lenient | Report.
#[export] Instance MacroMode_eq_dec : EqDecision MacroMode.
Proof. solve_decision. Defined.

Inductive MechanismOutcome := Matched | NoMatch | MechError (r : SpfResult).

(** [Evaluator.budget] and [Evaluator.blocked]. *)
Record EvalState := mkEvalState { budget : N; blocked : option UnsupportedTerm }.

Definition spend_lookup (st : EvalState) : option EvalState :=
  if (budget st =? 0)%N then None else Some (mkEvalState (budget st - 1) (blocked st)).

Definition note_unsupported (term domain : bytes) (kind : UnsupportedKind) (st : EvalState) :
    EvalState :=
  match blocked st with
  | None => mkEvalState (budget st) (Some (mkUnsupportedTerm term domain kind))
  | Some _ => st
  end.

Definition split_qualifier (term : bytes) : ascii * bytes :=
  match term with
  | c :: rest =>
      if Ascii.eqb c "+" || Ascii.eqb c "-" || Ascii.eqb c "~" || Ascii.eqb c "?" then (c, rest)
      else ("+"%char, term)
  | [] => ("+"%char, term)
  end.

Definition parse_domain_spec (mechanism keyword current_domain : bytes) : bytes * option N :=
  let rest := drop (Nat.min (length keyword) (length mechanism)) mechanism in
  let '(domain_part, cidr) := match split_once (is_byte "/") rest with
                              | Some (domain, cidr) => (domain, parse_u8 cidr)
                              | None => (rest, None)
                              end in
  let domain := match strip_prefix !":" domain_part with
                | Some [] | None => current_domain
                | Some explicit => explicit
                end in
  (domain, cidr).

Definition is_spf_record (r : bytes) : bool :=
  let head := trim_start r in (head =b !"v=spf1") || starts_with head !"v=spf1 ".

Section Spf.
Context `{!IpNetCrate} {R : Type} `{!SpfResolver R} (resolver : R) (macro_mode : MacroMode)
  (ip : IpAddr).
Implicit Types st : EvalState.

Definition ip_in_cidr (spec : bytes) : option bool :=
  match ipnet_parse spec with
  | Some net => Some (ipnet_contains net ip)
  | None => addr ← parse_ip spec; Some (bool_decide (addr = ip))
  end.

Definition ip_matches (record : IpAddr) (cidr : option N) : bool :=
  match cidr with
  | None => bool_decide (record = ip)
  | Some len => match ipnet_new record len with
                | Some net => ipnet_contains net ip
                | None => bool_decide (record = ip)
                end
  end.

(** [Ok(None)] is [inr None]; [Err(result)] is [inl result]. *)
Definition fetch_spf_record (domain : bytes) : SpfResult + option bytes :=
  match txt resolver domain with
  | None => inl TempError
  | Some records =>
      match List.filter is_spf_record records with
      | [] => inr None
      | [r] => inr (Some r)
      | _ => inl PermError
      end
  end.

Definition match_a (mechanism current_domain : bytes) st : EvalState * MechanismOutcome :=
  let '(target, cidr) := parse_domain_spec mechanism !"a" current_domain in
  match spend_lookup st with
  | None => (st, MechError PermError)
  | Some st =>
      match ip_addresses resolver target with
      | None => (st, MechError TempError)
      | Some addresses =>
          (st, if existsb (λ a, ip_matches a cidr) addresses then Matched else NoMatch)
      end
  end.

Fixpoint mx_loop (cidr : option N) (hosts : list bytes) : MechanismOutcome :=
  match hosts with
  | [] => NoMatch
  | host :: rest =>
      match ip_addresses resolver host with
      | Some addresses =>
          if existsb (λ a, ip_matches a cidr) addresses then Matched else mx_loop cidr rest
      | None => MechError TempError
      end
  end.

Definition match_mx (mechanism current_domain : bytes) st : EvalState * MechanismOutcome :=
  let '(target, cidr) := parse_domain_spec mechanism !"mx" current_domain in
  match spend_lookup st with
  | None => (st, MechError PermError)
  | Some st =>
      match mx_hosts resolver target with
      | None => (st, MechError TempError)
      | Some hosts =>
          if (MAX_MX_ADDRESS_LOOKUPS <? length hosts)%nat then (st, MechError PermError)
          else (st, mx_loop cidr hosts)
      end
  end.

(** What an [include:] makes of the included record's result. *)
Definition include_outcome (r : SpfResult) : MechanismOutcome :=
  match r with
  | Pass => Matched
  | Fail_ | SoftFail | Neutral => NoMatch
  | None_ => MechError PermError
  | TempError => MechError TempError
  | PermError => MechError PermError
  end.

Section Walk.
(** The recursive call of [check_host]. *)
Variable recur : bytes → EvalState → option (EvalState * SpfResult).

Definition match_include (target : bytes) st : option (EvalState * MechanismOutcome) :=
  match spend_lookup st with
  | None => Some (st, MechError PermError)
  | Some st => '(st, r) ← recur target st; Some (st, include_outcome r)
  end.

Definition match_mechanism (mechanism current_domain : bytes) st :
    option (EvalState * MechanismOutcome) :=
  match (if decide (macro_mode = Report) then unsupported_kind mechanism else None) with
  | Some kind => Some (note_unsupported mechanism current_domain kind st, NoMatch)
  | None =>
      let lower := to_ascii_lowercase mechanism in
      if lower =b !"all" then Some (st, Matched)
      else
        match match strip_prefix !"ip4:" lower with
              | Some rest => Some rest
              | None => strip_prefix !"ip6:" lower
              end with
        | Some rest =>
            Some (st, match ip_in_cidr rest with
                      | Some true => Matched
                      | Some false => NoMatch
                      | None => MechError PermError
                      end)
        | None =>
            if (lower =b !"a") || starts_with lower !"a:" || starts_with lower !"a/" then
              Some (match_a mechanism current_domain st)
            else if (lower =b !"mx") || starts_with lower !"mx:" || starts_with lower !"mx/" then
              Some (match_mx mechanism current_domain st)
            else
              match strip_prefix !"include:" lower with
              | Some target => match_include target st
              | None => Some (st, NoMatch)
              end
        end
  end.

Fixpoint check_terms (domain : bytes) (redirect : option bytes) (terms : list bytes) st :
    option (EvalState * SpfResult) :=
  match terms with
  | [] =>
      match redirect with
      | Some target =>
          match spend_lookup st with
          | None => Some (st, PermError)
          | Some st => recur target st
          end
      | None => Some (st, Neutral)
      end
  | term :: rest =>
      match strip_prefix !"redirect=" term with
      | Some target =>
          if bool_decide (macro_mode = Report) && term_uses_macro target then
            check_terms domain redirect rest (note_unsupported term domain KMacro st)
          else check_terms domain (Some target) rest st
      | None =>
          if contains term !"=" then check_terms domain redirect rest st
          else
            let '(qualifier, mechanism) := split_qualifier term in
            '(st, o) ← match_mechanism mechanism domain st;
            match o with
            | Matched => Some (st, from_qualifier qualifier)
            | NoMatch => check_terms domain redirect rest st
            | MechError r => Some (st, r)
            end
      end
  end.
End Walk.

Fixpoint check_host (fuel : nat) (domain : bytes) st : option (EvalState * SpfResult) :=
  match fuel with
  | 0 => None
  | S fuel' =>
      match fetch_spf_record domain with
      | inl r => Some (st, r)
      | inr None => Some (st, None_)
      | inr (Some record) =>
          check_terms (check_host fuel') domain None (tail (split_whitespace record)) st
      end
  end.
End Spf.

Section Evaluate.
Context `{!IpNetCrate} {R : Type} `{!SpfResolver R}.

Definition initial_state : EvalState := mkEvalState MAX_DNS_LOOKUPS None.

(** Eleven levels: every recursive call spends one of the ten lookups. *)
Definition walk (resolver : R) (mode : MacroMode) (domain : bytes) (ip : IpAddr) :
    option (EvalState * SpfResult) :=
  check_host resolver mode ip 11 domain initial_state.

Definition evaluate (resolver : R) (domain : bytes) (ip : IpAddr) : option SpfResult :=
  if bool_decide (trim domain = []) then Some None_
  else '(_, r) ← walk resolver Lenient domain ip; Some r.

Definition evaluate_verifiable (resolver : R) (domain : bytes) (ip : IpAddr) : option SpfVerdict :=
  if bool_decide (trim domain = []) then Some (Determined None_)
  else
    '(st, r) ← walk resolver Report domain ip;
    Some (match r, blocked st with
          | Pass, _ => Determined Pass
          | _, Some term => Unverifiable term
          | r, None => Determined r
          end).
End Evaluate.

Definition spf_comment (r : SpfResult) (receiver envelope_from client_ip : bytes) : bytes :=
  match r with
  | Pass => receiver ++ !": domain of " ++ envelope_from ++ !" designates " ++ client_ip
            ++ !" as permitted sender"
  | Fail_ => receiver ++ !": domain of " ++ envelope_from ++ !" does not designate " ++ client_ip
             ++ !" as permitted sender"
  | SoftFail => receiver ++ !": domain of transitioning " ++ envelope_from
                ++ !" does not designate " ++ client_ip ++ !" as permitted sender"
  | Neutral => receiver ++ !": " ++ client_ip ++ !" is neither permitted nor denied by domain of "
               ++ envelope_from
  | None_ => receiver ++ !": " ++ envelope_from ++ !" does not publish an SPF policy"
  | TempError => receiver ++ !": transient error resolving SPF for " ++ envelope_from
  | PermError => receiver ++ !": permanent error evaluating SPF for " ++ envelope_from
  end.

Definition received_spf_header (r : SpfResult) (receiver envelope_from : bytes) (client_ip : IpAddr)
    (helo : bytes) : bytes :=
  spf_as_str r ++ !" (" ++ spf_comment r receiver envelope_from (show_ip client_ip) ++ !") client-ip="
  ++ show_ip client_ip ++ !"; envelope-from=<" ++ envelope_from ++ !">;"
  ++ match helo with [] => [] | _ => !" helo=" ++ helo ++ !";" end.

(** [StaticSpfResolver]: the in-memory resolver. *)
Record StaticSpfResolver := mkStaticSpfResolver {
  sr_txt : gmap bytes (list bytes);
  sr_addresses : gmap bytes (list IpAddr);
  sr_mx : gmap bytes (list bytes);
  sr_fail : bool;
}.
Definition static_new : StaticSpfResolver := mkStaticSpfResolver ∅ ∅ ∅ false.
Definition push_entry {A} (name : bytes) (v : A) (t : gmap bytes (list A)) : gmap bytes (list A) :=
  <[name := from_option id [] (t !! name) ++ [v]]> t.
Definition add_txt (name value : bytes) (r : StaticSpfResolver) : StaticSpfResolver :=
  mkStaticSpfResolver (push_entry name value (sr_txt r)) (sr_addresses r) (sr_mx r) (sr_fail r).
Definition add_address (name : bytes) (ip : IpAddr) (r : StaticSpfResolver) : StaticSpfResolver :=
  mkStaticSpfResolver (sr_txt r) (push_entry name ip (sr_addresses r)) (sr_mx r) (sr_fail r).
Definition add_mx (name host : bytes) (r : StaticSpfResolver) : StaticSpfResolver :=
  mkStaticSpfResolver (sr_txt r) (sr_addresses r) (push_entry name host (sr_mx r)) (sr_fail r).
Definition fail_all (r : StaticSpfResolver) : StaticSpfResolver :=
  mkStaticSpfResolver (sr_txt r) (sr_addresses r) (sr_mx r) true.
Definition static_lookup {A} (t : gmap bytes (list A)) (r : StaticSpfResolver) (name : bytes) :
    option (list A) :=
  if sr_fail r then None else Some (from_option id [] (t !! name)).
#[export] Instance StaticSpfResolver_resolver : SpfResolver StaticSpfResolver := {|
  txt r := static_lookup (sr_txt r) r;
  ip_addresses r := static_lookup (sr_addresses r) r;
  mx_hosts r := static_lookup (sr_mx r) r;
|}.
