(* ===== verification/Session.v ===== *)
(** * Session: the SMTP session state machine

    [camelmailer-smtp/src/session.rs].  [Session] is the source's struct; every
    handler is one Definition.  A handler that can panic returns [option], where
    [None] is the panic; the shared store and message sink ([World]) are threaded
    through the handlers that use them, and time and randomness are the [Tick]
    argument of [handle]. *)

From S2P Require Import Prelude RustStr Net Model SendLimit Message Store.

(** ** Data *)

Definition IDEMPOTENCY_HEADER : bytes := !"camelmailer-idempotency-key".
Definition IDEMPOTENCY_KEY_MAX_CHARS : nat := 256.

Record SessionConfig := mkSessionConfig {
  cfg_smtp_hostname : bytes;
  cfg_tls_enabled : bool;
  cfg_auth_requires_tls : bool;
  cfg_max_message_size : N;
  cfg_return_path_domain : bytes;
  cfg_custom_return_path_prefix : bytes;
  cfg_route_domain : bytes;
}.

Inductive State := Preauth | Welcome | Welcomed | MailFromReceived | RcptToReceived.
#[export] Instance State_eq_dec : EqDecision State.
Proof. solve_decision. Defined.

Inductive Reply :=
| NoReply
| Line (text : bytes)
| Lines (lines : list bytes).
#[export] Instance Reply_eq_dec : EqDecision Reply.
Proof. solve_decision. Defined.

Inductive RecipientKind := KBounce | KRoute | KCredential.
#[export] Instance RecipientKind_eq_dec : EqDecision RecipientKind.
Proof. solve_decision. Defined.

Record Recipient := mkRecipient {
  rcp_kind : RecipientKind;
  rcp_rcpt_to : bytes;
  rcp_server : Server;
  rcp_route : option ResolvedRoute;
}.

Inductive InputMode :=
| ModeCommand
| ModeAuthPlain
| ModeAuthLoginUsername
| ModeAuthLoginPassword
| ModeAuthCramMd5 (challenge : bytes)
| ModeData.
#[export] Instance InputMode_eq_dec : EqDecision InputMode.
Proof. solve_decision. Defined.

Record Session := mkSession {
  config : SessionConfig;
  state : State;
  input_mode : InputMode;
  trace_id : bytes;
  ip_address : option bytes;
  resolved_hostname : option bytes;
  received_spf : option bytes;
  helo_name : option bytes;
  tls : bool;
  start_tls : bool;
  finished : bool;
  credential : option Credential;
  recipients : list Recipient;
  mail_from : option bytes;
  data : option bytes;
  client_data_offset : nat;
  headers : option (gmap bytes (list bytes));
  receiving_headers : bool;
  header_key : option bytes;
  cr_present : bool;
  previous_cr_present : option bool;
}.
#[export] Instance eta_Session : Eta Session := λ s,
  mkSession (config s) (state s) (input_mode s) (trace_id s) (ip_address s)
    (resolved_hostname s) (received_spf s) (helo_name s) (tls s) (start_tls s) (finished s)
    (credential s) (recipients s) (mail_from s) (data s) (client_data_offset s) (headers s)
    (receiving_headers s) (header_key s) (cr_present s) (previous_cr_present s).

Record World (St Sk : Type) := mkWorld { w_store : St; w_sink : Sk }.
Arguments mkWorld {St Sk}.
Arguments w_store {St Sk}.
Arguments w_sink {St Sk}.

(** What one call of [handle] reads from its surroundings: the session's clock,
    [Utc::now()], and the random challenge. *)
Record Tick := mkTick { t_clock : datetime; t_now : datetime; t_hex : bytes }.

(** ** Pure helpers *)

Definition strip_prefix_ci (data prefix : bytes) : option bytes :=
  if (length prefix <=? length data)%nat then
    front ← slice_to data (length prefix);
    if eq_ignore_ascii_case front prefix then slice_from data (length prefix) else Some data
  else Some data.

Definition extract_address (data command : bytes) : option bytes :=
  rest ← strip_prefix_ci data command;
  let trimmed := trim_start rest in
  let trimmed := from_option id trimmed (strip_prefix !":" trimmed) in
  let rest := trim_start trimmed in
  let rest := match rfind_byte (is_byte "<") rest with
              | Some position => drop (S position) rest
              | None => rest
              end in
  let rest := match find_byte (is_byte ">") rest with
              | Some position => take position rest
              | None => rest
              end in
  Some (trim rest).

Definition split_header (line : bytes) : option (bytes * bytes) :=
  '(key, value) ← split_once (is_byte ":") line;
  Some (key, trim_start value).

(** [strip_message_header]: the loop over [raw.split_inclusive('\n')] with its two
    flags. *)
Definition is_ws_byte (b : ascii) : bool := Ascii.eqb b SP || Ascii.eqb b TAB.
Fixpoint strip_header_go (name : bytes) (in_headers skipping : bool) (lines : list bytes) : bytes :=
  match lines with
  | [] => []
  | line :: rest =>
      if negb in_headers then line ++ strip_header_go name in_headers skipping rest
      else
        let content := strip_cr (from_option id line (strip_suffix [LF] line)) in
        match content with
        | [] => line ++ strip_header_go name false false rest
        | c :: _ =>
            if is_ws_byte c then
              (if skipping then [] else line) ++ strip_header_go name in_headers skipping rest
            else
              let key := match split_on (is_byte ":") content with k :: _ => k | [] => [] end in
              let skipping := eq_ignore_ascii_case key name in
              (if skipping then [] else line) ++ strip_header_go name in_headers skipping rest
        end
  end.
Definition strip_message_header (raw name : bytes) : bytes :=
  strip_header_go name true false (split_inclusive (is_byte LF) raw).

(** [u64::to_be_bytes] and the length-prefixed hash input. *)
Fixpoint be_bytes (n : nat) (v : N) : bytes :=
  match n with
  | 0 => []
  | S n' => be_bytes n' (N.shiftr v 8) ++ [ascii_of_N (N.land v 255)]
  end.
Definition u64_be (n : nat) : bytes := be_bytes 8 (N.of_nat n).
Definition hash_add (s : bytes) : bytes := u64_be (length s) ++ s.
Definition smtp_request_encoding (mail_from : bytes) (rcpts : list bytes) (client_data : bytes) :
    bytes :=
  hash_add mail_from ++ u64_be (length rcpts) ++ flat_map hash_add rcpts ++ hash_add client_data.

(** [u64] multiplication wraps (release profile). *)
Definition wrap_u64 (n : N) : N := (n mod 18446744073709551616)%N.
Definition max_bytes (c : SessionConfig) : N :=
  wrap_u64 (wrap_u64 (cfg_max_message_size c * 1024) * 1024).

(** [format!("250{separator}{line}")]: "-" on every line but the last. *)
Fixpoint frame_250 (lines : list bytes) : list bytes :=
  match lines with
  | [] => []
  | [l] => [!"250 " ++ l]
  | l :: t => (!"250-" ++ l) :: frame_250 t
  end.

Section Session.
Context {St Sk : Type} `{!Store St, !MessageSink Sk, !Crates, !UnicodeCase}.
Implicit Types (s : Session) (w : World St Sk).

Abbreviation out := (World St Sk * Session * Reply)%type.

Definition new (config : SessionConfig) (trace_id : bytes) (ip_address : option bytes) : Session :=
  let config := mkSessionConfig (cfg_smtp_hostname config) (cfg_tls_enabled config)
    (cfg_auth_requires_tls config) (cfg_max_message_size config)
    (from_option id [] (normalize_dns_domain_name (cfg_return_path_domain config)))
    (to_ascii_lowercase (cfg_custom_return_path_prefix config)) (cfg_route_domain config) in
  mkSession config (match ip_address with Some _ => Welcome | None => Preauth end) ModeCommand
    trace_id ip_address None None None false false false None [] None None 0 None false None
    false None.

Definition banner s : bytes :=
  !"220 " ++ cfg_smtp_hostname (config s) ++ !" ESMTP Camelmailer/" ++ trace_id s.

(** The server layer's setters. *)
Definition take_start_tls s : bool * Session := (start_tls s, s <| start_tls := false |>).
Definition set_tls (b : bool) s : Session := s <| tls := b |>.
Definition set_resolved_hostname (hostname : bytes) s : Session :=
  s <| resolved_hostname := Some hostname |>.
Definition set_received_spf (header_value : bytes) s : Session :=
  s <| received_spf := Some header_value |>.

Definition transaction_reset s : Session :=
  s <| recipients := [] |> <| mail_from := None |> <| data := None |>
    <| client_data_offset := 0 |> <| headers := None |>.

Definition auth_permitted s : bool :=
  tls s || negb (cfg_tls_enabled (config s)) || negb (cfg_auth_requires_tls (config s)).

(** *** Commands without side effects on the store *)

Definition proxy (line : bytes) s : Session * Reply :=
  match split_on (is_byte SP) line with
  | [p0; p1; p2; p3; p4; p5] as parts =>
      if (p0 =b !"PROXY") && forallb (λ p, negb (bool_decide (p = []))) parts then
        let s := s <| ip_address := Some p2 |> <| state := Welcome |> in
        (s, Line (banner s))
      else (s <| finished := true |>, Line !"502 Proxy Error")
  | _ => (s <| finished := true |>, Line !"502 Proxy Error")
  end.

Definition quit s : Session * Reply :=
  (s <| finished := true |>, Line !"221 Closing Connection").

Definition starttls s : Session * Reply :=
  if cfg_tls_enabled (config s) then
    (s <| start_tls := true |> <| tls := true |>, Line !"220 Ready to start TLS")
  else (s, Line !"502 TLS not available").

Definition helo_argument (line : bytes) : option bytes :=
  match split_once (is_byte SP) (trim line) with Some (_, rest) => Some rest | None => None end.

Definition capabilities s : list bytes :=
  (if cfg_tls_enabled (config s) && negb (tls s) then [!"STARTTLS"] else [])
  ++ (if auth_permitted s then [!"AUTH PLAIN LOGIN"] else []).

Definition ehlo (line : bytes) s : Session * Reply :=
  let s := s <| helo_name := helo_argument line |> in
  let s := (transaction_reset s) <| state := Welcomed |> in
  (s, Lines (frame_250 (!"My capabilities are" :: capabilities s))).

Definition helo (line : bytes) s : Session * Reply :=
  let s := s <| helo_name := helo_argument line |> in
  let s := (transaction_reset s) <| state := Welcomed |> in
  (s, Line (!"250 " ++ cfg_smtp_hostname (config s))).

Definition rset s : Session * Reply :=
  ((transaction_reset s) <| state := Welcomed |>, Line !"250 OK").

Definition noop s : Session * Reply := (s, Line !"250 OK").

(** *** Authentication *)

Definition decode64_lenient (input : bytes) : bytes :=
  from_option id [] (b64_decode (List.filter
    (λ c, is_ascii_alphanumeric c || Ascii.eqb c "+" || Ascii.eqb c "/" || Ascii.eqb c "=")
    input)).

Definition grant_message w (c : Credential) : bytes :=
  let server := st_server (w_store w) (cred_server_id c) in
  let organization := server ≫= λ sv, st_organization (w_store w) (srv_organization_id sv) in
  !"235 Granted for " ++ from_option org_permalink [] organization ++ !"/"
  ++ from_option srv_permalink [] server.

Definition use_credential (t : Tick) w (c : Credential) : World St Sk :=
  mkWorld (record_credential_use (t_now t) (w_store w) (cred_id c)) (w_sink w).

(** The common end of a successful AUTH: record the use, then grant. *)
Definition grant (t : Tick) w s (c : Credential) : out :=
  let w := use_credential t w c in
  (w, s <| credential := Some c |>, Line (grant_message w c)).

Definition authenticate (t : Tick) (password : bytes) w s : out :=
  match find_smtp_credential_by_key (w_store w) password with
  | Some c => grant t w s c
  | None => (w, s, Line !"535 Invalid credential")
  end.

Definition auth_plain_continue (t : Tick) (line : bytes) w s : out :=
  let s := s <| input_mode := ModeCommand |> in
  let decoded := from_utf8_lossy (decode64_lenient line) in
  let parts := split_on (is_byte NUL) decoded in
  if (length parts <? 2)%nat then (w, s, Line !"535 Authenticated failed - protocol error")
  else authenticate t (from_option id [] (last parts)) w s.

Definition strip_space (rest : bytes) : bytes := from_option id rest (strip_prefix !" " rest).

Definition auth_plain (t : Tick) (line : bytes) w s : option out :=
  rest ← strip_prefix_ci line !"AUTH PLAIN";
  let rest := strip_space rest in
  if bool_decide (trim rest = []) then
    Some (w, s <| input_mode := ModeAuthPlain |>, Line !"334")
  else Some (auth_plain_continue t rest w s).

Definition auth_login_username s : Session * Reply :=
  (s <| input_mode := ModeAuthLoginPassword |>, Line !"334 UGFzc3dvcmQ6").

Definition auth_login (line : bytes) s : option (Session * Reply) :=
  rest ← strip_prefix_ci line !"AUTH LOGIN";
  let rest := strip_space rest in
  if bool_decide (trim rest = []) then
    Some (s <| input_mode := ModeAuthLoginUsername |>, Line !"334 VXNlcm5hbWU6")
  else Some (auth_login_username s).

Definition auth_login_password (t : Tick) (line : bytes) w s : out :=
  let s := s <| input_mode := ModeCommand |> in
  authenticate t (from_utf8_lossy (decode64_lenient line)) w s.

Definition auth_cram_md5 (t : Tick) s : Session * Reply :=
  let challenge := !"<" ++ t_hex t ++ !"@" ++ cfg_smtp_hostname (config s) ++ !">" in
  (s <| input_mode := ModeAuthCramMd5 challenge |>, Line (!"334 " ++ b64_encode challenge)).

(** [splitn(2, P)]: the two first pieces, the second empty when missing. *)
Definition splitn2 (P : ascii → bool) (x : bytes) : bytes * bytes :=
  from_option id (x, []) (split_once P x).
Definition trim_crlf : bytes → bytes :=
  trim_end_matches (λ c, Ascii.eqb c CR || Ascii.eqb c LF).

Definition auth_cram_md5_continue (t : Tick) (line challenge : bytes) w s : out :=
  let s := s <| input_mode := ModeCommand |> in
  let decoded := from_utf8_lossy (decode64_lenient line) in
  let '(username, password) := splitn2 (is_byte SP) decoded in
  let username := trim_crlf username in
  let password := trim_crlf password in
  let '(org_permalink, server_permalink) :=
    splitn2 (λ c, Ascii.eqb c "/" || Ascii.eqb c "_") username in
  match find_server_by_permalinks (w_store w) org_permalink server_permalink with
  | None => (w, s, Line !"535 Denied")
  | Some server =>
      match List.find (λ c, password =b to_hex (hmac_md5 (cred_key c) challenge))
              (smtp_credentials_for_server (w_store w) (srv_id server)) with
      | Some c => grant t w s c
      | None => (w, s, Line !"535 Denied")
      end
  end.

(** *** The mail transaction *)

Definition mail_from_command (line : bytes) s : option (Session * Reply) :=
  if negb (bool_decide (state s = Welcomed) || bool_decide (state s = MailFromReceived)) then
    Some (s, Line !"503 EHLO/HELO first please")
  else
    let s := transaction_reset (s <| state := MailFromReceived |>) in
    let line := match find_sub !"AUTH=" line with
                | Some position => trim_end (take position line)
                | None => line
                end in
    address ← extract_address line !"MAIL FROM";
    Some (s <| mail_from := Some address |>, Line !"250 OK").

Definition push_recipient (r : Recipient) s : Session := s <| recipients := recipients s ++ [r] |>.

Definition is_return_path s (domain : bytes) : bool :=
  match normalize_dns_domain_name domain with
  | Some d =>
      (negb (bool_decide (cfg_return_path_domain (config s) = []))
       && (d =b cfg_return_path_domain (config s)))
      || starts_with d (cfg_custom_return_path_prefix (config s) ++ !".")
  | None => false
  end.

(** The five routing branches of RCPT TO, once the address is split. *)
Definition rcpt_return_path (rcpt_to uname : bytes) w s : Session * Reply :=
  let s := s <| state := RcptToReceived |> in
  match find_server_by_token (w_store w) uname with
  | Some server =>
      if srv_suspended server then (s, Line !"535 Mail server has been suspended")
      else (push_recipient (mkRecipient KBounce rcpt_to server None) s, Line !"250 OK")
  | None => (s, Line !"550 Invalid server token")
  end.

Definition rcpt_route_token (uname : bytes) (tag : option bytes) w s : Session * Reply :=
  let s := s <| state := RcptToReceived |> in
  match find_route_by_token (w_store w) uname with
  | Some resolved =>
      if srv_suspended (rr_server resolved) then (s, Line !"535 Mail server has been suspended")
      else if bool_decide (rt_mode (rr_route resolved) = Reject) then
        (s, Line !"550 Route does not accept incoming messages")
      else
        let tag_suffix := match tag with Some t => !"+" ++ t | None => [] end in
        let actual := rt_name (rr_route resolved) ++ tag_suffix ++ !"@" ++ rr_domain_name resolved in
        (push_recipient (mkRecipient KRoute actual (rr_server resolved) (Some resolved)) s,
         Line !"250 OK")
  | None => (s, Line !"550 Invalid route token")
  end.

Definition rcpt_credential (rcpt_to : bytes) (c : Credential) w s : Session * Reply :=
  let s := s <| state := RcptToReceived |> in
  match st_server (w_store w) (cred_server_id c) with
  | Some server =>
      if srv_suspended server then (s, Line !"535 Mail server has been suspended")
      else if pol_suspended (send_policy_for_organization (w_store w) (srv_organization_id server))
      then (s, Line !"535 Organization has been suspended")
      else (push_recipient (mkRecipient KCredential rcpt_to server None) s, Line !"250 OK")
  | None => (s, Line !"535 Mail server has been suspended")
  end.

Definition rcpt_incoming_route (rcpt_to : bytes) (resolved : ResolvedRoute) s : Session * Reply :=
  let s := s <| state := RcptToReceived |> in
  if srv_suspended (rr_server resolved) then (s, Line !"535 Mail server has been suspended")
  else if bool_decide (rt_mode (rr_route resolved) = Reject) then
    (s, Line !"550 Route does not accept incoming messages")
  else (push_recipient (mkRecipient KRoute rcpt_to (rr_server resolved) (Some resolved)) s,
        Line !"250 OK").

(** [rcpt_to] calls itself once the client's IP address has produced a
    credential; [fuel] bounds those calls. *)
Fixpoint rcpt_to_fuel (fuel : nat) (t : Tick) (line : bytes) w s : option out :=
  match fuel with
  | 0 => None
  | S fuel' =>
    if negb (bool_decide (state s = MailFromReceived) || bool_decide (state s = RcptToReceived)) then
      Some (w, s, Line !"503 EHLO/HELO and MAIL FROM first please")
    else
      rcpt ← extract_address line !"RCPT TO";
      if bool_decide (rcpt = []) then Some (w, s, Line !"501 RCPT TO should not be empty")
      else
        match split_once (is_byte "@") rcpt with
        | None | Some (_, []) => Some (w, s, Line !"501 Invalid RCPT TO")
        | Some (uname, domain) =>
            let '(uname, tag) := match split_once (is_byte "+") uname with
                                 | Some (u, tg) => (u, Some tg)
                                 | None => (uname, None)
                                 end in
            if is_return_path s domain then
              let '(s, r) := rcpt_return_path rcpt uname w s in Some (w, s, r)
            else if domain =b cfg_route_domain (config s) then
              let '(s, r) := rcpt_route_token uname tag w s in Some (w, s, r)
            else
              match credential s with
              | Some c => let '(s, r) := rcpt_credential rcpt c w s in Some (w, s, r)
              | None =>
                  match find_route_by_name_and_domain (w_store w) uname domain with
                  | Some resolved =>
                      let '(s, r) := rcpt_incoming_route rcpt resolved s in Some (w, s, r)
                  | None =>
                      match (ip_address s ≫= parse_ip) ≫= find_ip_credential (w_store w) with
                      | Some c =>
                          rcpt_to_fuel fuel' t line (use_credential t w c)
                            (s <| credential := Some c |>)
                      | None => Some (w, s, Line !"530 Authentication required")
                      end
                  end
              end
        end
  end.

(** Two calls always suffice: the second one has a credential. *)
Definition rcpt_to : Tick → bytes → World St Sk → Session → option out := rcpt_to_fuel 2.

Definition data_command (t : Tick) w s : Session * Reply :=
  if negb (bool_decide (state s = RcptToReceived)) then
    (s, Line !"503 HELO/EHLO, MAIL FROM and RCPT TO before sending data")
  else
    let s := s <| receiving_headers := true |> <| header_key := None |> in
    let credential_server := credential s ≫= λ c, st_server (w_store w) (cred_server_id c) in
    let privacy_mode := from_option srv_privacy_mode false credential_server in
    let ip := from_option id [] (ip_address s) in
    let resolved := from_option id ip (resolved_hostname s) in
    let received_header := generate privacy_mode (from_option id [] (helo_name s)) resolved ip
      MethodSmtp (cfg_smtp_hostname (config s)) (t_clock t) in
    let '(d, h) := match received_spf s with
                   | Some v => (!"Received-SPF: " ++ v ++ CRLF, {[ !"received-spf" := [v] ]})
                   | None => ([], ∅)
                   end in
    let envelope_header := !"<" ++ from_option id [] (mail_from s) ++ !">" in
    let d := d ++ !"X-Envelope-From: " ++ envelope_header ++ CRLF in
    let h := <[ !"x-envelope-from" := [envelope_header] ]> h in
    let d := d ++ !"Received: " ++ received_header ++ CRLF in
    let h := <[ !"received" := [received_header] ]> h in
    (s <| client_data_offset := length d |> <| data := Some d |> <| headers := Some h |>
       <| input_mode := ModeData |>, Line !"354 Go ahead").

(** *** DATA *)

(** Append [text] to the last value of a header, [values.last_mut().push_str]. *)
Definition push_last (text : bytes) (values : list bytes) : list bytes :=
  match last values with
  | Some v => removelast values ++ [v ++ text]
  | None => values
  end.

Definition header_line (line : bytes) s : option Session :=
  match line with
  | [] => Some (s <| receiving_headers := false |>)
  | _ =>
      if starts_with_whitespace line then
        match header_key s, headers s with
        | Some key, Some h => Some (s <| headers := Some (alter (push_last line) (to_lowercase key) h) |>)
        | _, _ => Some s
        end
      else
        let '(key, value) := from_option id (line, []) (split_header line) in
        let s := s <| header_key := Some key |> in
        h ← headers s;
        let values := from_option id [] (h !! to_lowercase key) in
        Some (s <| headers := Some (<[to_lowercase key := values ++ [value]]> h) |>)
  end.

Definition unstuff (line : bytes) : bytes :=
  match strip_prefix !".." line with Some stripped => !"." ++ stripped | None => line end.

(** A line of the message itself (not the final dot). *)
Definition store_line (line : bytes) s : option (Session * Reply) :=
  let line := unstuff line in
  s ← (if receiving_headers s then header_line line s else Some s);
  Some (match data s with
        | Some d => s <| data := Some (d ++ line ++ CRLF) |>
        | None => s
        end, NoReply).

Definition header_values s_headers (name : bytes) : list bytes :=
  from_option id [] ((s_headers : gmap bytes (list bytes)) !! name).

Definition session_authenticated_domain w (server_id : Id) (h : gmap bytes (list bytes))
    (server : option Server) : option Id :=
  match st_find_authenticated_domain (w_store w) server_id (header_values h !"from") with
  | Some d => Some d
  | None =>
      if from_option srv_allow_sender false server then
        st_find_authenticated_domain (w_store w) server_id (header_values h !"sender")
      else None
  end.

Definition confirmed_sender_address_in_from w (server_id : Id) (h : gmap bytes (list bytes)) : bool :=
  find_confirmed_sender_address (w_store w) server_id (header_values h !"from").

(** The From check of an authenticated session: [None] when the message is
    refused, otherwise the authenticated domain. *)
Definition from_check w s (h : gmap bytes (list bytes)) : option (option Id) :=
  match credential s with
  | None => Some None
  | Some c =>
      let server := st_server (w_store w) (cred_server_id c) in
      let d := session_authenticated_domain w (cred_server_id c) h server in
      if bool_decide (d = None) && negb (confirmed_sender_address_in_from w (cred_server_id c) h)
      then None else Some d
  end.

Definition printable (b : ascii) : bool := b_in 32 126 b.

(** The idempotency key of the message, or the reply that refuses it. *)
Definition idempotency_key s (h : gmap bytes (list bytes)) : bytes + option bytes :=
  match h !! IDEMPOTENCY_HEADER with
  | None => inr None
  | Some [value] =>
      if existsb (λ r, negb (bool_decide (rcp_kind r = KCredential))) (recipients s) then
        inl !"554 CamelMailer-Idempotency-Key is only valid for authenticated sends"
      else
        let key := trim value in
        if bool_decide (key = []) || (IDEMPOTENCY_KEY_MAX_CHARS <? length key)%nat
           || negb (forallb printable key)
        then inl !"554 Invalid CamelMailer-Idempotency-Key"
        else inr (Some key)
  | Some _ => inl !"554 Invalid CamelMailer-Idempotency-Key"
  end.

Definition idempotency_request (t : Tick) (mail_from : bytes) (rcpts : list Recipient)
    (client_data key : bytes) : IdempotencyRequest :=
  mkIdempotencyRequest (to_hex (sha256 key))
    (to_hex (sha256 (smtp_request_encoding mail_from (map rcp_rcpt_to rcpts) client_data)))
    !"smtp.send" (t_now t + hours 24)%Z.

(** One recipient's queued message; [None] is the [expect] on a route recipient. *)
Definition queued_message w s (mail_from message : bytes) (domain_id : option Id) (r : Recipient) :
    option QueuedMessage :=
  let mk scope bounce domain cred route :=
    mkQueuedMessage (srv_id (rcp_server r)) (rcp_rcpt_to r) mail_from message (tls s) scope bounce
      domain cred route None None None in
  match rcp_kind r with
  | KCredential => Some (mk Outgoing false domain_id (cred_id <$> credential s) None)
  | KBounce =>
      match return_path_route_for_server (w_store w) (srv_id (rcp_server r)) with
      | Some rp => Some (mk Incoming true (rt_domain_id (rr_route rp)) None (Some (rt_id (rr_route rp))))
      | None => Some (mk Incoming true None None None)
      end
  | KRoute =>
      route ← rcp_route r;
      Some (mk Incoming false (rt_domain_id (rr_route route)) None (Some (rt_id (rr_route route))))
  end.

(** The stricter of the server's and the organization's allowance. *)
Definition session_allowance (t : Tick) w s : SendAllowance :=
  match credential s ≫= λ c, st_server (w_store w) (cred_server_id c) with
  | None => unlimited
  | Some server =>
      let server_allowance :=
        match srv_send_limit server with
        | Some limit => allowance_server (Some limit) (send_usage (t_now t) (w_store w) (srv_id server))
        | None => unlimited
        end in
      let policy := send_policy_for_organization (w_store w) (srv_organization_id server) in
      let org_allowance :=
        match pol_monthly_send_limit policy with
        | Some limit => allowance_organization (Some limit)
            (organization_month_usage (t_now t) (w_store w) (srv_organization_id server))
        | None => unlimited
        end in
      stricter server_allowance org_allowance
  end.

Definition submit (t : Tick) w (queued : list QueuedMessage)
    (idempotency : option IdempotencyRequest) (allowance : SendAllowance) :
    World St Sk * QueueMessagesOutcome :=
  match idempotency with
  | Some _ =>
      let '(k, o) := queue_messages (t_now t) (w_sink w) queued idempotency allowance in
      (mkWorld (w_store w) k, o)
  | None =>
      if negb (allows allowance (outgoing_count queued)) then
        (w, LimitExceeded (rejection_message allowance))
      else (mkWorld (w_store w) (fold_left queue_message queued (w_sink w)), Stored)
  end.

Definition outcome_reply (o : QueueMessagesOutcome) : Reply :=
  match o with
  | Stored | Replayed => Line !"250 OK"
  | Conflict => Line !"554 Idempotency key reused with a different request"
  | LimitExceeded message => Line (!"550 5.7.1 " ++ message)
  | SinkFailed _ => Line !"451 Temporary storage failure"
  end.

(** Every early return of [finish_data] resets the transaction. *)
Definition refuse (text : bytes) w s : option out :=
  Some (w, (transaction_reset s) <| state := Welcomed |>, Line text).

Definition received_by_us s (h : gmap bytes (list bytes)) : nat :=
  let loop_marker := !"by " ++ cfg_smtp_hostname (config s) in
  length (List.filter (λ v, contains v loop_marker) (header_values h !"received")).

Definition finish_data (t : Tick) w s : option out :=
  let d := from_option id [] (data s) in
  let h := from_option id ∅ (headers s) in
  if (max_bytes (config s) <? N.of_nat (length d))%N then
    refuse (!"552 Message too large (maximum size " ++ show_N (cfg_max_message_size (config s))
            ++ !"MB)") w s
  else if (4 <? received_by_us s h)%nat then refuse !"550 Loop detected" w s
  else
    match from_check w s h with
    | None => refuse !"530 From/Sender name is not valid" w s
    | Some domain_id =>
        match idempotency_key s h with
        | inl text => refuse text w s
        | inr key =>
            let d := match key with Some _ => strip_message_header d IDEMPOTENCY_HEADER | None => d end in
            let from := from_option id [] (mail_from s) in
            let rcpts := recipients s in
            let idempotency := (λ key, idempotency_request t from rcpts
              (drop (Nat.min (client_data_offset s) (length d)) d) key) <$> key in
            queued ← mapM (queued_message w s from d domain_id) rcpts;
            let '(w, o) := submit t w queued idempotency (session_allowance t w s) in
            Some (w, (transaction_reset s) <| state := Welcomed |>, outcome_reply o)
        end
    end.

Definition data_line (t : Tick) (line : bytes) w s : option out :=
  if (line =b !".") && cr_present s && bool_decide (previous_cr_present s = Some true) then
    finish_data t w (s <| input_mode := ModeCommand |>)
  else
    '(s, r) ← store_line line s; Some (w, s, r).

(** *** The dispatcher *)

Definition pure w (p : Session * Reply) : option out := Some (w, p.1, p.2).

Definition handle_command (t : Tick) (line : bytes) w s : option out :=
  let upper := to_ascii_uppercase (trim_start line) in
  if starts_with upper !"QUIT" then pure w (quit s)
  else if starts_with upper !"STARTTLS" then pure w (starttls s)
  else if starts_with upper !"EHLO" then pure w (ehlo line s)
  else if starts_with upper !"HELO" then pure w (helo line s)
  else if starts_with upper !"RSET" then pure w (rset s)
  else if starts_with upper !"NOOP" then pure w (noop s)
  else if starts_with upper !"AUTH " || (trim_end upper =b !"AUTH") then
    if negb (auth_permitted s) then
      pure w (s, Line !"538 5.7.11 Encryption required for requested authentication mechanism")
    else if starts_with upper !"AUTH PLAIN" then auth_plain t line w s
    else if starts_with upper !"AUTH LOGIN" then p ← auth_login line s; pure w p
    else if starts_with upper !"AUTH CRAM-MD5" then pure w (auth_cram_md5 t s)
    else pure w (s, Line !"504 5.5.4 Unrecognized authentication type")
  else if starts_with upper !"MAIL FROM" then p ← mail_from_command line s; pure w p
  else if starts_with upper !"RCPT TO" then rcpt_to t line w s
  else if starts_with upper !"DATA" then pure w (data_command t w s)
  else pure w (s, Line !"502 Invalid/unsupported command").

Definition dispatch (t : Tick) (line : bytes) w s : option out :=
  if decide (state s = Preauth) then pure w (proxy line s)
  else
    match input_mode s with
    | ModeCommand => handle_command t line w s
    | ModeAuthPlain => Some (auth_plain_continue t line w s)
    | ModeAuthLoginUsername => pure w (auth_login_username s)
    | ModeAuthLoginPassword => Some (auth_login_password t line w s)
    | ModeAuthCramMd5 challenge => Some (auth_cram_md5_continue t line challenge w s)
    | ModeData => data_line t line w s
    end.

Definition handle (t : Tick) (line : bytes) w s : option out :=
  let '(line, cr) := match strip_suffix [CR] line with
                     | Some stripped => (stripped, true)
                     | None => (line, false)
                     end in
  '(w, s, r) ← dispatch t line w (s <| cr_present := cr |>);
  Some (w, s <| previous_cr_present := Some (cr_present s) |>, r).
End Session.
