(* ===== verification/Server.v ===== *)
(** * Server: connections of the SMTP server

    [camelmailer-smtp/src/server.rs]: the line reader, the loop that pumps lines
    through a session, the SPF check before DATA, and the phases of one
    connection.  A socket is a script of what its reads return and whether its
    writes fail, together with the bytes written so far. *)

From S2P Require Import Prelude RustStr Net Model SendLimit Message Store Spf Session.

(** ** [LineStream] *)

(** One [read]: an empty chunk is the end of the stream. *)
Inductive ReadResult := RData (chunk : bytes) | RFail (error : bytes).

Record LineStream := mkLineStream {
  ls_reads : list ReadResult;
  ls_write_errors : list (option bytes);
  ls_buffer : bytes;
  ls_written : bytes;
}.
#[export] Instance eta_LineStream : Eta LineStream := λ l,
  mkLineStream (ls_reads l) (ls_write_errors l) (ls_buffer l) (ls_written l).

(** [LineStream::new] over a stream that will answer [reads] and [writes]. *)
Definition line_stream_new (reads : list ReadResult) (writes : list (option bytes)) : LineStream :=
  mkLineStream reads writes [] [].

(** The reads left, the buffer left, and the line, end of stream or error. *)
Fixpoint server_read_go (buffer : bytes) (reads : list ReadResult) :
    list ReadResult * bytes * (bytes + option bytes) :=
  match find_byte (is_byte LF) buffer with
  | Some position =>
      (reads, drop (S position) buffer, inr (Some (from_utf8_lossy (take position buffer))))
  | None =>
      match reads with
      | [] => ([], buffer, inr None)
      | RData [] :: rest => (rest, buffer, inr None)
      | RData chunk :: rest => server_read_go (buffer ++ chunk) rest
      | RFail e :: rest => (rest, buffer, inl e)
      end
  end.
Definition server_read_line (l : LineStream) : LineStream * (bytes + option bytes) :=
  let '(reads, buffer, r) := server_read_go (ls_buffer l) (ls_reads l) in
  (l <| ls_reads := reads |> <| ls_buffer := buffer |>, r).

Definition write_all (l : LineStream) (text : bytes) : LineStream * (bytes + unit) :=
  match ls_write_errors l with
  | Some e :: rest => (l <| ls_write_errors := rest |>, inl e)
  | None :: rest => (l <| ls_write_errors := rest |> <| ls_written := ls_written l ++ text |>, inr tt)
  | [] => (l <| ls_written := ls_written l ++ text |>, inr tt)
  end.

Definition write_line (l : LineStream) (line : bytes) : LineStream * (bytes + unit) :=
  write_all l (line ++ CRLF).

Definition write_reply (l : LineStream) (r : Reply) : LineStream * (bytes + unit) :=
  match r with
  | NoReply => (l, inr tt)
  | Line text => write_all l (text ++ CRLF)
  | Lines lines => write_all l (flat_map (λ text, text ++ CRLF) lines)
  end.

(** ** The loop *)

(** [is_data_command]; [None] is the panic of the slice. *)
Definition is_data_command (line : bytes) : option bool :=
  let trimmed := trim_start line in
  if (4 <=? length trimmed)%nat then
    front ← slice_to trimmed 4; Some (eq_ignore_ascii_case front !"DATA")
  else Some false.

(** How [drive_session] ends: [Ok(false)], [Ok(true)], an I/O error, a panic of
    the handler, or (never, see the fuel theorem) the bound of the model. *)
Inductive DriveEnd := Closed | UpgradeRequested | IoFailed (error : bytes) | Panicked | OutOfFuel.

Section Server.
Context {St Sk R : Type} `{!Store St, !MessageSink Sk, !Crates, !UnicodeCase, !IpNetCrate,
  !SpfResolver R}.
Implicit Types (s : Session) (w : World St Sk).

Record SpfContext := mkSpfContext { sx_resolver : R; sx_receiver : bytes }.

(** [None] when the SPF evaluation does not terminate, which [Spf] excludes. *)
Definition evaluate_inbound_spf (spf : SpfContext) s : option Session :=
  match ip_address s ≫= parse_ip, mail_from s with
  | Some ip, Some envelope_from =>
      match rsplit_once (is_byte "@") envelope_from with
      | Some (_, ((_ :: _) as domain)) =>
          result ← evaluate (sx_resolver spf) domain ip;
          Some (set_received_spf
                  (received_spf_header result (sx_receiver spf) envelope_from ip
                     (from_option id [] (helo_name s))) s)
      | _ => Some s
      end
  | _, _ => Some s
  end.

(** The step before [handle]: SPF once, when DATA ends an envelope. *)
Definition before_handle (spf : option SpfContext) (line : bytes) (spf_evaluated : bool) s :
    option (bool * Session) :=
  if negb spf_evaluated && bool_decide (state s = RcptToReceived) then
    is_data ← is_data_command line;
    if is_data : bool then
      s ← match spf with Some c => evaluate_inbound_spf c s | None => Some s end;
      Some (true, s)
    else Some (false, s)
  else Some (spf_evaluated, s).

Fixpoint drive_loop (fuel : nat) (tick : nat → Tick) (spf : option SpfContext) (spf_evaluated : bool)
    w s (l : LineStream) : World St Sk * Session * LineStream * DriveEnd :=
  match fuel with
  | 0 => (w, s, l, OutOfFuel)
  | S fuel' =>
      match server_read_line l with
      | (l, inl e) => (w, s, l, IoFailed e)
      | (l, inr None) => (w, s, l, Closed)
      | (l, inr (Some line)) =>
          match before_handle spf line spf_evaluated s with
          | None => (w, s, l, Panicked)
          | Some (spf_evaluated, s) =>
              match handle (tick fuel) line w s with
              | None => (w, s, l, Panicked)
              | Some (w, s, reply) =>
                  match write_reply l reply with
                  | (l, inl e) => (w, s, l, IoFailed e)
                  | (l, inr _) =>
                      let '(upgrade, s) := take_start_tls s in
                      if upgrade : bool then (w, s, l, UpgradeRequested)
                      else if finished s then (w, s, l, Closed)
                      else drive_loop fuel' tick spf spf_evaluated w s l
                  end
              end
          end
      end
  end.

(** The bytes a stream can still deliver; every line takes at least one. *)
Definition pending (l : LineStream) : nat :=
  length (ls_buffer l)
  + sum_list_with (λ r, match r with RData chunk => length chunk | RFail _ => 0 end) (ls_reads l).

Definition drive_session (tick : nat → Tick) (spf : option SpfContext) w s (l : LineStream) :
    World St Sk * Session * LineStream * DriveEnd :=
  drive_loop (S (pending l)) tick spf false w s l.

(** ** One connection *)

Inductive ListenerMode := ListenSmtp | ListenSmtps.

(** What the peer and the TLS library do on one connection: the plaintext stream,
    and the stream after the handshake ([None] when the handshake fails). *)
Record Peer := mkPeer {
  peer_ip : bytes;
  peer_plain : LineStream;
  peer_tls : option LineStream;
}.

Definition send_banner (send : bool) s (l : LineStream) : LineStream * (bytes + unit) :=
  if send then write_line l (banner s) else (l, inr tt).

Definition run_phase (tick : nat → Tick) (spf : option SpfContext) (send : bool) w s (l : LineStream) :
    World St Sk * Session * LineStream * DriveEnd :=
  match send_banner send s l with
  | (l, inl e) => (w, s, l, IoFailed e)
  | (l, inr _) => drive_session tick spf w s l
  end.

(** [handle_connection]: the world left, the session, and how it ended;
    [tls_acceptor] is the source's optional acceptor. *)
Definition handle_connection (config : SessionConfig) (proxy_protocol tls_acceptor : bool)
    (mode : ListenerMode) (trace : bytes) (tick : bool → nat → Tick) (spf : option SpfContext)
    w (p : Peer) : World St Sk * Session * DriveEnd :=
  let ip := if proxy_protocol then None else Some (peer_ip p) in
  let send := match ip with Some _ => true | None => false end in
  let s := new config trace ip in
  match mode with
  | ListenSmtps =>
      if negb tls_acceptor then (w, s, Closed)
      else
        match peer_tls p with
        | None => (w, s, IoFailed !"handshake")
        | Some l =>
            let '(w, s, _, e) := run_phase (tick true) spf send w (set_tls true s) l in (w, s, e)
        end
  | ListenSmtp =>
      match run_phase (tick false) spf send w s (peer_plain p) with
      | (w, s, _, UpgradeRequested) =>
          if negb tls_acceptor then (w, s, Closed)
          else
            match peer_tls p with
            | None => (w, s, IoFailed !"handshake")
            | Some l =>
                let '(w, s, _, e) := drive_session (tick true) spf w (set_tls true s) l in (w, s, e)
            end
      | (w, s, _, e) => (w, s, e)
      end
  end.
End Server.
