(* ===== verification/MemoryStore.v ===== *)
(** * MemoryStore: the in-memory store

    [camelmailer-core/src/store.rs]: [MemoryStore], its [Store] implementation
    and the message operations the per-server API uses.  The record has the
    tables the modelled operations read or write.  A [HashMap] iterates in an
    unspecified order, so [values()] is taken in the order of [HashOrder], any
    permutation; tokens and ids come from the generators passed in. *)

From S2P Require Import Prelude RustStr Net Model SendLimit Message Store.

(** ** Library operations *)

(** The iteration order of a [HashMap]. *)
Class HashOrder := {
  hash_order : ∀ {A : Type}, list A → list A;
  hash_order_perm {A} (l : list A) : hash_order l ≡ₚ l;
}.

(** [iter_mut().find(P)] followed by an update of the element found. *)
Fixpoint update_first {A} (P : A → bool) (f : A → A) (l : list A) : list A :=
  match l with
  | [] => []
  | x :: t => if P x then f x :: t else x :: update_first P f t
  end.

(** [DateTime::date_naive] as a day number. *)
Definition date_naive (t : datetime) : Z := t / days 1.

(** ** Records *)

Record MessageRecord := mkMessageRecord {
  mr_id : Z;
  mr_token : bytes;
  mr_server_id : Id;
  mr_scope : bytes;
  mr_rcpt_to : bytes;
  mr_mail_from : bytes;
  mr_subject : option bytes;
  mr_message_id_header : option bytes;
  mr_tag : option bytes;
  mr_status : bytes;
  mr_bounce : bool;
  mr_bounce_for_id : option Z;
  mr_bounce_correlated_at : option datetime;
  mr_bounce_category : option bytes;
  mr_spam_status : bytes;
  mr_spam_score : f64;
  mr_held : bool;
  mr_threat : bool;
  mr_size : Z;
  mr_metadata : option Value;
  mr_stream_id : option Id;
  mr_campaign_id : option Id;
  mr_bypassed : bool;
  mr_created_at : datetime;
  mr_raw_message : bytes;
}.
#[export] Instance eta_MessageRecord : Eta MessageRecord := λ m,
  mkMessageRecord (mr_id m) (mr_token m) (mr_server_id m) (mr_scope m) (mr_rcpt_to m)
    (mr_mail_from m) (mr_subject m) (mr_message_id_header m) (mr_tag m) (mr_status m) (mr_bounce m)
    (mr_bounce_for_id m) (mr_bounce_correlated_at m) (mr_bounce_category m) (mr_spam_status m)
    (mr_spam_score m) (mr_held m) (mr_threat m) (mr_size m) (mr_metadata m) (mr_stream_id m)
    (mr_campaign_id m) (mr_bypassed m) (mr_created_at m) (mr_raw_message m).

Record SentMessage := mkSentMessage { sm_id : Z; sm_token : bytes; sm_rcpt_to : bytes }.

Record DeliveryRecord := mkDeliveryRecord {
  dl_id : Z;
  dl_status : bytes;
  dl_details : option bytes;
  dl_output : option bytes;
  dl_sent_with_ssl : bool;
  dl_created_at : datetime;
}.
Record ActivityEvent := mkActivityEvent {
  ae_ip_address : option bytes;
  ae_user_agent : option bytes;
  ae_url : option bytes;
  ae_created_at : datetime;
}.

Record PendingUnsubscribeToken := mkPendingUnsubscribeToken {
  put_token : bytes; put_stream_id : option Id; put_address : bytes }.
Record SendPlanMessage := mkSendPlanMessage {
  spm_message : QueuedMessage; spm_unsubscribe_token : option PendingUnsubscribeToken }.
Inductive SendPlanItem :=
| PlanMessages (messages : list SendPlanMessage)
| PlanError (code message : bytes).

Record StoredSendResult := mkStoredSendResult {
  ssr_message_id : option Z; ssr_recipients : list SentMessage }.
Inductive SendOperationItem :=
| ItemSuccess (r : StoredSendResult)
| ItemError (code message : bytes).
(** [SendOperationResult { items }] *)
Abbreviation SendOperationResult := (list SendOperationItem).

Inductive IdempotencyLookup := LookupNew | LookupReplay (r : SendOperationResult) | LookupConflict.
Inductive StoreSendOutcome :=
| SendStored (r : SendOperationResult)
| SendReplayed (r : SendOperationResult)
| SendConflict.

Record MemoryIdempotencyRecord := mkMemoryIdempotencyRecord {
  mir_request_hash : bytes;
  mir_operation : bytes;
  mir_response : SendOperationResult;
  mir_expires_at : datetime;
}.

(** [LifecycleEvent], without its random id. *)
Record LifecycleEvent := mkLifecycleEvent { le_event : bytes; le_created_at : datetime; le_data : Value }.

Record MemoryStore := mkMemoryStore {
  mem_send_counters : gmap (Id * Z) Z;
  mem_organization_send_counters : gmap (Id * UsageMonth) Z;
  mem_usage_alerts : gset (Id * UsageMonth * N);
  mem_organization_policies : gmap Id OrganizationPolicy;
  mem_lifecycle_events : list LifecycleEvent;
  mem_organizations : gmap Id Organization;
  mem_billing_customer_ids : gmap Id bytes;
  mem_servers : gmap Id Server;
  mem_domains : gmap Id Domain;
  mem_routes : gmap Id Route;
  mem_credentials : gmap Id Credential;
  mem_credential_uses : gmap Id N;
  mem_sender_addresses : gmap Id SenderAddress;
  mem_unsubscribe_tokens : list (bytes * Id * option Id * bytes);
  mem_message_campaigns : gmap Z Id;
  mem_messages : list MessageRecord;
  mem_message_deliveries : list (Z * DeliveryRecord);
  mem_message_opens : list (Z * ActivityEvent);
  mem_message_clicks : list (Z * ActivityEvent);
  mem_idempotency_requests : gmap (Id * bytes) MemoryIdempotencyRecord;
  mem_next_id : N;
}.
#[export] Instance eta_MemoryStore : Eta MemoryStore := λ m,
  mkMemoryStore (mem_send_counters m) (mem_organization_send_counters m) (mem_usage_alerts m)
    (mem_organization_policies m) (mem_lifecycle_events m) (mem_organizations m)
    (mem_billing_customer_ids m) (mem_servers m) (mem_domains m) (mem_routes m)
    (mem_credentials m) (mem_credential_uses m) (mem_sender_addresses m)
    (mem_unsubscribe_tokens m) (mem_message_campaigns m) (mem_messages m)
    (mem_message_deliveries m) (mem_message_opens m) (mem_message_clicks m)
    (mem_idempotency_requests m) (mem_next_id m).

Definition memory_store_new : MemoryStore :=
  mkMemoryStore ∅ ∅ ∅ ∅ [] ∅ ∅ ∅ ∅ ∅ ∅ ∅ ∅ [] ∅ [] [] [] [] ∅ 1.

(** ** Addresses *)

Definition strip_name_from_address (value : bytes) : bytes :=
  match find_byte (is_byte "<") value, rfind_byte (is_byte ">") value with
  | Some start, Some stop =>
      if (start <? stop)%nat then trim (take (stop - S start) (drop (S start) value)) else trim value
  | _, _ => trim value
  end.

Section IpCredential.
Context `{IpNetCrate}.

(** The network of a credential key: a CIDR, or an address as a full-length
    network. *)
Definition key_network (key : bytes) : option IpNet :=
  match ipnet_parse key with
  | Some net => Some net
  | None => ipnet_from <$> parse_ip key
  end.

(** [net.contains(&ip)], or an IPv4 network containing the mapped IPv6 client. *)
Definition network_matches (net : IpNet) (ip : IpAddr) : bool :=
  ipnet_contains net ip
  || match net_addr net, ip with
     | V4 _, V6 a => match to_ipv4_mapped a with
                     | Some mapped => ipnet_contains net (V4 mapped)
                     | None => false
                     end
     | _, _ => false
     end.

Definition ip_candidates (credentials : list Credential) : list (IpNet * Credential) :=
  omap (λ c, if decide (cred_credential_type c = CtSmtpIp) then
               (λ net, (net, c)) <$> key_network (cred_key c)
             else None) credentials.

Definition longer_prefix (a b : IpNet * Credential) : bool :=
  (net_prefix_len b.1 <=? net_prefix_len a.1)%N.

Definition match_ip_credential (credentials : list Credential) (ip : IpAddr) : option Credential :=
  snd <$> List.find (λ nc, network_matches nc.1 ip)
            (stable_sort longer_prefix (ip_candidates credentials)).
End IpCredential.

(** ** Counting and lifecycle events *)

Section Counting.
Context `{!Crates}.

Definition organization_data (o : Organization) : Value :=
  VObject [(!"id", VNumber (show_N (org_id o))); (!"name", VString (org_name o));
           (!"permalink", VString (org_permalink o)); (!"uuid", VString (org_uuid o))].

Definition usage_threshold_event (now : datetime) (o : Organization) (month : UsageMonth)
    (threshold : N) (sent limit : Z) : LifecycleEvent :=
  mkLifecycleEvent !"organization.usage_threshold" now
    (VObject [(!"limit", VNumber (show_Z limit)); (!"month", VString (label month));
              (!"organization", organization_data o); (!"sent", VNumber (show_Z sent));
              (!"threshold", VNumber (show_N threshold))]).

(** One threshold of the loop in [count_outgoing]. *)
Definition raise_alert (now : datetime) (o : Organization) (month : UsageMonth) (sent : Z)
    (limit : option Z) (m : MemoryStore) (threshold : N) : MemoryStore :=
  if decide ((org_id o, month, threshold) ∈ mem_usage_alerts m) then m
  else m <| mem_usage_alerts := {[ (org_id o, month, threshold) ]} ∪ mem_usage_alerts m |>
         <| mem_lifecycle_events := mem_lifecycle_events m ++
              [usage_threshold_event now o month threshold sent (from_option id 0%Z limit)] |>.

Definition count_outgoing (server_id : Id) (at_ : datetime) (m : MemoryStore) : MemoryStore :=
  let day := (server_id, date_naive at_) in
  let m := m <| mem_send_counters :=
               <[day := (from_option id 0 (mem_send_counters m !! day) + 1)%Z]> (mem_send_counters m) |> in
  match mem_servers m !! server_id ≫= λ s, mem_organizations m !! srv_organization_id s with
  | None => m
  | Some organization =>
      let month := usage_month_of at_ in
      let key := (org_id organization, month) in
      let sent := (from_option id 0 (mem_organization_send_counters m !! key) + 1)%Z in
      let m := m <| mem_organization_send_counters :=
                   <[key := sent]> (mem_organization_send_counters m) |> in
      let limit := mem_organization_policies m !! org_id organization ≫= pol_monthly_send_limit in
      fold_left (raise_alert at_ organization month sent limit) (reached_thresholds sent limit) m
  end.
End Counting.

(** ** Rows *)

Definition insert_organization (o : Organization) (m : MemoryStore) : MemoryStore :=
  m <| mem_organizations := <[org_id o := o]> (mem_organizations m) |>.
Definition insert_server (s : Server) (m : MemoryStore) : MemoryStore :=
  m <| mem_servers := <[srv_id s := s]> (mem_servers m) |>.
Definition insert_domain (d : Domain) (m : MemoryStore) : MemoryStore :=
  m <| mem_domains := <[dom_id d := d]> (mem_domains m) |>.
Definition insert_route (r : Route) (m : MemoryStore) : MemoryStore :=
  m <| mem_routes := <[rt_id r := r]> (mem_routes m) |>.
Definition insert_credential (c : Credential) (m : MemoryStore) : MemoryStore :=
  m <| mem_credentials := <[cred_id c := c]> (mem_credentials m) |>.
Definition insert_sender_address (a : SenderAddress) (m : MemoryStore) : MemoryStore :=
  m <| mem_sender_addresses := <[sa_id a := a]> (mem_sender_addresses m) |>.

Definition delete_organization (id : Id) (m : MemoryStore) : bool * MemoryStore :=
  (bool_decide (is_Some (mem_organizations m !! id)),
   m <| mem_billing_customer_ids := delete id (mem_billing_customer_ids m) |>
     <| mem_organization_policies := delete id (mem_organization_policies m) |>
     <| mem_organization_send_counters :=
          filter (λ kv, kv.1.1 ≠ id) (mem_organization_send_counters m) |>
     <| mem_usage_alerts := filter (λ k, k.1.1 ≠ id) (mem_usage_alerts m) |>
     <| mem_organizations := delete id (mem_organizations m) |>).

Definition delete_server (id : Id) (m : MemoryStore) : bool * MemoryStore :=
  (bool_decide (is_Some (mem_servers m !! id)), m <| mem_servers := delete id (mem_servers m) |>).

Definition delete_domain (id : Id) (m : MemoryStore) : bool * MemoryStore :=
  (bool_decide (is_Some (mem_domains m !! id)),
   m <| mem_domains := delete id (mem_domains m) |>
     <| mem_routes := (λ r, if decide (rt_domain_id r = Some id) then r <| rt_domain_id := None |> else r)
                      <$> mem_routes m |>).

(** ** Messages *)

Section Messages.
Context `{!Crates, !UnicodeCase}.

Definition fresh_id (m : MemoryStore) : N * MemoryStore :=
  (mem_next_id m, m <| mem_next_id := mem_next_id m + 1 |>)%N.

(** [build_message_record]; [tok] is the random token of the new message. *)
Definition build_message_record (now : datetime) (tok : bytes) (id : Z) (message : QueuedMessage) :
    MessageRecord * SentMessage :=
  (mkMessageRecord id tok (qm_server_id message) (scope_as_str (qm_scope message))
     (qm_rcpt_to message) (qm_mail_from message)
     (header_value (qm_raw_message message) !"subject")
     (header_value (qm_raw_message message) !"message-id")
     (qm_tag message) !"Pending" (qm_bounce message) None None None !"NotChecked" 0%N false false
     (Z.of_nat (length (qm_raw_message message))) (qm_metadata message) (qm_stream_id message)
     None false now (qm_raw_message message),
   mkSentMessage id tok (qm_rcpt_to message)).

(** The common tail of both insertions: draw an id, count, push. *)
Definition push_message (now : datetime) (tok : N → bytes) (message : QueuedMessage)
    (m : MemoryStore) : SentMessage * MemoryStore :=
  let '(id, m) := fresh_id m in
  let '(record, sent) := build_message_record now (tok id) (Z.of_N id) message in
  let m := if mr_scope record =b !"outgoing"
           then count_outgoing (mr_server_id record) (mr_created_at record) m else m in
  (sent, m <| mem_messages := mem_messages m ++ [record] |>).

Definition insert_message_record (now : datetime) (tok : N → bytes) (message : QueuedMessage)
    (m : MemoryStore) : SentMessage * MemoryStore := push_message now tok message m.

Definition idempotency_result (now : datetime) (m : MemoryStore) (server_id : Id)
    (r : IdempotencyRequest) : IdempotencyLookup :=
  match mem_idempotency_requests m !! (server_id, ir_key_hash r) with
  | None => LookupNew
  | Some rec =>
      if (mir_expires_at rec <=? now)%Z then LookupNew
      else if negb (mir_request_hash rec =b ir_request_hash r)
           || negb (mir_operation rec =b ir_operation r) then LookupConflict
      else LookupReplay (mir_response rec)
  end.

Fixpoint insert_planned (now : datetime) (tok : N → bytes) (server_id : Id)
    (messages : list SendPlanMessage) (m : MemoryStore) : list SentMessage * MemoryStore :=
  match messages with
  | [] => ([], m)
  | planned :: rest =>
      let m := match spm_unsubscribe_token planned with
               | Some tk => m <| mem_unsubscribe_tokens := mem_unsubscribe_tokens m ++
                              [(put_token tk, server_id, put_stream_id tk, put_address tk)] |>
               | None => m
               end in
      let '(sent, m) := push_message now tok (spm_message planned) m in
      let '(sents, m) := insert_planned now tok server_id rest m in
      (sent :: sents, m)
  end.

Fixpoint insert_plan (now : datetime) (tok : N → bytes) (server_id : Id)
    (plan : list SendPlanItem) (m : MemoryStore) : SendOperationResult * MemoryStore :=
  match plan with
  | [] => ([], m)
  | item :: rest =>
      let '(res, m) :=
        match item with
        | PlanMessages messages =>
            let '(sents, m) := insert_planned now tok server_id messages m in
            (ItemSuccess (mkStoredSendResult (sm_id <$> head sents) sents), m)
        | PlanError code message => (ItemError code message, m)
        end in
      let '(items, m) := insert_plan now tok server_id rest m in
      (res :: items, m)
  end.

Definition insert_send_operation (now : datetime) (tok : N → bytes) (server_id : Id)
    (plan : list SendPlanItem) (idempotency : option IdempotencyRequest) (m : MemoryStore) :
    StoreSendOutcome * MemoryStore :=
  let go m :=
    let '(response, m) := insert_plan now tok server_id plan m in
    (SendStored response,
     match idempotency with
     | Some r => m <| mem_idempotency_requests :=
                    <[(server_id, ir_key_hash r) :=
                        mkMemoryIdempotencyRecord (ir_request_hash r) (ir_operation r) response
                          (ir_expires_at r)]> (mem_idempotency_requests m) |>
     | None => m
     end) in
  let forget r m := m <| mem_idempotency_requests :=
                       delete (server_id, ir_key_hash r) (mem_idempotency_requests m) |> in
  match idempotency with
  | None => go m
  | Some r =>
      match mem_idempotency_requests m !! (server_id, ir_key_hash r) with
      | None => go (forget r m)
      | Some rec =>
          if (now <? mir_expires_at rec)%Z then
            if (mir_request_hash rec =b ir_request_hash r) && (mir_operation rec =b ir_operation r)
            then (SendReplayed (mir_response rec), m)
            else (SendConflict, m)
          else go (forget r m)
      end
  end.

Definition prune_idempotency_requests_at (now : datetime) (m : MemoryStore) : N * MemoryStore :=
  let kept := filter (λ kv, (now < mir_expires_at kv.2)%Z) (mem_idempotency_requests m) in
  (N.of_nat (size (mem_idempotency_requests m) - size kept),
   m <| mem_idempotency_requests := kept |>).

(** *** Test setters of the read model *)

Definition update_message (id : Z) (f : MessageRecord → MessageRecord) (m : MemoryStore) :
    MemoryStore :=
  m <| mem_messages := update_first (λ r, (mr_id r =? id)%Z) f (mem_messages m) |>.

Definition set_message_status (message_id : Z) (status : bytes) (m : MemoryStore) : MemoryStore :=
  update_message message_id (λ r,
    let r := r <| mr_status := status |> in
    if status =b !"Bounced" then r <| mr_bounce := true |> else r) m.

Definition set_bounce_for_id (now : datetime) (message_id original_message_id : Z)
    (m : MemoryStore) : MemoryStore :=
  update_message message_id (λ r,
    r <| mr_bounce_for_id := Some original_message_id |> <| mr_bounce_correlated_at := Some now |>) m.

(** *** Reads within one tenant *)

Definition messages_for (m : MemoryStore) (server_id : Id) : list MessageRecord :=
  List.filter (λ r, (mr_server_id r =? server_id)%N) (mem_messages m).

Definition message_for (m : MemoryStore) (server_id : Id) (message_id : Z) : option MessageRecord :=
  List.find (λ r, (mr_server_id r =? server_id)%N && (mr_id r =? message_id)%Z) (mem_messages m).

Definition message_belongs_to (m : MemoryStore) (server_id : Id) (message_id : Z) : bool :=
  existsb (λ r, (mr_server_id r =? server_id)%N && (mr_id r =? message_id)%Z) (mem_messages m).

(** [deliveries_for], [opens_for] and [clicks_for]: the rows of one message, when
    it belongs to the server. *)
Definition rows_for {A} (rows : list (Z * A)) (m : MemoryStore) (server_id : Id) (message_id : Z) :
    list A :=
  if negb (message_belongs_to m server_id message_id) then []
  else map snd (List.filter (λ row, (row.1 =? message_id)%Z) rows).

Definition deliveries_for (m : MemoryStore) : Id → Z → list DeliveryRecord :=
  rows_for (mem_message_deliveries m) m.
Definition opens_for (m : MemoryStore) : Id → Z → list ActivityEvent :=
  rows_for (mem_message_opens m) m.
Definition clicks_for (m : MemoryStore) : Id → Z → list ActivityEvent :=
  rows_for (mem_message_clicks m) m.

Definition insert_delivery_record (message_id : Z) (d : DeliveryRecord) (m : MemoryStore) :
    MemoryStore := m <| mem_message_deliveries := mem_message_deliveries m ++ [(message_id, d)] |>.
Definition insert_open_record (message_id : Z) (e : ActivityEvent) (m : MemoryStore) : MemoryStore :=
  m <| mem_message_opens := mem_message_opens m ++ [(message_id, e)] |>.
Definition insert_click_record (message_id : Z) (e : ActivityEvent) (m : MemoryStore) : MemoryStore :=
  m <| mem_message_clicks := mem_message_clicks m ++ [(message_id, e)] |>.

(** *** Retention *)

Definition prune_messages_before (older_than : datetime) (m : MemoryStore) : N * MemoryStore :=
  let expired : gset Z :=
    list_to_set (map mr_id (List.filter (λ r, (mr_created_at r <? older_than)%Z) (mem_messages m))) in
  if decide (expired = ∅) then (0%N, m)
  else
    let unlink r := match mr_bounce_for_id r with
                    | Some original =>
                        if decide (original ∈ expired) then r <| mr_bounce_for_id := None |> else r
                    | None => r
                    end in
    let keep {A} : list (Z * A) → list (Z * A) :=
      List.filter (λ row, negb (bool_decide (row.1 ∈ expired))) in
    (N.of_nat (size expired),
     m <| mem_messages := List.filter (λ r, negb (bool_decide (mr_id r ∈ expired)))
                            (map unlink (mem_messages m)) |>
       <| mem_message_deliveries := keep (mem_message_deliveries m) |>
       <| mem_message_opens := keep (mem_message_opens m) |>
       <| mem_message_clicks := keep (mem_message_clicks m) |>
       <| mem_message_campaigns := filter (λ kv, kv.1 ∉ expired) (mem_message_campaigns m) |>).

(** *** Sending again *)

Definition RETRYABLE_OUTBOUND_STATUSES : list bytes := [!"Pending"; !"SoftFail"; !"HardFail"].

Inductive OutboundRetry :=
| Requeued (r : MessageRecord)
| NotFound
| NotRetryable (status : bytes)
| ContentPurged.

Definition owned (server_id : Id) (message_id : Z) (scope : bytes) (r : MessageRecord) : bool :=
  (mr_id r =? message_id)%Z && (mr_server_id r =? server_id)%N && (mr_scope r =b scope).

Definition requeue_inbound (server_id : Id) (message_id : Z) (bypass : bool) (m : MemoryStore) :
    option MessageRecord * MemoryStore :=
  let P := owned server_id message_id !"incoming" in
  let f r := let r := r <| mr_status := !"Pending" |> in
             if bypass then r <| mr_bypassed := true |> else r in
  match List.find P (mem_messages m) with
  | None => (None, m)
  | Some r => (Some (f r), m <| mem_messages := update_first P f (mem_messages m) |>)
  end.

Definition requeue_outbound (server_id : Id) (message_id : Z) (m : MemoryStore) :
    OutboundRetry * MemoryStore :=
  let P := owned server_id message_id !"outgoing" in
  let f r := r <| mr_status := !"Pending" |> <| mr_held := false |> in
  match List.find P (mem_messages m) with
  | None => (NotFound, m)
  | Some r =>
      if negb (existsb (bytes_eqb (mr_status r)) RETRYABLE_OUTBOUND_STATUSES) then
        (NotRetryable (mr_status r), m)
      else if bool_decide (mr_raw_message r = []) then (ContentPurged, m)
      else (Requeued (f r), m <| mem_messages := update_first P f (mem_messages m) |>)
  end.
End Messages.

(** ** The [Store] implementation *)

Section StoreImpl.
Context `{!HashOrder, !Crates, !IpNetCrate}.

(** [table.values()] *)
Definition values {A} (table : gmap Id A) : list A := hash_order (map snd (map_to_list table)).

Definition resolve_route (m : MemoryStore) (route : Route) : option ResolvedRoute :=
  server ← mem_servers m !! rt_server_id route;
  Some (mkResolvedRoute route server
    (from_option dom_name [] (rt_domain_id route ≫= λ id, mem_domains m !! id))).

Definition mem_find_smtp_credential_by_key (m : MemoryStore) (key : bytes) : option Credential :=
  List.find (λ c, bool_decide (cred_credential_type c = CtSmtp) && (cred_key c =b key))
    (values (mem_credentials m)).

Definition mem_find_server_by_token (m : MemoryStore) (token : bytes) : option Server :=
  List.find (λ s, srv_token s =b token) (values (mem_servers m)).

Definition mem_find_route_by_token (m : MemoryStore) (token : bytes) : option ResolvedRoute :=
  route ← List.find (λ r, rt_token r =b token) (values (mem_routes m)); resolve_route m route.

Definition mem_find_route_by_name_and_domain (m : MemoryStore) (name domain : bytes) :
    option ResolvedRoute :=
  route ← List.find (λ r, (rt_name r =b name)
            && match rt_domain_id r ≫= λ id, mem_domains m !! id with
               | Some d => dom_name d =b domain
               | None => false
               end) (values (mem_routes m));
  resolve_route m route.

Definition mem_find_ip_credential (m : MemoryStore) (ip : IpAddr) : option Credential :=
  match_ip_credential (values (mem_credentials m)) ip.

Definition mem_smtp_credentials_for_server (m : MemoryStore) (server_id : Id) : list Credential :=
  stable_sort (λ a b, cred_id a <=? cred_id b)%N
    (List.filter (λ c, (cred_server_id c =? server_id)%N
                       && bool_decide (cred_credential_type c = CtSmtp))
       (values (mem_credentials m))).

Definition mem_find_server_by_permalinks (m : MemoryStore) (org_pl server_pl : bytes) :
    option Server :=
  organization ← List.find (λ o, org_permalink o =b org_pl) (values (mem_organizations m));
  List.find (λ s, (srv_organization_id s =? org_id organization)%N && (srv_permalink s =b server_pl))
    (values (mem_servers m)).

Definition owner_is (server : Server) (d : Domain) : bool :=
  match dom_owner d with
  | OwnerServer id => (id =? srv_id server)%N
  | OwnerOrganization id => (id =? srv_organization_id server)%N
  end.

Definition domain_for_address (m : MemoryStore) (server : Server) (address : bytes) : option Id :=
  let address := strip_name_from_address address in
  '(uname, domain_name) ← split_once (is_byte "@") address;
  if bool_decide (uname = []) then None
  else dom_id <$> List.find (owner_is server)
         (List.filter (λ d, dom_verified d && (dom_name d =b domain_name)) (values (mem_domains m))).

Definition mem_find_authenticated_domain (m : MemoryStore) (server_id : Id)
    (header_values : list bytes) : option Id :=
  server ← mem_servers m !! server_id;
  let domains := map (domain_for_address m server) header_values in
  match domains with
  | [] => None
  | d :: _ => if forallb (λ o, match o with Some _ => true | None => false end) domains then d
              else None
  end.

Definition mem_send_policy_for_organization (m : MemoryStore) (id : Id) : OrganizationPolicy :=
  from_option (λ p, p) policy_default (mem_organization_policies m !! id).

Definition mem_organization_month_usage (now : datetime) (m : MemoryStore) (id : Id) : Z :=
  from_option (λ z, z) 0%Z (mem_organization_send_counters m !! (id, usage_month_of now)).

Definition in_window (server_id : Id) (today : Z) (key : Id * Z) : bool :=
  (key.1 =? server_id)%N && (today - 29 <=? key.2)%Z && (key.2 <=? today)%Z.

Definition mem_send_usage (now : datetime) (m : MemoryStore) (server_id : Id) : Z :=
  map_fold (λ key sent total,
    if in_window server_id (date_naive now) key then (total + sent)%Z else total) 0%Z
    (mem_send_counters m).

Definition mem_return_path_route_for_server (m : MemoryStore) (server_id : Id) :
    option ResolvedRoute :=
  route ← List.find (λ r, (rt_server_id r =? server_id)%N && (rt_name r =b !"__returnpath__"))
            (values (mem_routes m));
  resolve_route m route.

Definition mem_record_credential_use (now : datetime) (m : MemoryStore) (id : Id) : MemoryStore :=
  m <| mem_credential_uses :=
         <[id := (from_option (λ n, n) 0 (mem_credential_uses m !! id) + 1)%N]> (mem_credential_uses m) |>
    <| mem_credentials := alter (λ c, c <| cred_last_used_at := Some now |>) id (mem_credentials m) |>.

Definition mem_find_confirmed_sender_address (m : MemoryStore) (server_id : Id)
    (header_values : list bytes) : bool :=
  let authorized value :=
    let address := strip_name_from_address value in
    existsb (λ a, (sa_server_id a =? server_id)%N && sa_verified a
                  && eq_ignore_ascii_case (sa_email_address a) address)
      (values (mem_sender_addresses m)) in
  negb (bool_decide (header_values = [])) && forallb authorized header_values.

#[export] Instance MemoryStore_store : Store MemoryStore := {|
  st_organization m id := mem_organizations m !! id;
  st_server m id := mem_servers m !! id;
  find_smtp_credential_by_key := mem_find_smtp_credential_by_key;
  find_server_by_token := mem_find_server_by_token;
  find_route_by_token := mem_find_route_by_token;
  find_route_by_name_and_domain := mem_find_route_by_name_and_domain;
  find_ip_credential := mem_find_ip_credential;
  smtp_credentials_for_server := mem_smtp_credentials_for_server;
  find_server_by_permalinks := mem_find_server_by_permalinks;
  st_find_authenticated_domain := mem_find_authenticated_domain;
  send_usage := mem_send_usage;
  send_policy_for_organization := mem_send_policy_for_organization;
  organization_month_usage := mem_organization_month_usage;
  return_path_route_for_server := mem_return_path_route_for_server;
  record_credential_use := mem_record_credential_use;
  find_confirmed_sender_address := mem_find_confirmed_sender_address;
|}.
End StoreImpl.
