(* ===== verification/Template.v ===== *)
(** * Template: the Mustache-subset renderer

    [camelmailer-core/src/template.rs].  The parser's loop carries the root list
    and the stack of open sections ([Frame]), as the source does; [fuel] bounds
    its iterations, and [length template + 1] suffices because every iteration
    consumes at least the opening braces.  Rendering recurses over the nodes. *)

From S2P Require Import Prelude RustStr Model.

Definition MAX_DEPTH : nat := 32.
Definition MAX_OUTPUT : N := 512 * 1024.

Inductive RenderError :=
| UnclosedTag
| UnclosedSection
| UnexpectedClose (path : bytes)
| MismatchedClose (expected found : bytes)
| TooDeep
| OutputTooLarge.

#[local] Set Warnings "-register-all".
Inductive Node :=
| Text (text : bytes)
| Var (path : bytes) (escaped : bool)
| Section_ (path : bytes) (inverted : bool) (children : list Node).

(** A section being read; [fr_children] in source order. *)
Record Frame := mkFrame { fr_path : bytes; fr_inverted : bool; fr_children : list Node }.

(** [Result] of the parser and renderer. *)
Definition result (A : Type) : Type := RenderError + A.

(** [sink(&mut root, &mut stack).push(node)]: the innermost open section is the
    head of [stack]. *)
Definition push_node (node : Node) (root : list Node) (stack : list Frame) :
    list Node * list Frame :=
  match stack with
  | f :: rest => (root, mkFrame (fr_path f) (fr_inverted f) (fr_children f ++ [node]) :: rest)
  | [] => (root ++ [node], [])
  end.

(** The tag of one [{{ … }}], classified and applied. *)
Definition apply_tag (tag : bytes) (root : list Node) (stack : list Frame) :
    result (list Node * list Frame) :=
  match tag with
  | [] => inr (root, stack)
  | c :: body =>
      if Ascii.eqb c "!" then inr (root, stack)
      else if Ascii.eqb c "#" || Ascii.eqb c "^" then
        if (MAX_DEPTH <=? length stack)%nat then inl TooDeep
        else inr (root, mkFrame (trim body) (Ascii.eqb c "^") [] :: stack)
      else if Ascii.eqb c "/" then
        let path := trim body in
        match stack with
        | [] => inl (UnexpectedClose path)
        | frame :: rest =>
            if negb (fr_path frame =b path) then inl (MismatchedClose (fr_path frame) path)
            else inr (push_node (Section_ (fr_path frame) (fr_inverted frame) (fr_children frame))
                        root rest)
        end
      else if Ascii.eqb c "&" then inr (push_node (Var (trim body) false) root stack)
      else inr (push_node (Var tag true) root stack)
  end.

Definition push_text (text : bytes) (root : list Node) (stack : list Frame) :
    list Node * list Frame :=
  match text with [] => (root, stack) | _ => push_node (Text text) root stack end.

Fixpoint parse_loop (fuel : nat) (rest : bytes) (root : list Node) (stack : list Frame) :
    option (result (list Node)) :=
  match fuel with
  | 0 => None
  | S fuel' =>
      match find_sub !"{{" rest with
      | None =>
          let '(root, stack) := push_text rest root stack in
          Some (match stack with [] => inr root | _ => inl UnclosedSection end)
      | Some pos =>
          let '(root, stack) := push_text (take pos rest) root stack in
          let after := drop (pos + 2) rest in
          match strip_prefix !"{" after with
          | Some triple =>
              match find_sub !"}}}" triple with
              | None => Some (inl UnclosedTag)
              | Some stop =>
                  let '(root, stack) := push_node (Var (trim (take stop triple)) false) root stack in
                  parse_loop fuel' (drop (stop + 3) triple) root stack
              end
          | None =>
              match find_sub !"}}" after with
              | None => Some (inl UnclosedTag)
              | Some stop =>
                  match apply_tag (trim (take stop after)) root stack with
                  | inl e => Some (inl e)
                  | inr (root, stack) => parse_loop fuel' (drop (stop + 2) after) root stack
                  end
              end
          end
      end
  end.

Definition parse (template : bytes) : option (result (list Node)) :=
  parse_loop (S (length template)) template [] [].

(** ** Rendering *)

Definition is_truthy (v : Value) : bool :=
  match v with
  | VNull => false
  | VBool b => b
  | VString s => negb (bool_decide (s = []))
  | VArray a => match a with [] => false | _ => true end
  | VNumber _ | VObject _ => true
  end.

Definition scalar (v : Value) : bytes :=
  match v with
  | VString s => s
  | VNumber n => n
  | VBool b => if b then !"true" else !"false"
  | _ => []
  end.

Definition escape_char (c : ascii) : bytes :=
  if Ascii.eqb c "&" then !"&amp;"
  else if Ascii.eqb c "<" then !"&lt;"
  else if Ascii.eqb c ">" then !"&gt;"
  else if Ascii.eqb c DQ then !"&quot;"
  else if Ascii.eqb c "'" then !"&#39;"
  else [c].
Definition html_escape (input : bytes) : bytes := flat_map escape_char input.

(** [map.get(key)] of a JSON object. *)
Definition obj_get (members : list (bytes * Value)) (key : bytes) : option Value :=
  snd <$> List.find (λ kv, kv.1 =b key) members.

(** The first scope, innermost first, that has the key. *)
Fixpoint lookup_first (scopes : list Value) (key : bytes) : option Value :=
  match scopes with
  | [] => None
  | VObject members :: rest =>
      match obj_get members key with Some v => Some v | None => lookup_first rest key end
  | _ :: rest => lookup_first rest key
  end.

Fixpoint descend (value : Value) (segments : list bytes) : option Value :=
  match segments with
  | [] => Some value
  | segment :: rest =>
      match value with
      | VObject members => next ← obj_get members segment; descend next rest
      | _ => None
      end
  end.

(** [lookup]: the stack is kept innermost first. *)
Definition lookup_path (stack : list Value) (path : bytes) : option Value :=
  if path =b !"." then head stack
  else
    match split_on (is_byte ".") path with
    | [] => None
    | first :: segments => value ← lookup_first stack first; descend value segments
    end.

Definition push_capped (out text : bytes) : result bytes :=
  if (MAX_OUTPUT <? N.of_nat (length out + length text))%N then inl OutputTooLarge
  else inr (out ++ text).

(** Iterate a step over a list, threading the output and stopping at an error. *)
Definition fold_result {A} (f : A → bytes → result bytes) : list A → bytes → result bytes :=
  fix go l out :=
    match l with
    | [] => inr out
    | x :: t => match f x out with inl e => inl e | inr out => go t out end
    end.

(** One node of [render_nodes]; the outer loop is [fold_result]. *)
Fixpoint render_node (node : Node) (stack : list Value) (out : bytes) : result bytes :=
  match node with
  | Text text => push_capped out text
  | Var path escaped =>
      match lookup_path stack path with
      | Some value =>
          let rendered := scalar value in
          push_capped out (if escaped then html_escape rendered else rendered)
      | None => inr out
      end
  | Section_ path inverted children =>
      let value := lookup_path stack path in
      let truthy := match value with Some v => is_truthy v | None => false end in
      if inverted then
        if truthy then inr out else fold_result (λ n, render_node n stack) children out
      else
        match value with
        | Some (VArray items) =>
            fold_result (λ item, fold_result (λ n, render_node n (item :: stack)) children) items out
        | Some v =>
            if is_truthy v then fold_result (λ n, render_node n (v :: stack)) children out
            else inr out
        | None => inr out
        end
  end.

Definition render_nodes (nodes : list Node) (stack : list Value) : bytes → result bytes :=
  fold_result (λ n, render_node n stack) nodes.

Definition render (template : bytes) (model : Value) : option (result bytes) :=
  r ← parse template;
  Some (match r with inl e => inl e | inr nodes => render_nodes nodes [model] [] end).

(** [wrapper_has_raw_content] *)
Definition wrapper_has_raw_content (wrapper : bytes) : option bool :=
  r ← parse wrapper;
  Some (match r with
        | inl _ => false
        | inr nodes => existsb (λ n, match n with
                                     | Var path escaped => (path =b !"content") && negb escaped
                                     | _ => false
                                     end) nodes
        end).

(** [render_in_layout]: the wrapper sees the model's members with [content] set.
    Only [get] reads the resulting object, so the position of the new member is
    immaterial. *)
Definition obj_insert (key : bytes) (v : Value) (members : list (bytes * Value)) :
    list (bytes * Value) :=
  (key, v) :: List.filter (λ kv, negb (kv.1 =b key)) members.

Definition render_in_layout (wrapper : bytes) (model : Value) (content : bytes) :
    option (result bytes) :=
  let scoped := match model with VObject members => members | _ => [] end in
  render wrapper (VObject (obj_insert !"content" (VString content) scoped)).
