(* ===== verification/Ssrf.v ===== *)
(** * Ssrf: the outbound-request address guard

    [camelmailer-worker/src/ssrf.rs].  The predicates of [std::net::Ipv4Addr] and
    [Ipv6Addr] the guard calls are written out; URL parsing and DNS are the
    interface [Outbound]. *)

From S2P Require Import Prelude RustStr Net.

(** ** [std::net] classification *)

Section V4.
Variable a : N.
Definition v4_is_loopback : bool := (octet a 0 =? 127)%N.
Definition v4_is_private : bool :=
  (octet a 0 =? 10)%N
  || ((octet a 0 =? 172)%N && ((16 <=? octet a 1) && (octet a 1 <=? 31))%N)
  || ((octet a 0 =? 192)%N && (octet a 1 =? 168)%N).
Definition v4_is_link_local : bool := (octet a 0 =? 169)%N && (octet a 1 =? 254)%N.
Definition v4_is_broadcast : bool := (a =? 4294967295)%N.
Definition v4_is_documentation : bool :=
  ((octet a 0 =? 192)%N && (octet a 1 =? 0)%N && (octet a 2 =? 2)%N)
  || ((octet a 0 =? 198)%N && (octet a 1 =? 51)%N && (octet a 2 =? 100)%N)
  || ((octet a 0 =? 203)%N && (octet a 1 =? 0)%N && (octet a 2 =? 113)%N).
Definition v4_is_unspecified : bool := (a =? 0)%N.
Definition v4_is_multicast : bool := (224 <=? octet a 0)%N && (octet a 0 <=? 239)%N.
End V4.

Definition v6_is_loopback (a : N) : bool := (a =? 1)%N.
Definition v6_is_unspecified (a : N) : bool := (a =? 0)%N.
Definition v6_is_multicast (a : N) : bool := (N.land (segment a 0) 65280 =? 65280)%N.

(** ** The guard's own predicates *)

Definition ipv4_blocked (ip : N) : bool :=
  let a := octet ip 0 in
  let b := octet ip 1 in
  v4_is_loopback ip || v4_is_private ip || v4_is_link_local ip || v4_is_broadcast ip
  || v4_is_documentation ip || v4_is_unspecified ip || v4_is_multicast ip
  || (a =? 0)%N
  || ((a =? 100)%N && ((64 <=? b) && (b <=? 127))%N)
  || ((a =? 192)%N && (b =? 0)%N)
  || ((a =? 198)%N && ((b =? 18)%N || (b =? 19)%N))
  || (240 <=? a)%N.

Definition is_ipv4_compatible (ip : N) : bool :=
  (segment ip 0 =? 0)%N && (segment ip 1 =? 0)%N && (segment ip 2 =? 0)%N && (segment ip 3 =? 0)%N
  && (segment ip 4 =? 0)%N && (segment ip 5 =? 0)%N && negb (segment ip 6 =? 0)%N.

Definition is_unique_local (ip : N) : bool := (N.land (segment ip 0) 65024 =? 64512)%N.
Definition is_unicast_link_local (ip : N) : bool := (N.land (segment ip 0) 65472 =? 65152)%N.
Definition is_documentation_v6 (ip : N) : bool := (segment ip 0 =? 8193)%N && (segment ip 1 =? 3512)%N.

Definition ipv6_blocked (ip : N) : bool :=
  (match to_ipv4_mapped ip with Some _ => true | None => false end) || is_ipv4_compatible ip
  || v6_is_loopback ip || v6_is_unspecified ip || v6_is_multicast ip || is_unique_local ip
  || is_unicast_link_local ip || is_documentation_v6 ip.

Definition ip_blocked (ip : IpAddr) : bool :=
  match ip with V4 a => ipv4_blocked a | V6 a => ipv6_blocked a end.

(** ** [SsrfGuard] *)

Record SsrfGuard := mkSsrfGuard { g_enabled : bool; g_allowed_hosts : list bytes }.

Inductive SsrfError :=
| InvalidUrl
| NoHost
| Resolve (host : bytes)
| Unresolved (host : bytes)
| Blocked (host : bytes) (ip : IpAddr).

(** [reqwest::Url] and [tokio::net::lookup_host]. *)
Class Outbound := {
  (** [Url::parse]: [None] is an error; otherwise [host_str()] and
      [port_or_known_default()]. *)
  url_parse : bytes → option (option bytes * option N);
  (** The addresses of a host, [None] when resolution fails. *)
  lookup_host : bytes → N → option (list IpAddr);
}.

Section Guard.
Context `{!UnicodeCase, !Outbound}.

Definition guard_new (enabled : bool) (allowed_hosts : list bytes) : SsrfGuard :=
  mkSsrfGuard enabled (map to_lowercase allowed_hosts).

Definition is_allowlisted (g : SsrfGuard) (host : bytes) : bool :=
  existsb (λ h, h =b to_lowercase host) (g_allowed_hosts g).

Definition strip_brackets (raw_host : bytes) : bytes :=
  match strip_prefix !"[" raw_host with
  | Some h => from_option id raw_host (strip_suffix !"]" h)
  | None => raw_host
  end.

(** The first blocked address decides. *)
Fixpoint check_addrs (host : bytes) (addrs : list IpAddr) : SsrfError + unit :=
  match addrs with
  | [] => inr tt
  | ip :: rest => if ip_blocked ip then inl (Blocked host ip) else check_addrs host rest
  end.

Definition check_url (g : SsrfGuard) (url : bytes) : SsrfError + unit :=
  if negb (g_enabled g) then inr tt
  else
    match url_parse url with
    | None => inl InvalidUrl
    | Some (None, _) => inl NoHost
    | Some (Some raw_host, port) =>
        let host := strip_brackets raw_host in
        if is_allowlisted g host then inr tt
        else
          match parse_ip host with
          | Some ip => if ip_blocked ip then inl (Blocked host ip) else inr tt
          | None =>
              match lookup_host host (from_option id 80%N port) with
              | None => inl (Resolve host)
              | Some [] => inl (Unresolved host)
              | Some addrs => check_addrs host addrs
              end
          end
    end.
End Guard.
