(* ===== verification/Bounce.v ===== *)
(** * Bounce: classification and correlation of delivery failures

    [camelmailer-core/src/bounce.rs].  [classify_dsn] slices every line of an
    inbound report at a byte offset, which panics inside a multi-byte character:
    it returns [None] there. *)

From S2P Require Import Prelude RustStr Net Model Message.

Definition MESSAGE_TOKEN_HEADER : bytes := !"X-CamelMailer-MsgID".
Definition POSTAL_MESSAGE_TOKEN_HEADER : bytes := !"X-Postal-MsgID".

Inductive BounceCategory := Hard | Soft | Undetermined.
#[export] Instance BounceCategory_eq_dec : EqDecision BounceCategory.
Proof. solve_decision. Defined.

Definition category_as_str (c : BounceCategory) : bytes :=
  match c with Hard => !"hard" | Soft => !"soft" | Undetermined => !"undetermined" end.

(** ** SMTP responses *)

Definition reply_code_class (token : bytes) : option BounceCategory :=
  let digits := from_option id token (head (split_on (is_byte "-") token)) in
  if (length digits =? 3)%nat && forallb is_ascii_digit digits then
    match head digits with
    | Some c => if Ascii.eqb c "5" then Some Hard else if Ascii.eqb c "4" then Some Soft else None
    | None => None
    end
  else None.

Definition code_tail (c : ascii) : bool :=
  Ascii.eqb c "." || Ascii.eqb c "," || Ascii.eqb c ";" || Ascii.eqb c ")".
Definition numeric (s : bytes) : bool :=
  negb (bool_decide (s = [])) && (length s <=? 3)%nat && forallb is_ascii_digit s.

Definition enhanced_code_class (token : bytes) : option BounceCategory :=
  match split_on (is_byte ".") (trim_end_matches code_tail token) with
  | [class; subject; detail] =>
      if negb (numeric subject) || negb (numeric detail) then None
      else if class =b !"5" then Some Hard
      else if class =b !"4" then Some Soft
      else None
  | _ => None
  end.

Definition token_class (token : bytes) : option BounceCategory :=
  match reply_code_class token with
  | Some c => Some c
  | None => enhanced_code_class token
  end.

Fixpoint classify_tokens (tokens : list bytes) : BounceCategory :=
  match tokens with
  | [] => Undetermined
  | t :: rest => match token_class t with Some c => c | None => classify_tokens rest end
  end.

Definition classify_response (response : bytes) : BounceCategory :=
  classify_tokens (split_whitespace response).

(** ** Delivery status notifications *)

(** [str::lines] *)
Definition str_lines (s : bytes) : list bytes :=
  map (λ l, match strip_suffix [LF] l with Some l' => strip_cr l' | None => l end)
    (split_inclusive (is_byte LF) s).

(** [trimmed.len() >= prefix.len() && trimmed[..prefix.len()].eq_ignore_ascii_case(prefix)]
    and the rest of the line; the outer [None] is the panic. *)
Definition field_value (trimmed prefix : bytes) : option (option bytes) :=
  if (length prefix <=? length trimmed)%nat then
    front ← slice_to trimmed (length prefix);
    if eq_ignore_ascii_case front prefix then
      rest ← slice_from trimmed (length prefix); Some (Some rest)
    else Some None
  else Some None.

Definition dsn_value (trimmed : bytes) : option (option bytes) :=
  v ← field_value trimmed !"Status:";
  match v with
  | Some value => Some (Some value)
  | None => field_value trimmed !"Diagnostic-Code:"
  end.

Fixpoint classify_lines (lines : list bytes) : option BounceCategory :=
  match lines with
  | [] => Some Undetermined
  | line :: rest =>
      v ← dsn_value (trim line);
      match v with
      | Some value =>
          let category := classify_response value in
          if bool_decide (category = Undetermined) then classify_lines rest else Some category
      | None => classify_lines rest
      end
  end.

Definition classify_dsn (raw_message : bytes) : option BounceCategory :=
  classify_lines (str_lines (from_utf8_lossy raw_message)).

(** ** The shape of a notification *)

Definition is_ascii_whitespace (c : ascii) : bool :=
  Ascii.eqb c SP || Ascii.eqb c TAB || Ascii.eqb c LF || (byte_n c =? 12)%N || Ascii.eqb c CR.
Definition trim_ascii : bytes → bytes := trim_matches is_ascii_whitespace.

Definition content_type_is (value expected : bytes) : bool :=
  match split_on (is_byte ";") value with
  | media_type :: _ => eq_ignore_ascii_case (trim media_type) expected
  | [] => false
  end.

(** A [name: value] line of the raw message, both sides trimmed. *)
Definition field_line (raw_line : bytes) : option (bytes * bytes) :=
  let line := trim_ascii (strip_cr raw_line) in
  '(name, value) ← split_once (is_byte ":") line;
  Some (trim_ascii name, trim_ascii value).

Definition raw_lines (raw_message : bytes) : list bytes := split_on (is_byte LF) raw_message.

Definition has_content_type_part (raw_message expected : bytes) : bool :=
  existsb (λ line, match field_line line with
                   | Some (name, value) => eq_ignore_ascii_case name !"Content-Type"
                                           && content_type_is (from_utf8_lossy value) expected
                   | None => false
                   end) (raw_lines raw_message).

Definition declares_delivery_status (content_type : bytes) : bool :=
  existsb (λ parameter,
    match strip_prefix !"report-type=" (trim parameter) with
    | Some value => eq_ignore_ascii_case (trim_matches (is_byte DQ) value) !"delivery-status"
    | None => false
    end) (tail (split_on (is_byte ";") content_type)).

(** The four flags of the legacy shape check: recipient, action, status,
    reporting MTA. *)
Record DsnFlags := mkDsnFlags {
  has_recipient : bool; has_bounce_action : bool; has_bounce_status : bool; has_reporting_mta : bool }.

Definition scan_field (f : DsnFlags) (line : bytes) : DsnFlags :=
  match field_line line with
  | None => f
  | Some (name, value) =>
      let named n := eq_ignore_ascii_case name n in
      if named !"Final-Recipient" || named !"Original-Recipient" then
        mkDsnFlags (has_recipient f || negb (bool_decide (value = []))) (has_bounce_action f)
          (has_bounce_status f) (has_reporting_mta f)
      else if named !"Action" then
        mkDsnFlags (has_recipient f)
          (has_bounce_action f || eq_ignore_ascii_case value !"failed"
           || eq_ignore_ascii_case value !"delayed")
          (has_bounce_status f) (has_reporting_mta f)
      else if named !"Status" then
        mkDsnFlags (has_recipient f) (has_bounce_action f)
          (has_bounce_status f
           || match head (split_whitespace (from_utf8_lossy value)) ≫= enhanced_code_class with
              | Some _ => true
              | None => false
              end)
          (has_reporting_mta f)
      else if named !"Reporting-MTA" then
        mkDsnFlags (has_recipient f) (has_bounce_action f) (has_bounce_status f)
          (has_reporting_mta f || negb (bool_decide (value = [])))
      else f
  end.

(** The part scan of a [multipart/report]: whether the current part is the
    delivery-status part, and whether a failed action was seen; [None] once an
    action other than [failed] is found. *)
Fixpoint failed_actions (in_part saw : bool) (lines : list bytes) : bool :=
  match lines with
  | [] => saw
  | raw :: rest =>
      let line := trim_ascii (strip_cr raw) in
      if starts_with line !"--" then failed_actions false saw rest
      else
        match field_line raw with
        | None => failed_actions in_part saw rest
        | Some (name, value) =>
            if eq_ignore_ascii_case name !"Content-Type" then
              failed_actions (content_type_is (from_utf8_lossy value) !"message/delivery-status")
                saw rest
            else if in_part && eq_ignore_ascii_case name !"Action" then
              if negb (eq_ignore_ascii_case value !"failed") then false
              else failed_actions in_part true rest
            else failed_actions in_part saw rest
        end
  end.

Fixpoint only_failed_actions (saw : bool) (lines : list bytes) : bool :=
  match lines with
  | [] => saw
  | raw :: rest =>
      match field_line raw with
      | None => only_failed_actions saw rest
      | Some (name, value) =>
          if eq_ignore_ascii_case name !"Action" then
            if negb (eq_ignore_ascii_case value !"failed") then false
            else only_failed_actions true rest
          else only_failed_actions saw rest
      end
  end.
Definition has_only_failed_actions (raw_message : bytes) : bool :=
  only_failed_actions false (raw_lines raw_message).

Section Dsn.
Context `{!UnicodeCase}.

Definition top_content_type (raw_message : bytes) : bytes :=
  to_ascii_lowercase (from_option id [] (header_value raw_message !"content-type")).

Definition legacy_shape (raw_message : bytes) : bool :=
  let f := fold_left scan_field (raw_lines raw_message) (mkDsnFlags false false false false) in
  has_recipient f && has_bounce_action f && has_bounce_status f && has_reporting_mta f.

Definition is_delivery_status_notification (raw_message : bytes) : bool :=
  let content_type := top_content_type raw_message in
  if content_type_is content_type !"message/delivery-status" then true
  else if content_type_is content_type !"multipart/report"
          && (declares_delivery_status content_type
              || has_content_type_part raw_message !"message/delivery-status") then true
  else legacy_shape raw_message.

Definition is_failed_delivery_status_notification (raw_message : bytes) : bool :=
  if negb (is_delivery_status_notification raw_message) then false
  else
    let content_type := top_content_type raw_message in
    if content_type_is content_type !"message/delivery-status" then
      has_only_failed_actions raw_message
    else if content_type_is content_type !"multipart/report" then
      failed_actions false false (raw_lines raw_message)
    else has_only_failed_actions raw_message.
End Dsn.

(** ** Correlation tokens *)

Definition is_message_token_header (name : bytes) : bool :=
  eq_ignore_ascii_case name MESSAGE_TOKEN_HEADER
  || eq_ignore_ascii_case name POSTAL_MESSAGE_TOKEN_HEADER.

(** The loop of [add_message_token_header] over the lines of the message, each
    with its ending; [skipping] is set inside a removed header. *)
Fixpoint drop_token_headers (skipping : bool) (lines : list bytes) : bytes :=
  match lines with
  | [] => []
  | l :: rest =>
      let line := strip_cr (from_option id l (strip_suffix [LF] l)) in
      match line with
      | [] => concat (l :: rest)
      | c :: _ =>
          let continuation := Ascii.eqb c SP || Ascii.eqb c TAB in
          let skipping :=
            if continuation then skipping
            else is_message_token_header (from_option id [] (head (split_on (is_byte ":") line))) in
          (if skipping then [] else l) ++ drop_token_headers skipping rest
      end
  end.

Definition add_message_token_header (raw_message token : bytes) : bytes :=
  MESSAGE_TOKEN_HEADER ++ !": " ++ token ++ CRLF
  ++ drop_token_headers false (split_inclusive (is_byte LF) raw_message).

Fixpoint take_while (P : ascii → bool) (s : bytes) : bytes :=
  match s with
  | c :: t => if P c then c :: take_while P t else []
  | [] => []
  end.

Definition line_token (raw_line : bytes) : option bytes :=
  '(name, value) ← split_once (is_byte ":") (strip_cr raw_line);
  if negb (is_message_token_header name) then None
  else
    let token := take_while is_ascii_alphanumeric (trim_ascii value) in
    if bool_decide (token = []) || (64 <? length token)%nat then None else Some token.

Definition original_message_tokens (raw_message : bytes) : list bytes :=
  fold_left (λ tokens line,
    match line_token line with
    | Some token => if existsb (bytes_eqb token) tokens then tokens else tokens ++ [token]
    | None => tokens
    end) (raw_lines raw_message) [].
