(* ===== verification/Dkim.v ===== *)
(** * Dkim: signing of outgoing messages

    [camelmailer-worker/src/dkim.rs].  RSA signing is the [Signer] interface. *)

From S2P Require Import Prelude RustStr Net.

Definition SIGNED_HEADERS : list bytes :=
  [!"from"; !"sender"; !"reply-to"; !"to"; !"cc"; !"subject"; !"date"; !"message-id"].

Definition is_crlf (c : ascii) : bool := Ascii.eqb c CR || Ascii.eqb c LF.
Definition is_wsp (c : ascii) : bool := Ascii.eqb c SP || Ascii.eqb c TAB.

(** The loop of [split_message]: the finished headers, the header being read, and
    the bytes consumed. *)
Fixpoint split_loop (lines : list bytes) (headers : list bytes) (current : option bytes)
    (offset : nat) : list bytes * option bytes * nat :=
  match lines with
  | [] => (headers, current, offset)
  | line :: rest =>
      let offset := offset + length line in
      let trimmed := trim_end_matches is_crlf (from_utf8_lossy line) in
      match trimmed with
      | [] => (headers, current, offset)
      | c :: _ =>
          if is_wsp c then
            split_loop rest headers ((λ h, h ++ CRLF ++ trimmed) <$> current) offset
          else split_loop rest (headers ++ option_list current) (Some trimmed) offset
      end
  end.

Definition split_message (raw_message : bytes) : list bytes * bytes :=
  let '(headers, current, offset) :=
    split_loop (split_inclusive (is_byte LF) raw_message) [] None 0 in
  (headers ++ option_list current, drop offset raw_message).

(** [s.replace(from, to)] of a non-empty pattern. *)
Fixpoint replace_fuel (fuel : nat) (from to s : bytes) : bytes :=
  match fuel with
  | 0 => s
  | S fuel' =>
      match find_sub from s with
      | Some i => take i s ++ to ++ replace_fuel fuel' from to (drop (i + length from) s)
      | None => s
      end
  end.
Definition replace (from to s : bytes) : bytes := replace_fuel (length s) from to s.

(** Collapse every run of spaces and tabs to one space. *)
Fixpoint collapse_wsp (last_was_space : bool) (s : bytes) : bytes :=
  match s with
  | [] => []
  | c :: t =>
      if is_wsp c then (if last_was_space then [] else [SP]) ++ collapse_wsp true t
      else c :: collapse_wsp false t
  end.

Definition canonicalize_body_line (line : bytes) : bytes :=
  trim_end (collapse_wsp false (trim_end_matches (is_byte CR) line)).

(** [while lines.last().is_some_and(|l| l.is_empty()) { lines.pop(); }] *)
Definition drop_trailing_empty (lines : list bytes) : list bytes :=
  rev ((fix go l := match l with [] :: t => go t | _ => l end) (rev lines)).

Definition canonicalize_body (body : bytes) : bytes :=
  let lines := drop_trailing_empty
    (map canonicalize_body_line (split_on (is_byte LF) (from_utf8_lossy body))) in
  match lines with
  | [] => []
  | _ => join CRLF lines ++ CRLF
  end.

Class Signer (K : Type) := {
  sign_sha256 : K → bytes → bytes;
  signer_from_pem : bytes → option K;
}.

Section Sign.
Context `{!UnicodeCase, !Crates} {K : Type} `{!Signer K}.

Definition canonicalize_header (raw_header : bytes) : option (bytes * bytes) :=
  '(name, value) ← split_once (is_byte ":") raw_header;
  let name := to_lowercase (trim name) in
  let unfolded := replace [LF] !" " (replace CRLF !" " value) in
  Some (name, trim (collapse_wsp false unfolded)).

(** The first occurrence of every signed header, in [SIGNED_HEADERS] order. *)
Definition select_headers (raw_headers : list bytes) : list (bytes * bytes) :=
  let canonicalized := omap canonicalize_header raw_headers in
  omap (λ name, List.find (λ nv, nv.1 =b name) canonicalized) SIGNED_HEADERS.

Definition unsigned_dkim (domain selector : bytes) (timestamp : Z) (names : list bytes)
    (body_hash : bytes) : bytes :=
  !"v=1; a=rsa-sha256; c=relaxed/relaxed; d=" ++ domain ++ !"; s=" ++ selector ++ !"; t="
  ++ show_Z timestamp ++ !"; h=" ++ join !":" names ++ !"; bh=" ++ body_hash ++ !"; b=".

(** [None] is the [expect("has a colon")], which the header text rules out. *)
Definition signing_input (selected : list (bytes * bytes)) (unsigned : bytes) : option bytes :=
  '(dkim_name, dkim_value) ← canonicalize_header (!"DKIM-Signature: " ++ unsigned);
  Some (flat_map (λ nv, nv.1 ++ !":" ++ nv.2 ++ CRLF) selected ++ dkim_name ++ !":" ++ dkim_value).

Definition sign (raw_message domain selector : bytes) (signer : K) (timestamp : Z) : option bytes :=
  let '(raw_headers, body) := split_message raw_message in
  let selected := select_headers raw_headers in
  let body_hash := b64_encode (sha256 (canonicalize_body body)) in
  let unsigned := unsigned_dkim domain selector timestamp (map fst selected) body_hash in
  input ← signing_input selected unsigned;
  Some (!"DKIM-Signature: " ++ unsigned ++ b64_encode (sign_sha256 signer input)).

Definition signer_for_domain (domain_key_pem : option bytes) (installation : option K) : option K :=
  match domain_key_pem ≫= signer_from_pem with
  | Some signer => Some signer
  | None => installation
  end.

Definition sign_and_prepend (raw_message domain selector : bytes) (signer : K) (timestamp : Z) :
    option bytes :=
  header ← sign raw_message domain selector signer timestamp;
  Some (header ++ CRLF ++ raw_message).
End Sign.
