(* ===== verification/SmtpClient.v ===== *)
(** * SmtpClient: one outbound delivery over SMTP

    [camelmailer-worker/src/smtp_client.rs].  The network is an explicit script:
    the answers the environment gives to connects, TLS handshakes, writes and
    reads, in order; every finite run of the client is the run under some script.
    Everything the client does to the wire is appended to a trace.  A client
    operation is a function from the network to the network and a result or an
    I/O error ([Io]). *)

From S2P Require Import Prelude RustStr Net Message.

(** ** Data *)

Inductive SendOutcome :=
| Sent (response : bytes) (tls : bool)
| SoftFail (response : bytes)
| HardFail (response : bytes).

Inductive TlsMode := Verify | AcceptAny | Disabled.
#[export] Instance TlsMode_eq_dec : EqDecision TlsMode.
Proof. solve_decision. Defined.

Definition from_verify_mode (verify_mode : bytes) (enable : bool) : TlsMode :=
  if negb enable then Disabled
  else if eq_ignore_ascii_case verify_mode !"none" then AcceptAny
  else Verify.

Inductive ConnectionSecurity := Opportunistic | RequireStartTls | ImplicitTls.
#[export] Instance ConnectionSecurity_eq_dec : EqDecision ConnectionSecurity.
Proof. solve_decision. Defined.

Record SmtpAuth := mkSmtpAuth { auth_username : bytes; auth_password : bytes }.

(** Durations are whole seconds. *)
Record SendParams := mkSendParams {
  sp_host : bytes;
  sp_port : N;
  sp_helo_hostname : bytes;
  sp_mail_from : bytes;
  sp_rcpt_to : bytes;
  sp_timeout : N;
  sp_read_timeout : N;
  sp_data_timeout : N;
  sp_tls_mode : TlsMode;
  sp_security : ConnectionSecurity;
  sp_auth : option SmtpAuth;
  sp_source_ip : option IpAddr;
}.

Definition classify (code : N) (response : bytes) (tls : bool) : SendOutcome :=
  if (200 <=? code)%N && (code <=? 399)%N then Sent response tls
  else if (400 <=? code)%N && (code <=? 499)%N then SoftFail response
  else HardFail response.

(** [(200..=299).contains(&code)] *)
Definition ok_2xx (code : N) : bool := (200 <=? code)%N && (code <=? 299)%N.

Definition effective_tls_mode (p : SendParams) : TlsMode :=
  match sp_tls_mode p, sp_security p with
  | Disabled, RequireStartTls => Verify
  | Disabled, ImplicitTls => Verify
  | mode, _ => mode
  end.

(** ** Addresses *)

Definition SocketAddr : Type := IpAddr * N.

Definition remote_addresses (addresses : list SocketAddr) (source_ip : option IpAddr) (host : bytes) :
    bytes + list SocketAddr :=
  match addresses with
  | [] => inl (!"no address for " ++ host)
  | _ =>
      let candidates :=
        match source_ip with
        | Some ip => List.filter (λ a, Bool.eqb (is_ipv4 a.1) (is_ipv4 ip)) addresses
        | None => List.filter (λ a, is_ipv4 a.1) addresses
                  ++ List.filter (λ a, negb (is_ipv4 a.1)) addresses
        end in
      match candidates with
      | [] =>
          let family := match source_ip with
                        | Some ip => if is_ipv4 ip then !"IPv4" else !"IPv6"
                        | None => !"IPv6"
                        end in
          inl (!"no " ++ family ++ !" address for " ++ host
               ++ !" (required by the bound source address)")
      | _ => inr candidates
      end
  end.

(** ** The network *)

Inductive Stream := Tcp | Tls (mode : TlsMode).
#[export] Instance Stream_eq_dec : EqDecision Stream.
Proof. solve_decision. Defined.
Definition is_tls (s : Stream) : bool := match s with Tcp => false | Tls _ => true end.

(** What one [read] returns; an empty chunk is the end of the stream. *)
Inductive ReadEvent := ReadChunk (chunk : bytes) | ReadTimeout | ReadError (error : bytes).

(** What the client did. *)
Inductive Wire :=
| Connect (address : SocketAddr)
| Handshake (mode : TlsMode)
| Write (stream : Stream) (text : bytes).

Record Network := mkNetwork {
  net_connects : list (option bytes);
  net_handshakes : list (option bytes);
  net_writes : list (option bytes);
  net_reads : list ReadEvent;
  net_trace : list Wire;
}.
#[export] Instance eta_Network : Eta Network := λ n,
  mkNetwork (net_connects n) (net_handshakes n) (net_writes n) (net_reads n) (net_trace n).

(** I/O: an error is its text. *)
Definition Io (A : Type) : Type := Network → Network * (bytes + A).
#[export] Instance Io_ret : MRet Io := λ A x n, (n, inr x).
#[export] Instance Io_bind : MBind Io := λ A B f m n,
  match m n with
  | (n, inl e) => (n, inl e)
  | (n, inr x) => f x n
  end.
Definition io_error {A} (e : bytes) : Io A := λ n, (n, inl e).
Definition lift_result {A} (r : bytes + A) : Io A := λ n, (n, r).

(** The next scripted answer, [None] for success; [exhausted] is the answer of a
    script that has run out. *)
Definition answer (exhausted : bytes + unit) (script : list (option bytes)) :
    (bytes + unit) * list (option bytes) :=
  match script with
  | [] => (exhausted, [])
  | Some e :: rest => (inl e, rest)
  | None :: rest => (inr tt, rest)
  end.

Definition io_connect (address : SocketAddr) : Io unit := λ n,
  let '(r, rest) := answer (inl !"connect timeout") (net_connects n) in
  (n <| net_connects := rest |> <| net_trace := net_trace n ++ [Connect address] |>, r).
Definition io_handshake (mode : TlsMode) : Io unit := λ n,
  let '(r, rest) := answer (inl !"TLS handshake timeout") (net_handshakes n) in
  (n <| net_handshakes := rest |> <| net_trace := net_trace n ++ [Handshake mode] |>, r).
Definition io_write (stream : Stream) (text : bytes) : Io unit := λ n,
  let '(r, rest) := answer (inr tt) (net_writes n) in
  (n <| net_writes := rest |> <| net_trace := net_trace n ++ [Write stream text] |>, r).

(** ** [SmtpConnection] *)

Record SmtpConnection := mkSmtpConnection {
  conn_stream : Stream;
  conn_timeout : N;
  conn_buffer : bytes;
}.
#[export] Instance eta_SmtpConnection : Eta SmtpConnection := λ c,
  mkSmtpConnection (conn_stream c) (conn_timeout c) (conn_buffer c).

(** The text of a drained line. *)
Definition line_text (line : bytes) : bytes :=
  trim_end_matches (λ c, Ascii.eqb c CR || Ascii.eqb c LF) (from_utf8_lossy line).

(** [read_line] over the scripted reads: the rest of the script, then the buffer
    left and the line, or the error. *)
Fixpoint read_line_go (timeout : N) (buffer : bytes) (reads : list ReadEvent) :
    list ReadEvent * (bytes + bytes * bytes) :=
  match find_byte (is_byte LF) buffer with
  | Some position =>
      (reads, inr (drop (S position) buffer, line_text (take (S position) buffer)))
  | None =>
      match reads with
      | [] | ReadTimeout :: _ =>
          (tail reads, inl (!"read timeout after " ++ show_N timeout ++ !"s"))
      | ReadError e :: rest => (rest, inl e)
      | ReadChunk [] :: rest => (rest, inl !"connection closed")
      | ReadChunk chunk :: rest => read_line_go timeout (buffer ++ chunk) rest
      end
  end.

Definition read_line (c : SmtpConnection) : Io (SmtpConnection * bytes) := λ n,
  match read_line_go (conn_timeout c) (conn_buffer c) (net_reads n) with
  | (reads, r) =>
      (n <| net_reads := reads |>,
       match r with
       | inl e => inl e
       | inr (buffer, line) => inr (c <| conn_buffer := buffer |>, line)
       end)
  end.

(** [line.len() < 4 || line.as_bytes().get(3) != Some(&b'-')] *)
Definition is_last_line (line : bytes) : bool :=
  (length line <? 4)%nat || negb (match line !! 3 with Some c => Ascii.eqb c "-" | None => false end).

(** [line.get(0..3).and_then(|c| c.parse::<u16>().ok()).unwrap_or(0)] *)
Definition reply_code (line : bytes) : N :=
  if (3 <=? length line)%nat && is_char_boundary line 3
  then from_option id 0%N (parse_u16 (take 3 line)) else 0%N.

(** The loop of [read_reply]; [fuel] bounds the lines of one reply.  A line takes
    at least one byte of the buffer or of a scripted chunk, see [reply_fuel]. *)
Fixpoint read_reply_go (fuel : nat) (c : SmtpConnection) (full : bytes) :
    Io (SmtpConnection * N * bytes) :=
  match fuel with
  | 0 => io_error !"out of fuel"
  | S fuel' =>
      '(c, line) ← read_line c;
      let full := full ++ line ++ [LF] in
      if is_last_line line then mret (c, reply_code line, trim full)
      else read_reply_go fuel' c full
  end.

Definition pending_bytes (reads : list ReadEvent) : nat :=
  sum_list_with (λ e, match e with ReadChunk chunk => length chunk | _ => 0 end) reads.
Definition reply_fuel (c : SmtpConnection) (n : Network) : nat :=
  S (length (conn_buffer c) + pending_bytes (net_reads n)).
Definition read_reply (c : SmtpConnection) : Io (SmtpConnection * N * bytes) := λ n,
  read_reply_go (reply_fuel c n) c [] n.

Definition send_line (c : SmtpConnection) (line : bytes) : Io unit :=
  io_write (conn_stream c) (line ++ CRLF).

Definition command (c : SmtpConnection) (line : bytes) : Io (SmtpConnection * N * bytes) :=
  _ ← send_line c line; read_reply c.

(** The body of [send_data]: the lines of the message with CRLF endings and
    leading dots doubled. *)
Definition stuff_line (line : bytes) : bytes :=
  let line := strip_cr line in
  (if starts_with line !"." then !"." else []) ++ line ++ CRLF.
Definition data_lines (raw_message : bytes) : list bytes :=
  let lines := split_on (is_byte LF) raw_message in
  match last lines with
  | Some [] => removelast lines
  | _ => lines
  end.
Definition data_body (raw_message : bytes) : bytes := flat_map stuff_line (data_lines raw_message).

Definition send_data (c : SmtpConnection) (raw_message : bytes) (data_timeout read_timeout : N) :
    Io (SmtpConnection * N * bytes) :=
  _ ← io_write (conn_stream c) (data_body raw_message);
  '(c, code, response) ← command (c <| conn_timeout := data_timeout |>) !".";
  mret (c <| conn_timeout := read_timeout |>, code, response).

(** ** The conversation *)

(** DNS and the TLS library: the addresses of a host, and
    [rustls::pki_types::ServerName::try_from]. *)
Class Resolve := {
  resolve_host : bytes → N → bytes + list SocketAddr;
  valid_server_name : bytes → bool;
}.

Inductive Attempt :=
| Complete (outcome : SendOutcome)
| OpportunisticStartTlsHandshakeFailed.

Section Client.
Context `{!Resolve, !Crates, !UnicodeCase}.

(** [connect]: every candidate in turn, the last error when none answers. *)
Fixpoint connect_any (last_error : bytes) (candidates : list SocketAddr) : Io unit :=
  match candidates with
  | [] => io_error last_error
  | address :: rest => λ n,
      match io_connect address n with
      | (n, inr _) => (n, inr tt)
      | (n, inl e) => connect_any e rest n
      end
  end.
Definition connect (p : SendParams) : Io unit :=
  addresses ← lift_result (resolve_host (sp_host p) (sp_port p));
  candidates ← lift_result (remote_addresses addresses (sp_source_ip p) (sp_host p));
  connect_any (!"no address for " ++ sp_host p) candidates.

(** The TLS handshake both [try_send] and [upgrade] make. *)
Definition tls_connect (p : SendParams) : Io Stream :=
  if valid_server_name (sp_host p) then
    _ ← io_handshake (effective_tls_mode p); mret (Tls (effective_tls_mode p))
  else io_error !"invalid server name for TLS".

(** [upgrade]: the plaintext buffer is discarded. *)
Definition upgrade (c : SmtpConnection) (p : SendParams) : Io SmtpConnection :=
  stream ← tls_connect p; mret (mkSmtpConnection stream (conn_timeout c) []).

Definition relay_address (p : SendParams) : bytes := sp_host p ++ !":" ++ show_N (sp_port p).

(** The end of [try_send]: AUTH, MAIL FROM, RCPT TO, DATA and the message. *)
Definition complete (code : N) (response : bytes) (tls : bool) : Io Attempt :=
  mret (Complete (classify code response tls)).

(** [let _ = connection.send_line("QUIT").await] *)
Definition send_quit (c : SmtpConnection) : Io unit := λ n, ((send_line c !"QUIT" n).1, inr tt).

Definition transmit (p : SendParams) (raw_message : bytes) (tls : bool) (c : SmtpConnection) :
    Io Attempt :=
  '(c, code, response) ← command c !"DATA";
  if negb (code =? 354)%N then complete code response tls
  else
    '(c, code, response) ← send_data c raw_message (sp_data_timeout p) (sp_read_timeout p);
    _ ← send_quit c;
    complete code response tls.

Definition envelope (p : SendParams) (raw_message : bytes) (tls : bool) (c : SmtpConnection) :
    Io Attempt :=
  '(c, code, response) ← command c (!"MAIL FROM:<" ++ sp_mail_from p ++ !">");
  if negb (ok_2xx code) then complete code response tls
  else
    '(c, code, response) ← command c (!"RCPT TO:<" ++ sp_rcpt_to p ++ !">");
    if negb (ok_2xx code) then complete code response tls
    else transmit p raw_message tls c.

Definition auth_token (auth : SmtpAuth) : bytes :=
  b64_encode (NUL :: auth_username auth ++ NUL :: auth_password auth).

Definition deliver (p : SendParams) (raw_message : bytes) (tls : bool) (c : SmtpConnection) :
    Io Attempt :=
  if bool_decide (sp_security p = RequireStartTls) && negb tls then
    mret (Complete (SoftFail (!"relay " ++ relay_address p
      ++ !" does not offer STARTTLS, which is required for smtp:// relays on the submission port")))
  else
    match sp_auth p with
    | Some auth =>
        '(c, code, response) ← command c (!"AUTH PLAIN " ++ auth_token auth);
        if negb (code =? 235)%N then complete code response tls
        else envelope p raw_message tls c
    | None => envelope p raw_message tls c
    end.

(** The STARTTLS branch of [try_send]: the upgrade once the server has accepted
    it, and the whole branch. *)
Definition starttls_accepted (p : SendParams) (raw_message : bytes) (c : SmtpConnection) :
    Io Attempt := λ n,
  match upgrade c p n with
  | (n, inl e) =>
      if bool_decide (sp_security p = Opportunistic)
      then (n, inr OpportunisticStartTlsHandshakeFailed)
      else (n, inl e)
  | (n, inr c) =>
      ('(c, code, response) ← command c (!"EHLO " ++ sp_helo_hostname p);
       if negb (ok_2xx code) then complete code response true
       else deliver p raw_message true c) n
  end.

Definition starttls_branch (p : SendParams) (raw_message : bytes) (c : SmtpConnection) : Io Attempt :=
  '(c, code, response) ← command c !"STARTTLS";
  if ok_2xx code then starttls_accepted p raw_message c
  else if bool_decide (sp_security p = RequireStartTls) then
    mret (Complete (SoftFail (!"relay " ++ relay_address p
      ++ !" refused mandatory STARTTLS: " ++ response)))
  else deliver p raw_message false c.

Definition wants_starttls (p : SendParams) (tls allow_starttls : bool) (ehlo_response : bytes) : bool :=
  negb tls && allow_starttls
  && (negb (bool_decide (sp_tls_mode p = Disabled)) || bool_decide (sp_security p = RequireStartTls))
  && contains (to_uppercase ehlo_response) !"STARTTLS".

Definition open_stream (p : SendParams) : Io (Stream * bool) :=
  _ ← connect p;
  if bool_decide (sp_security p = ImplicitTls) then
    stream ← tls_connect p; mret (stream, true)
  else mret (Tcp, false).

Definition try_send (p : SendParams) (raw_message : bytes) (allow_starttls : bool) : Io Attempt :=
  '(stream, tls) ← open_stream p;
  '(c, code, response) ← read_reply (mkSmtpConnection stream (sp_read_timeout p) []);
  if negb (code =? 220)%N then complete code response tls
  else
    '(c, code, ehlo_response) ← command c (!"EHLO " ++ sp_helo_hostname p);
    if negb (ok_2xx code) then
      '(c, code, response) ← command c (!"HELO " ++ sp_helo_hostname p);
      if negb (ok_2xx code) then complete code response tls
      else deliver p raw_message tls c
    else if wants_starttls p tls allow_starttls ehlo_response then
      starttls_branch p raw_message c
    else deliver p raw_message tls c.

Definition connection_error (p : SendParams) (e : bytes) : SendOutcome :=
  SoftFail (!"connection error to " ++ relay_address p ++ !": " ++ e).

(** [send_message]; [None] is the [unreachable!()]. *)
Definition send_message (p : SendParams) (raw_message : bytes) (n : Network) :
    Network * option SendOutcome :=
  match try_send p raw_message true n with
  | (n, inr (Complete outcome)) => (n, Some outcome)
  | (n, inl e) => (n, Some (connection_error p e))
  | (n, inr OpportunisticStartTlsHandshakeFailed) =>
      match try_send p raw_message false n with
      | (n, inr (Complete outcome)) => (n, Some outcome)
      | (n, inr OpportunisticStartTlsHandshakeFailed) => (n, None)
      | (n, inl e) => (n, Some (connection_error p e))
      end
  end.
End Client.
