(* ===== verification/Sender.v ===== *)
(** * Sender: delivery targets

    [camelmailer-worker/src/sender.rs]: relay URLs, the endpoints of a
    destination domain, and the loop over them.  The MX lookup is the
    [MxResolver] interface. *)

From S2P Require Import Prelude RustStr Net SmtpClient.

Record Endpoint := mkEndpoint {
  ep_host : bytes;
  ep_port : N;
  ep_security : ConnectionSecurity;
  ep_tls_mode : TlsMode;
  ep_auth : option SmtpAuth;
}.

(** [Endpoint::mx] and [implicit_mx] *)
Definition endpoint_mx (host : bytes) : Endpoint := mkEndpoint host 25 Opportunistic AcceptAny None.

(** [u8::from_str_radix(_, 16)] of two bytes. *)
Definition hex_pair (a b : ascii) : option ascii :=
  if Ascii.eqb a "+" then ascii_of_N <$> hex_val b
  else h ← hex_val a; l ← hex_val b; Some (ascii_of_N (h * 16 + l)).

Fixpoint percent_bytes (input : bytes) : bytes :=
  match input with
  | [] => []
  | c :: rest =>
      if Ascii.eqb c "%" then
        match rest with
        | a :: b :: rest' =>
            match hex_pair a b with
            | Some value => value :: percent_bytes rest'
            | None => c :: percent_bytes rest
            end
        | _ => c :: percent_bytes rest
        end
      else c :: percent_bytes rest
  end.
Definition percent_decode (input : bytes) : bytes := from_utf8_lossy (percent_bytes input).

Definition parse_relay (relay : bytes) (relay_tls_mode : TlsMode) : option Endpoint :=
  '(rest, implicit_tls) ← match strip_prefix !"smtps://" relay with
                          | Some rest => Some (rest, true)
                          | None => rest ← strip_prefix !"smtp://" relay; Some (rest, false)
                          end;
  let rest := from_option id rest (head (split_on (λ c, Ascii.eqb c "/" || Ascii.eqb c "?") rest)) in
  '(auth, host_port) ← match rsplit_once (is_byte "@") rest with
                       | Some (userinfo, host_port) =>
                           '(username, password) ← split_once (is_byte ":") userinfo;
                           Some (Some (mkSmtpAuth (percent_decode username) (percent_decode password)),
                                 host_port)
                       | None => Some (None, rest)
                       end;
  '(host, port) ← match rsplit_once (is_byte ":") host_port with
                  | Some (host, port) => n ← parse_u16 port; Some (host, n)
                  | None => Some (host_port, if implicit_tls : bool then 465 else 25)%N
                  end;
  let security := if implicit_tls : bool then ImplicitTls
                  else if (port =? 587)%N then RequireStartTls else Opportunistic in
  Some (mkEndpoint host port security relay_tls_mode auth).

Record SmtpSender := mkSmtpSender {
  snd_relays : list Endpoint;
  snd_helo_hostname : bytes;
  snd_timeout : N;
  snd_read_timeout : N;
  snd_data_timeout : N;
}.

(** The configuration [SmtpSender::new] reads. *)
Record SenderConfig := mkSenderConfig {
  sc_openssl_verify_mode : bytes;
  sc_enable_starttls : bool;
  sc_enable_starttls_auto : bool;
  sc_smtp_relays : list bytes;
  sc_helo_hostname : option bytes;
  sc_smtp_hostname : bytes;
  sc_open_timeout : N;
  sc_read_timeout : N;
  sc_data_timeout : N;
}.

Definition sender_new (c : SenderConfig) : SmtpSender :=
  let relay_tls_mode := from_verify_mode (sc_openssl_verify_mode c)
                          (sc_enable_starttls c || sc_enable_starttls_auto c) in
  mkSmtpSender (omap (λ relay, parse_relay relay relay_tls_mode) (sc_smtp_relays c))
    (from_option id (sc_smtp_hostname c) (sc_helo_hostname c))
    (sc_open_timeout c) (sc_read_timeout c) (sc_data_timeout c).

(** hickory: [mx_lookup] of an absolute name, as (preference, exchange) pairs;
    [None] when the resolver cannot be built or the lookup fails. *)
Class MxResolver := { mx_lookup : bytes → option (list (N * bytes)) }.

Section Sender.
Context `{!MxResolver, !Resolve, !Crates, !UnicodeCase}.

Definition to_ascii_domain (domain : bytes) : bytes := from_option id domain (idna_to_ascii domain).

Definition resolve_endpoints (s : SmtpSender) (domain : bytes) : list Endpoint :=
  match snd_relays s with
  | _ :: _ => snd_relays s
  | [] =>
      let domain := to_ascii_domain domain in
      match mx_lookup (domain ++ !".") with
      | Some answers =>
          let records := stable_sort (λ a b, (a.1 <=? b.1)%N) answers in
          match map (λ mx, endpoint_mx (trim_end_matches (is_byte ".") mx.2)) records with
          | [] => [endpoint_mx domain]
          | endpoints => endpoints
          end
      | None => [endpoint_mx domain]
      end
  end.

Definition send_params (s : SmtpSender) (mail_from rcpt_to : bytes) (source_ip : option IpAddr)
    (e : Endpoint) : SendParams :=
  mkSendParams (ep_host e) (ep_port e) (snd_helo_hostname s) mail_from rcpt_to (snd_timeout s)
    (snd_read_timeout s) (snd_data_timeout s) (ep_tls_mode e) (ep_security e) (ep_auth e) source_ip.

Fixpoint send_loop (s : SmtpSender) (mail_from rcpt_to raw_message : bytes)
    (source_ip : option IpAddr) (last : SendOutcome) (endpoints : list Endpoint) (n : Network) :
    Network * option SendOutcome :=
  match endpoints with
  | [] => (n, Some last)
  | e :: rest =>
      match send_message (send_params s mail_from rcpt_to source_ip e) raw_message n with
      | (n, Some (SoftFail response)) =>
          send_loop s mail_from rcpt_to raw_message source_ip (SoftFail response) rest n
      | (n, terminal) => (n, terminal)
      end
  end.

Definition send (s : SmtpSender) (domain mail_from rcpt_to raw_message : bytes)
    (source_ip : option IpAddr) (n : Network) : Network * option SendOutcome :=
  send_loop s mail_from rcpt_to raw_message source_ip
    (SoftFail (!"no delivery endpoints for " ++ domain)) (resolve_endpoints s domain) n.
End Sender.
