(* ===== verification/Queue.v ===== *)
(** * Queue: the delivery queue

    [camelmailer-db/src/queue.rs].  The table [queued_messages] is the list of its
    rows with the sequence of its ids; every SQL statement of the source is one
    function of the table and of the statement's time [now()], so that statements of
    several workers interleave as steps.  [busy] lists the rows that open
    transactions of others hold, which [FOR UPDATE SKIP LOCKED] passes over.
    Server ids are stored as [Id]: the source's casts between [u64] and [i64] are
    inverse to each other. *)

From S2P Require Import Prelude RustStr Net.

Abbreviation Id := N.

(** ** The filter of a worker *)

Inductive QueueKind := All | Transactional | Bulk.
#[export] Instance QueueKind_eq_dec : EqDecision QueueKind.
Proof. solve_decision. Defined.

Record QueueFilter := mkQueueFilter {
  qf_servers : option (list Id);
  qf_exclude_servers : list Id;
  qf_kind : QueueKind;
}.
Definition filter_default : QueueFilter := mkQueueFilter None [] All.

Definition bulk_param (f : QueueFilter) : option bool :=
  match qf_kind f with All => None | Transactional => Some false | Bulk => Some true end.

(** ** The table *)

Record QueuedMessageRow := mkQueuedMessageRow {
  q_id : Z;
  q_message_id : Z;
  q_server_id : Id;
  q_domain : bytes;
  q_attempts : Z;
  q_bulk : bool;
  q_locked_by : option bytes;
  q_locked_at : option datetime;
  q_retry_after : option datetime;
}.
#[export] Instance eta_QueuedMessageRow : Eta QueuedMessageRow := λ r,
  mkQueuedMessageRow (q_id r) (q_message_id r) (q_server_id r) (q_domain r) (q_attempts r) (q_bulk r)
    (q_locked_by r) (q_locked_at r) (q_retry_after r).
#[export] Instance QueuedMessageRow_eq_dec : EqDecision QueuedMessageRow.
Proof. solve_decision. Defined.

Record QueueTable := mkQueueTable { qt_rows : list QueuedMessageRow; qt_next : Z }.
#[export] Instance eta_QueueTable : Eta QueueTable := λ t, mkQueueTable (qt_rows t) (qt_next t).
Definition queue_empty : QueueTable := mkQueueTable [] 1.

(** [enqueue_with_kind]; [enqueue] is the case [bulk = false]. *)
Definition enqueue_with_kind (message_id : Z) (server_id : Id) (domain : bytes) (bulk : bool)
    (t : QueueTable) : Z * QueueTable :=
  (qt_next t,
   mkQueueTable (qt_rows t ++ [mkQueuedMessageRow (qt_next t) message_id server_id domain 0 bulk None None None])
     (qt_next t + 1)).
Definition enqueue (message_id : Z) (server_id : Id) (domain : bytes) (t : QueueTable) : Z * QueueTable :=
  enqueue_with_kind message_id server_id domain false t.

(** [2_i32.pow(attempts.clamp(0, 10) as u32)] *)
Definition retry_delay_minutes (attempts : Z) : Z := 2 ^ (Z.max 0 (Z.min 10 attempts)).
Definition minutes (n : Z) : Z := n * 60 * 1000000000.

(** The rows a queue mutation addresses: by id, and by message and tenant when an
    owner is given. *)
Definition addressed (id : Z) (owner : option (Z * Id)) (r : QueuedMessageRow) : bool :=
  (q_id r =? id)%Z
  && match owner with
     | Some (message_id, server_id) => (q_message_id r =? message_id)%Z && (q_server_id r =? server_id)%N
     | None => true
     end.

Definition complete_message (id : Z) (owner : option (Z * Id)) (t : QueueTable) : QueueTable :=
  t <| qt_rows := List.filter (λ r, negb (addressed id owner r)) (qt_rows t) |>.

Definition unlocked_for_retry (now : datetime) (attempts : Z) (r : QueuedMessageRow) : QueuedMessageRow :=
  r <| q_locked_by := None |> <| q_locked_at := None |> <| q_attempts := (q_attempts r + 1)%Z |>
    <| q_retry_after := Some (now + minutes (retry_delay_minutes attempts))%Z |>.
Definition retry_message (now : datetime) (id : Z) (attempts : Z) (owner : option (Z * Id))
    (t : QueueTable) : QueueTable :=
  t <| qt_rows := map (λ r, if addressed id owner r then unlocked_for_retry now attempts r else r) (qt_rows t) |>.

Definition queue_size (t : QueueTable) : Z := Z.of_nat (length (qt_rows t)).
Definition clear_backoff (t : QueueTable) : QueueTable :=
  t <| qt_rows := map (λ r, r <| q_retry_after := None |> <| q_locked_by := None |>) (qt_rows t) |>.

(** ** Turns *)

Record Turns := mkTurns { tn_counter : N; tn_last : gmap Id N }.
Definition turns_default : Turns := mkTurns 0 ∅.
Definition last_served (t : Turns) (server_id : Id) : option N := tn_last t !! server_id.
(** The counter is a [u64] that wraps. *)
Definition served (server_id : Id) (t : Turns) : Turns :=
  let last := if (10000 <? N.of_nat (size (tn_last t)))%N then ∅ else tn_last t in
  mkTurns ((tn_counter t + 1) mod 18446744073709551616)%N (<[server_id := tn_counter t]> last).

Record Candidate := mkCandidate { cd_server_id : Id; cd_in_flight : Z; cd_oldest : Z }.

(** The lexicographic order of the sort keys. *)
Definition key_le (a b : Z * Z * Z) : bool :=
  (a.1.1 <? b.1.1)%Z
  || ((a.1.1 =? b.1.1)%Z && ((a.1.2 <? b.1.2)%Z || ((a.1.2 =? b.1.2)%Z && (a.2 <=? b.2)%Z))).
Definition turn_key (last : Id → option N) (c : Candidate) : Z * Z * Z :=
  (cd_in_flight c, match last (cd_server_id c) with Some turn => Z.of_N turn + 1 | None => 0 end, cd_oldest c)%Z.
Definition turn_order (candidates : list Candidate) (last : Id → option N) : list Id :=
  map cd_server_id (stable_sort (λ a b, key_le (turn_key last a) (turn_key last b)) candidates).

(** ** Dequeuing *)

Record PgQueue := mkPgQueue { pq_stale_lock_days : Z; pq_filter : QueueFilter; pq_turns : Turns }.
#[export] Instance eta_PgQueue : Eta PgQueue := λ p, mkPgQueue (pq_stale_lock_days p) (pq_filter p) (pq_turns p).

Definition DEFAULT_STALE_LOCK_DAYS : Z := 1.
Definition queue_new : PgQueue := mkPgQueue DEFAULT_STALE_LOCK_DAYS filter_default turns_default.
Definition with_filter (f : QueueFilter) (p : PgQueue) : PgQueue := p <| pq_filter := f |>.
Definition with_stale_lock_days (stale_lock_days : Z) : PgQueue :=
  mkPgQueue (Z.max 1 stale_lock_days) filter_default turns_default.

(** [locked_by IS NULL OR locked_at < now() - make_interval(days => $n)]: a
    comparison with NULL is not true. *)
Definition lock_free (stale_days : Z) (now : datetime) (r : QueuedMessageRow) : bool :=
  match q_locked_by r with
  | None => true
  | Some _ => match q_locked_at r with Some at_ => (at_ <? now - days stale_days)%Z | None => false end
  end.
Definition due (now : datetime) (r : QueuedMessageRow) : bool :=
  match q_retry_after r with Some at_ => (at_ <=? now)%Z | None => true end.
Definition of_kind (f : QueueFilter) (r : QueuedMessageRow) : bool :=
  match bulk_param f with Some b => Bool.eqb (q_bulk r) b | None => true end.
Definition serves (f : QueueFilter) (server_id : Id) : bool :=
  match qf_servers f with Some l => existsb (N.eqb server_id) l | None => true end
  && negb (existsb (N.eqb server_id) (qf_exclude_servers f)).

Definition in_flight (stale_days : Z) (now : datetime) (rows : list QueuedMessageRow) (server_id : Id) : Z :=
  Z.of_nat (length (List.filter (λ r, (q_server_id r =? server_id)%N
    && match q_locked_by r, q_locked_at r with
       | Some _, Some at_ => (now - days stale_days <=? at_)%Z
       | _, _ => false
       end) rows)).

(** [SELECT server_id, min(id), in_flight ... GROUP BY server_id
    ORDER BY in_flight, oldest LIMIT 1000]. *)
Definition eligible (p : PgQueue) (now : datetime) (r : QueuedMessageRow) : bool :=
  lock_free (pq_stale_lock_days p) now r && due now r && serves (pq_filter p) (q_server_id r)
  && of_kind (pq_filter p) r.
Definition min_id (rows : list QueuedMessageRow) : Z :=
  match rows with [] => 0 | r :: rest => fold_left (λ m r, Z.min m (q_id r)) rest (q_id r) end.
Definition candidates (p : PgQueue) (now : datetime) (t : QueueTable) : list Candidate :=
  let ready := List.filter (eligible p now) (qt_rows t) in
  let group server_id :=
    mkCandidate server_id (in_flight (pq_stale_lock_days p) now (qt_rows t) server_id)
      (min_id (List.filter (λ r, (q_server_id r =? server_id)%N) ready)) in
  take (N.to_nat 1000)
    (stable_sort (λ a b, key_le (0, cd_in_flight a, cd_oldest a) (0, cd_in_flight b, cd_oldest b))
       (map group (remove_dups (map q_server_id ready))))%Z.

(** [UPDATE ... WHERE id = (SELECT ... ORDER BY bulk, id LIMIT 1 FOR UPDATE SKIP
    LOCKED) RETURNING *] *)
Definition bulk_then_id (a b : QueuedMessageRow) : bool :=
  key_le (0, if q_bulk a then 1 else 0, q_id a)%Z (0, if q_bulk b then 1 else 0, q_id b)%Z.
Definition lock_row (worker_id : bytes) (now : datetime) (r : QueuedMessageRow) : QueuedMessageRow :=
  r <| q_locked_by := Some worker_id |> <| q_locked_at := Some now |>.
Definition lock_first (p : PgQueue) (worker_id : bytes) (now : datetime) (busy : list Z) (server_id : Id)
    (t : QueueTable) : option (QueuedMessageRow * QueueTable) :=
  let pickable r := (q_server_id r =? server_id)%N && lock_free (pq_stale_lock_days p) now r && due now r
                    && of_kind (pq_filter p) r && negb (existsb (Z.eqb (q_id r)) busy) in
  match head (stable_sort bulk_then_id (List.filter pickable (qt_rows t))) with
  | None => None
  | Some r =>
      Some (lock_row worker_id now r,
            t <| qt_rows := map (λ x, if (q_id x =? q_id r)%Z then lock_row worker_id now x else x) (qt_rows t) |>)
  end.

(** The loop of [dequeue] over the servers, with no statement of another worker in
    between; [QueueFacts] interleaves them. *)
Fixpoint try_servers (p : PgQueue) (worker_id : bytes) (now : datetime) (busy : list Z) (servers : list Id)
    (t : QueueTable) : option QueuedMessageRow * PgQueue * QueueTable :=
  match servers with
  | [] => (None, p, t)
  | server_id :: rest =>
      match lock_first p worker_id now busy server_id t with
      | Some (row, t) => (Some row, p <| pq_turns := served server_id (pq_turns p) |>, t)
      | None => try_servers p worker_id now busy rest t
      end
  end.
Definition dequeue (p : PgQueue) (worker_id : bytes) (now : datetime) (busy : list Z) (t : QueueTable) :
    option QueuedMessageRow * PgQueue * QueueTable :=
  try_servers p worker_id now busy (turn_order (candidates p now t) (last_served (pq_turns p))) t.

Definition complete (id : Z) (t : QueueTable) : QueueTable := complete_message id None t.
Definition retry (now : datetime) (id attempts : Z) (t : QueueTable) : QueueTable :=
  retry_message now id attempts None t.

(** The tests of the source. *)
Example a_single_worker_takes_turns_between_servers :
  turn_order [mkCandidate 1 0 10; mkCandidate 2 0 500; mkCandidate 3 0 900]
    (λ id, if (id =? 1)%N then Some 7%N else if (id =? 2)%N then Some 3%N else None) = [3; 2; 1]%N.
Proof. vm_compute. reflexivity. Qed.
Example concurrent_workers_spread_over_servers :
  turn_order [mkCandidate 1 4 10; mkCandidate 2 0 500] (λ _, None) = [2; 1]%N.
Proof. vm_compute. reflexivity. Qed.
