(* ===== verification/Mime.v ===== *)
(** * Mime: transfer encodings and the display bodies of a stored message

    [camelmailer-core/src/mime.rs], the reading half: the building half only calls
    the mail-builder crate.  [decode_quoted_printable] is written three times in the
    source (here, in the worker's [arf.rs] and in its [tracking.rs]) with the same
    text up to the shape of the loop; the model has it once. *)

From S2P Require Import Prelude RustStr Net Message Bounce.

(** [base64::STANDARD.decode]: the canonical padding is required.  The documented
    alphabet of [encode] has no white space. *)
Class Base64 `{!Crates} := {
  b64_decode_padded : bytes → option bytes;
  b64_padded_roundtrip s : b64_decode_padded (b64_encode s) = Some s;
  b64_alphabet s : forallb (λ c, negb (is_ascii_whitespace c)) (b64_encode s) = true;
}.

(** ** Hexadecimal escapes *)

(** [u8::from_str_radix(hex, 16)] of two bytes: a plus sign may stand first. *)
Definition hex_byte_value (a b : ascii) : option ascii :=
  if Ascii.eqb a "+" then ascii_of_N <$> hex_val b
  else h ← hex_val a; l ← hex_val b; Some (ascii_of_N (h * 16 + l)).

Fixpoint decode_quoted_printable (body : bytes) : bytes :=
  match body with
  | [] => []
  | c :: t =>
      if negb (Ascii.eqb c "=") then c :: decode_quoted_printable t
      else match t with
           | [] => [c]
           | a :: t1 =>
               if Ascii.eqb a LF then decode_quoted_printable t1
               else match t1 with
                    | [] => c :: decode_quoted_printable t
                    | b :: t2 =>
                        if Ascii.eqb a CR && Ascii.eqb b LF then decode_quoted_printable t2
                        else match hex_byte_value a b with
                             | Some byte => byte :: decode_quoted_printable t2
                             | None => c :: decode_quoted_printable t
                             end
                    end
           end
  end.

Example soft_breaks_and_escapes :
  decode_quoted_printable (!"a=3Db=" ++ CRLF ++ !"c=xd=" ++ [LF] ++ !"e=+fg=4")
  = !"a=bc=xde" ++ [ascii_of_N 15] ++ !"g=4".
Proof. vm_compute. reflexivity. Qed.

(** ** Headers and offsets *)

Definition header_of (headers : list (bytes * bytes)) (name : bytes) : option bytes :=
  snd <$> List.find (λ kv, kv.1 =b name) headers.

Definition body_offset (raw : bytes) : option nat :=
  match find_sub (CRLF ++ CRLF) raw with
  | Some i => Some (i + 4)
  | None => match find_sub [LF; LF] raw with Some i => Some (i + 2) | None => None end
  end.

(** [split(pattern)] for a non-empty literal; the fuel is the length of the text. *)
Fixpoint split_sub_go (fuel : nat) (p s : bytes) : list bytes :=
  match fuel with
  | O => [s]
  | S fuel => match find_sub p s with
              | Some i => take i s :: split_sub_go fuel p (drop (i + length p) s)
              | None => [s]
              end
  end.
Definition split_sub (p s : bytes) : list bytes := split_sub_go (length s) p s.

Fixpoint find_map {A B} (f : A → option B) (l : list A) : option B :=
  match l with
  | [] => None
  | x :: t => match f x with Some y => Some y | None => find_map f t end
  end.

Section Bodies.
Context `{!UnicodeCase, !Crates, !Base64}.

Definition multipart_boundary (content_type : bytes) : option bytes :=
  if negb (starts_with (to_lowercase (trim content_type)) !"multipart/") then None
  else find_map (λ part,
    let part := trim part in
    value ← match strip_prefix !"boundary=" part with
            | Some v => Some v
            | None => strip_prefix !"Boundary=" part
            end;
    Some (trim_matches (is_byte DQ) value)) (split_on (is_byte ";") content_type).

Definition b64_blank (c : ascii) : bool := Ascii.eqb c SP || Ascii.eqb c TAB || Ascii.eqb c CR || Ascii.eqb c LF.

Definition decode_body (encoding : option bytes) (body : bytes) : bytes :=
  let encoding := to_lowercase (trim (from_option id [] encoding)) in
  if encoding =b !"base64" then
    from_option id body (b64_decode_padded (List.filter (λ c, negb (b64_blank c)) body))
  else if encoding =b !"quoted-printable" then decode_quoted_printable body
  else body.

Record ExtractedBodies := mkExtractedBodies { eb_html : option bytes; eb_text : option bytes }.
Definition bodies_default : ExtractedBodies := mkExtractedBodies None None.

(** The pieces of a multipart body: up to the closing delimiter, without the line
    breaks next to the delimiters. *)
Definition strip_break_front (piece : bytes) : bytes :=
  match strip_prefix CRLF piece with
  | Some p => p
  | None => from_option id piece (strip_prefix [LF] piece)
  end.
Definition strip_break_back (part : bytes) : bytes :=
  match strip_suffix CRLF part with
  | Some p => p
  | None => from_option id part (strip_suffix [LF] part)
  end.
Fixpoint open_pieces (pieces : list bytes) : list bytes :=
  match pieces with
  | [] => []
  | piece :: rest =>
      if starts_with piece !"--" then []
      else strip_break_back (strip_break_front piece) :: open_pieces rest
  end.

(** [walk_parts]; the fuel is [9 - depth]. *)
Fixpoint walk_parts (fuel : nat) (raw : bytes) (bodies : ExtractedBodies) : ExtractedBodies :=
  match fuel with
  | O => bodies
  | S fuel =>
      match eb_html bodies, eb_text bodies with
      | Some _, Some _ => bodies
      | _, _ =>
          let headers := parse_headers raw in
          let content_type := from_option id !"text/plain" (header_of headers !"content-type") in
          let body := match body_offset raw with Some offset => drop offset raw | None => [] end in
          match multipart_boundary content_type with
          | Some boundary =>
              fold_left (λ bodies part, walk_parts fuel part bodies)
                (open_pieces (tail (split_sub (!"--" ++ boundary) (from_utf8_lossy body)))) bodies
          | None =>
              let media_type := to_lowercase (trim (from_option id [] (head (split_on (is_byte ";") content_type)))) in
              if starts_with (to_lowercase (trim (from_option id [] (header_of headers !"content-disposition"))))
                   !"attachment" then bodies
              else
                let bytes := decode_body (header_of headers !"content-transfer-encoding") body in
                let decoded := match bytes with [] => None | _ => Some (from_utf8_lossy bytes) end in
                if (media_type =b !"text/html") && negb (bool_decide (is_Some (eb_html bodies)))
                then mkExtractedBodies decoded (eb_text bodies)
                else if ((media_type =b !"text/plain") || (media_type =b []))
                        && negb (bool_decide (is_Some (eb_text bodies)))
                then mkExtractedBodies (eb_html bodies) decoded
                else bodies
          end
      end
  end.

Definition extract_bodies (raw_message : bytes) : ExtractedBodies := walk_parts 9 raw_message bodies_default.
End Bodies.
