(* ===== verification/Tracking.v ===== *)
(** * Tracking: open and click tracking of outgoing HTML

    [camelmailer-worker/src/tracking.rs].  Slices of the raw message are lists with
    their offset; [None] of a doubly optional result is the panic of a string slice
    away from a character boundary. *)

From S2P Require Import Prelude RustStr Net Message Bounce Mime.

(** ** UTF-8 *)

(** [char::len_utf8] of the first character of a valid [str]. *)
Definition char_len (s : bytes) : nat :=
  match s with
  | [] => 1
  | c :: _ => if (byte_n c <? 128)%N then 1 else if (byte_n c <? 224)%N then 2
              else if (byte_n c <? 240)%N then 3 else 4
  end.

(** [chars().take(n)] *)
Fixpoint take_chars (n : nat) (s : bytes) : bytes :=
  match n, s with
  | O, _ | _, [] => []
  | S n, _ => take (char_len s) s ++ take_chars n (drop (char_len s) s)
  end.

(** [char::from_u32] and [String::push]. *)
Definition push_char (code : N) : option bytes :=
  let cont n := ascii_of_N (128 + N.land n 63) in
  if (code <? 128)%N then Some [ascii_of_N code]
  else if (code <? 2048)%N then Some [ascii_of_N (192 + N.shiftr code 6); cont code]
  else if (55296 <=? code)%N && (code <=? 57343)%N then None
  else if (code <? 65536)%N then
    Some [ascii_of_N (224 + N.shiftr code 12); cont (N.shiftr code 6); cont code]
  else if (code <=? 1114111)%N then
    Some [ascii_of_N (240 + N.shiftr code 18); cont (N.shiftr code 12); cont (N.shiftr code 6); cont code]
  else None.

(** [u32::from_str_radix(_, 16)] *)
Fixpoint hex_digits (acc : N) (s : bytes) : option N :=
  match s with
  | [] => Some acc
  | c :: t => d ← hex_val c; let acc := (acc * 16 + d)%N in
              if (4294967295 <? acc)%N then None else hex_digits acc t
  end.
Definition parse_hex_u32 (s : bytes) : option N :=
  let digits := match s with c :: t => if Ascii.eqb c "+" then t else s | [] => s end in
  match digits with [] => None | _ => hex_digits 0 digits end.

(** ** Links *)

Definition decode_one_entity (entity : bytes) : option bytes :=
  if entity =b !"amp" then Some !"&"
  else if entity =b !"lt" then Some !"<"
  else if entity =b !"gt" then Some !">"
  else if entity =b !"quot" then Some [DQ]
  else if entity =b !"apos" then Some !"'"
  else
    number ← strip_prefix !"#" entity;
    code ← match number with
           | c :: hex => if Ascii.eqb c "x" || Ascii.eqb c "X" then parse_hex_u32 hex else parse_u32 number
           | [] => parse_u32 number
           end;
    push_char code.

Fixpoint decode_entities_go (fuel : nat) (input : bytes) : bytes :=
  match fuel, input with
  | _, [] => []
  | O, _ => []
  | S fuel, c :: t =>
      let copy (_ : unit) := take (char_len input) input ++ decode_entities_go fuel (drop (char_len input) input) in
      if Ascii.eqb c "&" then
        match find_byte (is_byte ";") input with
        | Some semicolon =>
            match decode_one_entity (take (semicolon - 1) t) with
            | Some decoded => decoded ++ decode_entities_go fuel (drop (semicolon + 1) input)
            | None => copy tt
            end
        | None => copy tt
        end
      else copy tt
  end.
Definition decode_html_entities (input : bytes) : bytes :=
  if negb (contains input !"&") then input else decode_entities_go (length input) input.

Section Tracking.
Context `{!UnicodeCase, !Crates, !Base64}.

(** The offset of the value behind its opening quote, and the quote. *)
Definition match_href (slice : bytes) : option (option (nat * ascii)) :=
  if negb (starts_with (to_lowercase slice) !"href") then Some None
  else
    attribute ← slice_from slice 4;
    let after := trim_start attribute in
    let consumed_ws := length attribute - length after in
    Some (after ← strip_prefix !"=" after;
          let after_eq := trim_start after in
          let consumed_ws2 := length after - length after_eq in
          quote ← head after_eq;
          if negb (Ascii.eqb quote DQ) && negb (Ascii.eqb quote "'") then None
          else Some (4 + consumed_ws + 1 + consumed_ws2 + 1, quote)).

Definition is_http (url : bytes) : bool := starts_with url !"http://" || starts_with url !"https://".

(** [rewrite_links]; the registrar threads its state. *)
Fixpoint rewrite_go {A} (make_click_url : A → bytes → bytes * A) (fuel : nat) (html : bytes) (st : A) :
    option (bytes * list bytes * A) :=
  match fuel, html with
  | _, [] => Some ([], [], st)
  | O, _ => None
  | S fuel, _ =>
      href ← match_href html;
      let copy (_ : unit) :=
        '(out, urls, st) ← rewrite_go make_click_url fuel (drop (char_len html) html) st;
        Some (take (char_len html) html ++ out, urls, st) in
      match href with
      | Some (attr_end, quote) =>
          match find_byte (is_byte quote) (drop attr_end html) with
          | Some close =>
              let raw_url := take close (drop attr_end html) in
              let decoded := decode_html_entities raw_url in
              let '(url, urls1, st) :=
                if is_http decoded
                then let '(click, st) := make_click_url st decoded in (click, [decoded], st)
                else (raw_url, [], st) in
              '(out, urls, st) ← rewrite_go make_click_url fuel (drop close (drop attr_end html)) st;
              Some (take attr_end html ++ url ++ out, urls1 ++ urls, st)
          | None => copy tt
          end
      | None => copy tt
      end
  end.
Definition rewrite_links {A} (make_click_url : A → bytes → bytes * A) (html : bytes) (st : A) :
    option (bytes * list bytes * A) := rewrite_go make_click_url (length html) html st.

(** ** The open pixel *)

Definition open_pixel (pixel_url : bytes) : bytes :=
  !"<img src=" ++ [DQ] ++ pixel_url ++ [DQ] ++ !" alt=" ++ [DQ; DQ] ++ !" width=" ++ [DQ] ++ !"1" ++ [DQ]
  ++ !" height=" ++ [DQ] ++ !"1" ++ [DQ] ++ !" style=" ++ [DQ] ++ !"display:none" ++ [DQ] ++ !"/>".

(** [str::rfind] of a literal. *)
Fixpoint rfind_sub (p s : bytes) : option nat :=
  match s with
  | [] => if starts_with s p then Some 0 else None
  | _ :: t => match rfind_sub p t with
              | Some i => Some (S i)
              | None => if starts_with s p then Some 0 else None
              end
  end.

(** The position is one of the lower-cased text; [None] is the panic. *)
Definition inject_open_pixel (html pixel_url : bytes) : option bytes :=
  let pixel := open_pixel pixel_url in
  match rfind_sub !"</body>" (to_lowercase html) with
  | Some position =>
      front ← slice_to html position;
      back ← slice_from html position;
      Some (front ++ pixel ++ back)
  | None => Some (html ++ pixel)
  end.

(** ** Signed messages *)

Definition header_is_multipart_signed (lowercased_headers : bytes) : bool :=
  existsb (λ line, starts_with line !"content-type:" && contains line !"multipart/signed")
    (str_lines lowercased_headers).

Definition is_signed (raw_message : bytes) : bool :=
  let offset := from_option id (length raw_message) (body_offset raw_message) in
  let headers := to_lowercase (from_utf8_lossy (take offset raw_message)) in
  if header_is_multipart_signed headers then true
  else
    let body := from_utf8_lossy (drop offset raw_message) in
    contains body !"-----BEGIN PGP SIGNED MESSAGE-----" || contains body !"-----BEGIN PGP SIGNATURE-----".

(** ** The HTML part *)

Inductive Encoding := Identity | QuotedPrintable | Base64Encoding.
Record HtmlPart := mkHtmlPart { hp_start : nat; hp_end : nat; hp_encoding : Encoding }.
Definition MAX_DEPTH : nat := 8.

Definition parameter (value name : bytes) : option bytes :=
  find_map (λ part,
    '(key, raw) ← split_once (is_byte "=") (trim part);
    if eq_ignore_ascii_case (trim key) name then Some (trim_matches (is_byte DQ) (trim raw)) else None)
    (tail (split_on (is_byte ";") value)).

(** The delimiter lines: start, end, closing.  The fuel is the length of the body
    and one; the loop advances [at] by at least one byte. *)
Fixpoint delimiter_lines (fuel : nat) (body delimiter : bytes) (at_ : nat) : list (nat * nat * bool) :=
  match fuel with
  | O => []
  | S fuel =>
      if (at_ + length delimiter <=? length body)%nat then
        let line_start := (at_ =? 0)%nat || match body !! (at_ - 1) with Some c => Ascii.eqb c LF | None => false end in
        if line_start && starts_with (drop at_ body) delimiter then
          let rest := drop (at_ + length delimiter) body in
          let closing := starts_with rest !"--" in
          let line_end := match find_byte (is_byte LF) rest with
                          | Some p => at_ + length delimiter + p + 1
                          | None => length body
                          end in
          (at_, line_end, closing) :: (if closing then [] else delimiter_lines fuel body delimiter line_end)
        else delimiter_lines fuel body delimiter (at_ + 1)
      else []
  end.

(** One pair of neighbouring delimiter lines: the part between them, without the
    line break before the second. *)
Definition part_range (body : bytes) (start next : nat) : nat * nat :=
  let byte_before i := match body !! (i - 1) with Some c => c | None => NUL end in
  let end_ :=
    if (start <? next)%nat && Ascii.eqb (byte_before next) LF then
      let e := next - 1 in
      if (start <? e)%nat && Ascii.eqb (byte_before e) CR then e - 1 else e
    else next in
  (start, Nat.max end_ start).
Fixpoint windows2 (body : bytes) (lines : list (nat * nat * bool)) : list (nat * nat) :=
  match lines with
  | l0 :: ((l1 :: _) as rest) => part_range body l0.1.2 l1.1.1 :: windows2 body rest
  | _ => []
  end.
Definition multipart_ranges (body boundary : bytes) : list (nat * nat) :=
  windows2 body (delimiter_lines (S (length body)) body (!"--" ++ boundary) 0).

Definition slice (s : bytes) (i j : nat) : bytes := take (j - i) (drop i s).

Definition part_encoding (headers : list (bytes * bytes)) : Encoding :=
  let encoding := to_ascii_lowercase (trim (from_option id [] (header_of headers !"content-transfer-encoding"))) in
  if encoding =b !"quoted-printable" then QuotedPrintable
  else if encoding =b !"base64" then Base64Encoding else Identity.
Definition is_attachment (headers : list (bytes * bytes)) : bool :=
  match header_of headers !"content-disposition" with
  | Some d => starts_with (to_ascii_lowercase (trim d)) !"attachment"
  | None => false
  end.
Definition charset_ok (content_type : bytes) : bool :=
  match parameter content_type !"charset" with
  | Some charset =>
      let c := to_ascii_lowercase charset in
      (c =b !"utf-8") || (c =b !"utf8") || (c =b !"us-ascii")
  | None => true
  end.

(** [find_html]; the fuel is [MAX_DEPTH + 1 - depth]. *)
Fixpoint find_html (fuel : nat) (raw : bytes) (base_ : nat) : option HtmlPart :=
  match fuel with
  | O => None
  | S fuel =>
      let headers := parse_headers raw in
      let content_type := from_option id !"text/plain" (header_of headers !"content-type") in
      offset ← body_offset raw;
      let body := drop offset raw in
      let media := to_ascii_lowercase (trim (from_option id [] (head (split_on (is_byte ";") content_type)))) in
      if starts_with media !"multipart/" then
        if media =b !"multipart/signed" then None
        else
          boundary ← parameter content_type !"boundary";
          find_map (λ range, find_html fuel (slice body range.1 range.2) (base_ + offset + range.1))
            (multipart_ranges body boundary)
      else if negb (media =b !"text/html") || is_attachment headers then None
      else if negb (charset_ok content_type) then None
      else Some (mkHtmlPart (base_ + offset) (base_ + length raw) (part_encoding headers))
  end.

(** ** Encodings *)

Definition hex_digit_upper (n : N) : ascii := ascii_of_N (if (n <? 10)%N then 48 + n else 55 + n).
Definition escape (c : ascii) : bytes :=
  ["="%char; hex_digit_upper (N.shiftr (byte_n c) 4); hex_digit_upper (N.land (byte_n c) 15)].
Definition qp_piece (c : ascii) (last : bool) : bytes :=
  if ((Ascii.eqb c SP || Ascii.eqb c TAB) && negb last) || (b_in 33 126 c && negb (Ascii.eqb c "="))
  then [c] else escape c.
Fixpoint qp_line (width : nat) (line : bytes) : bytes :=
  match line with
  | [] => []
  | c :: t =>
      let piece := qp_piece c (match t with [] => true | _ => false end) in
      if (75 <? width + length piece)%nat
      then !"=" ++ CRLF ++ piece ++ qp_line (length piece) t
      else piece ++ qp_line (width + length piece) t
  end.
Definition encode_quoted_printable (text : bytes) : bytes :=
  join CRLF (map (λ line, qp_line 0 (strip_cr line)) (split_on (is_byte LF) text)).

Fixpoint chunks_go (fuel n : nat) (s : bytes) : list bytes :=
  match fuel, s with
  | _, [] => []
  | O, _ => []
  | S fuel, _ => take n s :: chunks_go fuel n (drop n s)
  end.
Definition chunks (n : nat) (s : bytes) : list bytes := chunks_go (length s) n s.

Definition decode (encoding : Encoding) (body : bytes) : option bytes :=
  match encoding with
  | Identity => Some body
  | QuotedPrintable => Some (decode_quoted_printable body)
  | Base64Encoding => b64_decode_padded (List.filter (λ c, negb (is_ascii_whitespace c)) body)
  end.
Definition encode (encoding : Encoding) (text : bytes) : bytes :=
  match encoding with
  | Identity => text
  | QuotedPrintable => encode_quoted_printable text
  | Base64Encoding => join CRLF (chunks 76 (b64_encode text))
  end.

(** [String::from_utf8]: the lossy decoding changes nothing. *)
Definition from_utf8 (s : bytes) : option bytes := if from_utf8_lossy s =b s then Some s else None.

Definition html_of (raw_message : bytes) : option bytes :=
  part ← find_html (S MAX_DEPTH) raw_message 0;
  text ← decode (hp_encoding part) (slice raw_message (hp_start part) (hp_end part));
  from_utf8 text.

Definition with_html (raw_message html : bytes) : option bytes :=
  part ← find_html (S MAX_DEPTH) raw_message 0;
  Some (take (hp_start part) raw_message ++ encode (hp_encoding part) html ++ drop (hp_end part) raw_message).
End Tracking.
