(* ===== verification/Arf.v ===== *)
(** * Arf: spam-complaint reports of feedback loops

    [camelmailer-worker/src/arf.rs].  The file's own [header], quoted-printable
    decoder and MIME walk; the decoder is the one of [Mime].  An error carries the
    content type it complains about, not the formatted sentence. *)

From S2P Require Import Prelude RustStr Net Message Bounce Mime Tracking.

Inductive ArfError :=
| NotFeedbackReport (content_type : bytes)
| MissingPart (name : bytes).

Record FeedbackReport := mkFeedbackReport {
  fr_feedback_type : bytes;
  fr_unsubscribe_token : option bytes;
  fr_original_rcpt : option bytes;
  fr_user_agent : option bytes;
  fr_message_tokens : list bytes;
  fr_original_message_id : option bytes;
  fr_original_to : option bytes;
}.

(** [inner.contains(char::is_whitespace)] *)
Fixpoint contains_whitespace (s : bytes) : bool :=
  starts_with_whitespace s || match s with [] => false | _ :: t => contains_whitespace t end.

(** The text between the first [<] and the last [>], when they stand in this order. *)
Definition bracketed (value : bytes) : bytes :=
  match find_byte (is_byte "<") value, rfind_byte (is_byte ">") value with
  | Some open_, Some close => if (open_ <? close)%nat then slice value (open_ + 1) close else value
  | _, _ => value
  end.

Definition bare_address (value : bytes) : option bytes :=
  let first := from_option id value (head (split_on (is_byte ",") value)) in
  let inner := trim (bracketed first) in
  let inner := trim (match strip_prefix !"rfc822;" inner with
                     | Some rest => rest
                     | None => from_option id inner (strip_prefix !"RFC822;" inner)
                     end) in
  if contains inner !"@" && negb (contains_whitespace inner) then Some inner else None.

Definition recipient (r : FeedbackReport) : option bytes :=
  match fr_original_rcpt r with Some value => bare_address value | None => fr_original_to r ≫= bare_address end.

(** ** The MIME tree *)

(** Everything after the first empty line; a line ends at LF, with an optional CR. *)
Fixpoint body_of (fuel : nat) (raw : bytes) : bytes :=
  match fuel, raw with
  | _, [] => []
  | O, _ => []
  | S fuel, _ =>
      match find_byte (is_byte LF) raw with
      | Some p => match strip_cr (take p raw) with
                  | [] => drop (p + 1) raw
                  | _ => body_of fuel (drop (p + 1) raw)
                  end
      | None => []
      end
  end.

Section Arf.
Context `{!UnicodeCase, !Crates, !Base64}.

Definition arf_multipart_boundary (content_type : bytes) : option bytes :=
  if negb (starts_with (to_lowercase (trim content_type)) !"multipart/") then None
  else find_map (λ parameter,
    let parameter := trim parameter in
    value ← match strip_prefix !"boundary=" parameter with
            | Some v => Some v
            | None => match strip_prefix !"BOUNDARY=" parameter with
                      | Some v => Some v
                      | None => strip_prefix !"Boundary=" parameter
                      end
            end;
    Some (trim_matches (is_byte DQ) value)) (tail (split_on (is_byte ";") content_type)).

Definition decode_leaf (headers : list (bytes * bytes)) (body : bytes) : bytes :=
  let encoding := to_lowercase (trim (from_option id [] (header_of headers !"content-transfer-encoding"))) in
  if encoding =b !"base64" then
    from_option id body (b64_decode_padded (List.filter (λ c, negb (is_ascii_whitespace c)) body))
  else if encoding =b !"quoted-printable" then decode_quoted_printable body
  else body.

(** The content type and the decoded body of every leaf, depth first; the fuel is
    [MAX_MIME_DEPTH + 1 - depth]. *)
Definition MAX_MIME_DEPTH : nat := 5.
Fixpoint collect_parts (fuel : nat) (raw : bytes) : list (bytes * bytes) :=
  match fuel with
  | O => []
  | S fuel =>
      let headers := parse_headers raw in
      let body := body_of (length raw) raw in
      let content_type := from_option id [] (header_of headers !"content-type") in
      match arf_multipart_boundary content_type with
      | Some boundary =>
          let pieces := split_sub (!"--" ++ boundary) (from_utf8_lossy body) in
          let pieces := if (1 <? length pieces)%nat then tail pieces else pieces in
          flat_map (λ piece,
            let piece := from_option id piece (strip_prefix !"--" piece) in
            let piece := trim_start_matches (λ c, Ascii.eqb c CR || Ascii.eqb c LF) piece in
            match trim piece with [] => [] | _ => collect_parts fuel piece end) pieces
      | None => [(content_type, decode_leaf headers body)]
      end
  end.

(** ** Detection *)

Definition content_type_is_feedback_report (content_type : bytes) : bool :=
  let lower := to_lowercase content_type in
  contains lower !"multipart/report"
  && existsb (λ parameter,
       match strip_prefix !"report-type=" (trim parameter) with
       | Some value => eq_ignore_ascii_case (trim_matches (is_byte DQ) value) !"feedback-report"
       | None => false
       end) (tail (split_on (is_byte ";") lower)).

Definition is_feedback_report (raw_message : bytes) : bool :=
  match header_value raw_message !"content-type" with
  | Some value => content_type_is_feedback_report value
  | None => false
  end.

Definition token_char (c : ascii) : bool := is_ascii_alphanumeric c || Ascii.eqb c "-" || Ascii.eqb c "_".
Definition token_from_list_unsubscribe (value : bytes) : option bytes :=
  let marker := !"/track/u/" in
  start ← find_sub marker value;
  match take_while token_char (drop (start + length marker) value) with
  | [] => None
  | token => Some token
  end.

Definition original_headers (raw : bytes) : bytes :=
  let body := body_of (length raw) raw in
  match body with [] => raw | _ => take (length raw - length body) raw end.

(** ** Extraction *)

Definition non_empty (s : bytes) : option bytes := match s with [] => None | _ => Some s end.

Definition feedback_part (parts : list (bytes * bytes)) : option (bytes * bytes) :=
  List.find (λ part, starts_with (trim_start (to_lowercase part.1)) !"message/feedback-report") parts.
Definition original_part (parts : list (bytes * bytes)) : option (bytes * bytes) :=
  List.find (λ part, let lower := trim_start (to_lowercase part.1) in
    starts_with lower !"message/rfc822" || starts_with lower !"message/rfc822-headers") parts.

Definition extract_feedback (raw_message : bytes) : ArfError + FeedbackReport :=
  let content_type := from_option id [] (header_value raw_message !"content-type") in
  if negb (content_type_is_feedback_report content_type) then inl (NotFeedbackReport content_type)
  else
    let parts := collect_parts (S MAX_MIME_DEPTH) raw_message in
    match feedback_part parts with
    | None => inl (MissingPart !"message/feedback-report")
    | Some feedback =>
        let feedback_headers := parse_headers feedback.2 in
        let original : option bytes := snd <$> original_part parts in
        inr (mkFeedbackReport
          (to_lowercase (trim (from_option id [] (header_of feedback_headers !"feedback-type"))))
          (body ← original; value ← header_value body !"list-unsubscribe"; token_from_list_unsubscribe value)
          (value ← header_of feedback_headers !"original-rcpt-to"; non_empty (trim value))
          (value ← header_of feedback_headers !"user-agent"; non_empty (take_chars 255 (trim value)))
          (match original with Some body => original_message_tokens (original_headers body) | None => [] end)
          (body ← original; value ← header_value body !"message-id"; non_empty (trim (bracketed (trim value))))
          (body ← original; value ← header_value body !"to"; bare_address value))
    end.
End Arf.
