(* ===== verification/MailDb.v ===== *)
(** * MailDb: the transactions of the mail tables

    [camelmailer-db/src/pg_store.rs]: [PgMessageSink] and the send and suppression
    operations of [PgStore].  The database is the record of its tables; a
    transaction is one function from it to a result and the new tables, since what
    other transactions may see is its beginning and its end, and an error rolls
    back to the beginning.  A statement on a table under row-level security
    ([messages], [deliveries], [suppressions], [subscriptions],
    [idempotency_requests]; migration 0002) sees the rows of the tenant in context:
    [tenant] below.  [db_now] is the transaction time [now()].  Random tokens are
    functions of the row they belong to. *)

From S2P Require Import Prelude RustStr Net Model SendLimit Message MemoryStore Mime Tracking Queue.

(** What the payloads take from other crates: serde_json's text, the decoded value
    of a header ([mailparse]), a number of milliseconds as seconds in [f64], and
    fresh random texts. *)
Class Payloads := {
  json_to_string : Value → bytes;
  parse_header_value : bytes → option bytes;
  f64_seconds : Z → bytes;
  message_token : Z → bytes;
  tracking_token : nat → bytes;
  request_uuid : Z → bytes;
}.

(** ** Tables *)

Record StoredMessage := mkStoredMessage {
  sg_id : Z;
  sg_server_id : Id;
  sg_token : bytes;
  sg_scope : bytes;
  sg_rcpt_to : bytes;
  sg_mail_from : bytes;
  sg_bounce : bool;
  sg_received_with_ssl : bool;
  sg_domain_id : option Id;
  sg_credential_id : option Id;
  sg_route_id : option Id;
  sg_raw_message : bytes;
  sg_status : bytes;
  sg_bounce_for_id : option Z;
  sg_bounce_correlated_at : option datetime;
  sg_bounce_category : option bytes;
  sg_subject : option bytes;
  sg_message_id_header : option bytes;
  sg_spam_status : bytes;
  sg_spam_score : f64;
  sg_held : bool;
  sg_size : Z;
  sg_threat : bool;
  sg_threat_details : option bytes;
  sg_inspected : bool;
  sg_tag : option bytes;
  sg_metadata : option Value;
  sg_stream_id : option Id;
  sg_created_at : datetime;
}.
#[export] Instance eta_StoredMessage : Eta StoredMessage := λ m,
  mkStoredMessage (sg_id m) (sg_server_id m) (sg_token m) (sg_scope m) (sg_rcpt_to m) (sg_mail_from m)
    (sg_bounce m) (sg_received_with_ssl m) (sg_domain_id m) (sg_credential_id m) (sg_route_id m)
    (sg_raw_message m) (sg_status m) (sg_bounce_for_id m) (sg_bounce_correlated_at m) (sg_bounce_category m)
    (sg_subject m) (sg_message_id_header m) (sg_spam_status m) (sg_spam_score m) (sg_held m) (sg_size m)
    (sg_threat m) (sg_threat_details m) (sg_inspected m) (sg_tag m) (sg_metadata m) (sg_stream_id m)
    (sg_created_at m).

(** A row of [messages]: what [stored_message_from_row] reads, and the columns only
    the read API uses. *)
Record MessageRow := mkMessageRow {
  stored_message_from_row : StoredMessage;
  row_last_delivery_attempt : option datetime;
  row_bypassed : bool;
  row_content_purged_at : option datetime;
}.
#[export] Instance eta_MessageRow : Eta MessageRow := λ r,
  mkMessageRow (stored_message_from_row r) (row_last_delivery_attempt r) (row_bypassed r) (row_content_purged_at r).
Abbreviation stored := stored_message_from_row.
Definition on_stored (f : StoredMessage → StoredMessage) (r : MessageRow) : MessageRow :=
  r <| stored_message_from_row := f (stored r) |>.

Record BounceOriginal := mkBounceOriginal {
  bo_id : Z;
  bo_token : bytes;
  bo_scope : bytes;
  bo_rcpt_to : bytes;
  bo_mail_from : bytes;
  bo_domain_id : option Id;
  bo_subject : option bytes;
  bo_message_id_header : option bytes;
  bo_spam_status : bytes;
  bo_tag : option bytes;
  bo_created_at : datetime;
}.
Definition bounce_original_from_row (r : MessageRow) : BounceOriginal :=
  let m := stored r in
  mkBounceOriginal (sg_id m) (sg_token m) (sg_scope m) (sg_rcpt_to m) (sg_mail_from m) (sg_domain_id m)
    (sg_subject m) (sg_message_id_header m) (sg_spam_status m) (sg_tag m) (sg_created_at m).

Record Delivery := mkDelivery {
  dv_id : Z;
  dv_server_id : Id;
  dv_message_id : Z;
  dv_status : bytes;
  dv_details : bytes;
  dv_output : bytes;
  dv_sent_with_ssl : bool;
}.

Record WebhookRequestRow := mkWebhookRequestRow {
  wr_id : Z;
  wr_server_id : Id;
  wr_webhook_id : Id;
  wr_uuid : bytes;
  wr_event : bytes;
  wr_url : bytes;
  wr_payload : bytes;
  wr_sign : bool;
  wr_attempts : Z;
  wr_headers : list (bytes * bytes);
  wr_locked_by : option bytes;
  wr_locked_at : option datetime;
  wr_retry_after : option datetime;
}.
#[export] Instance eta_WebhookRequestRow : Eta WebhookRequestRow := λ r,
  mkWebhookRequestRow (wr_id r) (wr_server_id r) (wr_webhook_id r) (wr_uuid r) (wr_event r) (wr_url r)
    (wr_payload r) (wr_sign r) (wr_attempts r) (wr_headers r) (wr_locked_by r) (wr_locked_at r) (wr_retry_after r).

Record Suppression := mkSuppression {
  sp_server_id : Id;
  sp_type : bytes;
  sp_address : bytes;
  sp_reason : option bytes;
  sp_stream_id : option Id;
}.

(** Tracking: the links of messages, the public tokens, and the clicks and opens
    recorded under them. *)
Record TrackingTarget := mkTrackingTarget {
  tt_kind : bytes;
  tt_server_id : Id;
  tt_message_id : Z;
  tt_link_id : option Z;
  tt_target_url : option bytes;
}.
Record Activity := mkActivity {
  act_links : list (Z * Id * Z * bytes);
  act_next_link : Z;
  act_tracking_tokens : list (bytes * TrackingTarget);
  act_link_clicks : list (Id * Z * bytes * bytes);
  act_loads : list (Id * Z * bytes * bytes);
}.
#[export] Instance eta_Activity : Eta Activity := λ a,
  mkActivity (act_links a) (act_next_link a) (act_tracking_tokens a) (act_link_clicks a) (act_loads a).

Record MailDb := mkMailDb {
  db_now : datetime;
  db_messages : list MessageRow;
  db_next_message : Z;
  db_deliveries : list Delivery;
  db_next_delivery : Z;
  db_queue : QueueTable;
  db_webhooks : list Webhook;
  db_requests : list WebhookRequestRow;
  db_next_request : Z;
  db_suppressions : list Suppression;
  db_subscriptions : gmap (Id * Id * bytes) bytes;
  db_unsubscribe_tokens : list (bytes * (Id * option Id * bytes));
  db_stream_types : gmap Id bytes;
  db_send_counters : gmap (Id * Z) Z;
  db_server_organizations : gmap Id Id;
  db_organizations : gmap Id (Organization * option Z);
  db_organization_send_counters : gmap (Id * UsageMonth) Z;
  db_usage_alerts : gset (Id * UsageMonth * N);
  db_lifecycle_events : list LifecycleEvent;
  db_idempotency_requests : gmap (Id * bytes) MemoryIdempotencyRecord;
  db_activity : Activity;
}.
#[export] Instance eta_MailDb : Eta MailDb := λ d,
  mkMailDb (db_now d) (db_messages d) (db_next_message d) (db_deliveries d) (db_next_delivery d) (db_queue d)
    (db_webhooks d) (db_requests d) (db_next_request d) (db_suppressions d) (db_subscriptions d)
    (db_unsubscribe_tokens d) (db_stream_types d) (db_send_counters d) (db_server_organizations d)
    (db_organizations d) (db_organization_send_counters d) (db_usage_alerts d) (db_lifecycle_events d)
    (db_idempotency_requests d) (db_activity d).

(** ** Statements *)

Definition row_id (r : MessageRow) : Z := sg_id (stored r).
Definition visible (tenant : Id) (r : MessageRow) : bool := (sg_server_id (stored r) =? tenant)%N.
Definition has_id (tenant : Id) (id : Z) (r : MessageRow) : bool := visible tenant r && (row_id r =? id)%Z.
Definition is_scope (scope : bytes) (r : MessageRow) : bool := sg_scope (stored r) =b scope.

(** [UPDATE messages SET f WHERE P]: the rows affected. *)
Definition update_rows (P : MessageRow → bool) (f : MessageRow → MessageRow) (d : MailDb) : nat * MailDb :=
  (length (List.filter P (db_messages d)),
   d <| db_messages := map (λ r, if P r then f r else r) (db_messages d) |>).

Definition insert_delivery (tenant : Id) (message_id : Z) (status details output : bytes) (sent_with_ssl : bool)
    (d : MailDb) : Z * MailDb :=
  (db_next_delivery d,
   d <| db_deliveries := db_deliveries d ++
          [mkDelivery (db_next_delivery d) tenant message_id status details output sent_with_ssl] |>
     <| db_next_delivery := (db_next_delivery d + 1)%Z |>).

Definition on_queue (f : QueueTable → QueueTable) (d : MailDb) : MailDb := d <| db_queue := f (db_queue d) |>.

Definition message_by_id (d : MailDb) (tenant : Id) (message_id : Z) : option StoredMessage :=
  stored <$> List.find (has_id tenant message_id) (db_messages d).

(** ** Webhook payloads: [webhook_payload.rs] *)

Definition opt_string (s : option bytes) : Value := match s with Some s => VString s | None => VNull end.

Definition postal_webhook_message_id (value : option bytes) : option bytes :=
  match value with
  | Some value =>
      let after_open := match rsplit_once (is_byte "<") value with Some (_, rest) => rest | None => value end in
      Some (trim match split_once (is_byte ">") after_open with
                 | Some (message_id, _) => message_id
                 | None => after_open
                 end)
  | None => None
  end.

Section Transactions.
Context `{PAY : !Payloads}.

Definition postal_webhook_subject (value : option bytes) : bytes :=
  match value with
  | None => []
  | Some value => take_chars 200 (from_option id value (parse_header_value (!"Subject: " ++ value)))
  end.
Definition postal_webhook_timestamp (at_ : datetime) : bytes := f64_seconds (at_ / 1000000).

(** The hash of one message, from the columns both [BounceOriginal] and
    [StoredMessage] have. *)
Definition message_hash (m : BounceOriginal) : Value :=
  VObject [(!"direction", VString (bo_scope m)); (!"from", VString (bo_mail_from m));
    (!"id", VNumber (show_Z (bo_id m)));
    (!"message_id", opt_string (postal_webhook_message_id (bo_message_id_header m)));
    (!"spam_status", VString (bo_spam_status m)); (!"subject", VString (postal_webhook_subject (bo_subject m)));
    (!"tag", opt_string (bo_tag m)); (!"timestamp", VNumber (postal_webhook_timestamp (bo_created_at m)));
    (!"to", VString (bo_rcpt_to m)); (!"token", VString (bo_token m))].

(** ** The webhook outbox *)

Definition request_body (d : MailDb) (event : bytes) (payload : Value) (id : Z) : bytes :=
  json_to_string (VObject [(!"event", VString event); (!"payload", payload);
    (!"timestamp", VNumber (show_Z (db_now d / 1000000000))); (!"uuid", VString (request_uuid id))]).

Definition request_row (server_id : Id) (event : bytes) (payload : Value) (d : MailDb) (w : Webhook) : WebhookRequestRow :=
  let id := db_next_request d in
  mkWebhookRequestRow id server_id (wh_id w) (request_uuid id) event (wh_url w)
    (request_body d event payload id) (wh_sign w) 0 (wh_headers w) None None None.
Definition enqueue_request (server_id : Id) (event : bytes) (payload : Value) (d : MailDb) (w : Webhook) : MailDb :=
  d <| db_requests := db_requests d ++ [request_row server_id event payload d w] |>
    <| db_next_request := (db_next_request d + 1)%Z |>.

Definition subscribers (d : MailDb) (server_id : Id) (event : bytes) : list Webhook :=
  List.filter (λ w, subscribes_to w event)
    (stable_sort (λ a b, (wh_id a <=? wh_id b)%N) (List.filter (λ w, (wh_server_id w =? server_id)%N) (db_webhooks d))).

Definition enqueue_webhook_requests (server_id : Id) (event : bytes) (payload : Value) (d : MailDb) : MailDb :=
  fold_left (enqueue_request server_id event payload) (subscribers d server_id event) d.

(** ** Deliveries *)

Definition set_status (status : bytes) (bounce_category : option bytes) (now : datetime) (r : MessageRow) : MessageRow :=
  on_stored (λ m, m <| sg_status := status |> <| sg_held := status =b !"Held" |>
    <| sg_bounce_category := match bounce_category with Some c => Some c | None => sg_bounce_category m end |>) r
  <| row_last_delivery_attempt := Some now |>.

Definition is_status (status : bytes) (r : MessageRow) : bool := sg_status (stored r) =b status.

Definition record_delivery (tenant : Id) (message_id : Z) (status details output : bytes) (sent_with_ssl : bool)
    (bounce_category : option bytes) (d : MailDb) : option Z * MailDb :=
  let '(updated, d1) := update_rows (λ r, has_id tenant message_id r && negb (is_status !"Bounced" r))
                          (set_status status bounce_category (db_now d)) d in
  if (updated =? 0)%nat then (None, d1)
  else let '(id, d2) := insert_delivery tenant message_id status details output sent_with_ssl d1 in (Some id, d2).

Inductive OutboundQueueAction := Complete | Retry (attempts : Z).

Definition record_outbound_delivery (tenant : Id) (message_id queued_message_id : Z) (status details output : bytes)
    (sent_with_ssl : bool) (bounce_category : option bytes) (queue_action : OutboundQueueAction) (event : bytes)
    (webhook_payload : Value) (d : MailDb) : option Z * MailDb :=
  let '(updated, d1) := update_rows (λ r, has_id tenant message_id r && is_scope !"outgoing" r
                                          && negb (is_status !"Bounced" r))
                          (set_status status bounce_category (db_now d)) d in
  let owner := Some (message_id, tenant) in
  if (updated =? 0)%nat then (None, on_queue (complete_message queued_message_id owner) d1)
  else
    let '(id, d2) := insert_delivery tenant message_id status details output sent_with_ssl d1 in
    let d3 := on_queue match queue_action with
                       | Complete => complete_message queued_message_id owner
                       | Retry attempts => retry_message (db_now d) queued_message_id attempts owner
                       end d2 in
    (Some id, enqueue_webhook_requests tenant event webhook_payload d3).

Definition record_inspection (tenant : Id) (message_id : Z) (spam_status : bytes) (spam_score : f64) (threat : bool)
    (threat_details : option bytes) (d : MailDb) : MailDb :=
  (update_rows (has_id tenant message_id)
    (on_stored (λ m, m <| sg_spam_status := spam_status |> <| sg_spam_score := spam_score |> <| sg_threat := threat |>
                       <| sg_threat_details := threat_details |> <| sg_inspected := true |>)) d).2.

Definition set_spam_result (tenant : Id) (message_id : Z) (spam_status : bytes) (spam_score : f64) (d : MailDb) : MailDb :=
  (update_rows (has_id tenant message_id)
    (on_stored (λ m, m <| sg_spam_status := spam_status |> <| sg_spam_score := spam_score |>)) d).2.

(** ** Bounces *)

(** [id = $1 AND scope = 'incoming' AND bounce] *)
Definition is_dsn (tenant : Id) (id : Z) (r : MessageRow) : bool :=
  has_id tenant id r && is_scope !"incoming" r && sg_bounce (stored r).

Definition record_unmatched_bounce (tenant : Id) (bounce_message_id queued_message_id : Z)
    (bounce_category details : bytes) (d : MailDb) : option Z * MailDb :=
  let '(updated, d1) := update_rows (is_dsn tenant bounce_message_id)
    (λ r, on_stored (λ m, m <| sg_status := !"HardFail" |> <| sg_held := false |>
                            <| sg_bounce_category := Some bounce_category |>) r
          <| row_last_delivery_attempt := Some (db_now d) |>) d in
  let '(id, d2) := if (updated =? 1)%nat
                   then let '(id, d2) := insert_delivery tenant bounce_message_id !"HardFail" details [] false d1 in
                        (Some id, d2)
                   else (None, d1) in
  (id, on_queue (complete_message queued_message_id (Some (bounce_message_id, tenant))) d2).

Inductive BounceCorrelationOutcome := Correlated (original : BounceOriginal) | AlreadyCorrelated | NotMatched.

Fixpoint array_position (tokens : list bytes) (token : bytes) : option nat :=
  match tokens with
  | [] => None
  | x :: rest => if x =b token then Some 0 else S <$> array_position rest token
  end.
(** [WHERE token = ANY($1) AND scope = 'outgoing' ORDER BY array_position($1, token), id LIMIT 1] *)
Definition outgoing_by_tokens (tenant : Id) (tokens : list bytes) (d : MailDb) : option MessageRow :=
  let position r := Z.of_nat (from_option id 0 (array_position tokens (sg_token (stored r)))) in
  head (stable_sort (λ a b, key_le (0, position a, row_id a) (0, position b, row_id b))%Z
    (List.filter (λ r, visible tenant r && is_scope !"outgoing" r
                       && bool_decide (is_Some (array_position tokens (sg_token (stored r))))) (db_messages d))).

Definition correlate_bounce (tenant : Id) (bounce_message_id : Z) (message_tokens : list bytes)
    (bounce_category : bytes) (make_webhook_payload : BounceOriginal → Value) (d : MailDb) :
    BounceCorrelationOutcome * MailDb :=
  match List.find (is_dsn tenant bounce_message_id) (db_messages d) with
  | None => (NotMatched, d)
  | Some bounce =>
      match sg_bounce_correlated_at (stored bounce) with
      | Some _ =>
          (AlreadyCorrelated,
           (update_rows (has_id tenant bounce_message_id)
             (on_stored (λ m, m <| sg_status := !"Processed" |> <| sg_held := false |>)) d).2)
      | None =>
          let d := (update_rows (is_dsn tenant bounce_message_id)
                     (on_stored (λ m, m <| sg_bounce_category := Some bounce_category |>)) d).2 in
          match message_tokens, outgoing_by_tokens tenant message_tokens d with
          | [], _ | _, None => (NotMatched, d)
          | _, Some row =>
              let original := bounce_original_from_row row in
              let '(linked, d) := update_rows
                (λ r, is_dsn tenant bounce_message_id r
                      && negb (bool_decide (is_Some (sg_bounce_correlated_at (stored r)))))
                (λ r, on_stored (λ m, m <| sg_bounce_for_id := Some (bo_id original) |>
                        <| sg_bounce_correlated_at := Some (db_now d) |> <| sg_domain_id := bo_domain_id original |>
                        <| sg_status := !"Processed" |> <| sg_held := false |>) r
                      <| row_last_delivery_attempt := Some (db_now d) |>) d in
              if (linked =? 0)%nat then (NotMatched, d)
              else
                let d := (insert_delivery tenant bounce_message_id !"Processed"
                  (!"This has been detected as a bounce message for <msg:" ++ show_Z (bo_id original) ++ !">.") [] false d).2 in
                let d := (insert_delivery tenant (bo_id original) !"Bounced"
                  (!"We've received a bounce message for this e-mail. See <msg:" ++ show_Z bounce_message_id
                   ++ !"> for details.") [] false d).2 in
                let d := (update_rows (has_id tenant (bo_id original))
                  (λ r, on_stored (λ m, m <| sg_status := !"Bounced" |> <| sg_held := false |>
                                          <| sg_bounce_category := Some bounce_category |>) r
                        <| row_last_delivery_attempt := Some (db_now d) |>) d).2 in
                (Correlated original, enqueue_webhook_requests tenant !"MessageBounced" (make_webhook_payload original) d)
          end
      end
  end.

(** ** Suppressions *)

(** [WHERE address = $1 AND (stream_id IS NULL OR stream_id = $2)] *)
Definition address_suppressed (tenant : Id) (address : bytes) (stream_id : option Id) (d : MailDb) : bool :=
  existsb (λ s, (sp_server_id s =? tenant)%N && (sp_address s =b address)
                && match sp_stream_id s, stream_id with
                   | None, _ => true
                   | Some a, Some b => (a =? b)%N
                   | Some _, None => false
                   end) (db_suppressions d).

(** [ON CONFLICT (server_id, address, COALESCE(stream_id, 0)) DO NOTHING] *)
Definition coalesce (stream_id : option Id) : Id := from_option id 0%N stream_id.
Definition insert_suppression (s : Suppression) (d : MailDb) : MailDb :=
  if existsb (λ x, (sp_server_id x =? sp_server_id s)%N && (sp_address x =b sp_address s)
                   && (coalesce (sp_stream_id x) =? coalesce (sp_stream_id s))%N) (db_suppressions d)
  then d else d <| db_suppressions := db_suppressions d ++ [s] |>.
Definition set_subscription (tenant stream_id : Id) (address status : bytes) (d : MailDb) : MailDb :=
  d <| db_subscriptions := <[(tenant, stream_id, address) := status]> (db_subscriptions d) |>.

(** An opt-out of one stream, or of the server without a stream. *)
Definition opt_out (kind reason : bytes) (tenant : Id) (stream_id : option Id) (address : bytes) (d : MailDb) : MailDb :=
  let d := insert_suppression (mkSuppression tenant kind address (Some reason) stream_id) d in
  match stream_id with
  | Some stream_id => set_subscription tenant stream_id address !"unsubscribed" d
  | None => d
  end.
Definition write_feedback_complaint : Id → option Id → bytes → MailDb → MailDb :=
  opt_out !"complaint" !"Spam complaint (feedback loop)".

Definition resolve_unsubscribe_token (token : bytes) (d : MailDb) : option (Id * option Id * bytes) :=
  snd <$> List.find (λ t, t.1 =b token) (db_unsubscribe_tokens d).
Definition record_unsubscribe (token : bytes) (d : MailDb) : bool * MailDb :=
  match resolve_unsubscribe_token token d with
  | Some (server_id, stream_id, address) =>
      (true, opt_out !"unsubscribe" !"Unsubscribed via List-Unsubscribe" server_id stream_id address d)
  | None => (false, d)
  end.
Definition record_complaint_by_token (token : bytes) (d : MailDb) : bool * MailDb :=
  match resolve_unsubscribe_token token d with
  | Some (server_id, stream_id, address) => (true, write_feedback_complaint server_id stream_id address d)
  | None => (false, d)
  end.
Definition record_complaint (tenant stream_id : Id) (address : bytes) (d : MailDb) : MailDb :=
  opt_out !"complaint" !"Marked as spam" tenant (Some stream_id) address d.

(** ** Feedback complaints *)

Record FeedbackComplaint := mkFeedbackComplaint {
  fc_feedback_type : bytes;
  fc_user_agent : option bytes;
  fc_unsubscribe_token : option bytes;
  fc_message_tokens : list bytes;
  fc_message_id : option bytes;
  fc_recipient : option bytes;
}.
Inductive FeedbackComplaintOutcome :=
| Recorded (message_id : option Z) (address : bytes) (suppressed : bool)
| ComplaintNotMatched.
Definition COMPLAINT_RECIPIENT_LOOKBACK_DAYS : Z := 30.

(** [ORDER BY id DESC LIMIT 1] of the outgoing rows that satisfy [P]. *)
Definition latest_outgoing (tenant : Id) (P : MessageRow → bool) (d : MailDb) : option MessageRow :=
  head (stable_sort (λ a b, key_le (0, 0, - row_id a) (0, 0, - row_id b))%Z
    (List.filter (λ r, visible tenant r && is_scope !"outgoing" r && P r) (db_messages d))).

(** The evidence, strongest first. *)
Definition complained_message (sql_lower : bytes → bytes) (tenant : Id) (complaint : FeedbackComplaint)
    (recipient : option bytes) (d : MailDb) : option MessageRow :=
  let by_token := match fc_message_tokens complaint with [] => None | tokens => outgoing_by_tokens tenant tokens d end in
  let by_message_id :=
    message_id ← fc_message_id complaint;
    latest_outgoing tenant (λ r, match sg_message_id_header (stored r) with
      | Some h => let h := trim_matches (is_byte SP) h in (h =b !"<" ++ message_id ++ !">") || (h =b message_id)
      | None => false
      end) d in
  let by_recipient :=
    recipient ← recipient;
    latest_outgoing tenant (λ r, (sql_lower (sg_rcpt_to (stored r)) =b sql_lower recipient)
      && (db_now d - days COMPLAINT_RECIPIENT_LOOKBACK_DAYS <? sg_created_at (stored r))%Z) d in
  match by_token with
  | Some r => Some r
  | None => match by_message_id with Some r => Some r | None => by_recipient end
  end.

Definition record_feedback_complaint (sql_lower : bytes → bytes) (server_id : Id) (complaint : FeedbackComplaint)
    (d : MailDb) : FeedbackComplaintOutcome * MailDb :=
  let token_target := token ← fc_unsubscribe_token complaint; resolve_unsubscribe_token token d in
  let tenant := match token_target with Some (tenant, _, _) => tenant | None => server_id end in
  let recipient := match token_target with Some (_, _, address) => Some address | None => fc_recipient complaint end in
  let message := complained_message sql_lower tenant complaint recipient d in
  let address := match token_target with
                 | Some (_, _, address) => Some address
                 | None => match message with Some r => Some (sg_rcpt_to (stored r)) | None => recipient end
                 end in
  match address with
  | None => (ComplaintNotMatched, d)
  | Some address =>
      let d := match token_target with
               | Some (_, stream_id, _) => write_feedback_complaint tenant stream_id address d
               | None => d
               end in
      let payload := VObject [(!"address", VString address); (!"feedback_type", VString (fc_feedback_type complaint));
        (!"message", match message with Some r => message_hash (bounce_original_from_row r) | None => VNull end);
        (!"timestamp", VNumber (postal_webhook_timestamp (db_now d)));
        (!"user_agent", opt_string (fc_user_agent complaint))] in
      (Recorded (row_id <$> message) address (bool_decide (is_Some token_target)),
       enqueue_webhook_requests tenant !"MessageComplained" payload d)
  end.

(** ** Requeueing *)

(** [rcpt_to.rsplit_once('@').map(|(_, d)| d).unwrap_or_default()] *)
Definition domain_after_at (rcpt_to : bytes) : bytes :=
  match rsplit_once (is_byte "@") rcpt_to with Some (_, domain) => domain | None => [] end.
(** [coalesce(split_part(rcpt_to, '@', 2), '')] *)
Definition split_part_2 (rcpt_to : bytes) : bytes :=
  from_option id [] (split_on (is_byte "@") rcpt_to !! 1).
Definition is_broadcast (d : MailDb) (stream_id : option Id) : bool :=
  match stream_id ≫= λ s, db_stream_types d !! s with Some t => t =b !"broadcast" | None => false end.

Definition requeue_inbound (tenant : Id) (message_id : Z) (bypass : bool) (d : MailDb) : option MessageRow * MailDb :=
  let P r := has_id tenant message_id r && is_scope !"incoming" r in
  let f r := on_stored (λ m, m <| sg_status := !"Pending" |>) r <| row_bypassed := row_bypassed r || bypass |> in
  match List.find P (db_messages d) with
  | None => (None, d)
  | Some r =>
      let d := (update_rows P f d).2 in
      (Some (f r), on_queue (λ q, (enqueue message_id tenant (domain_after_at (sg_rcpt_to (stored r))) q).2) d)
  end.

Definition RETRYABLE_OUTBOUND_STATUSES : list bytes := [!"Pending"; !"SoftFail"; !"HardFail"].
Inductive OutboundRetry := Requeued (r : MessageRow) | NotFound | NotRetryable (status : bytes) | ContentPurged.

Definition of_message (tenant : Id) (message_id : Z) (q : QueuedMessageRow) : bool :=
  (q_message_id q =? message_id)%Z && (q_server_id q =? tenant)%N.

Definition requeue_outbound (tenant : Id) (message_id : Z) (d : MailDb) : OutboundRetry * MailDb :=
  match List.find (λ r, has_id tenant message_id r && is_scope !"outgoing" r) (db_messages d) with
  | None => (NotFound, d)
  | Some r =>
      let status := sg_status (stored r) in
      if negb (existsb (λ s, s =b status) RETRYABLE_OUTBOUND_STATUSES) then (NotRetryable status, d)
      else if bool_decide (is_Some (row_content_purged_at r)) then (ContentPurged, d)
      else
        let d := on_queue (λ t, t <| qt_rows := map (λ q,
                   if of_message tenant message_id q && negb (bool_decide (is_Some (q_locked_by q)))
                   then q <| q_retry_after := None |> else q) (qt_rows t) |>) d in
        let in_queue := existsb (of_message tenant message_id) (qt_rows (db_queue d)) in
        let d := if in_queue then d
                 else on_queue (λ t, (enqueue_with_kind message_id tenant (split_part_2 (sg_rcpt_to (stored r)))
                        (is_broadcast d (sg_stream_id (stored r))) t).2) d in
        let f := on_stored (λ m, m <| sg_status := !"Pending" |> <| sg_held := false |>) in
        (Requeued (f r), (update_rows (has_id tenant message_id) f d).2)
  end.

(** ** Tracking: [create_link] and [tracking.rs] *)

Definition on_activity (f : Activity → Activity) (d : MailDb) : MailDb := d <| db_activity := f (db_activity d) |>.

Definition create_link (tenant : Id) (message_id : Z) (url : bytes) (d : MailDb) : Z * MailDb :=
  let id := act_next_link (db_activity d) in
  (id, on_activity (λ a, a <| act_links := act_links a ++ [(id, tenant, message_id, url)] |>
                           <| act_next_link := (id + 1)%Z |>) d).

Definition create_token (target : TrackingTarget) (d : MailDb) : bytes * MailDb :=
  let token := tracking_token (length (act_tracking_tokens (db_activity d))) in
  (token, on_activity (λ a, a <| act_tracking_tokens := act_tracking_tokens a ++ [(token, target)] |>) d).
Definition create_click_token (server_id : Id) (message_id link_id : Z) (target_url : bytes) : MailDb → bytes * MailDb :=
  create_token (mkTrackingTarget !"click" server_id message_id (Some link_id) (Some target_url)).
Definition create_open_token (server_id : Id) (message_id : Z) : MailDb → bytes * MailDb :=
  create_token (mkTrackingTarget !"open" server_id message_id None None).

Definition resolve_token (token : bytes) (d : MailDb) : option TrackingTarget :=
  snd <$> List.find (λ t, t.1 =b token) (act_tracking_tokens (db_activity d)).

Definition activity_hash (tenant : Id) (message_id : Z) (d : MailDb) : option Value :=
  (λ r, message_hash (bounce_original_from_row r)) <$> List.find (has_id tenant message_id) (db_messages d).

Definition record_click (target : TrackingTarget) (ip_address user_agent : bytes) (d : MailDb) : MailDb :=
  match tt_link_id target with
  | None => d
  | Some link_id =>
      let d := on_activity (λ a, a <| act_link_clicks := act_link_clicks a ++
                 [(tt_server_id target, link_id, ip_address, user_agent)] |>) d in
      match activity_hash (tt_server_id target) (tt_message_id target) d with
      | Some message =>
          enqueue_webhook_requests (tt_server_id target) !"MessageLinkClicked"
            (VObject [(!"ip_address", VString ip_address); (!"message", message);
              (!"timestamp", VNumber (postal_webhook_timestamp (db_now d)));
              (!"url", VString (from_option id [] (tt_target_url target))); (!"user_agent", VString user_agent)]) d
      | None => d
      end
  end.

Definition record_open (target : TrackingTarget) (ip_address user_agent : bytes) (d : MailDb) : MailDb :=
  let d := on_activity (λ a, a <| act_loads := act_loads a ++
             [(tt_server_id target, tt_message_id target, ip_address, user_agent)] |>) d in
  match activity_hash (tt_server_id target) (tt_message_id target) d with
  | Some message =>
      enqueue_webhook_requests (tt_server_id target) !"MessageLoaded"
        (VObject [(!"ip_address", VString ip_address); (!"message", message);
          (!"timestamp", VNumber (postal_webhook_timestamp (db_now d))); (!"user_agent", VString user_agent)]) d
  | None => d
  end.
End Transactions.
