(* ===== verification/Worker.v ===== *)
(** * Worker: the message dequeuer

    [camelmailer-worker/src/worker.rs] on the database of [MailDb], the queue of
    [Queue] and the SMTP sender of [Sender].  A worker step is a state-passing
    computation that can fail ([sqlx::Error]: the caller logs it and goes on, and
    the transactions already committed stay) or panic.  Each transaction of the
    source is one [transaction]; [ws_faults] says which of them fail. *)

From S2P Require Import Prelude RustStr Net Model SendLimit Message Bounce Mime Tracking Arf MemoryStore Queue MailDb Ssrf Dkim SmtpClient Sender.

(** ** Computations *)

Inductive Step (A : Type) := Done (a : A) | Failed | Panicked.
Arguments Done {A} _.
Arguments Failed {A}.
Arguments Panicked {A}.

(** One scripted answer of an HTTP request: status code, its text, and the body. *)
Inductive HttpAnswer := HttpResponse (code : N) (status body : bytes) | HttpError (error : bytes).
Definition is_success (code : N) : bool := (200 <=? code)%N && (code <=? 299)%N.

(** What the worker reads of tables that are not modelled, the scanners it asks,
    and the parser of DMARC reports: any functions at all. *)
Class WorkerWorld := {
  domain_by_id : Id → option Domain;
  route_by_id : Id → Id → option Route;
  effective_track_domain : Id → option bytes;
  source_ip_for : Id → option Id → option bytes;
  server_token_of : Id → option bytes;
  sql_lower : bytes → bytes;
  rspamd_score : bytes → bytes + f64;
  clamav_scan : bytes → bytes + (bool * option bytes);
  f64_ge : f64 → f64 → bool;
  AggregateReport : Type;
  extract_report : bytes → bytes + AggregateReport;
  report_domain : AggregateReport → bytes;
  report_record_count : AggregateReport → Z;
  error_text : SsrfError → bytes;
}.

Section Worker.
Context `{WW : !WorkerWorld, CASE : !UnicodeCase, CRA : !Crates, B64 : !Base64, PAY : !Payloads, OUT : !Outbound,
  MX : !MxResolver, RES : !SmtpClient.Resolve} {K : Type} `{SIG : !Signer K}.

Record WState := mkWState {
  ws_db : MailDb;
  ws_queue : PgQueue;
  ws_network : Network;
  ws_http : list HttpAnswer;
  ws_posted : list (bytes * Value);
  ws_dmarc_reports : list (Z * Id * AggregateReport);
  ws_faults : list bool;
}.
#[export] Instance eta_WState : Eta WState := λ s,
  mkWState (ws_db s) (ws_queue s) (ws_network s) (ws_http s) (ws_posted s) (ws_dmarc_reports s) (ws_faults s).

Definition W (A : Type) : Type := WState → Step A * WState.
#[export] Instance W_ret : MRet W := λ A a s, (Done a, s).
#[export] Instance W_bind : MBind W := λ A B f m s,
  match m s with
  | (Done a, s) => f a s
  | (Failed, s) => (Failed, s)
  | (Panicked, s) => (Panicked, s)
  end.
Definition fail {A} : W A := λ s, (Failed, s).
Definition or_panic {A} (o : option A) : W A := λ s, (match o with Some a => Done a | None => Panicked end, s).

(** Commit a function of the database, unless this transaction fails. *)
Definition transaction {A} (f : MailDb → A * MailDb) : W A := λ s,
  match ws_faults s with
  | true :: rest => (Failed, s <| ws_faults := rest |>)
  | faults => let '(a, d) := f (ws_db s) in (Done a, s <| ws_faults := tail faults |> <| ws_db := d |>)
  end.
Definition execute (f : MailDb → MailDb) : W unit := transaction (λ d, (tt, f d)).
Definition query {A} (f : MailDb → A) : W A := transaction (λ d, (f d, d)).

(** One HTTP request: the URL with its JSON, and the next answer of the script. *)
Definition http_send (url : bytes) (json : Value) : W HttpAnswer := λ s,
  let s := s <| ws_posted := ws_posted s ++ [(url, json)] |> in
  match ws_http s with
  | [] => (Done (HttpError !"request timed out"), s)
  | a :: rest => (Done a, s <| ws_http := rest |>)
  end.

(** ** The worker *)

Record Worker := mkWorker {
  wk_worker_id : bytes;
  wk_sender : SmtpSender;
  wk_signer : option K;
  wk_dkim_selector : bytes;
  wk_rspamd : bool;
  wk_clamav : bool;
  wk_spam_threshold : f64;
  wk_spam_failure_threshold : f64;
  wk_tracking_base_url : bytes;
  wk_web_protocol : bytes;
  wk_ssrf_guard : SsrfGuard;
  wk_max_attempts : Z;
  wk_return_path_domain : option bytes;
}.

Inductive ProcessOutcome :=
| Delivered (response : bytes)
| Delayed (response : bytes)
| OutcomeFailed (response : bytes)
| OutcomeHeld
| Routed
| DmarcReportIngested
| FeedbackReportIngested
| BounceCorrelated
| AlreadyBounced
| NothingToDo
| MessageMissing.

Definition queue_complete (id : Z) : W unit := execute (on_queue (Queue.complete id)).
Definition queue_retry (id attempts : Z) : W unit := execute (λ d, on_queue (Queue.retry (db_now d) id attempts) d).

Definition message_payload (m : StoredMessage) (details : bytes) : Value :=
  VObject [(!"details", VString details);
    (!"message", VObject [(!"bounce", VBool (sg_bounce m)); (!"id", VNumber (show_Z (sg_id m)));
       (!"mail_from", VString (sg_mail_from m)); (!"rcpt_to", VString (sg_rcpt_to m));
       (!"scope", VString (sg_scope m)); (!"token", VString (sg_token m))])].

(** ** Tracking *)

Definition click_marker (n : nat) : bytes := !"__CM_CLICK_" ++ show_N (N.of_nat n) ++ !"__".

(** [str::replace] of a non-empty literal. *)
Definition replace_all (from to s : bytes) : bytes := join to (split_sub from s).

Fixpoint create_click_tokens (server_id : Id) (message_id : Z) (urls : list bytes) : W (list bytes) :=
  match urls with
  | [] => mret []
  | url :: rest =>
      link_id ← transaction (create_link server_id message_id url);
      token ← transaction (create_click_token server_id message_id link_id url);
      tokens ← create_click_tokens server_id message_id rest;
      mret (token :: tokens)
  end.

Fixpoint fill_markers (base_url : bytes) (index : nat) (tokens : list bytes) (html : bytes) : bytes :=
  match tokens with
  | [] => html
  | token :: rest =>
      fill_markers base_url (S index) rest (replace_all (click_marker index) (base_url ++ !"/track/c/" ++ token) html)
  end.

Definition apply_tracking (w : Worker) (m : StoredMessage) : W bytes :=
  if is_signed (sg_raw_message m) then mret (sg_raw_message m)
  else
    match html_of (sg_raw_message m) with
    | None => mret (sg_raw_message m)
    | Some body =>
        let base_url := match effective_track_domain (sg_server_id m) with
                        | Some host => wk_web_protocol w ++ !"://" ++ host
                        | None => wk_tracking_base_url w
                        end in
        '(rewritten, pending_links, _) ← or_panic (rewrite_links (λ n url, (click_marker n, S n)) body 0);
        click_tokens ← create_click_tokens (sg_server_id m) (sg_id m) pending_links;
        let rewritten := fill_markers base_url 0 click_tokens rewritten in
        open_token ← transaction (create_open_token (sg_server_id m) (sg_id m));
        rewritten ← or_panic (inject_open_pixel rewritten (base_url ++ !"/track/o/" ++ open_token ++ !".gif"));
        mret (from_option id (sg_raw_message m) (with_html (sg_raw_message m) rewritten))
    end.

(** ** Outgoing messages *)

(** The bytes that go out: tracked, identified by the token header, and signed when
    the message has an authenticated domain with a key to sign with. *)
Definition prepare (w : Worker) (m : StoredMessage) (tracked : bytes) : W bytes := λ s,
  let identified := add_message_token_header tracked (sg_token m) in
  match sg_domain_id m ≫= domain_by_id with
  | Some domain =>
      match signer_for_domain (dom_dkim_private_key domain) (wk_signer w) with
      | Some signer =>
          or_panic (sign_and_prepend identified (dom_name domain) (wk_dkim_selector w) signer
            (db_now (ws_db s) / 1000000000)) s
      | None => (Done identified, s)
      end
  | None => (Done identified, s)
  end.

Definition return_path (w : Worker) (m : StoredMessage) (server_token : option bytes) : W bytes :=
  match wk_return_path_domain w with
  | Some domain => match server_token with Some token => mret (token ++ !"@" ++ domain) | None => fail end
  | None => mret (sg_mail_from m)
  end.

Definition smtp_send (w : Worker) (domain mail_from rcpt_to raw : bytes) (source_ip : option IpAddr) : W SendOutcome :=
  λ s, let '(n, outcome) := send (wk_sender w) domain mail_from rcpt_to raw source_ip (ws_network s) in
       or_panic outcome (s <| ws_network := n |>).

(** One recorded result: the status with its text, the category, the queue action,
    the event, and the outcome reported when the message was not bounced meanwhile. *)
Definition record (queued : QueuedMessageRow) (m : StoredMessage) (status details output : bytes) (tls : bool)
    (category : option BounceCategory) (action : OutboundQueueAction) (event payload_details : bytes)
    (outcome : ProcessOutcome) :
    W ProcessOutcome :=
  recorded ← transaction (record_outbound_delivery (sg_server_id m) (sg_id m) (q_id queued) status details output tls
    (category_as_str <$> category) action event
    (message_payload m payload_details));
  mret (match recorded with Some _ => outcome | None => AlreadyBounced end).

Definition settle (w : Worker) (queued : QueuedMessageRow) (m : StoredMessage) (outcome : SendOutcome) :
    W ProcessOutcome :=
  match outcome with
  | Sent response tls =>
      record queued m !"Sent" !"message accepted by the remote server" response tls None MailDb.Complete !"MessageSent" response
        (Delivered response)
  | SmtpClient.SoftFail response =>
      if (wk_max_attempts w <=? q_attempts queued + 1)%Z then
        record queued m !"HardFail" !"delivery attempts exhausted" response false
          (Some (classify_response response)) MailDb.Complete !"MessageDeliveryFailed" response (OutcomeFailed response)
      else
        record queued m !"SoftFail" !"temporary delivery failure" response false None
          (MailDb.Retry (q_attempts queued)) !"MessageDelayed" response (Delayed response)
  | HardFail response =>
      record queued m !"HardFail" !"message rejected by the remote server" response false
        (Some (classify_response response)) MailDb.Complete !"MessageDeliveryFailed" response (OutcomeFailed response)
  end.

Definition process_outgoing (w : Worker) (queued : QueuedMessageRow) (m : StoredMessage)
    (server_token : option bytes) : W ProcessOutcome :=
  if sg_status m =b !"Bounced" then
    _ ← queue_complete (q_id queued); mret AlreadyBounced
  else
    suppressed ← query (address_suppressed (sg_server_id m) (sg_rcpt_to m) (sg_stream_id m));
    if suppressed : bool then
      record queued m !"Held" !"recipient is on the suppression list" [] false None MailDb.Complete !"MessageHeld"
        !"recipient is on the suppression list" OutcomeHeld
    else
      tracked ← apply_tracking w m;
      raw_message ← prepare w m tracked;
      mail_from ← return_path w m server_token;
      let source_ip := source_ip_for (sg_server_id m) (sg_stream_id m) ≫= parse_ip in
      outcome ← smtp_send w (q_domain queued) mail_from (sg_rcpt_to m) raw_message source_ip;
      settle w queued m outcome.

(** ** Incoming messages *)

(** [inspect]: the verdict, and the message as the later handlers see it. *)
Definition inspect (w : Worker) (m : StoredMessage) : W (bool * StoredMessage) :=
  if negb (wk_rspamd w) && negb (wk_clamav w) then mret (false, m)
  else if sg_inspected m then mret (sg_threat m || (sg_spam_status m =b !"SpamFailure"), m)
  else
    let '(spam_status, spam_score) :=
      match (if wk_rspamd w then Some (rspamd_score (sg_raw_message m)) else None) with
      | Some (inr score) =>
          (if f64_ge score (wk_spam_failure_threshold w) then !"SpamFailure"
           else if f64_ge score (wk_spam_threshold w) then !"Spam" else !"NotSpam", score)
      | _ => (!"NotChecked", 0%N)
      end in
    let '(threat, threat_details) :=
      match (if wk_clamav w then Some (clamav_scan (sg_raw_message m)) else None) with
      | Some (inr (found, details)) => (found, details)
      | _ => (false, None)
      end in
    _ ← execute (record_inspection (sg_server_id m) (sg_id m) spam_status spam_score threat threat_details);
    mret (threat || (spam_status =b !"SpamFailure"),
          m <| sg_spam_status := spam_status |> <| sg_spam_score := spam_score |> <| sg_threat := threat |>
            <| sg_threat_details := threat_details |> <| sg_inspected := true |>).

Definition note (m : StoredMessage) (status details output : bytes) : W unit :=
  _ ← transaction (record_delivery (sg_server_id m) (sg_id m) status details output false None); mret tt.

(** A failed attempt of an incoming message: given up or put back. *)
Definition retry_or_fail (w : Worker) (queued : QueuedMessageRow) (response : bytes) : W ProcessOutcome :=
  if (wk_max_attempts w <=? q_attempts queued + 1)%Z then
    _ ← queue_complete (q_id queued); mret (OutcomeFailed response)
  else
    _ ← queue_retry (q_id queued) (q_attempts queued); mret (Delayed response).

Definition complaint_of (r : FeedbackReport) : FeedbackComplaint :=
  mkFeedbackComplaint (fr_feedback_type r) (fr_user_agent r) (fr_unsubscribe_token r) (fr_message_tokens r)
    (fr_original_message_id r) (recipient r).

Definition complaint_detail (o : FeedbackComplaintOutcome) : bytes :=
  match o with
  | Recorded _ _ true => !"spam complaint recorded for the broadcast recipient"
  | Recorded (Some id) _ _ => !"spam complaint recorded for <msg:" ++ show_Z id ++ !">"
  | Recorded None address _ => !"spam complaint recorded for " ++ address ++ !"; no matching message"
  | ComplaintNotMatched => !"feedback report parsed; no matching message or recipient"
  end.

(** [attempt m]: the error of a failed transaction handed to the caller. *)
Definition attempt {A} (m : W A) : W (option A) := λ s,
  match m s with
  | (Done a, s) => (Done (Some a), s)
  | (Failed, s) => (Done None, s)
  | (Panicked, s) => (Panicked, s)
  end.

Definition ingest_feedback_report (w : Worker) (queued : QueuedMessageRow) (m : StoredMessage) : W ProcessOutcome :=
  match extract_feedback (sg_raw_message m) with
  | inl error =>
      _ ← queue_complete (q_id queued);
      _ ← note m !"Held" !"message could not be parsed as an ARF feedback report"
            match error with NotFeedbackReport text => text | MissingPart name => name end;
      mret OutcomeHeld
  | inr report =>
      if fr_feedback_type report =b !"abuse" then
        recorded ← attempt (transaction (record_feedback_complaint sql_lower (sg_server_id m) (complaint_of report)));
        match recorded with
        | Some outcome =>
            _ ← queue_complete (q_id queued);
            _ ← note m !"Processed" (complaint_detail outcome) [];
            mret FeedbackReportIngested
        | None => retry_or_fail w queued !"could not record the feedback complaint"
        end
      else
        _ ← queue_complete (q_id queued);
        _ ← note m !"Processed" (!"feedback report (" ++ fr_feedback_type report
              ++ !") recorded; no complaint actioned") [];
        mret FeedbackReportIngested
  end.

Definition store_dmarc_report (server_id : Id) (report : AggregateReport) : W Z := λ s,
  match ws_faults s with
  | true :: rest => (Failed, s <| ws_faults := rest |>)
  | faults =>
      let id := Z.of_nat (S (length (ws_dmarc_reports s))) in
      (Done id, s <| ws_faults := tail faults |> <| ws_dmarc_reports := ws_dmarc_reports s ++ [(id, server_id, report)] |>)
  end.

Definition ingest_dmarc_report (w : Worker) (queued : QueuedMessageRow) (m : StoredMessage) : W ProcessOutcome :=
  match extract_report (sg_raw_message m) with
  | inl error =>
      _ ← queue_complete (q_id queued);
      _ ← note m !"Held" !"message could not be parsed as a DMARC aggregate report" error;
      mret OutcomeHeld
  | inr report =>
      stored_id ← attempt (store_dmarc_report (sg_server_id m) report);
      match stored_id with
      | Some id =>
          _ ← queue_complete (q_id queued);
          _ ← note m !"Processed" (!"DMARC aggregate report for " ++ report_domain report ++ !" stored (#" ++ show_Z id
                ++ !", " ++ show_Z (report_record_count report) ++ !" records)") [];
          mret DmarcReportIngested
      | None => retry_or_fail w queued !"could not store the DMARC report"
      end
  end.

Definition UNMATCHED_BOUNCE_DETAILS : bytes :=
  !"This message was a bounce but we couldn't link it with any outgoing message and there was no route for it.".

(** [From<&StoredMessage>] and [From<&BounceOriginal>] for the webhook fields. *)
Definition bounce_fields (m : StoredMessage) : BounceOriginal := bounce_original_from_row (mkMessageRow m None false None).

Definition worker_correlate_bounce (queued : QueuedMessageRow) (m : StoredMessage) : W (option ProcessOutcome) :=
  if negb (sg_bounce m) || negb (is_failed_delivery_status_notification (sg_raw_message m)) then mret None
  else
    category ← or_panic (classify_dsn (sg_raw_message m));
    let tokens := original_message_tokens (sg_raw_message m) in
    correlation ← transaction (correlate_bounce (sg_server_id m) (sg_id m) tokens (category_as_str category)
      (λ original, VObject [(!"bounce", message_hash (bounce_fields m)); (!"original_message", message_hash original)]));
    match correlation, sg_route_id m with
    | NotMatched, Some _ => mret None
    | NotMatched, None =>
        _ ← transaction (record_unmatched_bounce (sg_server_id m) (sg_id m) (q_id queued)
              (category_as_str category) UNMATCHED_BOUNCE_DETAILS);
        mret (Some (OutcomeFailed UNMATCHED_BOUNCE_DETAILS))
    | _, _ => _ ← queue_complete (q_id queued); mret (Some BounceCorrelated)
    end.

Definition DMARC_REPORTS_ENDPOINT : bytes := !"internal://dmarc-reports".

Definition endpoint_of (m : StoredMessage) : option bytes :=
  route ← (route_id ← sg_route_id m; route_by_id (sg_server_id m) route_id);
  if bool_decide (rt_mode route = Model.Endpoint) then rt_endpoint_url route else None.

(** The [json!] object of an endpoint delivery, its keys sorted. *)
Definition endpoint_payload (m : StoredMessage) : Value :=
  VObject [(!"message", VObject [(!"bounce", VBool (sg_bounce m)); (!"id", VNumber (show_Z (sg_id m)));
      (!"mail_from", VString (sg_mail_from m)); (!"rcpt_to", VString (sg_rcpt_to m)); (!"token", VString (sg_token m))]);
    (!"raw_base64", VString (b64_encode (sg_raw_message m)))].

Definition deliver_to_endpoint (w : Worker) (queued : QueuedMessageRow) (m : StoredMessage) (url : bytes) : W ProcessOutcome :=
  match check_url (wk_ssrf_guard w) url with
  | inl error => retry_or_fail w queued (!"route endpoint blocked by address guard: " ++ error_text error)
  | inr _ =>
      result ← http_send url (endpoint_payload m);
      match result with
      | HttpResponse code status _ =>
          if is_success code then _ ← queue_complete (q_id queued); mret Routed
          else retry_or_fail w queued (!"endpoint returned " ++ status)
      | HttpError error => retry_or_fail w queued (!"endpoint request failed: " ++ error)
      end
  end.

Definition process_incoming (w : Worker) (queued : QueuedMessageRow) (m : StoredMessage) : W ProcessOutcome :=
  '(hold, m) ← inspect w m;
  if hold : bool then
    _ ← note m !"Held" !"message failed inspection (spam or virus)" [];
    _ ← queue_complete (q_id queued);
    mret OutcomeHeld
  else if is_feedback_report (sg_raw_message m) then ingest_feedback_report w queued m
  else
    correlated ← worker_correlate_bounce queued m;
    match correlated with
    | Some outcome => mret outcome
    | None =>
        match endpoint_of m with
        | None => _ ← queue_complete (q_id queued); mret NothingToDo
        | Some url =>
            if url =b DMARC_REPORTS_ENDPOINT then ingest_dmarc_report w queued m
            else deliver_to_endpoint w queued m url
        end
    end.

(** ** The loop body *)

Definition dequeue_next (w : Worker) (busy : list Z) : W (option QueuedMessageRow) := λ s,
  match ws_faults s with
  | true :: rest => (Failed, s <| ws_faults := rest |>)
  | faults =>
      let '(row, q, t) := dequeue (ws_queue s) (wk_worker_id w) (db_now (ws_db s)) busy (db_queue (ws_db s)) in
      (Done row, s <| ws_faults := tail faults |> <| ws_queue := q |> <| ws_db := on_queue (λ _, t) (ws_db s) |>)
  end.

(** The load of [process_next] with the server token when the return path needs it. *)
Definition load (w : Worker) (queued : QueuedMessageRow) : W (option (StoredMessage * option bytes)) :=
  message ← query (λ d, message_by_id d (q_server_id queued) (q_message_id queued));
  mret match wk_return_path_domain w, message with
       | None, Some m => Some (m, None)
       | Some _, Some m => match server_token_of (q_server_id queued) with
                           | Some token => Some (m, Some token)
                           | None => None
                           end
       | _, None => None
       end.

(** [process_next] behind the dequeue. *)
Definition process_queued (w : Worker) (queued : QueuedMessageRow) : W ProcessOutcome :=
  loaded ← load w queued;
  match loaded with
  | None => _ ← queue_complete (q_id queued); mret MessageMissing
  | Some (m, server_token) =>
      if sg_scope m =b !"outgoing" then process_outgoing w queued m server_token else process_incoming w queued m
  end.

Definition process_next (w : Worker) (busy : list Z) : W (option ProcessOutcome) :=
  queued ← dequeue_next w busy;
  match queued with
  | None => mret None
  | Some queued => outcome ← process_queued w queued; mret (Some outcome)
  end.
End Worker.
