(* ===== verification/Webhooks.v ===== *)
(** * Webhooks: delivering the webhook outbox

    [camelmailer-db/src/webhook_queue.rs] and [process_next_webhook] of
    [camelmailer-worker/src/worker.rs].  The queue is [db_requests] of [MailDb]; the
    audit log and the requests sent are the worker's. *)

From S2P Require Import Prelude RustStr Net Model MailDb Queue Ssrf Dkim Worker.

Record WebhookLogEntry := mkWebhookLogEntry {
  we_server_id : Id;
  we_webhook_id : Id;
  we_uuid : bytes;
  we_event : bytes;
  we_url : bytes;
  we_attempt : Z;
  we_status_code : option N;
  we_success : bool;
  we_response_body : bytes;
}.

Inductive WebhookOutcome := WebhookDelivered | Retrying | GivenUp.
Definition WEBHOOK_MAX_ATTEMPTS : Z := 10.

(** ** The queue *)

(** The row the [UPDATE ... RETURNING] locks: the first by id that is free and due. *)
Definition request_ready (stale_days : Z) (now : datetime) (r : WebhookRequestRow) : bool :=
  match wr_locked_by r with
  | None => true
  | Some _ => match wr_locked_at r with Some at_ => (at_ <? now - days stale_days)%Z | None => false end
  end
  && match wr_retry_after r with Some at_ => (at_ <=? now)%Z | None => true end.
Definition lock_request (worker_id : bytes) (now : datetime) (r : WebhookRequestRow) : WebhookRequestRow :=
  r <| wr_locked_by := Some worker_id |> <| wr_locked_at := Some now |>.

Definition on_requests (f : list WebhookRequestRow → list WebhookRequestRow) (d : MailDb) : MailDb :=
  d <| db_requests := f (db_requests d) |>.

Definition webhook_dequeue (stale_days : Z) (worker_id : bytes) (busy : list Z) (d : MailDb) :
    option WebhookRequestRow * MailDb :=
  let ready r := request_ready stale_days (db_now d) r && negb (existsb (Z.eqb (wr_id r)) busy) in
  match head (stable_sort (λ a b, (wr_id a <=? wr_id b)%Z) (List.filter ready (db_requests d))) with
  | None => (None, d)
  | Some r =>
      (Some (lock_request worker_id (db_now d) r),
       on_requests (map (λ x, if (wr_id x =? wr_id r)%Z then lock_request worker_id (db_now d) x else x)) d)
  end.

Definition webhook_complete (id : Z) : MailDb → MailDb :=
  on_requests (List.filter (λ r, negb (wr_id r =? id)%Z)).
Definition webhook_retry (id attempts : Z) (d : MailDb) : MailDb :=
  on_requests (map (λ r, if (wr_id r =? id)%Z
    then r <| wr_locked_by := None |> <| wr_locked_at := None |> <| wr_attempts := (wr_attempts r + 1)%Z |>
           <| wr_retry_after := Some (db_now d + minutes (retry_delay_minutes attempts))%Z |>
    else r)) d.

(** [&response_body[..response_body.len().min(2048)]]; [None] is the panic. *)
Definition log_body (response_body : bytes) : option bytes :=
  slice_to response_body (Nat.min (length response_body) 2048).

(** ** The delivery *)

(** A request as it was sent: reqwest's [header] appends. *)
Record Posted := mkPosted { post_url : bytes; post_headers : list (bytes * bytes); post_body : bytes }.

(** [HeaderName::try_from] and [HeaderValue::try_from] of the http crate. *)
Class HttpHeaders := { header_valid : bytes → bytes → bool }.

Section Deliver.
Context `{WW : !WorkerWorld, CASE : !UnicodeCase, CRA : !Crates, OUT : !Outbound, HDR : !HttpHeaders} {K : Type}
  `{SIG : !Signer K}.

Record HookState := mkHookState {
  hs_db : MailDb;
  hs_http : list HttpAnswer;
  hs_log : list WebhookLogEntry;
  hs_posted : list Posted;
}.

Definition request_headers (signer : option K) (r : WebhookRequestRow) : list (bytes * bytes) :=
  [(!"content-type", !"application/json")]
  ++ List.filter (λ h, header_valid h.1 h.2) (wr_headers r)
  ++ [(!"X-CamelMailer-Event", wr_event r); (!"X-CamelMailer-UUID", wr_uuid r)]
  ++ match signer with
     | Some k => if wr_sign r then [(!"X-CamelMailer-Signature", b64_encode (sign_sha256 k (wr_payload r)))] else []
     | None => []
     end.

Definition log_attempt (r : WebhookRequestRow) (attempt : Z) (status_code : option N) (success : bool)
    (response_body : bytes) (s : HookState) : option HookState :=
  body ← log_body response_body;
  Some (mkHookState (hs_db s) (hs_http s)
    (hs_log s ++ [mkWebhookLogEntry (wr_server_id r) (wr_webhook_id r) (wr_uuid r) (wr_event r) (wr_url r) attempt
                    status_code success body]) (hs_posted s)).

Definition on_db (f : MailDb → MailDb) (s : HookState) : HookState :=
  mkHookState (f (hs_db s)) (hs_http s) (hs_log s) (hs_posted s).

(** A failed attempt: given up at the tenth, otherwise put back. *)
Definition after_failure (r : WebhookRequestRow) (s : HookState) : WebhookOutcome * HookState :=
  if (WEBHOOK_MAX_ATTEMPTS <=? wr_attempts r + 1)%Z then (GivenUp, on_db (webhook_complete (wr_id r)) s)
  else (Retrying, on_db (webhook_retry (wr_id r) (wr_attempts r)) s).

Definition http_post (p : Posted) (s : HookState) : HttpAnswer * HookState :=
  match hs_http s with
  | [] => (HttpError !"request timed out", mkHookState (hs_db s) [] (hs_log s) (hs_posted s ++ [p]))
  | a :: rest => (a, mkHookState (hs_db s) rest (hs_log s) (hs_posted s ++ [p]))
  end.

(** One locked request. *)
Definition deliver_request (guard : SsrfGuard) (signer : option K) (r : WebhookRequestRow) (s : HookState) :
    option (WebhookOutcome * HookState) :=
  let attempt := (wr_attempts r + 1)%Z in
  match check_url guard (wr_url r) with
  | inl error =>
      s ← log_attempt r attempt None false (!"blocked by address guard: " ++ error_text error) s;
      Some (after_failure r s)
  | inr _ =>
      let '(answer, s) := http_post (mkPosted (wr_url r) (request_headers signer r) (wr_payload r)) s in
      let '(status_code, success, response_body) :=
        match answer with
        | HttpResponse code _ body => (Some code, is_success code, body)
        | HttpError error => (None, false, error)
        end in
      s ← log_attempt r attempt status_code success response_body s;
      Some (if success : bool then (WebhookDelivered, on_db (webhook_complete (wr_id r)) s) else after_failure r s)
  end.

Definition process_next_webhook (guard : SsrfGuard) (signer : option K) (stale_days : Z) (worker_id : bytes)
    (busy : list Z) (s : HookState) : option (option WebhookOutcome * HookState) :=
  match webhook_dequeue stale_days worker_id busy (hs_db s) with
  | (None, _) => Some (None, s)
  | (Some r, d) =>
      '(o, s) ← deliver_request guard signer r (mkHookState d (hs_http s) (hs_log s) (hs_posted s));
      Some (Some o, s)
  end.
End Deliver.
