(* ===== verification/Retention.v ===== *)
(** * Retention: the cleanup of old data

    [camelmailer-db/src/retention.rs], [apply_retention] and [housekeep] of
    [camelmailer-worker/src/worker.rs].  Each class of data is deleted in batches, a
    transaction each; the script of faults says which fail.  A [LIMIT] without
    [ORDER BY] takes the rows in the order of [HashOrder], any order.  [Unfinished]
    is the end of the model's fuel, not a result of the code. *)

From S2P Require Import Prelude RustStr Net Model SendLimit MemoryStore Queue MailDb.

(** ** Tables *)

(** The mail tables with the tables only retention reads: share links, the webhook
    log, DMARC reports with their records, and by name the installation's tables of
    dated rows. *)
Record RetentionDb := mkRetentionDb {
  rt_mail : MailDb;
  rt_message_shares : list (Z * Id * Z * datetime);
  rt_webhook_request_log : list (Z * Id * datetime);
  rt_dmarc_reports : list (Z * Id * datetime);
  rt_dmarc_report_records : list (Z * Id);
  rt_tables : gmap bytes (list (Z * datetime));
}.
#[export] Instance eta_RetentionDb : Eta RetentionDb := λ d,
  mkRetentionDb (rt_mail d) (rt_message_shares d) (rt_webhook_request_log d) (rt_dmarc_reports d)
    (rt_dmarc_report_records d) (rt_tables d).

Record RetentionTarget := mkRetentionTarget {
  rtt_server_id : Id;
  rtt_organization_id : Id;
  rtt_overrides : RetentionOverrides;
}.

Record RetentionReport := mkRetentionReport {
  rr_message_content_purged : nat;
  rr_messages_deleted : nat;
  rr_webhook_log_deleted : nat;
  rr_dmarc_reports_deleted : nat;
  rr_auth_events_deleted : nat;
  rr_api_requests_deleted : nat;
  rr_expired_tokens_deleted : nat;
}.
#[export] Instance eta_RetentionReport : Eta RetentionReport := λ r,
  mkRetentionReport (rr_message_content_purged r) (rr_messages_deleted r) (rr_webhook_log_deleted r)
    (rr_dmarc_reports_deleted r) (rr_auth_events_deleted r) (rr_api_requests_deleted r) (rr_expired_tokens_deleted r).
Definition report_default : RetentionReport := mkRetentionReport 0 0 0 0 0 0 0.

(** ** Batches *)

Inductive Swept := Total (n : nat) | DbError | Unfinished.
Definition Faulty (S : Type) : Type := list bool * S.

(** The loop of every class: a transaction selects and removes rows; fewer selected
    than the batch ends it. *)
Fixpoint sweep {S} (fuel batch : nat) (step : S → nat * nat * S) (total : nat) (s : Faulty S) : Swept * Faulty S :=
  match fuel with
  | O => (Unfinished, s)
  | Datatypes.S fuel =>
      match s with
      | (true :: faults, d) => (DbError, (faults, d))
      | (faults, d) =>
          let '(selected, removed, d) := step d in
          if (selected <? batch)%nat then (Total (total + removed), (tail faults, d))
          else sweep fuel batch step (total + removed) (tail faults, d)
      end
  end.

Definition among (ids : list Z) (id : Z) : bool := existsb (Z.eqb id) ids.

Section Retention.
Context `{ORD : !HashOrder}.

(** *** Message content *)

Definition is_queued (tenant : Id) (d : MailDb) (id : Z) : bool :=
  existsb (of_message tenant id) (qt_rows (db_queue d)).
Definition purgeable (tenant : Id) (cutoff : datetime) (d : MailDb) (r : MessageRow) : bool :=
  visible tenant r && (sg_created_at (stored r) <? cutoff)%Z
  && negb (bool_decide (is_Some (row_content_purged_at r))) && negb (is_queued tenant d (row_id r)).
Definition purge_row (now : datetime) (r : MessageRow) : MessageRow :=
  on_stored (λ m, m <| sg_raw_message := [] |>) r <| row_content_purged_at := Some now |>.

Definition purge_batch (tenant : Id) (cutoff : datetime) (batch : nat) (d : MailDb) : nat * nat * MailDb :=
  let ids := take batch (map row_id (hash_order (List.filter (purgeable tenant cutoff d) (db_messages d)))) in
  let '(purged, d) := update_rows (λ r, visible tenant r && among ids (row_id r)) (purge_row (db_now d)) d in
  (purged, purged, d).

(** *** Message metadata *)

Definition expired (tenant : Id) (cutoff : datetime) (r : MessageRow) : bool :=
  visible tenant r && (sg_created_at (stored r) <? cutoff)%Z.
Definition expired_ids (tenant : Id) (cutoff : datetime) (d : MailDb) : list Z :=
  map row_id (stable_sort (λ a b, (row_id a <=? row_id b)%Z) (List.filter (expired tenant cutoff) (db_messages d))).

Definition clear_bounce_for (tenant : Id) (ids : list Z) (r : MessageRow) : MessageRow :=
  if visible tenant r && match sg_bounce_for_id (stored r) with Some id => among ids id | None => false end
  then on_stored (λ m, m <| sg_bounce_for_id := None |>) r else r.

Definition keep_other (tenant : Id) (ids : list Z) (server_id : Id) (message_id : Z) : bool :=
  negb ((server_id =? tenant)%N && among ids message_id).

Definition prune_activity (tenant : Id) (ids : list Z) (a : Activity) : Activity :=
  let links := map (λ l, l.1.1.1) (List.filter (λ l, (l.1.1.2 =? tenant)%N && among ids l.1.2) (act_links a)) in
  a <| act_link_clicks := List.filter (λ c, negb ((c.1.1.1 =? tenant)%N && among links c.1.1.2)) (act_link_clicks a) |>
    <| act_links := List.filter (λ l, keep_other tenant ids l.1.1.2 l.1.2) (act_links a) |>
    <| act_loads := List.filter (λ l, keep_other tenant ids l.1.1.1 l.1.1.2) (act_loads a) |>
    <| act_tracking_tokens := List.filter (λ t, keep_other tenant ids (tt_server_id t.2) (tt_message_id t.2)) (act_tracking_tokens a) |>.

(** The statements of one transaction on the mail tables, for the ids it selected. *)
Definition prune_messages_of (tenant : Id) (ids : list Z) (d : MailDb) : MailDb :=
  d <| db_messages := List.filter (λ r, negb (visible tenant r && among ids (row_id r)))
         (map (clear_bounce_for tenant ids) (db_messages d)) |>
    <| db_deliveries := List.filter (λ v, keep_other tenant ids (dv_server_id v) (dv_message_id v)) (db_deliveries d) |>
    <| db_queue := (db_queue d) <| qt_rows := List.filter (λ q, keep_other tenant ids (q_server_id q) (q_message_id q))
         (qt_rows (db_queue d)) |> |>
    <| db_activity := prune_activity tenant ids (db_activity d) |>.

Definition prune_batch (tenant : Id) (cutoff : datetime) (batch : nat) (d : RetentionDb) : nat * nat * RetentionDb :=
  let ids := take batch (expired_ids tenant cutoff (rt_mail d)) in
  let removed := List.filter (λ r, visible tenant r && among ids (row_id r)) (db_messages (rt_mail d)) in
  (length ids, length removed,
   d <| rt_mail := prune_messages_of tenant ids (rt_mail d) |>
     <| rt_message_shares := List.filter (λ s, keep_other tenant ids s.1.1.2 s.1.2) (rt_message_shares d) |>).

(** *** Tables of dated rows *)

(** [DELETE FROM t WHERE id IN (SELECT id ... WHERE server_id = $1 AND at < $2 ORDER BY id LIMIT $3)] *)
Definition tenant_rows (tenant : Id) (cutoff : datetime) (l : list (Z * Id * datetime)) : list Z :=
  map (λ x, x.1.1) (stable_sort (λ a b, (a.1.1 <=? b.1.1)%Z)
    (List.filter (λ x, (x.1.2 =? tenant)%N && (x.2 <? cutoff)%Z) l)).
Definition delete_tenant_rows (tenant : Id) (ids : list Z) (l : list (Z * Id * datetime)) : nat * list (Z * Id * datetime) :=
  (length (List.filter (λ x, (x.1.2 =? tenant)%N && among ids x.1.1) l),
   List.filter (λ x, negb ((x.1.2 =? tenant)%N && among ids x.1.1)) l).

Definition webhook_log_batch (tenant : Id) (cutoff : datetime) (batch : nat) (d : RetentionDb) : nat * nat * RetentionDb :=
  let ids := take batch (tenant_rows tenant cutoff (rt_webhook_request_log d)) in
  let '(removed, l) := delete_tenant_rows tenant ids (rt_webhook_request_log d) in
  (removed, removed, d <| rt_webhook_request_log := l |>).

Definition dmarc_batch (tenant : Id) (cutoff : datetime) (batch : nat) (d : RetentionDb) : nat * nat * RetentionDb :=
  let ids := take batch (tenant_rows tenant cutoff (rt_dmarc_reports d)) in
  let '(removed, l) := delete_tenant_rows tenant ids (rt_dmarc_reports d) in
  (removed, removed,
   d <| rt_dmarc_report_records := List.filter (λ x, negb ((x.2 =? tenant)%N && among ids x.1)) (rt_dmarc_report_records d) |>
     <| rt_dmarc_reports := l |>).

(** [prune_global_table] for a table of dated rows. *)
Definition global_batch (cutoff : datetime) (batch : nat) (l : list (Z * datetime)) : nat * nat * list (Z * datetime) :=
  let ids := take batch (map fst (hash_order (List.filter (λ x, (x.2 <? cutoff)%Z) l))) in
  let removed := length (List.filter (λ x, among ids x.1) l) in
  (removed, removed, List.filter (λ x, negb (among ids x.1)) l).

Definition rows_of (d : RetentionDb) (table : bytes) : list (Z * datetime) :=
  if table =b !"message_shares" then map (λ s, (s.1.1.1, s.2)) (rt_message_shares d)
  else from_option id [] (rt_tables d !! table).
Definition set_rows (table : bytes) (l : list (Z * datetime)) (d : RetentionDb) : RetentionDb :=
  if table =b !"message_shares"
  then d <| rt_message_shares := List.filter (λ s, among (map fst l) s.1.1.1) (rt_message_shares d) |>
  else d <| rt_tables := <[table := l]> (rt_tables d) |>.
Definition table_batch (table : bytes) (cutoff : datetime) (batch : nat) (d : RetentionDb) : nat * nat * RetentionDb :=
  let '(selected, removed, l) := global_batch cutoff batch (rows_of d table) in (selected, removed, set_rows table l d).

(** ** The classes *)

Abbreviation State := (Faulty RetentionDb).

Definition on_mail (step : MailDb → nat * nat * MailDb) (d : RetentionDb) : nat * nat * RetentionDb :=
  let '(selected, removed, m) := step (rt_mail d) in (selected, removed, d <| rt_mail := m |>).

Definition purge_message_content (tenant : Id) (cutoff : datetime) (batch : nat) (s : State) : Swept * State :=
  sweep (S (length (db_messages (rt_mail s.2)))) batch (on_mail (purge_batch tenant cutoff batch)) 0 s.
Definition prune_message_metadata (tenant : Id) (cutoff : datetime) (batch : nat) (s : State) : Swept * State :=
  sweep (S (length (db_messages (rt_mail s.2)))) batch (prune_batch tenant cutoff batch) 0 s.
Definition prune_webhook_log (tenant : Id) (cutoff : datetime) (batch : nat) (s : State) : Swept * State :=
  sweep (S (length (rt_webhook_request_log s.2))) batch (webhook_log_batch tenant cutoff batch) 0 s.
Definition prune_dmarc_reports (tenant : Id) (cutoff : datetime) (batch : nat) (s : State) : Swept * State :=
  sweep (S (length (rt_dmarc_reports s.2))) batch (dmarc_batch tenant cutoff batch) 0 s.
Definition prune_global_table (table : bytes) (cutoff : datetime) (batch : nat) (s : State) : Swept * State :=
  sweep (S (length (rows_of s.2 table))) batch (table_batch table cutoff batch) 0 s.
Definition prune_auth_events : datetime → nat → State → Swept * State := prune_global_table !"auth_events".
Definition prune_api_request_log : datetime → nat → State → Swept * State := prune_global_table !"api_requests".

Definition TOKEN_TABLES : list bytes :=
  [!"auth_sessions"; !"password_resets"; !"invitations"; !"message_shares"; !"oidc_states"; !"webauthn_states";
   !"saml_requests"; !"saml_assertions"].
(** An error of one table ends the loop. *)
Fixpoint prune_tables (tables : list bytes) (now : datetime) (batch total : nat) (s : State) : Swept * State :=
  match tables with
  | [] => (Total total, s)
  | table :: rest =>
      match prune_global_table table now batch s with
      | (Total n, s) => prune_tables rest now batch (total + n) s
      | failed => failed
      end
  end.
Definition prune_expired_auth_tokens (now : datetime) (batch : nat) : State → Swept * State :=
  prune_tables TOKEN_TABLES now batch 0.

(** ** The pass *)

Record RetentionConfig := mkRetentionConfig {
  rc_retention : RetentionPeriods;
  rc_batch_size : N;
  rc_auth_event_days : N;
  rc_api_request_days : N;
}.
Definition retention_batch (c : RetentionConfig) : nat := N.to_nat (N.max 1 (rc_batch_size c)).

(** A class with a cutoff; its error is logged and the pass moves on. *)
Definition swept_class (cutoff : option datetime) (run : datetime → State → Swept * State)
    (add : nat → RetentionReport → RetentionReport) (x : RetentionReport * State) : RetentionReport * State :=
  match cutoff with
  | Some cutoff => match run cutoff x.2 with
                   | (Total n, s) => (add n x.1, s)
                   | (_, s) => (x.1, s)
                   end
  | None => x
  end.

Definition retain_server (c : RetentionConfig) (now : datetime) (x : RetentionReport * State) (t : RetentionTarget) :
    RetentionReport * State :=
  let periods := with_overrides (rc_retention c) (rtt_overrides t) in
  let batch := retention_batch c in
  let server := rtt_server_id t in
  let x := swept_class (cutoff now (rp_message_metadata_days periods)) (λ at_, prune_message_metadata server at_ batch)
             (λ n r, r <| rr_messages_deleted := (rr_messages_deleted r + n)%nat |>) x in
  let x := swept_class (cutoff now (rp_message_content_days periods)) (λ at_, purge_message_content server at_ batch)
             (λ n r, r <| rr_message_content_purged := (rr_message_content_purged r + n)%nat |>) x in
  let x := swept_class (cutoff now (rp_webhook_log_days periods)) (λ at_, prune_webhook_log server at_ batch)
             (λ n r, r <| rr_webhook_log_deleted := (rr_webhook_log_deleted r + n)%nat |>) x in
  swept_class (cutoff now (rp_dmarc_report_days periods)) (λ at_, prune_dmarc_reports server at_ batch)
    (λ n r, r <| rr_dmarc_reports_deleted := (rr_dmarc_reports_deleted r + n)%nat |>) x.

(** The installation-wide classes: an error ends the pass ([None]). *)
Definition swept_table (run : State → Swept * State) (set : nat → RetentionReport → RetentionReport)
    (x : option RetentionReport * State) : option RetentionReport * State :=
  match x with
  | (Some r, s) => match run s with (Total n, s) => (Some (set n r), s) | (_, s) => (None, s) end
  | failed => failed
  end.

Definition apply_retention (c : RetentionConfig) (now : datetime) (targets : list RetentionTarget) (s : State) :
    option RetentionReport * State :=
  let batch := retention_batch c in
  let '(r, s) := fold_left (retain_server c now) targets (report_default, s) in
  let x := if (0 <? rc_auth_event_days c)%N
           then swept_table (prune_auth_events (now - days (Z.of_N (rc_auth_event_days c)))%Z batch)
                  (λ n r, r <| rr_auth_events_deleted := n |>) (Some r, s)
           else (Some r, s) in
  let x := if (0 <? rc_api_request_days c)%N
           then swept_table (prune_api_request_log (now - days (Z.of_N (rc_api_request_days c)))%Z batch)
                  (λ n r, r <| rr_api_requests_deleted := n |>) x
           else x in
  swept_table (prune_expired_auth_tokens now batch) (λ n r, r <| rr_expired_tokens_deleted := n |>) x.
End Retention.
