(* ===== verification/RustStrFacts.v ===== *)
(** * RustStrFacts: the laws of the string functions

    Specifications of equality, prefixes, searching, splitting and trimming, the
    ASCII closure properties, and the hint database [bytes] the component files
    use. *)

From S2P Require Import Prelude RustStr.

Create HintDb bytes.
Create Rewrite HintDb bytes_rw.

(** ** Equality *)

Lemma ascii_eqb_eq a b : Ascii.eqb a b = true ↔ a = b.
Proof. apply Ascii.eqb_eq. Qed.

Lemma bytes_eqb_eq a b : (a =b b) = true ↔ a = b.
Proof.
  revert b. induction a as [|x a IH]; intros [|y b]; simpl; try (split; congruence).
  rewrite andb_true_iff, ascii_eqb_eq, IH. naive_solver.
Qed.

Lemma bytes_eqb_refl a : (a =b a) = true.
Proof. by apply bytes_eqb_eq. Qed.

Lemma bytes_eqb_neq a b : (a =b b) = false ↔ a ≠ b.
Proof. rewrite <- (bytes_eqb_eq a b). destruct (a =b b); naive_solver. Qed.

Lemma bytes_eqb_spec a b : reflect (a = b) (a =b b).
Proof. apply iff_reflect. symmetry. apply bytes_eqb_eq. Qed.

Lemma bytes_eqb_sym a b : (a =b b) = (b =b a).
Proof. destruct (bytes_eqb_spec a b), (bytes_eqb_spec b a); congruence. Qed.

Lemma is_byte_eq c d : is_byte c d = true ↔ d = c.
Proof. unfold is_byte. rewrite ascii_eqb_eq. naive_solver. Qed.

#[export] Hint Rewrite bytes_eqb_refl : bytes_rw.

(** Turn boolean byte tests in the context into equations. *)
Ltac bytes_bool :=
  repeat match goal with
  | H : (_ =b _) = true |- _ => apply bytes_eqb_eq in H
  | H : (_ =b _) = false |- _ => apply bytes_eqb_neq in H
  | H : is_byte _ _ = true |- _ => apply is_byte_eq in H
  | H : Ascii.eqb _ _ = true |- _ => apply ascii_eqb_eq in H
  | H : _ && _ = true |- _ => apply andb_true_iff in H as [? ?]
  | H : negb _ = true |- _ => apply negb_true_iff in H
  | H : negb _ = false |- _ => apply negb_false_iff in H
  | H : bool_decide _ = true |- _ => apply bool_decide_eq_true in H
  | H : bool_decide _ = false |- _ => apply bool_decide_eq_false in H
  end.

(** ** Prefixes and suffixes *)

Lemma strip_prefix_Some p s r : strip_prefix p s = Some r ↔ s = p ++ r.
Proof.
  revert s. induction p as [|c p IH]; intros [|d s]; simpl.
  - naive_solver.
  - naive_solver.
  - split; [done|]. destruct p; discriminate.
  - destruct (Ascii.eqb_spec c d) as [->|Hne].
    + rewrite IH. naive_solver.
    + split; [done|]. intros [=]. congruence.
Qed.

Lemma strip_prefix_app p r : strip_prefix p (p ++ r) = Some r.
Proof. by apply strip_prefix_Some. Qed.

Lemma strip_prefix_None p s : strip_prefix p s = None ↔ ∀ r, s ≠ p ++ r.
Proof.
  destruct (strip_prefix p s) as [r|] eqn:E.
  - apply strip_prefix_Some in E. naive_solver.
  - split; [|done]. intros _ r ->. by rewrite strip_prefix_app in E.
Qed.

Lemma starts_with_true s p : starts_with s p = true ↔ ∃ r, s = p ++ r.
Proof.
  unfold starts_with. destruct (strip_prefix p s) as [r|] eqn:E.
  - apply strip_prefix_Some in E. naive_solver.
  - pose proof (proj1 (strip_prefix_None _ _) E). naive_solver.
Qed.

Lemma starts_with_app s p : starts_with (p ++ s) p = true.
Proof. unfold starts_with. by rewrite strip_prefix_app. Qed.

Lemma strip_suffix_Some p s r : strip_suffix p s = Some r ↔ s = r ++ p.
Proof.
  unfold strip_suffix. split.
  - destruct (strip_prefix (rev p) (rev s)) as [r'|] eqn:E; [|done]. intros [= <-].
    apply strip_prefix_Some in E. apply (f_equal (@rev _)) in E.
    by rewrite rev_app_distr, !rev_involutive in E.
  - intros ->. by rewrite rev_app_distr, strip_prefix_app, rev_involutive.
Qed.

Lemma strip_suffix_app p r : strip_suffix p (r ++ p) = Some r.
Proof. by apply strip_suffix_Some. Qed.

Lemma strip_suffix_None p s : strip_suffix p s = None ↔ ∀ r, s ≠ r ++ p.
Proof.
  destruct (strip_suffix p s) as [r|] eqn:E.
  - apply strip_suffix_Some in E. naive_solver.
  - split; [|done]. intros _ r ->. by rewrite strip_suffix_app in E.
Qed.

#[export] Hint Rewrite strip_prefix_app strip_suffix_app starts_with_app : bytes_rw.

(** ** Searching *)

Lemma find_sub_Some p s i :
  find_sub p s = Some i → i + length p <= length s ∧ s = take i s ++ p ++ drop (i + length p) s.
Proof.
  revert i. induction s as [|c s IH]; intros i; cbn [find_sub].
  - destruct (starts_with [] p) eqn:E; [|done]. intros [= <-].
    apply starts_with_true in E as [r E]. symmetry in E. apply app_eq_nil in E as [-> ->]. done.
  - destruct (starts_with (c :: s) p) eqn:E.
    + intros [= <-]. apply starts_with_true in E as [r E]. rewrite E. simpl.
      rewrite drop_app_length. split; [|done]. rewrite length_app. lia.
    + destruct (find_sub p s) as [j|] eqn:Ej; [|done]. intros [= <-].
      destruct (IH j eq_refl) as [? Hs]. simpl. split; [lia|]. by f_equal.
Qed.

Lemma find_sub_None p s : find_sub p s = None → ∀ a b, s ≠ a ++ p ++ b.
Proof.
  induction s as [|c s IH]; cbn [find_sub]; intros H a b.
  - destruct (starts_with [] p) eqn:E; [done|]. intros Heq. symmetry in Heq.
    apply app_eq_nil in Heq as [_ Heq]. apply app_eq_nil in Heq as [-> _]. done.
  - destruct (starts_with (c :: s) p) eqn:E; [done|].
    destruct (find_sub p s) eqn:Ef; [done|]. intros Heq. destruct a as [|d a].
    + simpl in Heq. rewrite Heq, starts_with_app in E. done.
    + injection Heq as -> Heq. by eapply IH.
Qed.

Lemma contains_true s p : contains s p = true ↔ ∃ a b, s = a ++ p ++ b.
Proof.
  unfold contains. destruct (find_sub p s) as [i|] eqn:E.
  - split; [intros _|done]. apply find_sub_Some in E as [_ E]. eauto.
  - split; [done|]. intros (a & b & ->). exfalso. by eapply find_sub_None.
Qed.

Lemma find_byte_Some P s i :
  find_byte P s = Some i →
  ∃ a c b, s = a ++ c :: b ∧ length a = i ∧ P c = true ∧ Forall (λ x, P x = false) a.
Proof.
  revert i. induction s as [|c s IH]; intros i; simpl; [done|].
  destruct (P c) eqn:Ec.
  - intros [= <-]. exists [], c, s. by split_and!.
  - destruct (find_byte P s) as [j|]; [|done]. intros [= <-].
    destruct (IH j eq_refl) as (a & d & b & -> & <- & ? & ?).
    exists (c :: a), d, b. split_and!; auto.
Qed.

Lemma find_byte_None P s : find_byte P s = None ↔ Forall (λ x, P x = false) s.
Proof.
  induction s as [|c s IH]; simpl; [by split|].
  destruct (P c) eqn:Ec.
  - split; [done|]. intros H. inversion H. congruence.
  - destruct (find_byte P s); rewrite Forall_cons; naive_solver.
Qed.

Lemma find_byte_app P a c b :
  Forall (λ x, P x = false) a → P c = true → find_byte P (a ++ c :: b) = Some (length a).
Proof. induction 1 as [|x a Hx _ IH]; intros Hc; simpl; [by rewrite Hc|]. by rewrite Hx, IH. Qed.

(** ** Splitting *)

Lemma split_once_Some P s a b :
  split_once P s = Some (a, b) →
  ∃ c, s = a ++ c :: b ∧ P c = true ∧ Forall (λ x, P x = false) a.
Proof.
  revert a b. induction s as [|c s IH]; intros a b; simpl; [done|].
  destruct (P c) eqn:Ec.
  - intros [= <- <-]. exists c. by split_and!.
  - destruct (split_once P s) as [[a' b']|]; [|done]. intros [= <- <-].
    destruct (IH a' b' eq_refl) as (d & -> & ? & ?). exists d. split_and!; auto.
Qed.

Lemma split_once_app P a c b :
  Forall (λ x, P x = false) a → P c = true → split_once P (a ++ c :: b) = Some (a, b).
Proof. induction 1 as [|x a Hx _ IH]; intros Hc; simpl; [by rewrite Hc|]. by rewrite Hx, IH. Qed.

Lemma split_once_None P s : split_once P s = None ↔ Forall (λ x, P x = false) s.
Proof.
  induction s as [|c s IH]; simpl; [by split|].
  destruct (P c) eqn:Ec.
  - split; [done|]. intros H. inversion H. congruence.
  - destruct (split_once P s) as [[]|]; rewrite Forall_cons; naive_solver.
Qed.

Lemma split_on_not_nil P s : split_on P s ≠ [].
Proof. destruct s as [|c s]; simpl; [done|]. destruct (P c), (split_on P s); done. Qed.

Lemma split_on_pieces P s : Forall (Forall (λ x, P x = false)) (split_on P s).
Proof.
  induction s as [|c s IH]; simpl; [by repeat constructor|].
  destruct (P c) eqn:Ec; [by constructor|].
  destruct (split_on P s) as [|h t]; [by repeat constructor|].
  inversion IH; subst. by repeat constructor.
Qed.

Lemma split_on_none P s : Forall (λ x, P x = false) s → split_on P s = [s].
Proof. induction 1 as [|c s Hc _ IH]; simpl; [done|]. by rewrite Hc, IH. Qed.

Lemma split_on_app P a c b :
  Forall (λ x, P x = false) a → P c = true → split_on P (a ++ c :: b) = a :: split_on P b.
Proof.
  induction 1 as [|x a Hx _ IH]; intros Hc; simpl; [by rewrite Hc|]. by rewrite Hx, IH.
Qed.

Lemma split_on_single P s h : split_on P s = [h] → h = s ∧ Forall (λ x, P x = false) s.
Proof.
  revert h. induction s as [|c s IH]; intros h; simpl; [by intros [= <-]|].
  destruct (P c) eqn:Ec; [by intros [= _ ?%split_on_not_nil]|].
  destruct (split_on P s) as [|h' [|? ?]] eqn:E; [by apply split_on_not_nil in E| |done].
  intros [= <-]. destruct (IH h' eq_refl) as [-> ?]. by split; [|constructor].
Qed.

(** The last piece of several is what follows the last separator. *)
Lemma split_on_last P s : 2 <= length (split_on P s) →
  ∃ front c key, s = front ++ c :: key ∧ P c = true ∧ Forall (λ x, P x = false) key ∧ last (split_on P s) = Some key.
Proof.
  induction s as [|c s IH]; simpl; [lia|]. destruct (P c) eqn:Ec.
  - destruct (split_on P s) as [|h [|h' t]] eqn:E; [by apply split_on_not_nil in E| |].
    + intros _. apply split_on_single in E as [-> Hs]. by exists [], c, s.
    + intros _. destruct IH as (front & c' & key & -> & Hc' & Hk & Hl); [cbn; lia|]. by exists (c :: front), c', key.
  - destruct (split_on P s) as [|h [|h' t]] eqn:E; [by apply split_on_not_nil in E|cbn; lia|].
    intros _. destruct IH as (front & c' & key & -> & Hc' & Hk & Hl); [cbn; lia|]. by exists (c :: front), c', key.
Qed.

Lemma split_inclusive_concat P s : concat (split_inclusive P s) = s.
Proof.
  induction s as [|c s IH]; simpl; [done|].
  destruct (P c); simpl; [by rewrite IH|].
  destruct (split_inclusive P s); simpl in *; congruence.
Qed.

(** ** ASCII text *)

Lemma is_ascii_forall s : is_ascii s = true ↔ Forall (λ c, is_ascii_byte c = true) s.
Proof. unfold is_ascii. rewrite forallb_forall, Forall_forall. setoid_rewrite list_elem_of_In. done. Qed.

Lemma is_ascii_app a b : is_ascii (a ++ b) = is_ascii a && is_ascii b.
Proof. apply forallb_app. Qed.

Lemma is_ascii_take n s : is_ascii s = true → is_ascii (take n s) = true.
Proof. rewrite !is_ascii_forall. apply Forall_take. Qed.
Lemma is_ascii_drop n s : is_ascii s = true → is_ascii (drop n s) = true.
Proof. rewrite !is_ascii_forall. apply Forall_drop. Qed.

Lemma ascii_not_cont c : is_ascii_byte c = true → is_cont c = false.
Proof. unfold is_ascii_byte, is_cont, b_in. rewrite N.ltb_lt. intros. apply andb_false_iff. left. apply N.leb_gt. lia. Qed.

(** Every offset within ASCII text is a character boundary, so slicing does not
    panic. *)
Lemma ascii_boundary s i : is_ascii s = true → i <= length s → is_char_boundary s i = true.
Proof.
  intros Ha Hi. unfold is_char_boundary.
  destruct (decide (i = length s)) as [->|]; [by rewrite Nat.eqb_refl, orb_true_r|].
  destruct (lookup_lt_is_Some_2 s i ltac:(lia)) as [c Hc]. rewrite Hc.
  apply is_ascii_forall in Ha. rewrite Forall_lookup in Ha.
  rewrite ascii_not_cont by eauto. by rewrite orb_true_r.
Qed.

Lemma slice_to_ascii s i : is_ascii s = true → i <= length s → slice_to s i = Some (take i s).
Proof. intros. unfold slice_to. by rewrite ascii_boundary. Qed.
Lemma slice_from_ascii s i : is_ascii s = true → i <= length s → slice_from s i = Some (drop i s).
Proof. intros. unfold slice_from. by rewrite ascii_boundary. Qed.

(** ** Trimming *)

Lemma drop_ws_suffix w1 w2 w3 s : ∃ k, drop_ws w1 w2 w3 s = drop k s.
Proof.
  revert s. fix IH 1. intros [|a s1]; [by exists 0|]. simpl.
  destruct (w1 a); [destruct (IH s1) as [k ->]; by exists (S k)|].
  destruct s1 as [|b s2]; [by exists 0|].
  destruct (w2 a b); [destruct (IH s2) as [k ->]; by exists (S (S k))|].
  destruct s2 as [|c s3]; [by exists 0|].
  destruct (w3 a b c); [destruct (IH s3) as [k ->]; by exists (S (S (S k)))|by exists 0].
Qed.

Lemma trim_start_suffix s : ∃ k, trim_start s = drop k s.
Proof. apply drop_ws_suffix. Qed.

Lemma trim_end_prefix s : ∃ k, trim_end s = take k s.
Proof.
  unfold trim_end. destruct (drop_ws_suffix ws1 (λ a b, ws2 b a) (λ a b c, ws3 c b a) (rev s)) as [k ->].
  exists (length s - k). by rewrite skipn_rev, rev_involutive.
Qed.

Lemma is_ascii_trim_start s : is_ascii s = true → is_ascii (trim_start s) = true.
Proof. destruct (trim_start_suffix s) as [k ->]. apply is_ascii_drop. Qed.
Lemma is_ascii_trim_end s : is_ascii s = true → is_ascii (trim_end s) = true.
Proof. destruct (trim_end_prefix s) as [k ->]. apply is_ascii_take. Qed.
Lemma is_ascii_trim s : is_ascii s = true → is_ascii (trim s) = true.
Proof. intros. by apply is_ascii_trim_end, is_ascii_trim_start. Qed.

#[export] Hint Resolve is_ascii_take is_ascii_drop is_ascii_trim is_ascii_trim_start
  is_ascii_trim_end : bytes.

(** ** Lossy decoding *)

Lemma ascii_bytes_not_cont c : is_ascii_byte c = true →
  is_cont c = false ∧ (∀ x, utf8_second3 x c = false) ∧ (∀ x, utf8_second4 x c = false).
Proof.
  unfold is_ascii_byte, utf8_second3, utf8_second4, is_cont, b_in. rewrite N.ltb_lt. intros Hc.
  assert (∀ lo hi, (128 <= lo)%N → (lo <=? byte_n c)%N && (byte_n c <=? hi)%N = false) as H.
  { intros lo hi Hlo. apply andb_false_iff. left. apply N.leb_gt. lia. }
  split_and!; intros; repeat case_match; apply H; lia.
Qed.

(** An ASCII byte separates: decoding commutes with it. *)
Lemma lossy_app_ascii a c b :
  is_ascii_byte c = true → from_utf8_lossy (a ++ c :: b) = from_utf8_lossy a ++ c :: from_utf8_lossy b.
Proof.
  intros Hc. destruct (ascii_bytes_not_cont c Hc) as (H1 & H2 & H3).
  assert (from_utf8_lossy (c :: b) = c :: from_utf8_lossy b) as H0 by (simpl; by rewrite Hc).
  induction a as [a IH] using (induction_ltof1 _ (@length ascii)). unfold ltof in IH.
  destruct a as [|x a1]; [exact H0|].
  rewrite <- app_comm_cons. cbn [from_utf8_lossy]. destruct (is_ascii_byte x); [by rewrite (IH a1) by (simpl; lia)|].
  destruct (b_in 194 223 x).
  { destruct a1 as [|y a2]; [cbn [app]; by rewrite H1, H0|]. rewrite <- app_comm_cons.
    destruct (is_cont y); [by rewrite (IH a2) by (simpl; lia)|]. rewrite app_comm_cons, (IH (y :: a2)) by (simpl; lia).
    by rewrite <- app_assoc. }
  destruct (b_in 224 239 x).
  { destruct a1 as [|y a2]; [cbn [app]; by rewrite H2, H0|]. rewrite <- app_comm_cons.
    destruct (utf8_second3 x y); [|rewrite app_comm_cons, (IH (y :: a2)) by (simpl; lia); by rewrite <- app_assoc].
    destruct a2 as [|z a3]; [cbn [app]; by rewrite H1, H0|]. rewrite <- app_comm_cons.
    destruct (is_cont z); [by rewrite (IH a3) by (simpl; lia)|]. rewrite app_comm_cons, (IH (z :: a3)) by (simpl; lia).
    by rewrite <- app_assoc. }
  destruct (b_in 240 244 x); [|rewrite (IH a1) by (simpl; lia); by rewrite <- app_assoc].
  destruct a1 as [|y a2]; [cbn [app]; by rewrite H3, H0|]. rewrite <- app_comm_cons.
  destruct (utf8_second4 x y); [|rewrite app_comm_cons, (IH (y :: a2)) by (simpl; lia); by rewrite <- app_assoc].
  destruct a2 as [|z a3]; [cbn [app]; by rewrite H1, H0|]. rewrite <- app_comm_cons.
  destruct (is_cont z); [|rewrite app_comm_cons, (IH (z :: a3)) by (simpl; lia); by rewrite <- app_assoc].
  destruct a3 as [|u a4]; [cbn [app]; by rewrite H1, H0|]. rewrite <- app_comm_cons.
  destruct (is_cont u); [by rewrite (IH a4) by (simpl; lia)|]. rewrite app_comm_cons, (IH (u :: a4)) by (simpl; lia).
  by rewrite <- app_assoc.
Qed.

Lemma lossy_ascii s : is_ascii s = true → from_utf8_lossy s = s.
Proof.
  rewrite is_ascii_forall. induction 1 as [|c s Hc _ IH]; [done|].
  change (c :: s) with ([] ++ c :: s). rewrite lossy_app_ascii by done. by rewrite IH.
Qed.

(** Text that decodes to itself: valid UTF-8. *)
Definition valid_utf8 (s : bytes) : Prop := from_utf8_lossy s = s.

Lemma trim_start_matches_id P s : Forall (λ c, P c = false) s → trim_start_matches P s = s.
Proof. destruct 1 as [|c s Hc _]; [done|]. cbn. by rewrite Hc. Qed.

Lemma trim_end_matches_id P s : Forall (λ c, P c = false) s → trim_end_matches P s = s.
Proof. intros H. unfold trim_end_matches. rewrite trim_start_matches_id by (by apply Forall_rev). apply rev_involutive. Qed.

Lemma trim_start_matches_suffix P s : ∃ k, trim_start_matches P s = drop k s.
Proof.
  induction s as [|c s [k IH]]; cbn; [by exists 0|]. destruct (P c); [by exists (S k)|by exists 0].
Qed.

Lemma trim_end_matches_prefix P s : ∃ k, trim_end_matches P s = take k s.
Proof.
  unfold trim_end_matches. destruct (trim_start_matches_suffix P (rev s)) as [k ->].
  exists (length s - k). by rewrite List.skipn_rev, rev_involutive.
Qed.

Lemma trim_end_matches_app P s t : Forall (λ c, P c = true) t → trim_end_matches P (s ++ t) = trim_end_matches P s.
Proof.
  intros Ht. unfold trim_end_matches. rewrite rev_app_distr. f_equal. apply Forall_rev in Ht.
  induction Ht as [|c l Hc _ IH]; [done|]. cbn. by rewrite Hc.
Qed.

Lemma split_inclusive_app P a c b :
  Forall (λ x, P x = false) a → P c = true →
  split_inclusive P (a ++ c :: b) = (a ++ [c]) :: split_inclusive P b.
Proof.
  induction 1 as [|x a Hx _ IH]; intros Hc; simpl; [by rewrite Hc|]. by rewrite Hx, IH.
Qed.

Lemma split_inclusive_head P c s : ∃ l ls, split_inclusive P (c :: s) = (c :: l) :: ls.
Proof.
  cbn [split_inclusive]. destruct (P c); [by eexists _, _|]. destruct (split_inclusive P s); by eexists _, _.
Qed.

(** Decoding keeps the first byte, or makes it the start of U+FFFD. *)
Lemma lossy_head c s : ∃ x t, from_utf8_lossy (c :: s) = x :: t ∧ (x = c ∨ x = ascii_of_N 239).
Proof. cbn [from_utf8_lossy]. repeat case_match; eexists _, _; (split; [reflexivity|]); auto. Qed.
