(* ===== verification/PgSink.v ===== *)
(** * PgSink: storing accepted messages

    [camelmailer-db/src/pg_store.rs]: [insert_message_in_tx], [count_organization_send],
    [store_send_operation], [idempotency_lookup] and [MessageSink for PgMessageSink],
    the sink of the production SMTP server, with the script of the transactions that
    fail.  Where none does the sink is the database, and keeps the laws of
    [MessageSink] that the session's theorems rest on. *)

From S2P Require Import Prelude RustStr RustStrFacts Net Model SendLimit Message MemoryStore Queue MailDb.

Section PgSink.
Context `{CASE : !UnicodeCase, CRA : !Crates, PAY : !Payloads}.

(** ** Counting *)

(** One threshold of the loop in [count_organization_send]. *)
Definition alert_threshold (o : Organization) (month : UsageMonth) (sent : Z) (limit : option Z) (d : MailDb)
    (threshold : N) : MailDb :=
  if decide ((org_id o, month, threshold) ∈ db_usage_alerts d) then d
  else d <| db_usage_alerts := {[ (org_id o, month, threshold) ]} ∪ db_usage_alerts d |>
         <| db_lifecycle_events := db_lifecycle_events d ++
              [usage_threshold_event (db_now d) o month threshold sent (from_option id 0%Z limit)] |>.

Definition count_organization_send (server_id : Id) (d : MailDb) : MailDb :=
  match db_server_organizations d !! server_id with
  | None => d
  | Some organization_id =>
      let month := usage_month_of (db_now d) in
      let key := (organization_id, month) in
      let sent := (from_option id 0 (db_organization_send_counters d !! key) + 1)%Z in
      let d := d <| db_organization_send_counters := <[key := sent]> (db_organization_send_counters d) |> in
      match db_organizations d !! organization_id with
      | None => d
      | Some (organization, limit) =>
          fold_left (alert_threshold organization month sent limit) (reached_thresholds sent limit) d
      end
  end.

Definition count_server_send (server_id : Id) (d : MailDb) : MailDb :=
  let day := (server_id, date_naive (db_now d)) in
  d <| db_send_counters := <[day := (from_option id 0 (db_send_counters d !! day) + 1)%Z]> (db_send_counters d) |>.

(** ** Insertion *)

Definition message_row (now : datetime) (id : Z) (m : QueuedMessage) : MessageRow :=
  mkMessageRow
    (mkStoredMessage id (qm_server_id m) (message_token id) (scope_as_str (qm_scope m)) (qm_rcpt_to m) (qm_mail_from m)
       (qm_bounce m) (qm_received_with_ssl m) (qm_domain_id m) (qm_credential_id m) (qm_route_id m) (qm_raw_message m)
       !"Pending" None None None (header_value (qm_raw_message m) !"subject")
       (header_value (qm_raw_message m) !"message-id") !"NotChecked" 0%N false (Z.of_nat (length (qm_raw_message m)))
       false None false (qm_tag m) (qm_metadata m) (qm_stream_id m) now)
    None false None.

Definition insert_message_in_tx (m : QueuedMessage) (d : MailDb) : SentMessage * MailDb :=
  let id := db_next_message d in
  let d := d <| db_messages := db_messages d ++ [message_row (db_now d) id m] |>
             <| db_next_message := (id + 1)%Z |> in
  let d := on_queue (λ t, (enqueue_with_kind id (qm_server_id m) (domain_after_at (qm_rcpt_to m))
             (is_broadcast d (qm_stream_id m)) t).2) d in
  let d := if bool_decide (qm_scope m = Outgoing)
           then count_organization_send (qm_server_id m) (count_server_send (qm_server_id m) d) else d in
  (mkSentMessage id (message_token id) (qm_rcpt_to m), d).

(** ** Send operations *)

Definition idempotency_lookup (tenant : Id) (r : IdempotencyRequest) (d : MailDb) : IdempotencyLookup :=
  match db_idempotency_requests d !! (tenant, ir_key_hash r) with
  | None => LookupNew
  | Some rec =>
      if (mir_expires_at rec <=? db_now d)%Z then LookupNew
      else if negb (mir_request_hash rec =b ir_request_hash r) || negb (mir_operation rec =b ir_operation r)
      then LookupConflict else LookupReplay (mir_response rec)
  end.

(** [Result::and_then], which is what [?] does. *)
Definition and_then {E A B} (r : E + A) (f : A → E + B) : E + B := match r with inl e => inl e | inr a => f a end.

Lemma and_then_inr {E A B} (r : E + A) (f : A → E + B) b : and_then r f = inr b → ∃ a, r = inr a ∧ f a = inr b.
Proof. destruct r as [e|a]; [done|]. by exists a. Qed.

(** [StoreError] as text.  What the driver says after the colon is not modelled. *)
Definition CROSSED : bytes := !"storage error: send operation crossed server boundary".
Definition DATABASE_ERROR : bytes := !"storage error: error returned from database".
(** [sqlx_error] of a violated UNIQUE constraint it has no text of its own for. *)
Definition ALREADY_TAKEN : bytes := !"Permalink has already been taken".

(** [INSERT INTO unsubscribe_tokens], whose column [token] is UNIQUE. *)
Definition register_token (tenant : Id) (t : PendingUnsubscribeToken) (d : MailDb) : bytes + MailDb :=
  if decide (put_token t ∈ map fst (db_unsubscribe_tokens d)) then inl ALREADY_TAKEN
  else inr (d <| db_unsubscribe_tokens := db_unsubscribe_tokens d ++ [(put_token t, (tenant, put_stream_id t, put_address t))] |>).

Definition register_planned (tenant : Id) (planned : SendPlanMessage) (d : MailDb) : bytes + MailDb :=
  match spm_unsubscribe_token planned with Some t => register_token tenant t d | None => inr d end.

Fixpoint send_planned (tenant : Id) (messages : list SendPlanMessage) (d : MailDb) : bytes + (list SentMessage * MailDb) :=
  match messages with
  | [] => inr ([], d)
  | planned :: rest =>
      if negb (qm_server_id (spm_message planned) =? tenant)%N then inl CROSSED
      else and_then (register_planned tenant planned d) (λ d,
        let '(sent, d) := insert_message_in_tx (spm_message planned) d in
        and_then (send_planned tenant rest d) (λ '(sents, d), inr (sent :: sents, d)))
  end.

Fixpoint send_plan (tenant : Id) (plan : list SendPlanItem) (d : MailDb) : bytes + (SendOperationResult * MailDb) :=
  match plan with
  | [] => inr ([], d)
  | PlanMessages messages :: rest =>
      and_then (send_planned tenant messages d) (λ '(recipients, d),
      and_then (send_plan tenant rest d) (λ '(items, d),
      inr (ItemSuccess (mkStoredSendResult (sm_id <$> head recipients) recipients) :: items, d)))
  | PlanError code message :: rest =>
      and_then (send_plan tenant rest d) (λ '(items, d), inr (ItemError code message :: items, d))
  end.

(** One transaction.  An error rolls it back: that of a message of another server, of
    a token that is taken, or of a statement or the commit ([failing]).  Of two
    transactions with one new key the second waits at its insertion of the row for
    the first, rolls back and looks the key up, which is what it does here when it
    comes second: the transaction is atomic at that insertion. *)
Definition store_send_operation (failing : bool) (tenant : Id) (plan : list SendPlanItem)
    (idempotency : option IdempotencyRequest) (d : MailDb) : (bytes + StoreSendOutcome) * MailDb :=
  let run d1 :=
    match send_plan tenant plan d1 with
    | inl error => (inl error, d)
    | inr (response, d2) =>
        (inr (SendStored response),
         match idempotency with
         | Some r => d2 <| db_idempotency_requests := <[(tenant, ir_key_hash r) :=
                        mkMemoryIdempotencyRecord (ir_request_hash r) (ir_operation r) response (ir_expires_at r)]>
                        (db_idempotency_requests d2) |>
         | None => d2
         end)
    end in
  if failing then (inl DATABASE_ERROR, d)
  else
    match idempotency with
    | None => run d
    | Some r =>
        match idempotency_lookup tenant r d with
        | LookupNew => run (d <| db_idempotency_requests := delete (tenant, ir_key_hash r) (db_idempotency_requests d) |>)
        | LookupReplay response => (inr (SendReplayed response), d)
        | LookupConflict => (inr SendConflict, d)
        end
    end.

(** ** The sink *)

(** The error of the transaction is logged, and nothing else. *)
Definition pg_queue_message (failing : bool) (d : MailDb) (m : QueuedMessage) : MailDb :=
  if failing then d else (insert_message_in_tx m d).2.

(** It runs one transaction at most: the lookup of a submission over its quota, or
    the send operation. *)
Definition pg_queue_messages (failing : bool) (d : MailDb) (messages : list QueuedMessage)
    (idempotency : option IdempotencyRequest) (allowance : SendAllowance) : MailDb * QueueMessagesOutcome :=
  match messages with
  | [] => (d, Stored)
  | first :: _ =>
      let server_id := qm_server_id first in
      if negb (allows allowance (outgoing_count messages)) then
        (d, match idempotency with
            | Some r =>
                if failing then SinkFailed DATABASE_ERROR
                else match idempotency_lookup server_id r d with
                     | LookupReplay _ => Replayed
                     | LookupConflict => Conflict
                     | LookupNew => LimitExceeded (rejection_message allowance)
                     end
            | None => LimitExceeded (rejection_message allowance)
            end)
      else
        let plan := [PlanMessages (map (λ m, mkSendPlanMessage m None) messages)] in
        match store_send_operation failing server_id plan idempotency d with
        | (inr (SendStored _), d) => (d, Stored)
        | (inr (SendReplayed _), d) => (d, Replayed)
        | (inr SendConflict, d) => (d, Conflict)
        | (inl error, d) => (d, SinkFailed error)
        end
  end.

(** The sink, with the script of which of its calls meet a failing transaction. *)
Record PgMessageSink := mkPgMessageSink { sk_db : MailDb; sk_faults : list bool }.

Definition next_fault (k : PgMessageSink) : bool := match sk_faults k with true :: _ => true | _ => false end.

#[export] Instance PgMessageSink_sink : MessageSink PgMessageSink :=
  {| queue_message k m := mkPgMessageSink (pg_queue_message (next_fault k) (sk_db k) m) (tail (sk_faults k));
     queue_messages _ k ms idem a :=
       let '(d, o) := pg_queue_messages (next_fault k) (sk_db k) ms idem a in (mkPgMessageSink d (tail (sk_faults k)), o) |}.

(** The sink of a database on which no statement fails. *)
#[export] Instance PgSink_sink : MessageSink MailDb :=
  {| queue_message := pg_queue_message false; queue_messages _ := pg_queue_messages false |}.

(** ** The laws *)

(** The message a row was made of. *)
Definition queued_of_row (r : MessageRow) : QueuedMessage :=
  let m := stored r in
  mkQueuedMessage (sg_server_id m) (sg_rcpt_to m) (sg_mail_from m) (sg_raw_message m) (sg_received_with_ssl m)
    (if sg_scope m =b !"outgoing" then Outgoing else Incoming) (sg_bounce m) (sg_domain_id m) (sg_credential_id m)
    (sg_route_id m) (sg_tag m) (sg_metadata m) (sg_stream_id m).

Definition pg_accepted (d : MailDb) : list QueuedMessage := map queued_of_row (db_messages d).

Lemma queued_of_message_row now id m : queued_of_row (message_row now id m) = m.
Proof. destruct m as [? ? ? ? ? [|] ? ? ? ? ? ? ?]; reflexivity. Qed.

Lemma fold_left_frame {A B C} (proj : A → C) (f : A → B → A) l a :
  (∀ a b, proj (f a b) = proj a) → proj (fold_left f l a) = proj a.
Proof. intros H. revert a. induction l as [|b l IH]; intros a; cbn; [done|]. by rewrite IH, H. Qed.

(** Counting touches no table of messages, queue or idempotency. *)
Definition mail_tables (d : MailDb) :=
  (db_messages d, db_next_message d, db_deliveries d, db_queue d, db_requests d, db_suppressions d,
   db_idempotency_requests d, db_stream_types d, db_now d, db_unsubscribe_tokens d, db_activity d,
   db_subscriptions d, db_webhooks d).

Lemma count_organization_send_frame server_id d : mail_tables (count_organization_send server_id d) = mail_tables d.
Proof.
  unfold count_organization_send. destruct (_ !! server_id) as [o|]; [|done]. cbn.
  destruct (_ !! o) as [[org limit]|]; [|done].
  rewrite (fold_left_frame mail_tables); [done|]. intros a b. unfold alert_threshold. by destruct (decide _).
Qed.

Lemma insert_message_tables m d : mail_tables (insert_message_in_tx m d).2 =
  (db_messages d ++ [message_row (db_now d) (db_next_message d) m], (db_next_message d + 1)%Z, db_deliveries d,
   (enqueue_with_kind (db_next_message d) (qm_server_id m) (domain_after_at (qm_rcpt_to m))
      (is_broadcast d (qm_stream_id m)) (db_queue d)).2,
   db_requests d, db_suppressions d, db_idempotency_requests d, db_stream_types d, db_now d, db_unsubscribe_tokens d, db_activity d,
   db_subscriptions d, db_webhooks d).
Proof.
  unfold insert_message_in_tx. cbn [snd]. destruct (bool_decide _); [rewrite count_organization_send_frame|]; reflexivity.
Qed.
End PgSink.
