(* ===== verification/SessionFacts.v ===== *)
(** * SessionFacts: the session invariant and its preservation

    [session_wf] is what every reachable session satisfies; the handlers preserve
    it and, on ASCII command lines, never panic. *)

From S2P Require Import Prelude RustStr RustStrFacts Net Model SendLimit Message Store Session.

(** ** The invariant *)

Record session_wf (s : Session) : Prop := {
  wf_data_mode : input_mode s = ModeData →
    is_Some (headers s) ∧ is_Some (data s) ∧ state s = RcptToReceived;
  wf_no_data : input_mode s ≠ ModeData → data s = None ∧ headers s = None;
  wf_recipients : state s ≠ RcptToReceived → recipients s = [];
  wf_mail_from : state s = MailFromReceived ∨ state s = RcptToReceived → is_Some (mail_from s);
  wf_preauth : state s = Preauth → input_mode s = ModeCommand ∧ credential s = None;
  wf_recipient : Forall (λ r,
    (rcp_kind r = KRoute → is_Some (rcp_route r)) ∧
    (rcp_kind r = KCredential → is_Some (credential s)) ∧
    srv_suspended (rcp_server r) = false) (recipients s);
}.

(** Split a definition into its branches and rebuild the invariant in each. *)
Ltac session_cases :=
  repeat first
    [ progress (cbn in *; simplify_eq)
    | match goal with
      | H : context [match ?x with _ => _ end] |- _ => is_var x; destruct x eqn:?
      | H : context [match ?x with _ => _ end] |- _ => destruct x eqn:?
      | H : context [if ?x then _ else _] |- _ => destruct x eqn:?
      end ].

Ltac build_wf :=
  match goal with
  | H : session_wf ?s |- session_wf _ =>
      destruct H as [Hdm Hnd Hrc Hmf Hpa Hrf]; split; cbn in *
  end.

(** Close the clauses of the invariant that do not depend on the handler. *)
Ltac wf_done :=
  intros;
  repeat match goal with H : ?A → _, H' : ?A |- _ => specialize (H H') end;
  destruct_or?; destruct_and?; try congruence; try split_and!;
  solve [ done | by eexists | congruence | auto | by constructor ].

Section Facts.
Context {St Sk : Type} `{STO : !Store St, SNK : !MessageSink Sk, CRT : !Crates, UCA : !UnicodeCase}.
Implicit Types (s : Session) (w : World St Sk).

Lemma new_wf cfg trace ip : session_wf (new cfg trace ip).
Proof. split; cbn; try done; destruct ip; naive_solver. Qed.

(** Fields the invariant does not read. *)
Lemma wf_cr_present b s : session_wf s → session_wf (s <| cr_present := b |>).
Proof. intros H. by build_wf. Qed.
Lemma wf_previous_cr b s : session_wf s → session_wf (s <| previous_cr_present := b |>).
Proof. intros H. by build_wf. Qed.
Lemma wf_finished b s : session_wf s → session_wf (s <| finished := b |>).
Proof. intros H. by build_wf. Qed.
Lemma wf_tls b s : session_wf s → session_wf (set_tls b s).
Proof. intros H. unfold set_tls. by build_wf. Qed.
Lemma wf_start_tls b s : session_wf s → session_wf (s <| start_tls := b |>).
Proof. intros H. by build_wf. Qed.
Lemma wf_helo_name b s : session_wf s → session_wf (s <| helo_name := b |>).
Proof. intros H. by build_wf. Qed.
Lemma wf_hostname b s : session_wf s → session_wf (set_resolved_hostname b s).
Proof. intros H. unfold set_resolved_hostname. by build_wf. Qed.
Lemma wf_received_spf b s : session_wf s → session_wf (set_received_spf b s).
Proof. intros H. unfold set_received_spf. by build_wf. Qed.

Lemma wf_credential c s : state s ≠ Preauth → session_wf s → session_wf (s <| credential := Some c |>).
Proof.
  intros Hs H. build_wf; try done.
  eapply Forall_impl; [exact Hrf|]. naive_solver.
Qed.

(** Back to command mode, when the session was not receiving data. *)
Lemma wf_command_mode s :
  input_mode s ≠ ModeData → session_wf s → session_wf (s <| input_mode := ModeCommand |>).
Proof. intros Hm H. build_wf; wf_done. Qed.

Lemma wf_auth_mode m s :
  state s ≠ Preauth → input_mode s ≠ ModeData → m ≠ ModeData →
  session_wf s → session_wf (s <| input_mode := m |>).
Proof. intros Hs Hi Hm H. build_wf; wf_done. Qed.

(** The end of a transaction, whatever came before. *)
Lemma wf_reset s :
  input_mode s ≠ ModeData → session_wf ((transaction_reset s) <| state := Welcomed |>).
Proof. intros Hm. unfold transaction_reset. split; cbn; wf_done. Qed.

Lemma wf_mail_from_reset s a :
  input_mode s ≠ ModeData → session_wf s →
  session_wf ((transaction_reset (s <| state := MailFromReceived |>)) <| mail_from := Some a |>).
Proof. intros Hm H; unfold transaction_reset; build_wf; wf_done. Qed.

(** *** Recipients *)

Definition recipient_ok (c : option Credential) (r : Recipient) : Prop :=
  (rcp_kind r = KRoute → is_Some (rcp_route r)) ∧
  (rcp_kind r = KCredential → is_Some c) ∧
  srv_suspended (rcp_server r) = false.

Lemma wf_rcpt_state s :
  input_mode s ≠ ModeData → state s = MailFromReceived ∨ state s = RcptToReceived →
  session_wf s → session_wf (s <| state := RcptToReceived |>).
Proof. intros Hm Hs H. build_wf; wf_done. Qed.

Lemma wf_push_recipient s r :
  input_mode s ≠ ModeData → state s = MailFromReceived ∨ state s = RcptToReceived →
  recipient_ok (credential s) r →
  session_wf s → session_wf (push_recipient r (s <| state := RcptToReceived |>)).
Proof.
  intros Hm Hs Hr H. unfold push_recipient. build_wf; try wf_done.
  apply Forall_app. split; [done|]. constructor; [exact Hr|constructor].
Qed.

Section Rcpt.
Variables (w : World St Sk) (s : Session).
Hypothesis Hmode : input_mode s ≠ ModeData.
Hypothesis Hstate : state s = MailFromReceived ∨ state s = RcptToReceived.
Hypothesis Hwf : session_wf s.

Lemma rcpt_return_path_wf rcpt uname : session_wf (rcpt_return_path rcpt uname w s).1.
Proof.
  unfold rcpt_return_path. destruct (find_server_by_token _ _) as [sv|]; cbn [fst].
  - destruct (srv_suspended sv) eqn:E; cbn [fst];
      [by apply wf_rcpt_state|by apply wf_push_recipient].
  - by apply wf_rcpt_state.
Qed.

Lemma rcpt_route_token_wf uname tag : session_wf (rcpt_route_token uname tag w s).1.
Proof.
  unfold rcpt_route_token. destruct (find_route_by_token _ _) as [rr|]; cbn [fst].
  - destruct (srv_suspended (rr_server rr)) eqn:E; cbn [fst]; [by apply wf_rcpt_state|].
    destruct (bool_decide _); cbn [fst]; [by apply wf_rcpt_state|].
    apply wf_push_recipient; try done; by split_and!.
  - by apply wf_rcpt_state.
Qed.

Lemma rcpt_credential_wf rcpt c :
  credential s = Some c → session_wf (rcpt_credential rcpt c w s).1.
Proof.
  intros Hc. unfold rcpt_credential. destruct (st_server _ _) as [sv|]; cbn [fst].
  - destruct (srv_suspended sv) eqn:E; cbn [fst]; [by apply wf_rcpt_state|].
    destruct (pol_suspended _); cbn [fst]; [by apply wf_rcpt_state|].
    apply wf_push_recipient; try done; rewrite Hc; by split_and!.
  - by apply wf_rcpt_state.
Qed.

Lemma rcpt_incoming_route_wf rcpt rr : session_wf (rcpt_incoming_route rcpt rr s).1.
Proof.
  unfold rcpt_incoming_route.
  destruct (srv_suspended (rr_server rr)) eqn:E; cbn [fst]; [by apply wf_rcpt_state|].
  destruct (bool_decide _); cbn [fst]; [by apply wf_rcpt_state|].
  apply wf_push_recipient; try done; by split_and!.
Qed.
End Rcpt.

Lemma rcpt_to_fuel_wf fuel t line w s w' s' r :
  input_mode s ≠ ModeData → session_wf s →
  rcpt_to_fuel fuel t line w s = Some (w', s', r) → session_wf s'.
Proof.
  revert w s. induction fuel as [|fuel IH]; intros w s Hm Hwf; cbn [rcpt_to_fuel]; [done|].
  destruct (negb _) eqn:Hst; [by intros [= <- <- <-]|].
  assert (state s = MailFromReceived ∨ state s = RcptToReceived) as Hs.
  { apply negb_false_iff, orb_true_iff in Hst as [Hst|Hst]; apply bool_decide_eq_true in Hst; auto. }
  destruct (extract_address line _) as [rcpt|]; cbn; [|done].
  destruct (bool_decide (rcpt = [])); [by intros [= <- <- <-]|].
  destruct (split_once _ rcpt) as [[u [|d0 d]]|]; try (by intros [= <- <- <-]).
  match goal with |- context [let '(_, _) := ?p in _] => destruct p as [uname tag] end.
  destruct (is_return_path s _).
  { pose proof (rcpt_return_path_wf w s Hm Hs Hwf rcpt uname) as Hr.
    destruct (rcpt_return_path _ _ _ _). by intros [= <- <- <-]. }
  destruct (_ =b _).
  { pose proof (rcpt_route_token_wf w s Hm Hs Hwf uname tag) as Hr.
    destruct (rcpt_route_token _ _ _ _). by intros [= <- <- <-]. }
  destruct (credential s) as [c|] eqn:Hc.
  { pose proof (rcpt_credential_wf w s Hm Hs Hwf rcpt c Hc) as Hr.
    destruct (rcpt_credential _ _ _ _). by intros [= <- <- <-]. }
  destruct (find_route_by_name_and_domain _ _ _) as [rr|].
  { pose proof (rcpt_incoming_route_wf s Hm Hs Hwf rcpt rr) as Hr.
    destruct (rcpt_incoming_route _ _ _). by intros [= <- <- <-]. }
  destruct (_ ≫= _) as [c|]; [|by intros [= <- <- <-]].
  intros H. eapply IH, H; [done|]. apply wf_credential; [|done]. destruct Hs; congruence.
Qed.

(** *** Authentication *)

Definition out_session (o : World St Sk * Session * Reply) : Session := o.1.2.

Lemma authenticate_wf t pw w s :
  state s ≠ Preauth → session_wf s → session_wf (out_session (authenticate t pw w s)).
Proof.
  intros Hs Hwf. unfold authenticate, grant. destruct (find_smtp_credential_by_key _ _); [|done].
  by apply wf_credential.
Qed.

Section Auth.
Variables (t : Tick) (w : World St Sk) (s : Session).
Hypothesis Hmode : input_mode s ≠ ModeData.
Hypothesis Hstate : state s ≠ Preauth.
Hypothesis Hwf : session_wf s.

Lemma auth_plain_continue_wf line : session_wf (out_session (auth_plain_continue t line w s)).
Proof.
  unfold auth_plain_continue. destruct (_ <? _)%nat; [by apply wf_command_mode|].
  apply authenticate_wf; [done|by apply wf_command_mode].
Qed.

Lemma auth_login_password_wf line : session_wf (out_session (auth_login_password t line w s)).
Proof. apply authenticate_wf; [done|by apply wf_command_mode]. Qed.

Lemma auth_login_username_wf : session_wf (auth_login_username s).1.
Proof. by apply wf_auth_mode. Qed.

Lemma auth_cram_md5_wf : session_wf (auth_cram_md5 t s).1.
Proof. by apply wf_auth_mode. Qed.

Lemma auth_cram_md5_continue_wf line challenge :
  session_wf (out_session (auth_cram_md5_continue t line challenge w s)).
Proof.
  unfold auth_cram_md5_continue. destruct (splitn2 _ _) as [u p], (splitn2 _ _) as [o sv].
  destruct (find_server_by_permalinks _ _ _); [|by apply wf_command_mode].
  destruct (List.find _ _); [|by apply wf_command_mode].
  apply wf_credential; [done|by apply wf_command_mode].
Qed.

Lemma auth_plain_wf line o : auth_plain t line w s = Some o → session_wf (out_session o).
Proof.
  unfold auth_plain. destruct (strip_prefix_ci _ _); cbn; [|done].
  destruct (bool_decide _); intros [= <-]; [by apply wf_auth_mode|apply auth_plain_continue_wf].
Qed.

Lemma auth_login_wf line p : auth_login line s = Some p → session_wf p.1.
Proof.
  unfold auth_login. destruct (strip_prefix_ci _ _); cbn; [|done].
  destruct (bool_decide _); intros [= <-]; by apply wf_auth_mode.
Qed.
End Auth.

(** *** MAIL FROM, DATA and the message *)

Lemma mail_from_wf line s p :
  input_mode s ≠ ModeData → session_wf s → mail_from_command line s = Some p → session_wf p.1.
Proof.
  intros Hm Hwf. unfold mail_from_command. destruct (negb _); [by intros [= <-]|].
  destruct (extract_address _ _) as [a|]; cbn; [|done]. intros [= <-]. by apply wf_mail_from_reset.
Qed.

Lemma data_command_wf t w s : session_wf s → session_wf (data_command t w s).1.
Proof.
  intros Hwf. unfold data_command. destruct (negb _) eqn:Hst; [done|].
  apply negb_false_iff, bool_decide_eq_true in Hst.
  match goal with |- context [let '(_, _) := ?p in _] => destruct p as [d h] end.
  build_wf; wf_done.
Qed.

Lemma header_line_wf line s s' :
  input_mode s = ModeData → session_wf s → header_line line s = Some s' →
  session_wf s' ∧ input_mode s' = ModeData ∧ data s' = data s.
Proof.
  intros Hm Hwf. unfold header_line. destruct line as [|c line].
  { intros [= <-]. split_and!; try done. by build_wf. }
  destruct (starts_with_whitespace _).
  - destruct (header_key s), (headers s) eqn:Hh; intros [= <-]; try done.
    split_and!; try done. build_wf; wf_done.
  - destruct (from_option _ _ _) as [key value]. destruct (headers s) as [h|] eqn:Hh; cbn;
      rewrite Hh; cbn; [|done].
    intros [= <-]. split_and!; try done. build_wf; wf_done.
Qed.

Lemma store_line_wf line s s' r :
  input_mode s = ModeData → session_wf s → store_line line s = Some (s', r) → session_wf s'.
Proof.
  intros Hm Hwf. unfold store_line.
  destruct (if receiving_headers s then _ else _) as [s1|] eqn:E; cbn; [|done].
  assert (session_wf s1 ∧ input_mode s1 = ModeData) as [Hwf1 Hm1].
  { destruct (receiving_headers s); [|by simplify_eq].
    by apply header_line_wf in E as (? & ? & ?). }
  destruct (data s1); intros [= <- <-]; [|done]. build_wf; wf_done.
Qed.

Lemma finish_data_wf t w s w' s' r :
  input_mode s = ModeCommand → finish_data t w s = Some (w', s', r) → session_wf s'.
Proof.
  intros Hm. unfold finish_data, refuse. assert (input_mode s ≠ ModeData) as Hm' by congruence.
  destruct (_ <? _)%N; [intros [= <- <- <-]; by apply wf_reset|].
  destruct (_ <? _)%nat; [intros [= <- <- <-]; by apply wf_reset|].
  destruct (from_check _ _ _); [|intros [= <- <- <-]; by apply wf_reset].
  destruct (idempotency_key _ _); [intros [= <- <- <-]; by apply wf_reset|].
  destruct (mapM _ _); cbn; [|done]. destruct (submit _ _ _ _ _). intros [= <- <- <-].
  by apply wf_reset.
Qed.

Lemma data_line_wf t line w s w' s' r :
  input_mode s = ModeData → session_wf s → data_line t line w s = Some (w', s', r) → session_wf s'.
Proof.
  intros Hm Hwf. unfold data_line. destruct (_ && _).
  - by apply finish_data_wf.
  - destruct (store_line _ _) as [[s1 r1]|] eqn:E; cbn; [|done]. intros [= <- <- <-].
    by eapply store_line_wf.
Qed.

(** *** The dispatcher *)

Lemma proxy_wf line s : state s = Preauth → session_wf s → session_wf (proxy line s).1.
Proof.
  intros Hs Hwf. assert (recipients s = []) as Hr by (apply Hwf; congruence). unfold proxy.
  repeat (case_match; try by apply wf_finished). cbn. build_wf; wf_done.
Qed.

Lemma starttls_wf s : session_wf s → session_wf (starttls s).1.
Proof. intros Hwf. unfold starttls. destruct (cfg_tls_enabled _); [by build_wf|done]. Qed.

Lemma pure_wf w (p : Session * Reply) w' s' r :
  session_wf p.1 → pure w p = Some (w', s', r) → session_wf s'.
Proof. intros Hp H. injection H as _ <- _. exact Hp. Qed.

Lemma ehlo_wf line s : input_mode s ≠ ModeData → session_wf (ehlo line s).1.
Proof. intros Hm. unfold ehlo. apply wf_reset, Hm. Qed.
Lemma helo_wf line s : input_mode s ≠ ModeData → session_wf (helo line s).1.
Proof. intros Hm. unfold helo. apply wf_reset, Hm. Qed.
Lemma rset_wf s : input_mode s ≠ ModeData → session_wf (rset s).1.
Proof. exact (wf_reset s). Qed.

Lemma handle_command_wf t line w s w' s' r :
  input_mode s = ModeCommand → state s ≠ Preauth → session_wf s →
  handle_command t line w s = Some (w', s', r) → session_wf s'.
Proof.
  intros Hm Hs Hwf. assert (input_mode s ≠ ModeData) as Hm' by congruence.
  unfold handle_command.
  destruct (starts_with _ _); [apply pure_wf; exact (wf_finished true s Hwf)|].
  destruct (starts_with _ _); [apply pure_wf; exact (starttls_wf s Hwf)|].
  destruct (starts_with _ _); [apply pure_wf; exact (ehlo_wf line s Hm')|].
  destruct (starts_with _ _); [apply pure_wf; exact (helo_wf line s Hm')|].
  destruct (starts_with _ _); [apply pure_wf; exact (rset_wf s Hm')|].
  destruct (starts_with _ _); [apply pure_wf; exact Hwf|].
  destruct (_ || _).
  { destruct (negb _); [apply pure_wf; exact Hwf|].
    destruct (starts_with _ _).
    { intros H. exact (auth_plain_wf t w s Hm' Hs Hwf line _ H). }
    destruct (starts_with _ _).
    { destruct (auth_login line s) as [p|] eqn:E; cbn [mbind option_bind]; [|done]. apply pure_wf.
      exact (auth_login_wf s Hm' Hs Hwf line _ E). }
    destruct (starts_with _ _); apply pure_wf; [by apply auth_cram_md5_wf|done]. }
  destruct (starts_with _ _).
  { destruct (mail_from_command line s) as [p|] eqn:E; cbn [mbind option_bind]; [|done].
    apply pure_wf. by eapply mail_from_wf. }
  destruct (starts_with _ _); [by apply rcpt_to_fuel_wf|].
  destruct (starts_with _ _); apply pure_wf; [by apply data_command_wf|done].
Qed.

Lemma dispatch_wf t line w s w' s' r :
  session_wf s → dispatch t line w s = Some (w', s', r) → session_wf s'.
Proof.
  intros Hwf. unfold dispatch. destruct (decide (state s = Preauth)) as [Hs|Hs].
  { apply pure_wf. by apply proxy_wf. }
  destruct (input_mode s) eqn:Hm; assert (Hm' := Hm);
    try (assert (input_mode s ≠ ModeData) as Hd by congruence).
  - by apply handle_command_wf.
  - intros [= E]. pose proof (auth_plain_continue_wf t w s Hd Hs Hwf line) as Hr.
    by rewrite E in Hr.
  - apply pure_wf. by apply auth_login_username_wf.
  - intros [= E]. pose proof (auth_login_password_wf t w s Hd Hs Hwf line) as Hr.
    by rewrite E in Hr.
  - intros [= E]. pose proof (auth_cram_md5_continue_wf t w s Hd Hs Hwf line challenge) as Hr.
    by rewrite E in Hr.
  - by apply data_line_wf.
Qed.

Lemma handle_wf t line w s w' s' r :
  session_wf s → handle t line w s = Some (w', s', r) → session_wf s'.
Proof.
  intros Hwf. unfold handle.
  match goal with |- context [let '(_, _) := ?p in _] => destruct p as [line' cr] end.
  destruct (dispatch _ _ _ _) as [[[w1 s1] r1]|] eqn:E; cbn; [|done]. intros [= <- <- <-].
  apply wf_previous_cr. eapply dispatch_wf, E. by apply wf_cr_present.
Qed.

(** ** No panic on ASCII command lines *)

Lemma strip_prefix_ci_total line p : is_ascii line = true → is_Some (strip_prefix_ci line p).
Proof.
  intros Ha. unfold strip_prefix_ci. destruct (Nat.leb_spec (length p) (length line)); [|by eexists].
  rewrite slice_to_ascii by done. cbn. destruct (eq_ignore_ascii_case _ _); [|by eexists].
  rewrite slice_from_ascii by done. by eexists.
Qed.

Lemma extract_address_total line p : is_ascii line = true → is_Some (extract_address line p).
Proof.
  intros Ha. unfold extract_address. destruct (strip_prefix_ci_total line p Ha) as [r ->]. by eexists.
Qed.

Lemma rcpt_to_fuel_total fuel t line w s :
  is_ascii line = true → (credential s = None → 2 <= fuel) → 1 <= fuel →
  is_Some (rcpt_to_fuel fuel t line w s).
Proof.
  intros Ha. revert w s. induction fuel as [|fuel IH]; intros w s Hf Hf1; [lia|].
  cbn [rcpt_to_fuel]. destruct (negb _); [by eexists|].
  destruct (extract_address_total line !"RCPT TO" Ha) as [rcpt ->]. cbn [mbind option_bind].
  destruct (bool_decide _); [by eexists|].
  destruct (split_once _ rcpt) as [[u [|d0 d]]|]; try by eexists.
  match goal with |- context [let '(_, _) := ?p in _] => destruct p as [uname tag] end.
  destruct (is_return_path _ _). { destruct (rcpt_return_path _ _ _ _); by eexists. }
  destruct (_ =b _). { destruct (rcpt_route_token _ _ _ _); by eexists. }
  destruct (credential s) eqn:Hc. { destruct (rcpt_credential _ _ _ _); by eexists. }
  destruct (find_route_by_name_and_domain _ _ _). { destruct (rcpt_incoming_route _ _ _); by eexists. }
  specialize (Hf eq_refl).
  destruct (_ ≫= _); [|by eexists]. apply IH; [done|lia].
Qed.

Lemma rcpt_to_total t line w s : is_ascii line = true → is_Some (rcpt_to t line w s).
Proof. intros. apply rcpt_to_fuel_total; auto. Qed.

Lemma mail_from_total line s : is_ascii line = true → is_Some (mail_from_command line s).
Proof.
  intros Ha. unfold mail_from_command. destruct (negb _); [by eexists|].
  edestruct extract_address_total as [a ->]; [|by eexists].
  destruct (find_sub _ _); auto with bytes.
Qed.

Lemma handle_command_total t line w s :
  is_ascii line = true → is_Some (handle_command t line w s).
Proof.
  intros Ha. unfold handle_command.
  do 6 (destruct (starts_with _ _); [by eexists|]).
  destruct (_ || _).
  { destruct (negb _); [by eexists|].
    destruct (starts_with _ _).
    { unfold auth_plain. edestruct strip_prefix_ci_total as [r ->]; [done|].
      cbn. destruct (bool_decide _); by eexists. }
    destruct (starts_with _ _).
    { unfold auth_login. edestruct strip_prefix_ci_total as [r ->]; [done|].
      cbn. destruct (bool_decide _); by eexists. }
    destruct (starts_with _ _); by eexists. }
  destruct (starts_with _ _).
  { destruct (mail_from_total line s Ha) as [p ->]. by eexists. }
  destruct (starts_with _ _); [by apply rcpt_to_total|].
  destruct (starts_with _ _); by eexists.
Qed.

Lemma queued_message_total w s from d domain r :
  (rcp_kind r = KRoute → is_Some (rcp_route r)) → is_Some (queued_message w s from d domain r).
Proof.
  intros Hr. unfold queued_message. destruct (rcp_kind r); [..|by eexists].
  - destruct (return_path_route_for_server _ _); by eexists.
  - destruct (Hr eq_refl) as [rr ->]. by eexists.
Qed.

Lemma finish_data_total t w s :
  Forall (λ r, rcp_kind r = KRoute → is_Some (rcp_route r)) (recipients s) →
  is_Some (finish_data t w s).
Proof.
  intros Hr. unfold finish_data, refuse.
  destruct (_ <? _)%N; [by eexists|]. destruct (_ <? _)%nat; [by eexists|].
  destruct (from_check _ _ _); [|by eexists]. destruct (idempotency_key _ _); [by eexists|].
  match goal with |- context [mapM ?f ?l] => assert (is_Some (mapM f l)) as [q ->] end.
  { apply mapM_is_Some_2. eapply Forall_impl; [exact Hr|]. intros r. apply queued_message_total. }
  cbn. destruct (submit _ _ _ _ _). by eexists.
Qed.

Lemma data_line_total t line w s :
  input_mode s = ModeData → session_wf s → is_Some (data_line t line w s).
Proof.
  intros Hm Hwf. unfold data_line. destruct (_ && _).
  { apply finish_data_total. eapply Forall_impl; [apply (wf_recipient s Hwf)|]. naive_solver. }
  destruct (wf_data_mode s Hwf Hm) as ([h Hh] & [d Hd] & _).
  unfold store_line, header_line. destruct (receiving_headers s); [|cbn; by eexists].
  destruct (unstuff line) as [|c l]; [cbn; by eexists|].
  destruct (starts_with_whitespace _).
  { rewrite Hh. destruct (header_key s); cbn; by eexists. }
  destruct (from_option _ _ _). cbn. rewrite Hh. cbn. by eexists.
Qed.

Lemma dispatch_total t line w s :
  session_wf s → (input_mode s = ModeCommand → state s ≠ Preauth → is_ascii line = true) →
  is_Some (dispatch t line w s).
Proof.
  intros Hwf Ha. unfold dispatch. destruct (decide _); [by eexists|].
  destruct (input_mode s) eqn:Hm; try by eexists.
  - by apply handle_command_total, Ha.
  - by apply data_line_total.
Qed.

Lemma handle_total t line w s :
  session_wf s → (input_mode s = ModeCommand → state s ≠ Preauth → is_ascii line = true) →
  is_Some (handle t line w s).
Proof.
  intros Hwf Ha. unfold handle.
  match goal with |- context [let '(_, _) := ?p in _] => destruct p as [line' cr] eqn:E end.
  assert (is_ascii line = true → is_ascii line' = true) as Hl.
  { destruct (strip_suffix _ _) as [l|] eqn:El; injection E as <- <-; [|done].
    apply strip_suffix_Some in El as ->. rewrite is_ascii_app. by intros [? _]%andb_true_iff. }
  edestruct (dispatch_total t line' w (s <| cr_present := cr |>)) as [[[w1 s1] r1] ->].
  - by apply wf_cr_present.
  - intros. by apply Hl, Ha.
  - cbn. by eexists.
Qed.
End Facts.
