(* ===== verification/SessionAuth.v ===== *)
(** * SessionAuth: how a session comes by a credential, and what it hands to the sink

    Only the final dot of DATA reaches the sink.  A credential enters a session through an AUTH exchange, which needs a
    protected connection when the configuration asks for one, or from the
    client's IP address in RCPT TO.  The frame lemmas say which fields the other
    handlers leave alone. *)

From S2P Require Import Prelude RustStr RustStrFacts Net Model SendLimit Message Store Session SessionFacts.

(** ** What a session hands to the message sink

    Only the final dot of DATA reaches the sink; [finish_data] hands over one
    message per recipient, all or none. *)


Section Sink.
Context {St Sk : Type} `{STO : !Store St, SNK : !MessageSink Sk, LAW : !MessageSinkLaws Sk,
  CRT : !Crates, UCA : !UnicodeCase}.
Implicit Types (s : Session) (w : World St Sk).

(** ** Commands leave the sink alone *)

Lemma pure_sink w (p : Session * Reply) w' s' r : pure w p = Some (w', s', r) → w' = w.
Proof. intros H. injection H as <- _ _. done. Qed.

Definition out_sink (o : World St Sk * Session * Reply) : Sk := w_sink o.1.1.

Lemma authenticate_sink t pw w s : out_sink (authenticate t pw w s) = w_sink w.
Proof. unfold authenticate. by destruct (find_smtp_credential_by_key _ _). Qed.

Lemma auth_plain_continue_sink t line w s : out_sink (auth_plain_continue t line w s) = w_sink w.
Proof. unfold auth_plain_continue. destruct (_ <? _)%nat; [done|]. apply authenticate_sink. Qed.

Lemma auth_cram_md5_continue_sink t line ch w s :
  out_sink (auth_cram_md5_continue t line ch w s) = w_sink w.
Proof.
  unfold auth_cram_md5_continue. destruct (splitn2 _ _) as [u p], (splitn2 _ _) as [o sv].
  destruct (find_server_by_permalinks _ _ _); [|done]. by destruct (List.find _ _).
Qed.

Lemma rcpt_to_fuel_sink fuel t line w s w' s' r :
  rcpt_to_fuel fuel t line w s = Some (w', s', r) → w_sink w' = w_sink w.
Proof.
  revert w s. induction fuel as [|fuel IH]; intros w s; cbn [rcpt_to_fuel]; [done|].
  destruct (negb _); [intros H; by injection H as <- _ _|].
  destruct (extract_address line _) as [rcpt|]; cbn [mbind option_bind]; [|done].
  destruct (bool_decide (rcpt = [])); [intros H; by injection H as <- _ _|].
  destruct (split_once _ rcpt) as [[u [|d0 d]]|]; try (intros H; by injection H as <- _ _).
  match goal with |- context [let '(_, _) := ?p in _] => destruct p as [uname tag] end.
  destruct (is_return_path s _).
  { destruct (rcpt_return_path _ _ _ _). intros H; by injection H as <- _ _. }
  destruct (_ =b _). { destruct (rcpt_route_token _ _ _ _). intros H; by injection H as <- _ _. }
  destruct (credential s). { destruct (rcpt_credential _ _ _ _). intros H; by injection H as <- _ _. }
  destruct (find_route_by_name_and_domain _ _ _).
  { destruct (rcpt_incoming_route _ _ _). intros H; by injection H as <- _ _. }
  destruct (_ ≫= _); [|intros H; by injection H as <- _ _]. intros H. by apply IH in H.
Qed.

Lemma handle_command_sink t line w s w' s' r :
  handle_command t line w s = Some (w', s', r) → w_sink w' = w_sink w.
Proof.
  unfold handle_command.
  do 6 (destruct (starts_with _ _); [by intros ->%pure_sink|]).
  destruct (_ || _).
  { destruct (negb _); [by intros ->%pure_sink|].
    destruct (starts_with _ _).
    { unfold auth_plain. destruct (strip_prefix_ci _ _) as [b|]; cbn [mbind option_bind]; [|done].
      destruct (bool_decide _); [intros H; by injection H as <- _ _|].
      intros H. pose proof (auth_plain_continue_sink t (strip_space b) w s) as E.
      injection H as H. by rewrite H in E. }
    destruct (starts_with _ _).
    { destruct (auth_login _ _); cbn [mbind option_bind]; [by intros ->%pure_sink|done]. }
    destruct (starts_with _ _); by intros ->%pure_sink. }
  destruct (starts_with _ _).
  { destruct (mail_from_command _ _); cbn [mbind option_bind]; [by intros ->%pure_sink|done]. }
  destruct (starts_with _ _); [apply rcpt_to_fuel_sink|].
  destruct (starts_with _ _); by intros ->%pure_sink.
Qed.

(** Everything but a line of the message leaves the sink alone. *)
Lemma dispatch_sink t line w s w' s' r :
  state s = Preauth ∨ input_mode s ≠ ModeData →
  dispatch t line w s = Some (w', s', r) → w_sink w' = w_sink w.
Proof.
  intros Hd. unfold dispatch. destruct (decide _); [by intros ->%pure_sink|].
  destruct Hd as [?|Hd]; [done|]. destruct (input_mode s) eqn:Hm; [..|done].
  - apply handle_command_sink.
  - intros H. injection H as H. pose proof (auth_plain_continue_sink t line w s) as E.
    by rewrite H in E.
  - by intros ->%pure_sink.
  - intros H. injection H as H.
    assert (out_sink (auth_login_password t line w s) = w_sink w) as E
      by apply authenticate_sink.
    by rewrite H in E.
  - intros H. injection H as H. pose proof (auth_cram_md5_continue_sink t line challenge w s) as E.
    by rewrite H in E.
Qed.

(** ** One message per recipient *)

(** What a queued message says of the recipient it was made for. *)
Record queued_for (s : Session) (r : Recipient) (m : QueuedMessage) : Prop := {
  qf_rcpt : qm_rcpt_to m = rcp_rcpt_to r;
  qf_server : qm_server_id m = srv_id (rcp_server r);
  qf_from : qm_mail_from m = from_option id [] (mail_from s);
  qf_scope : qm_scope m = Outgoing ↔ rcp_kind r = KCredential;
  qf_outgoing : qm_scope m = Outgoing →
    qm_credential_id m = cred_id <$> credential s ∧ qm_bounce m = false;
  qf_incoming : qm_scope m = Incoming → qm_credential_id m = None;
  qf_bounce : qm_bounce m = true ↔ rcp_kind r = KBounce;
  qf_ssl : qm_received_with_ssl m = tls s;
}.

Ltac queued_for_done :=
  split; [split|]; cbn; try done;
    match goal with
    | E : rcp_kind _ = _ |- _ ↔ _ => rewrite E; split; congruence
    | |- _ => intros; split; congruence
    end.

Lemma queued_message_for w s d domain r m :
  queued_message w s (from_option id [] (mail_from s)) d domain r = Some m →
  queued_for s r m ∧ qm_raw_message m = d.
Proof.
  unfold queued_message. destruct (rcp_kind r) eqn:Hk.
  - destruct (return_path_route_for_server _ _); intros H; injection H as <-; queued_for_done.
  - destruct (rcp_route r); cbn; [|done]. intros H; injection H as <-; queued_for_done.
  - intros H; injection H as <-; queued_for_done.
Qed.

(** ** The sink's view of [submit] *)

Lemma fold_queue_accepted ms (k : Sk) :
  accepted (fold_left queue_message ms k) = accepted k ++ ms.
Proof.
  revert k. induction ms as [|m ms IH]; intros k; simpl; [by rewrite app_nil_r|].
  rewrite IH, queue_message_accepted, <- app_assoc. done.
Qed.

(** Either everything was stored, within the allowance, or nothing was. *)
Lemma submit_accepted t w q idem a w' o :
  submit t w q idem a = (w', o) →
  w_store w' = w_store w ∧
  ((o = Stored ∧ accepted (w_sink w') = accepted (w_sink w) ++ q ∧ allows a (outgoing_count q) = true) ∨
   (o ≠ Stored ∧ accepted (w_sink w') = accepted (w_sink w))).
Proof.
  unfold submit. destruct idem as [i|].
  - pose proof (queue_messages_stored (t_now t) (w_sink w) q (Some i) a) as Hs.
    pose proof (queue_messages_refused (t_now t) (w_sink w) q (Some i) a) as Hr.
    destruct (queue_messages _ _ _ _ _) as [k o']. cbn in *. intros [= <- <-]. split; [done|].
    destruct o'; [left; naive_solver|right; (split; [done|]; by apply Hr)..].
  - destruct (allows a _) eqn:Ha; cbn; intros [= <- <-]; (split; [done|]).
    + left. cbn. by rewrite fold_queue_accepted.
    + by right.
Qed.

(** ** The length of the stored message *)

Lemma strip_header_go_length name lines h k :
  length (strip_header_go name h k lines) <= length (concat lines).
Proof.
  revert h k. induction lines as [|l ls IH]; intros h k; simpl; [done|].
  assert (∀ h k (b : bool), length ((if b then [] else l) ++ strip_header_go name h k ls)
    <= length (l ++ concat ls)) as Hb.
  { intros h' k' b. specialize (IH h' k'). rewrite !length_app. destruct b; simpl; lia. }
  destruct (negb h); [apply (Hb _ _ false)|].
  destruct (strip_cr _) as [|c l']; [apply (Hb _ _ false)|].
  destruct (is_ws_byte c); apply Hb.
Qed.

Lemma strip_message_header_length raw name : length (strip_message_header raw name) <= length raw.
Proof.
  unfold strip_message_header. rewrite <- (split_inclusive_concat (is_byte LF) raw) at 2.
  apply strip_header_go_length.
Qed.

(** ** The final dot *)

(** What the end of DATA does when it reaches the sink with outcome [o]. *)
Record data_result t w s w' (q : list QueuedMessage) (o : QueueMessagesOutcome) : Prop := {
  dr_store : w_store w' = w_store w;
  dr_queued : Forall2 (queued_for s) (recipients s) q;
  dr_size : Forall (λ m, (N.of_nat (length (qm_raw_message m)) <= max_bytes (config s))%N) q;
  dr_from : from_check w s (from_option id ∅ (headers s)) ≠ None;
  dr_stored : o = Stored →
    accepted (w_sink w') = accepted (w_sink w) ++ q ∧
    allows (session_allowance t w s) (outgoing_count q) = true;
  dr_refused : o ≠ Stored → accepted (w_sink w') = accepted (w_sink w);
}.

Lemma mapM_queued w s d domain rs q :
  mapM (queued_message w s (from_option id [] (mail_from s)) d domain) rs = Some q →
  Forall2 (queued_for s) rs q ∧ Forall (λ m, qm_raw_message m = d) q.
Proof.
  rewrite mapM_Some. intros H. split.
  - eapply Forall2_impl; [exact H|]. intros r m Hm. by apply queued_message_for in Hm as [? _].
  - induction H as [|r m rs q Hm _ IH]; constructor; [|done]. by apply queued_message_for in Hm as [_ ?].
Qed.

(** [finish_data] refuses without touching the world, or submits. *)
Lemma finish_data_cases t w s w' s' r :
  finish_data t w s = Some (w', s', r) →
  (w' = w ∧ r ≠ Line !"250 OK") ∨ (∃ q o, data_result t w s w' q o ∧ r = outcome_reply o).
Proof.
  unfold finish_data, refuse.
  destruct (max_bytes (config s) <? _)%N eqn:Hsize; [intros H; injection H as <- _ <-; by left|].
  destruct (_ <? _)%nat; [intros H; injection H as <- _ <-; by left|].
  destruct (from_check _ _ _) as [domain|] eqn:Hf; [|intros H; injection H as <- _ <-; by left].
  destruct (idempotency_key _ _) as [text|key] eqn:Hk.
  { intros H; injection H as <- _ <-. left. split; [done|]. intros [= ->].
    unfold idempotency_key in Hk. repeat case_match; simplify_eq. }
  set (d := match key with Some _ => _ | None => _ end).
  destruct (mapM _ _) as [q|] eqn:Hq; cbn [mbind option_bind]; [|done].
  destruct (submit _ _ _ _ _) as [w1 o] eqn:Hs. intros H; injection H as <- _ <-. right.
  apply mapM_queued in Hq as [Hq Hraw]. apply submit_accepted in Hs as [Hst Hs].
  exists q, o. split; [|done]. split; [done|done| | |naive_solver..]; [|by rewrite Hf].
  eapply Forall_impl; [exact Hraw|]. intros m ->. apply N.ltb_ge in Hsize.
  etrans; [|exact Hsize]. assert (length d <= length (from_option id [] (data s))); [|lia].
  unfold d. destruct key; [apply strip_message_header_length|done].
Qed.

(** [data_result] does not read the fields the dispatcher sets. *)
Lemma queued_for_mode m rs q s :
  Forall2 (queued_for (s <| input_mode := m |>)) rs q → Forall2 (queued_for s) rs q.
Proof. intros H. eapply Forall2_impl; [exact H|]. intros ? ? []. by split. Qed.
Lemma data_result_mode m t w s w' q o :
  data_result t w (s <| input_mode := m |>) w' q o → data_result t w s w' q o.
Proof. intros [? Hq ? ? ? ?]. apply queued_for_mode in Hq. by split. Qed.
Lemma queued_for_cr b rs q s :
  Forall2 (queued_for (s <| cr_present := b |>)) rs q → Forall2 (queued_for s) rs q.
Proof. intros H. eapply Forall2_impl; [exact H|]. intros ? ? []. by split. Qed.
Lemma data_result_cr b t w s w' q o :
  data_result t w (s <| cr_present := b |>) w' q o → data_result t w s w' q o.
Proof. intros [? Hq ? ? ? ?]. apply queued_for_cr in Hq. by split. Qed.

Lemma dispatch_accepted t line w s w' s' r :
  dispatch t line w s = Some (w', s', r) →
  accepted (w_sink w') = accepted (w_sink w) ∨
  (input_mode s = ModeData ∧ line = !"." ∧ cr_present s = true ∧ r = Line !"250 OK" ∧
   ∃ q, data_result t w s w' q Stored).
Proof.
  destruct (decide (state s = Preauth ∨ input_mode s ≠ ModeData)) as [Hd|Hd].
  { intros E. left. f_equal. by eapply dispatch_sink. }
  apply Decidable.not_or in Hd as [Hs Hm]. apply dec_stable in Hm.
  unfold dispatch. rewrite decide_False, Hm by done. unfold data_line.
  destruct (_ && _) eqn:Hdot.
  - bytes_bool. intros E. apply finish_data_cases in E as [[-> _]|(q & o & Hq & ->)]; [by left|].
    assert (o = Stored ∨ o ≠ Stored) as [->|Ho] by (destruct o; (by left) || by right).
    + right. split_and!; try done. exists q. by eapply data_result_mode.
    + left. by apply (dr_refused _ _ _ _ _ _ Hq).
  - destruct (store_line line s) as [[s1 r1]|]; cbn [mbind option_bind]; [|done].
    intros H; injection H as <- _ _. by left.
Qed.

Lemma handle_accepted t line w s w' s' r :
  handle t line w s = Some (w', s', r) →
  accepted (w_sink w') = accepted (w_sink w) ∨
  (input_mode s = ModeData ∧ line = !"." ++ [CR] ∧ r = Line !"250 OK" ∧
   ∃ q, data_result t w s w' q Stored).
Proof.
  unfold handle. destruct (strip_suffix [CR] line) as [l|] eqn:El;
    match goal with |- context [dispatch t ?l w ?s0] =>
      destruct (dispatch t l w s0) as [[[w1 s1] r1]|] eqn:E end;
    cbn [mbind option_bind]; try done; intros H; injection H as <- _ <-;
    apply dispatch_accepted in E as [?|(Hm & -> & Hcr & -> & q & Hq)]; auto; cbn in Hcr; try done.
  right. apply strip_suffix_Some in El. split_and!; try done. exists q. by eapply data_result_cr.
Qed.

(** Outgoing messages come from authenticated recipients. *)
Lemma queued_outgoing_credential s q :
  session_wf s → Forall2 (queued_for s) (recipients s) q →
  Forall (λ m, qm_scope m = Outgoing → ∃ c, credential s = Some c ∧
    qm_credential_id m = Some (cred_id c)) q.
Proof.
  intros Hwf Hq. pose proof (wf_recipient s Hwf) as Hr. revert Hr.
  induction Hq as [|r m rs q Hm _ IH]; intros Hr; [constructor|].
  inversion Hr as [|? ? (_ & Hc & _) Hrs]; subst. constructor; [|by apply IH].
  intros Ho. destruct Hc as [c Hc]; [by apply Hm|]. exists c. split; [done|].
  destruct (qf_outgoing _ _ _ Hm Ho) as [-> _]. by rewrite Hc.
Qed.
End Sink.

(** An AUTH exchange is under way. *)
Definition auth_mode (m : InputMode) : bool :=
  match m with ModeCommand | ModeData => false | _ => true end.

Section Auth.
Context {St Sk : Type} `{STO : !Store St, SNK : !MessageSink Sk, CRT : !Crates,
  UCA : !UnicodeCase}.
Implicit Types (s : Session) (w : World St Sk).

(** The credential of the client's address. *)
Definition ip_credential w s : option Credential :=
  (ip_address s ≫= parse_ip) ≫= find_ip_credential (w_store w).

(** The key in a response of AUTH PLAIN is what follows its last NUL. *)
Definition response_text (response : bytes) : bytes := from_utf8_lossy (decode64_lenient response).
Definition plain_key (response key : bytes) : Prop :=
  ∃ front, response_text response = front ++ NUL :: key ∧ Forall (λ c, is_byte NUL c = false) key.
(** The response in an AUTH PLAIN command; [handle_command] trims the line before it
    compares, so the command may be further back, and the whole line is taken. *)
Definition initial_response (line : bytes) : bytes :=
  strip_space (if eq_ignore_ascii_case (take 10 line) !"AUTH PLAIN" then drop 10 line else line).
(** The key a line presents to a session that waits for the line in mode [m]. *)
Definition presented_key (m : InputMode) (line key : bytes) : Prop :=
  match m with
  | ModeCommand => starts_with (to_ascii_uppercase (trim_start line)) !"AUTH PLAIN" = true ∧ plain_key (initial_response line) key
  | ModeAuthPlain => plain_key line key
  | ModeAuthLoginPassword => key = response_text line
  | _ => False
  end.
(** An answer to a challenge: the permalinks of an organization and its server, and a
    digest. *)
Definition challenge_answer (line org server digest : bytes) : Prop :=
  let '(username, password) := splitn2 (is_byte SP) (response_text line) in
  splitn2 (λ c, Ascii.eqb c "/" || Ascii.eqb c "_") (trim_crlf username) = (org, server) ∧ trim_crlf password = digest.

(** What the client showed to be granted [c]: its key in this line, or the digest of
    the challenge it was sent, keyed by it, for the server it named. *)
Definition auth_proof w s (line : bytes) (c : Credential) : Prop :=
  (∃ key, presented_key (input_mode s) line key ∧ find_smtp_credential_by_key (w_store w) key = Some c) ∨
  (∃ challenge org permalink server digest, input_mode s = ModeAuthCramMd5 challenge ∧ challenge_answer line org permalink digest ∧
     find_server_by_permalinks (w_store w) org permalink = Some server ∧
     In c (smtp_credentials_for_server (w_store w) (srv_id server)) ∧ digest = to_hex (hmac_md5 (cred_key c) challenge)).

(** A step of the session as far as authentication is concerned. *)
Record auth_step w s (line : bytes) (s' : Session) : Prop := {
  as_config : config s' = config s;
  as_tls : tls s = true → tls s' = true;
  as_mode : auth_mode (input_mode s') = true →
    auth_mode (input_mode s) = true ∨ auth_permitted s = true;
  as_credential : credential s' = credential s ∨
    (∃ c, credential s' = Some c ∧
      (ip_credential w s = Some c ∨
       ((auth_mode (input_mode s) = true ∨ auth_permitted s = true) ∧ auth_proof w s line c)));
}.

(** The frame of the handlers that do not touch authentication. *)
Definition auth_frame s s' : Prop :=
  config s' = config s ∧ credential s' = credential s ∧ (tls s = true → tls s' = true) ∧
  (input_mode s' = input_mode s ∨ auth_mode (input_mode s') = false).

Lemma auth_frame_step w s line s' : auth_frame s s' → auth_step w s line s'.
Proof. intros (? & ? & ? & Hm). split; auto. intros Ha. destruct Hm as [Hm|Hm]; rewrite Hm in Ha; auto; done. Qed.

Lemma auth_frame_refl s : auth_frame s s.
Proof. by split_and!; auto. Qed.

Lemma pure_frame w (p : Session * Reply) s w' s' r :
  auth_frame s p.1 → pure w p = Some (w', s', r) → auth_frame s s'.
Proof. intros Hp H. injection H as _ <- _. exact Hp. Qed.

Ltac frame := split_and!; cbn; auto.

Lemma proxy_frame line s : auth_frame s (proxy line s).1.
Proof. unfold proxy. repeat (case_match; try by frame). Qed.

Lemma mail_from_frame line s p : mail_from_command line s = Some p → auth_frame s p.1.
Proof.
  unfold mail_from_command. destruct (negb _); [intros H; injection H as <-; by frame|].
  destruct (extract_address _ _); cbn [mbind option_bind]; [|done].
  intros H; injection H as <-; by frame.
Qed.

Lemma rcpt_return_path_frame rcpt u w s : auth_frame s (rcpt_return_path rcpt u w s).1.
Proof.
  unfold rcpt_return_path. destruct (find_server_by_token _ _) as [sv|]; [|by frame].
  destruct (srv_suspended sv); by frame.
Qed.
Lemma rcpt_route_token_frame u tag w s : auth_frame s (rcpt_route_token u tag w s).1.
Proof.
  unfold rcpt_route_token. destruct (find_route_by_token _ _) as [rr|]; [|by frame].
  destruct (srv_suspended _); [by frame|]. destruct (bool_decide _); by frame.
Qed.
Lemma rcpt_credential_frame rcpt c w s : auth_frame s (rcpt_credential rcpt c w s).1.
Proof.
  unfold rcpt_credential. destruct (st_server _ _) as [sv|]; [|by frame].
  destruct (srv_suspended _); [by frame|]. destruct (pol_suspended _); by frame.
Qed.
Lemma rcpt_incoming_route_frame rcpt rr s : auth_frame s (rcpt_incoming_route rcpt rr s).1.
Proof.
  unfold rcpt_incoming_route. destruct (srv_suspended _); [by frame|].
  destruct (bool_decide _); by frame.
Qed.

(** RCPT TO: a frame, or the retry with the credential of the client's address. *)
Lemma rcpt_to_cases fuel t line w s w' s' r :
  rcpt_to_fuel (S fuel) t line w s = Some (w', s', r) →
  auth_frame s s' ∨
  (∃ c, credential s = None ∧ ip_credential w s = Some c ∧
     rcpt_to_fuel fuel t line (use_credential t w c) (s <| credential := Some c |>)
     = Some (w', s', r)).
Proof.
  cbn [rcpt_to_fuel]. assert (Hid := auth_frame_refl s).
  destruct (negb _); [intros H; injection H as _ <- _; by left|].
  destruct (extract_address line _) as [rcpt|]; cbn [mbind option_bind]; [|done].
  destruct (bool_decide (rcpt = [])); [intros H; injection H as _ <- _; by left|].
  destruct (split_once _ rcpt) as [[u [|d0 d]]|]; try (intros H; injection H as _ <- _; by left).
  match goal with |- context [let '(_, _) := ?p in _] => destruct p as [uname tag] end.
  destruct (is_return_path s _).
  { pose proof (rcpt_return_path_frame rcpt uname w s) as F. destruct (rcpt_return_path _ _ _ _).
    intros H; injection H as _ <- _. by left. }
  destruct (_ =b _).
  { pose proof (rcpt_route_token_frame uname tag w s) as F. destruct (rcpt_route_token _ _ _ _).
    intros H; injection H as _ <- _. by left. }
  destruct (credential s) as [c|] eqn:Hc.
  { pose proof (rcpt_credential_frame rcpt c w s) as F. destruct (rcpt_credential _ _ _ _).
    intros H; injection H as _ <- _. by left. }
  destruct (find_route_by_name_and_domain _ _ _) as [rr|].
  { pose proof (rcpt_incoming_route_frame rcpt rr s) as F. destruct (rcpt_incoming_route _ _ _).
    intros H; injection H as _ <- _. by left. }
  destruct (_ ≫= _) as [c|] eqn:Hip; [|intros H; injection H as _ <- _; by left].
  intros H. right. by exists c.
Qed.

(** The credential after RCPT TO is the old one, or that of the client's address. *)
Lemma rcpt_to_auth t line w s w' s' r :
  rcpt_to t line w s = Some (w', s', r) → auth_step w s line s'.
Proof.
  intros [F|(c & _ & Hip & H)]%rcpt_to_cases; [by apply auth_frame_step|].
  apply rcpt_to_cases in H as [(Hcf & Hcr & Ht & Hm)|(? & Hn & _)]; [|done].
  cbn in *. split; [done|done|..].
  - intros Ha. destruct Hm as [Hm|Hm]; rewrite Hm in Ha; [by left|done].
  - right. exists c. split; [done|]. by left.
Qed.

(** *** AUTH *)

Lemma authenticate_auth t pw w s0 line s :
  config s = config s0 → credential s = credential s0 → tls s = tls s0 →
  auth_mode (input_mode s) = false → auth_mode (input_mode s0) = true ∨ auth_permitted s0 = true →
  presented_key (input_mode s0) line pw → auth_step w s0 line (authenticate t pw w s).1.2.
Proof.
  intros Hc Hcr Ht Hm Hp Hkey. unfold authenticate, grant.
  destruct (find_smtp_credential_by_key _ _) as [c|] eqn:E; split; cbn; try congruence; auto.
  right. exists c. split; [done|]. right. split; [done|]. left. by exists pw.
Qed.

Lemma auth_plain_continue_auth t line0 line w s :
  auth_mode (input_mode s) = true ∨ auth_permitted s = true →
  (∀ key, plain_key line key → presented_key (input_mode s) line0 key) →
  auth_step w s line0 (auth_plain_continue t line w s).1.2.
Proof.
  intros Hp Hkey. unfold auth_plain_continue. fold (response_text line).
  destruct (Nat.ltb_spec (length (split_on (is_byte NUL) (response_text line))) 2) as [H|H].
  { apply auth_frame_step. by frame. }
  apply split_on_last in H as (front & c & key & E & Hc & Hk & ->). apply is_byte_eq in Hc as ->.
  apply authenticate_auth; [done..|]. apply Hkey. by exists front.
Qed.

Lemma auth_cram_md5_continue_auth t line ch w s :
  input_mode s = ModeAuthCramMd5 ch → auth_step w s line (auth_cram_md5_continue t line ch w s).1.2.
Proof.
  intros Hm. unfold auth_cram_md5_continue.
  destruct (splitn2 (is_byte SP) _) as [u p] eqn:Ep. cbn zeta.
  match goal with |- context [splitn2 ?P ?x] => destruct (splitn2 P x) as [o sv] eqn:Eo end.
  destruct (find_server_by_permalinks _ _ _) as [server|] eqn:Es; [|by apply auth_frame_step; frame].
  destruct (List.find _ _) as [c|] eqn:Ef; [|by apply auth_frame_step; frame].
  apply List.find_some in Ef as [Hin Hpw]. bytes_bool.
  split; cbn; auto; [done|]. right. exists c. split; [done|]. right. split; [by rewrite Hm; left|].
  right. exists ch, o, sv, server, (trim_crlf p). split_and!; try done. unfold challenge_answer, response_text. by rewrite Ep.
Qed.

(** *** The dispatcher *)

Lemma starttls_frame s : auth_frame s (starttls s).1.
Proof. unfold starttls. destruct (cfg_tls_enabled _); by frame. Qed.

Lemma data_command_frame t w s : auth_frame s (data_command t w s).1.
Proof.
  unfold data_command. destruct (negb _); [by frame|].
  match goal with |- context [let '(_, _) := ?p in _] => destruct p as [d h] end. by frame.
Qed.

Lemma store_line_frame line s s' r : store_line line s = Some (s', r) → auth_frame s s'.
Proof.
  unfold store_line, header_line.
  destruct (receiving_headers s).
  - destruct (unstuff line); cbn [mbind option_bind].
    { destruct (data _); intros H; injection H as <- _; by frame. }
    destruct (starts_with_whitespace _).
    { destruct (header_key s), (headers s); cbn [mbind option_bind];
        destruct (data _); intros H; injection H as <- _; by frame. }
    destruct (from_option _ _ _) as [key value]. destruct (headers _); cbn [mbind option_bind]; [|done].
    destruct (data _); intros H; injection H as <- _; by frame.
  - cbn [mbind option_bind]. destruct (data _); intros H; injection H as <- _; by frame.
Qed.

Lemma finish_data_frame t w s w' s' r :
  input_mode s = ModeCommand → finish_data t w s = Some (w', s', r) → auth_frame s s'.
Proof.
  intros Hm. unfold finish_data, refuse.
  destruct (_ <? _)%N; [intros H; injection H as _ <- _; by frame|].
  destruct (_ <? _)%nat; [intros H; injection H as _ <- _; by frame|].
  destruct (from_check _ _ _); [|intros H; injection H as _ <- _; by frame].
  destruct (idempotency_key _ _); [intros H; injection H as _ <- _; by frame|].
  destruct (mapM _ _); cbn [mbind option_bind]; [|done].
  destruct (submit _ _ _ _ _). intros H; injection H as _ <- _; by frame.
Qed.

Lemma data_line_frame t line w s w' s' r :
  data_line t line w s = Some (w', s', r) → auth_frame s s'.
Proof.
  unfold data_line. destruct (_ && _).
  - intros H. apply finish_data_frame in H as (? & ? & ? & Hm); [|done].
    split_and!; auto. right. by destruct Hm as [-> | ->].
  - destruct (store_line _ _) as [[s1 r1]|] eqn:E; cbn [mbind option_bind]; [|done].
    intros H; injection H as _ <- _. by eapply store_line_frame.
Qed.

Lemma auth_started_step m w line s :
  auth_permitted s = true → auth_step w s line (s <| input_mode := m |>).
Proof. intros Hp. split; cbn; auto. Qed.

Lemma pure_auth line w (p : Session * Reply) s w' s' r :
  auth_step w s line p.1 → pure w p = Some (w', s', r) → auth_step w s line s'.
Proof. intros Hp H. injection H as _ <- _. exact Hp. Qed.

Lemma pure_auth_frame line w (p : Session * Reply) s w' s' r :
  auth_frame s p.1 → pure w p = Some (w', s', r) → auth_step w s line s'.
Proof. intros Hp. by apply pure_auth, auth_frame_step. Qed.

Lemma strip_auth_plain line rest : strip_prefix_ci line !"AUTH PLAIN" = Some rest → strip_space rest = initial_response line.
Proof.
  unfold strip_prefix_ci, initial_response, slice_to, slice_from. change (length !"AUTH PLAIN") with 10.
  destruct (Nat.leb_spec 10 (length line)) as [H|H].
  - destruct (is_char_boundary line 10); cbn [mbind option_bind]; [|done]. by destruct (eq_ignore_ascii_case _ _); intros [= <-].
  - intros [= <-]. assert (eq_ignore_ascii_case (take 10 line) !"AUTH PLAIN" = false) as ->; [|done].
    unfold eq_ignore_ascii_case. apply bytes_eqb_neq. intros E%(f_equal length). unfold to_ascii_lowercase in E.
    rewrite !length_map, length_take in E. change (length !"AUTH PLAIN") with 10 in E. lia.
Qed.
Lemma auth_plain_auth t line w s w' s' r : input_mode s = ModeCommand →
  starts_with (to_ascii_uppercase (trim_start line)) !"AUTH PLAIN" = true →
  auth_permitted s = true → auth_plain t line w s = Some (w', s', r) → auth_step w s line s'.
Proof.
  intros Hm Hu Hp. unfold auth_plain. destruct (strip_prefix_ci _ _) as [rest|] eqn:Er; cbn [mbind option_bind]; [|done].
  destruct (bool_decide _).
  - intros H; injection H as _ <- _. by apply auth_started_step.
  - intros H. pose proof (auth_plain_continue_auth t line (strip_space rest) w s (or_intror Hp)) as E.
    injection H as H. rewrite H in E. apply E. intros key Hkey. rewrite Hm. cbn. by rewrite <- (strip_auth_plain _ _ Er).
Qed.

Lemma auth_login_auth line w s p :
  auth_permitted s = true → auth_login line s = Some p → auth_step w s line p.1.
Proof.
  intros Hp. unfold auth_login. destruct (strip_prefix_ci _ _) as [rest|]; cbn [mbind option_bind]; [|done].
  destruct (bool_decide _); intros H; injection H as <-; by apply auth_started_step.
Qed.

Lemma handle_command_auth t line w s w' s' r :
  input_mode s = ModeCommand → handle_command t line w s = Some (w', s', r) → auth_step w s line s'.
Proof.
  intros Hm. unfold handle_command. assert (Hid := auth_frame_refl s).
  destruct (starts_with _ _); [by apply pure_auth_frame; frame|].
  destruct (starts_with _ _); [apply pure_auth_frame, starttls_frame|].
  do 4 (destruct (starts_with _ _); [by apply pure_auth_frame; frame|]).
  destruct (_ || _).
  { destruct (negb _) eqn:Hp; [by apply pure_auth_frame|]. apply negb_false_iff in Hp.
    destruct (starts_with _ _) eqn:Hu; [by apply auth_plain_auth|clear Hu].
    destruct (starts_with _ _).
    { destruct (auth_login line s) as [p|] eqn:E; cbn [mbind option_bind]; [|done].
      by eapply pure_auth, auth_login_auth. }
    destruct (starts_with _ _); [by apply pure_auth, auth_started_step|by apply pure_auth_frame]. }
  destruct (starts_with _ _).
  { destruct (mail_from_command line s) as [p|] eqn:E; cbn [mbind option_bind]; [|done].
    by eapply pure_auth_frame, mail_from_frame. }
  destruct (starts_with _ _); [apply rcpt_to_auth|].
  destruct (starts_with _ _); [apply pure_auth_frame, data_command_frame|by apply pure_auth_frame].
Qed.

Lemma dispatch_auth t line w s w' s' r :
  dispatch t line w s = Some (w', s', r) → auth_step w s line s'.
Proof.
  unfold dispatch. destruct (decide _); [apply pure_auth_frame, proxy_frame|].
  destruct (input_mode s) eqn:Hm.
  - by apply handle_command_auth.
  - intros H; injection H as H.
    pose proof (auth_plain_continue_auth t line line w s ltac:(by left; rewrite Hm)) as E.
    rewrite H in E. apply E. by rewrite Hm.
  - apply pure_auth. split; cbn; auto. intros _. left. by rewrite Hm.
  - intros H; injection H as H.
    assert (auth_step w s line (auth_login_password t line w s).1.2) as E
      by (apply authenticate_auth; auto; [left|]; by rewrite Hm).
    by rewrite H in E.
  - intros H; injection H as H. pose proof (auth_cram_md5_continue_auth t line challenge w s Hm) as E.
    by rewrite H in E.
  - intros H. by eapply auth_frame_step, data_line_frame.
Qed.

Lemma handle_auth t line w s w' s' r :
  handle t line w s = Some (w', s', r) →
  auth_step w s (from_option id line (strip_suffix [CR] line)) s'.
Proof.
  unfold handle. destruct (strip_suffix [CR] line) as [l|]; cbn [from_option id];
    match goal with |- context [dispatch t ?l w ?s0] =>
      destruct (dispatch t l w s0) as [[[w1 s1] r1]|] eqn:E end; cbn [mbind option_bind]; try done;
    intros H; injection H as _ <- _; apply dispatch_auth in E as [? ? ? ?]; by split.
Qed.
End Auth.
