(* ===== verification/Concrete.v ===== *)
(** * Concrete: instances and fixtures for the witnesses

    Concrete functions for every interface whose code is not part of the
    repository, each proved to keep the laws, and a small installation with two
    tenants.  The witnesses of the property files evaluate on these. *)

From S2P Require Import Prelude RustStr RustStrFacts Net Model SendLimit Message Store Spf Session MemoryStore Ssrf Dkim SmtpClient Sender.

(** ** Interfaces *)

Definition concrete_crates : Crates.
Proof.
  refine {| b64_encode s := s; b64_decode s := Some s; sha256 s := s; hmac_md5 k m := k ++ m;
            idna_to_ascii := Some; fmt_rfc2822 _ := !"Mon, 01 Jan 2024 00:00:00 +0000";
            date_year t := (1970 + t / days 365)%Z; date_month _ := 1%N |}.
  done.
Defined.

Definition concrete_case : UnicodeCase.
Proof.
  refine {| to_lowercase := to_ascii_lowercase; to_uppercase := to_ascii_uppercase |}; done.
Defined.

Definition concrete_order : HashOrder.
Proof. refine {| hash_order A l := l |}. done. Defined.

Definition concrete_ipnet_parse (s : bytes) : option IpNet :=
  '(a, l) ← split_once (is_byte "/") s;
  ip ← parse_ip a; len ← parse_u8 l;
  if (len <=? addr_bits ip)%N then Some {| net_addr := ip; net_prefix_len := len |} else None.

Definition concrete_ipnet : IpNetCrate.
Proof.
  refine {| ipnet_parse := concrete_ipnet_parse;
            ipnet_new ip len := if (len <=? addr_bits ip)%N
              then Some {| net_addr := ip; net_prefix_len := len |} else None;
            ipnet_contains := same_network |}; try done.
  intros s net. unfold concrete_ipnet_parse.
  destruct (split_once _ s) as [[a l]|]; cbn; [|done].
  destruct (parse_ip a) as [ip|]; cbn; [|done]. destruct (parse_u8 l) as [len|]; cbn; [|done].
  destruct (len <=? addr_bits ip)%N eqn:E; [|done]. intros [= <-]. by apply N.leb_le in E.
Defined.

(** A URL is its host; every host name resolves to one public address. *)
Definition concrete_outbound : Outbound :=
  {| url_parse url := Some (Some url, None); lookup_host _ _ := Some [V4 134744072] |}.

Definition concrete_signer : Signer unit :=
  {| sign_sha256 _ input := input; signer_from_pem _ := Some tt |}.

Definition concrete_resolve : Resolve :=
  {| resolve_host _ port := inr [(V4 134744072, port)]; valid_server_name _ := true |}.

Definition concrete_mx : MxResolver := {| mx_lookup _ := Some [(10%N, !"mx.example.net.")] |}.

(** ** Fixtures *)

Definition fx_server (id org : Id) (permalink token : bytes) : Server :=
  mkServer id !"uuid" org !"name" permalink token Live false None false false false None false false
    None None None None None None None None None.

Definition fx_credential (id server : Id) (key : bytes) : Credential :=
  mkCredential id !"uuid" server CtSmtp !"name" key false None.

Definition fx_domain (id server : Id) (name : bytes) : Domain :=
  mkDomain id !"uuid" (OwnerServer server) name true !"token" false false None.

Definition server_a : Server := fx_server 1 1 !"a" !"token-a".
Definition server_b : Server := fx_server 2 2 !"b" !"token-b".

(** Two organizations with one server, credential and verified domain each. *)
Definition fx_store : MemoryStore :=
  insert_domain (fx_domain 22 2 !"b.example") (insert_domain (fx_domain 11 1 !"a.example")
  (insert_credential (fx_credential 200 2 !"keyb") (insert_credential (fx_credential 100 1 !"keya")
  (insert_server server_b (insert_server server_a
  (insert_organization (mkOrganization 2 !"uuid" !"B" !"orgb" false)
  (insert_organization (mkOrganization 1 !"uuid" !"A" !"orga" false) memory_store_new))))))).

Definition fx_config : SessionConfig :=
  mkSessionConfig !"mx.example" true true 14 !"rp.example" !"psrp" !"routes.example".

Definition fx_config_plain : SessionConfig :=
  mkSessionConfig !"mx.example" false true 14 !"rp.example" !"psrp" !"routes.example".

Definition fx_world : World MemoryStore MemorySink := mkWorld fx_store memory_sink_new.

Definition fx_tick : Tick := mkTick 0 0 !"00ff".

(** Run a session over lines that end in CR, collecting the replies; [None] is a
    panic. *)
Section Run.
Context {St Sk : Type} `{STO : !Store St, SNK : !MessageSink Sk, CRT : !Crates,
  UCA : !UnicodeCase}.
Fixpoint run_lines (t : Tick) (lines : list bytes) (w : World St Sk) (s : Session) :
    option (World St Sk * Session * list Reply) :=
  match lines with
  | [] => Some (w, s, [])
  | l :: rest =>
      '(w, s, r) ← handle t (l ++ [CR]) w s;
      '(w, s, rs) ← run_lines t rest w s;
      Some (w, s, r :: rs)
  end.
End Run.
