(* ===== verification/SessionProps.v ===== *)
(** * SessionProps: what the SMTP session guarantees

    Properties of every session the server can reach, of single steps, and of the
    runs that show the behaviours a reader would not expect. *)

From S2P Require Import Prelude RustStr RustStrFacts Net Model SendLimit Message Store Spf Session MemoryStore Concrete.
From S2P Require Import SessionFacts SessionAuth.

(** ** Reachable sessions *)

Section Reach.
Context {St Sk : Type} `{STO : !Store St, SNK : !MessageSink Sk, CRT : !Crates,
  UCA : !UnicodeCase}.

(** What the server does with a session: create it, feed it lines, and call the
    setters.  The world may change between steps. *)
Inductive Reach : World St Sk → Session → Prop :=
| reach_new cfg trace ip w : Reach w (new cfg trace ip)
| reach_handle t line w s w' s' r :
    Reach w s → handle t line w s = Some (w', s', r) → Reach w' s'
| reach_world w w' s : Reach w s → Reach w' s
| reach_tls w s : Reach w s → Reach w (set_tls true s)
| reach_take w s : Reach w s → Reach w (take_start_tls s).2
| reach_hostname h w s : Reach w s → Reach w (set_resolved_hostname h s)
| reach_spf h w s : Reach w s → Reach w (set_received_spf h s).

Lemma reach_wf w s : Reach w s → session_wf s.
Proof.
  induction 1.
  - apply new_wf.
  - by eapply handle_wf.
  - done.
  - by apply wf_tls.
  - by apply wf_start_tls.
  - by apply wf_hostname.
  - by apply wf_received_spf.
Qed.

Lemma run_lines_reach t lines w s w' s' rs :
  Reach w s → run_lines t lines w s = Some (w', s', rs) → Reach w' s'.
Proof.
  revert w s rs. induction lines as [|l lines IH]; intros w s rs Hr; cbn [run_lines].
  { intros H. injection H as <- <- _. done. }
  destruct (handle t (l ++ [CR]) w s) as [[[w1 s1] r1]|] eqn:E; cbn [mbind option_bind]; [|done].
  destruct (run_lines t lines w1 s1) as [[[w2 s2] r2]|] eqn:E2; cbn [mbind option_bind]; [|done].
  intros H. injection H as <- <- _. eapply IH, E2. eapply reach_handle; eassumption.
Qed.

Lemma reach_auth_mode w s : Reach w s → auth_mode (input_mode s) = true → auth_permitted s = true.
Proof.
  induction 1 as [|t line w s w' s' r _ IH Hh| | | | |]; try done.
  - intros Hm. apply handle_auth in Hh as [Hc Ht Ha _].
    assert (auth_permitted s = true) as Hp by (destruct (Ha Hm); auto).
    revert Hp. unfold auth_permitted. rewrite Hc. rewrite !orb_true_iff.
    intros [[?|?]|?]; [left; left; by apply Ht|auto..].
Qed.
End Reach.

(** ** Properties *)

Section Props.
Context {St Sk : Type} `{STO : !Store St, SNK : !MessageSink Sk, LAW : !MessageSinkLaws Sk,
  CRT : !Crates, UCA : !UnicodeCase}.
Implicit Types (s : Session) (w : World St Sk).

(** C1: every session the server can reach satisfies the session invariant: in
    DATA mode the headers and the buffer exist and an envelope is complete,
    outside it neither exists; recipients only exist once RCPT TO was given,
    route recipients carry their route, authenticated recipients have a
    credential, and no recipient belongs to a suspended server. *)
Theorem session_invariant w s : Reach w s → session_wf s.
Proof. apply reach_wf. Qed.

(** C2: a reachable session never panics on an ASCII line; in the other input
    modes (AUTH continuations and the lines of a message) it never panics on any
    line at all. *)
Theorem session_never_panics t line w s :
  Reach w s → (input_mode s = ModeCommand → is_ascii line = true) →
  ∃ w' s' r, handle t line w s = Some (w', s', r).
Proof.
  intros Hr Ha. destruct (handle_total t line w s (reach_wf w s Hr)) as [[[w' s'] r] E]; [auto|].
  by exists w', s', r.
Qed.

(** C3: on a connection where AUTH needs TLS and there is none, a reachable
    session cannot come by a credential from anything the client sends: a step
    leaves the credential alone or takes the one of the client's IP address, and
    no AUTH exchange is started. *)
Theorem no_plaintext_auth t line w s w' s' r :
  Reach w s → auth_permitted s = false → handle t line w s = Some (w', s', r) →
  auth_mode (input_mode s') = false ∧
  (credential s' = credential s ∨ credential s' = ip_credential w s).
Proof.
  intros Hr Hp Hh. pose proof (reach_auth_mode w s Hr) as Hm.
  assert (auth_mode (input_mode s) = false) as Hm'
    by (destruct (auth_mode _); [by rewrite Hm in Hp|done]).
  apply handle_auth in Hh as [_ _ Ha Hc]. rewrite Hm', Hp in *. split.
  - destruct (auth_mode _); [|done]. by destruct (Ha eq_refl).
  - destruct Hc as [?|(c & ? & [?|[[?|?] _]])]; [by left|right; congruence|done..].
Qed.

(** C4: a credential that appears in a session was earned: it is the IP
    credential of the client, or the store returned it for the key in the line
    (what follows the last NUL of a PLAIN response, the whole LOGIN password), or
    the line answers the challenge the client was sent with the digest keyed by the
    credential, one of the server it names. *)
Theorem credential_is_earned t line w s w' s' r c :
  handle t line w s = Some (w', s', r) → credential s' = Some c →
  credential s = Some c ∨ ip_credential w s = Some c ∨
  auth_proof w s (from_option id line (strip_suffix [CR] line)) c.
Proof.
  intros Hh Hc'. apply handle_auth in Hh as [_ _ _ [Hc|(d & Hd & Hc)]]; [left; congruence|].
  assert (d = c) as -> by congruence. right. tauto.
Qed.

(** C5: only the final dot of a message hands anything to the sink, and then
    exactly one message per recipient, in order, each for its recipient's server
    and address and none larger than the limit; an outgoing message carries the
    credential of the session, whose From check succeeded (the server is no open
    relay), an incoming one carries none. *)
Theorem accepted_messages t line w s w' s' r :
  Reach w s → handle t line w s = Some (w', s', r) →
  accepted (w_sink w') = accepted (w_sink w) ∨
  (input_mode s = ModeData ∧ line = !"." ++ [CR] ∧ r = Line !"250 OK" ∧
   ∃ q, accepted (w_sink w') = accepted (w_sink w) ++ q ∧
     Forall2 (queued_for s) (recipients s) q ∧
     Forall (λ m, (N.of_nat (length (qm_raw_message m)) <= max_bytes (config s))%N) q ∧
     from_check w s (from_option id ∅ (headers s)) ≠ None ∧
     Forall (λ m, qm_scope m = Outgoing →
       ∃ c, credential s = Some c ∧ qm_credential_id m = Some (cred_id c)) q).
Proof.
  intros Hr Hh. apply handle_accepted in Hh as [?|(? & ? & ? & q & Hq)]; [by left|right].
  split_and!; try done. exists q. destruct Hq as [_ Hq Hsz Hf Hst _].
  split_and!; try done; [by apply Hst|]. apply queued_outgoing_credential; [|done].
  by eapply reach_wf.
Qed.

(** C6: a step never stores more outgoing messages than the stricter of the
    server's and the organization's allowance leaves. *)
Theorem send_limit_enforced t line w s w' s' r q :
  handle t line w s = Some (w', s', r) →
  accepted (w_sink w') = accepted (w_sink w) ++ q →
  allows (session_allowance t w s) (outgoing_count q) = true.
Proof.
  intros Hh Hq. apply handle_accepted in Hh as [He|(_ & _ & _ & q' & Hq')].
  - rewrite He in Hq. rewrite <- (app_nil_r (accepted (w_sink w))) in Hq at 1.
    apply app_inv_head in Hq as <-. unfold allows. by destruct (remaining _).
  - destruct (dr_stored _ _ _ _ _ _ Hq' eq_refl) as [He Ha]. rewrite He in Hq.
    by apply app_inv_head in Hq as <-.
Qed.
End Props.

(** ** Witnesses *)

#[local] Existing Instance concrete_crates.
#[local] Existing Instance concrete_case.
#[local] Existing Instance concrete_order.
#[local] Existing Instance concrete_ipnet.

(** The world and the session after a dialogue with a fresh session. *)
Definition fx_session (cfg : SessionConfig) : Session := new cfg !"trace" (Some !"203.0.113.9").
Definition after (cfg : SessionConfig) (lines : list bytes) : option (World MemoryStore MemorySink * Session * list Reply) :=
  run_lines fx_tick lines fx_world (fx_session cfg).
Definition world_after cfg lines : World MemoryStore MemorySink :=
  match after cfg lines with Some (w, _, _) => w | None => fx_world end.
Definition session_after cfg lines : Session :=
  match after cfg lines with Some (_, s, _) => s | None => fx_session cfg end.

Lemma reach_after cfg lines : Reach (world_after cfg lines) (session_after cfg lines).
Proof.
  unfold world_after, session_after, after.
  destruct (run_lines _ _ _ _) as [[[w s] rs]|] eqn:E; [|apply reach_new].
  eapply run_lines_reach, E. apply reach_new.
Qed.

(** An authenticated dialogue up to the blank line after the headers. *)
Definition fx_dialogue : list bytes :=
  [!"EHLO client"; !"AUTH LOGIN"; !"user"; !"keya"; !"MAIL FROM:<me@a.example>";
   !"RCPT TO:<you@other.example>"; !"DATA"; !"From: me@a.example"; !""].

Lemma session_invariant_witness : session_wf (session_after fx_config_plain fx_dialogue).
Proof.
  apply (session_invariant (St := MemoryStore) (Sk := MemorySink) (world_after fx_config_plain fx_dialogue)).
  apply reach_after.
Defined.

Lemma session_never_panics_witness : ∃ w' s' r,
  handle fx_tick !"RCPT TO:<more@other.example>" (world_after fx_config_plain (take 5 fx_dialogue))
    (session_after fx_config_plain (take 5 fx_dialogue)) = Some (w', s', r).
Proof.
  apply (session_never_panics fx_tick); [apply reach_after|]. intros _. vm_compute. reflexivity.
Defined.

Lemma no_plaintext_auth_witness : ∃ w' s' r,
  handle fx_tick (!"AUTH PLAIN AGtleWEAa2V5YQ==" ++ [CR]) fx_world (fx_session fx_config)
    = Some (w', s', r) ∧
  auth_mode (input_mode s') = false ∧
  (credential s' = credential (fx_session fx_config) ∨
   credential s' = ip_credential fx_world (fx_session fx_config)).
Proof.
  destruct (handle _ _ _ _) as [[[w' s'] r]|] eqn:E; [|vm_compute in E; discriminate].
  exists w', s', r. split; [done|].
  apply (no_plaintext_auth fx_tick (!"AUTH PLAIN AGtleWEAa2V5YQ==" ++ [CR]) fx_world
    (fx_session fx_config) w' s' r); [apply reach_new|vm_compute; reflexivity|exact E].
Defined.

Lemma credential_is_earned_witness : ∃ w' s' r c,
  handle fx_tick (!"keya" ++ [CR]) (world_after fx_config_plain (take 3 fx_dialogue))
    (session_after fx_config_plain (take 3 fx_dialogue)) = Some (w', s', r) ∧
  credential s' = Some c ∧
  auth_proof (world_after fx_config_plain (take 3 fx_dialogue))
    (session_after fx_config_plain (take 3 fx_dialogue)) !"keya" c.
Proof.
  destruct (handle _ _ _ _) as [[[w' s'] r]|] eqn:E; [|vm_compute in E; discriminate].
  destruct (credential s') as [c|] eqn:Ec; [|exfalso; revert Ec; vm_compute in E; injection E as _ <- _; discriminate].
  exists w', s', r, c. split; [done|]. split; [done|].
  destruct (credential_is_earned fx_tick (!"keya" ++ [CR]) _ _ w' s' r c E Ec) as [H|[H|H]];
    [vm_compute in H; discriminate..|exact H].
Defined.

Lemma accepted_messages_witness : ∃ w' s' r,
  handle fx_tick (!"." ++ [CR]) (world_after fx_config_plain fx_dialogue)
    (session_after fx_config_plain fx_dialogue) = Some (w', s', r) ∧
  ∃ q, accepted (w_sink w') = [] ++ q ∧ Forall2 (queued_for (session_after fx_config_plain fx_dialogue))
    (recipients (session_after fx_config_plain fx_dialogue)) q.
Proof.
  destruct (handle _ _ _ _) as [[[w' s'] r]|] eqn:E; [|vm_compute in E; discriminate].
  exists w', s', r. split; [done|].
  destruct (accepted_messages fx_tick _ _ _ w' s' r (reach_after _ _) E)
    as [H|(_ & _ & _ & q & Hq & Hf & _)].
  - exfalso. vm_compute in E. injection E as <- _ _. discriminate H.
  - exists q. split; [exact Hq|exact Hf].
Defined.

Lemma send_limit_enforced_witness : ∃ w' s' r q,
  handle fx_tick (!"." ++ [CR]) (world_after fx_config_plain fx_dialogue)
    (session_after fx_config_plain fx_dialogue) = Some (w', s', r) ∧
  outgoing_count q = 1%Z ∧
  allows (session_allowance fx_tick (world_after fx_config_plain fx_dialogue)
    (session_after fx_config_plain fx_dialogue)) (outgoing_count q) = true.
Proof.
  destruct (handle _ _ _ _) as [[[w' s'] r]|] eqn:E; [|vm_compute in E; discriminate].
  exists w', s', r, (accepted (w_sink w')). split; [done|]. split.
  - vm_compute in E. injection E as <- _ _. reflexivity.
  - apply (send_limit_enforced fx_tick (!"." ++ [CR]) _ _ w' s' r _ E).
    vm_compute in E. injection E as <- _ _. reflexivity.
Defined.

(** ** The idempotency hash input is unambiguous

    [smtp_request_hash] hashes length-prefixed fields.  The input determines the
    envelope and the message, so two requests collide only when the hash does. *)


Lemma be_bytes_length n v : length (be_bytes n v) = n.
Proof. revert v. induction n as [|n IH]; intros v; [done|]. simpl. rewrite length_app, IH. simpl. lia. Qed.

Lemma ascii_of_N_inj a b : (a < 256)%N → (b < 256)%N → ascii_of_N a = ascii_of_N b → a = b.
Proof. intros Ha Hb E. apply (f_equal N_of_ascii) in E. by rewrite !N_ascii_embedding in E. Qed.

Lemma be_bytes_inj n v v' :
  (v < 256 ^ N.of_nat n)%N → (v' < 256 ^ N.of_nat n)%N → be_bytes n v = be_bytes n v' → v = v'.
Proof.
  revert v v'. induction n as [|n IH]; intros v v' Hv Hv' E.
  { change (256 ^ N.of_nat 0)%N with 1%N in *. lia. }
  rewrite Nat2N.inj_succ, N.pow_succ_r' in Hv, Hv'. cbn [be_bytes] in E. apply app_inj_tail in E as [E1 E2].
  rewrite !N.shiftr_div_pow2 in E1. change 255%N with (N.ones 8) in E2. rewrite !N.land_ones in E2.
  change (2 ^ 8)%N with 256%N in *.
  apply IH in E1; [|apply N.Div0.div_lt_upper_bound; lia..].
  apply ascii_of_N_inj in E2; [|apply N.mod_lt; lia..].
  rewrite (N.Div0.div_mod v 256), (N.Div0.div_mod v' 256). congruence.
Qed.

(** Texts short enough for a 64-bit length. *)
Definition fits_u64 (n : nat) : Prop := (N.of_nat n < 18446744073709551616)%N.

Lemma u64_be_inj n m : fits_u64 n → fits_u64 m → u64_be n = u64_be m → n = m.
Proof. intros Hn Hm E. apply be_bytes_inj in E; [lia|exact Hn|exact Hm]. Qed.

Lemma u64_be_app_inj n m r r' :
  fits_u64 n → fits_u64 m → u64_be n ++ r = u64_be m ++ r' → n = m ∧ r = r'.
Proof.
  intros Hn Hm E. apply app_inj_1 in E as [E ->]; [|unfold u64_be; by rewrite !be_bytes_length].
  split; [|done]. by apply u64_be_inj.
Qed.

Lemma hash_add_inj a b r r' :
  fits_u64 (length a) → fits_u64 (length b) → hash_add a ++ r = hash_add b ++ r' → a = b ∧ r = r'.
Proof.
  unfold hash_add. intros Ha Hb E. rewrite <- !app_assoc in E.
  apply u64_be_app_inj in E as [Hl E]; [|done..]. by apply app_inj_1 in E.
Qed.

Lemma hash_add_list_inj l l' r r' :
  Forall (λ s, fits_u64 (length s)) l → Forall (λ s, fits_u64 (length s)) l' → length l = length l' →
  flat_map hash_add l ++ r = flat_map hash_add l' ++ r' → l = l' ∧ r = r'.
Proof.
  intros Hl. revert l'. induction Hl as [|a l Ha _ IH]; intros [|b l'] Hl' Hlen E; try done.
  cbn in E. rewrite <- !app_assoc in E. inversion Hl'; subst.
  apply hash_add_inj in E as [-> E]; [|done..].
  apply IH in E as [-> ->]; [done|done|by injection Hlen].
Qed.

(** the bytes hashed to recognise a repeated idempotent submission determine
    the envelope sender, the recipients in order and the client data: two different
    requests never feed the same bytes to the hash. *)
Theorem request_encoding_injective from rcpts data from' rcpts' data' :
  Forall (λ s, fits_u64 (length s)) (from :: data :: rcpts) → fits_u64 (length rcpts) →
  Forall (λ s, fits_u64 (length s)) (from' :: data' :: rcpts') → fits_u64 (length rcpts') →
  (from, rcpts, data) ≠ (from', rcpts', data') →
  smtp_request_encoding from rcpts data ≠ smtp_request_encoding from' rcpts' data'.
Proof.
  rewrite !Forall_cons. intros (Hf & Hd & Hr) Hl (Hf' & Hd' & Hr') Hl' Hne E. apply Hne.
  unfold smtp_request_encoding in E.
  apply hash_add_inj in E as [-> E]; [|done..]. apply u64_be_app_inj in E as [Hlen E]; [|done..].
  apply hash_add_list_inj in E as [-> E]; [|done..].
  rewrite <- (app_nil_r (hash_add data)), <- (app_nil_r (hash_add data')) in E.
  by apply hash_add_inj in E as [-> _].
Qed.

Lemma request_encoding_injective_witness :
  smtp_request_encoding !"a@b" [!"c@d"; !"e@f"] !"hi" ≠ smtp_request_encoding !"a@b" [!"c@de@f"] !"hi".
Proof.
  apply (request_encoding_injective !"a@b" [!"c@d"; !"e@f"] !"hi" !"a@b" [!"c@de@f"] !"hi");
    [repeat constructor|reflexivity|repeat constructor|reflexivity|discriminate].
Defined.

(** ** Runs of the session that go against its intent

    Concrete dialogues, each with a theorem about what the code does with them. *)


(** U+00A0, white space for [trim_start] but not ASCII. *)
Definition NBSP : bytes := map ascii_of_N [194; 160]%N.
Definition nbsp_mail_from : bytes := NBSP ++ NBSP ++ NBSP ++ NBSP ++ NBSP ++ !"MAIL FROM:<x>".

(** The ASCII hypothesis of the no-panic theorem is needed: five no-break
    spaces before MAIL FROM make [strip_prefix_ci] slice inside a character, and
    the handler panics, whatever the store, the sink and the rest of the session. *)
Theorem non_ascii_command_panics {St Sk : Type} `{!Store St, !MessageSink Sk, !Crates, !UnicodeCase}
    (t : Tick) (w : World St Sk) (s : Session) :
  state s = Welcomed → input_mode s = ModeCommand → handle t nbsp_mail_from w s = None.
Proof.
  destruct s. cbn. intros -> ->. vm_compute. reflexivity.
Qed.

#[local] Existing Instance concrete_crates.
#[local] Existing Instance concrete_case.
#[local] Existing Instance concrete_order.
#[local] Existing Instance concrete_ipnet.

Lemma non_ascii_command_panics_witness :
  handle fx_tick nbsp_mail_from fx_world (session_after fx_config_plain [!"EHLO client"]) = None.
Proof. apply (non_ascii_command_panics fx_tick); vm_compute; reflexivity. Defined.

(** A rejected recipient is forgotten, but the transaction goes on: RCPT TO for
    an unknown route token answers 550, DATA is then accepted all the same, and the
    final dot answers 250 OK although nothing was handed to the sink. *)
Theorem rejected_recipient_acknowledged :
  ∃ w s rs,
    after fx_config_plain [!"EHLO client"; !"MAIL FROM:<x@y.example>"; !"RCPT TO:<nobody@routes.example>";
      !"DATA"; !"Subject: hi"; !""; !"."] = Some (w, s, rs) ∧
    rs !! 2 = Some (Line !"550 Invalid route token") ∧
    rs !! 3 = Some (Line !"354 Go ahead") ∧
    rs !! 6 = Some (Line !"250 OK") ∧
    accepted (w_sink w) = [].
Proof.
  destruct (after _ _) as [[[w s] rs]|] eqn:E; [|vm_compute in E; discriminate].
  exists w, s, rs. split; [done|]. vm_compute in E. injection E as <- _ <-. by split_and!.
Qed.

(** AUTH is accepted in the middle of a mail transaction and keeps the
    recipients: the recipient is added under tenant A's credential, the client then
    authenticates as tenant B, and the message is stored on A's server with B's
    credential and B's authenticated domain. *)
Theorem reauthentication_mixes_tenants :
  ∃ w s rs m,
    after fx_config_plain [!"EHLO client"; !"AUTH LOGIN"; !"user"; !"keya"; !"MAIL FROM:<me@a.example>";
      !"RCPT TO:<you@other.example>"; !"AUTH LOGIN"; !"user"; !"keyb"; !"DATA"; !"From: me@b.example"; !"";
      !"."] = Some (w, s, rs) ∧
    accepted (w_sink w) = [m] ∧ qm_scope m = Outgoing ∧
    qm_server_id m = srv_id server_a ∧
    qm_credential_id m = Some 200%N ∧ cred_server_id (fx_credential 200 2 !"keyb") = srv_id server_b ∧
    qm_domain_id m = Some 22%N.
Proof.
  destruct (after _ _) as [[[w s] rs]|] eqn:E; [|vm_compute in E; discriminate].
  vm_compute in E. injection E as <- <- <-. eexists _, _, _, _. by split_and!.
Qed.
