(* ===== verification/ServerFacts.v ===== *)
(** * ServerFacts: reading lines, the loop over them, and transparency of DATA

    The loop of a connection ends, the lines of a stream do not depend on how the
    network cut it into chunks, and the body the SMTP client writes is stored by
    the session exactly up to line endings. *)

From S2P Require Import Prelude RustStr RustStrFacts Net Model SendLimit Message Store Spf Session.
From S2P Require Import Server MemoryStore SmtpClient Concrete SessionFacts SessionProps.

(** ** Reading *)

Definition chunk_bytes (r : ReadResult) : nat := match r with RData chunk => length chunk | RFail _ => 0 end.

Lemma server_read_go_pending buffer reads reads' buffer' line :
  server_read_go buffer reads = (reads', buffer', inr (Some line)) →
  length buffer' + sum_list_with chunk_bytes reads' < length buffer + sum_list_with chunk_bytes reads.
Proof.
  revert buffer. induction reads as [|r reads IH]; intros buffer; cbn [server_read_go];
    destruct (find_byte _ buffer) as [i|] eqn:Ei.
  1,3: intros [= <- <- _]; apply find_byte_Some in Ei as (a & c & b & -> & <- & _);
    rewrite length_drop, length_app; simpl; lia.
  - done.
  - destruct r as [[|x chunk]|e]; [done| |done]. intros E. apply IH in E.
    rewrite length_app in E. simpl in *. lia.
Qed.

Lemma server_read_line_pending l l' line :
  server_read_line l = (l', inr (Some line)) → pending l' < pending l.
Proof.
  unfold server_read_line. destruct (server_read_go _ _) as [[reads buffer] r] eqn:E.
  intros [= <- ->]. by apply server_read_go_pending in E.
Qed.

Lemma write_reply_pending l r l' x : write_reply l r = (l', x) → pending l' = pending l.
Proof.
  unfold write_reply, write_all. destruct r; [by intros [= <- _]|..];
    destruct (ls_write_errors l) as [|[e|] rest]; by intros [= <- _].
Qed.

Section Loop.
Context {St Sk R : Type} `{STO : !Store St, SNK : !MessageSink Sk, CRT : !Crates, UCA : !UnicodeCase,
  IPN : !IpNetCrate, RES : !SpfResolver R}.

Lemma drive_loop_fuel fuel tick spf b (w : World St Sk) s l :
  pending l < fuel → (drive_loop (R := R) fuel tick spf b w s l).2 ≠ OutOfFuel.
Proof.
  revert b w s l. induction fuel as [|fuel IH]; intros b w s l Hl; [lia|]. cbn [drive_loop].
  destruct (server_read_line l) as [l1 [e|[line|]]] eqn:E; [done| |done].
  apply server_read_line_pending in E.
  destruct (before_handle spf line b s) as [[b' s1]|]; [|done].
  destruct (handle _ _ _ _) as [[[w1 s2] r]|]; [|done].
  destruct (write_reply l1 r) as [l2 [e|[]]] eqn:Ew; [done|]. apply write_reply_pending in Ew.
  destruct (take_start_tls s2) as [[|] s3]; [done|]. destruct (finished s3); [done|]. apply IH. lia.
Qed.

(** the loop over the lines of a connection always ends by itself (the stream
    ends or fails, the session finishes or asks for TLS, or the handler panics);
    the bound of the model is never what stops it. *)
Theorem drive_session_terminates tick spf (w : World St Sk) s l :
  ∃ w' s' l' e, drive_session (R := R) tick spf w s l = (w', s', l', e) ∧ e ≠ OutOfFuel.
Proof.
  unfold drive_session. destruct (drive_loop _ _ _ _ _ _ _) as [[[w' s'] l'] e] eqn:E.
  exists w', s', l', e. split; [done|]. pose proof (drive_loop_fuel (S (pending l)) tick spf false w s l) as H.
  rewrite E in H. apply H. lia.
Qed.
End Loop.

(** ** Lines and chunks *)

(** Every line a stream delivers, up to its end or an error. *)
Fixpoint read_lines (fuel : nat) (l : LineStream) : list bytes :=
  match fuel with
  | 0 => []
  | S fuel' =>
      match server_read_line l with
      | (l, inr (Some line)) => line :: read_lines fuel' l
      | _ => []
      end
  end.

(** The complete lines of a byte string, as the server decodes them. *)
Definition complete_lines (b : bytes) : list bytes :=
  map from_utf8_lossy (removelast (split_on (is_byte LF) b)).

Lemma complete_lines_none b : find_byte (is_byte LF) b = None → complete_lines b = [].
Proof. intros H%find_byte_None. unfold complete_lines. by rewrite split_on_none. Qed.

Lemma complete_lines_app a b :
  Forall (λ x, is_byte LF x = false) a →
  complete_lines (a ++ LF :: b) = from_utf8_lossy a :: complete_lines b.
Proof.
  intros Ha. unfold complete_lines. rewrite split_on_app; [|done|done].
  destruct (split_on (is_byte LF) b) eqn:E; [by apply split_on_not_nil in E|done].
Qed.

(** What one read does, for a stream of non-empty chunks. *)
Lemma server_read_go_chunks buffer chunks :
  Forall (λ c, c ≠ []) chunks →
  let all := buffer ++ concat chunks in
  match server_read_go buffer (map RData chunks) with
  | (reads, buffer', inr (Some line)) =>
      ∃ a chunks', all = a ++ LF :: buffer' ++ concat chunks' ∧ reads = map RData chunks' ∧
        Forall (λ c, c ≠ []) chunks' ∧ Forall (λ x, is_byte LF x = false) a ∧ line = from_utf8_lossy a
  | (_, _, inr None) => find_byte (is_byte LF) all = None
  | (_, _, inl _) => False
  end.
Proof.
  assert (∀ buffer i chunks, Forall (λ c, c ≠ []) chunks → find_byte (is_byte LF) buffer = Some i →
    ∃ a chunks', buffer ++ concat chunks = a ++ LF :: drop (S i) buffer ++ concat chunks' ∧
      map RData chunks = map RData chunks' ∧ Forall (λ c, c ≠ []) chunks' ∧
      Forall (λ x, is_byte LF x = false) a ∧ from_utf8_lossy (take i buffer) = from_utf8_lossy a) as Hhit.
  { clear. intros buffer i chunks Hc Hi. apply find_byte_Some in Hi as (a & x & b & -> & <- & Hx & Ha).
    bytes_bool. subst x. exists a, chunks. rewrite take_app_length, drop_app_ge by lia.
    replace (S (length a) - length a) with 1 by lia. simpl. by rewrite <- app_assoc. }
  intros Hc. revert buffer. induction Hc as [|c chunks Hc Hcs IH]; intros buffer; cbn [server_read_go map concat];
    destruct (find_byte _ buffer) as [i|] eqn:Ei.
  - by apply (Hhit buffer i []).
  - by rewrite app_nil_r.
  - apply (Hhit buffer i (c :: chunks)); [by constructor|done].
  - destruct c as [|x c]; [done|]. specialize (IH (buffer ++ x :: c)).
    cbn zeta in *. by rewrite <- app_assoc in IH.
Qed.

Lemma read_lines_chunks fuel l chunks :
  ls_reads l = map RData chunks → Forall (λ c, c ≠ []) chunks → pending l < fuel →
  read_lines fuel l = complete_lines (ls_buffer l ++ concat chunks).
Proof.
  revert l chunks. induction fuel as [|fuel IH]; intros l chunks Hl Hc Hp; [lia|]. cbn [read_lines].
  destruct (server_read_line l) as [l1 r] eqn:E. pose proof E as E'.
  unfold server_read_line in E. rewrite Hl in E.
  pose proof (server_read_go_chunks (ls_buffer l) chunks Hc) as H.
  destruct (server_read_go _ _) as [[reads buffer] r']. injection E as <- <-.
  destruct r' as [e|[line|]]; [done|..].
  - destruct H as (a & chunks' & -> & Hreads & Hc' & Ha & ->). rewrite complete_lines_app by done.
    f_equal. apply server_read_line_pending in E'.
    rewrite (IH _ chunks'); [done|done|done|lia].
  - by rewrite complete_lines_none.
Qed.

(** The lines the server reads are a function of the bytes sent: however the
    network cuts them into chunks, they are the complete lines, in order. *)
Theorem chunking_irrelevant chunks writes :
  Forall (λ c, c ≠ []) chunks →
  let l := line_stream_new (map RData chunks) writes in
  read_lines (S (pending l)) l = complete_lines (concat chunks).
Proof. intros Hc l. apply (read_lines_chunks _ l chunks); [done|done|lia]. Qed.

Lemma chunking_irrelevant_witness :
  read_lines 20 (line_stream_new (map RData [!"EH"; !"LO x" ++ CRLF ++ !"NO"; !"OP" ++ CRLF]) [])
  = [!"EHLO x" ++ [CR]; !"NOOP" ++ [CR]].
Proof.
  apply (chunking_irrelevant [!"EH"; !"LO x" ++ CRLF ++ !"NO"; !"OP" ++ CRLF] []).
  repeat constructor; discriminate.
Defined.

(** ** Transparency of DATA *)

(** A line of the message as the client writes it, without the line feed. *)
Definition stuffed (content : bytes) : bytes := (if starts_with content !"." then !"." else []) ++ content.

Lemma unstuff_stuffed content : unstuff (stuffed content) = content.
Proof.
  unfold unstuff, stuffed. destruct (starts_with content !".") eqn:E.
  - apply starts_with_true in E as [r ->].
    change (!"." ++ !"." ++ r) with (!".." ++ r). by rewrite strip_prefix_app.
  - cbn [app]. destruct (strip_prefix !".." content) as [r|] eqn:Ep; [|done].
    apply strip_prefix_Some in Ep as ->.
    change (!".." ++ r) with (!"." ++ !"." ++ r) in E. by rewrite starts_with_app in E.
Qed.

Lemma stuffed_not_dot content : (stuffed content =b !".") = false.
Proof.
  apply bytes_eqb_neq. intros E. pose proof (unstuff_stuffed content) as H. rewrite E in H.
  cbn in H. subst content. done.
Qed.

Section Transparency.
Context {St Sk : Type} `{STO : !Store St, SNK : !MessageSink Sk, CRT : !Crates, UCA : !UnicodeCase}.

(** A session receiving a message whose last line ended in CR LF. *)
Definition receiving (s : Session) (d : bytes) : Prop :=
  session_wf s ∧ input_mode s = ModeData ∧ data s = Some d.

Lemma receive_line t content (w : World St Sk) s d :
  receiving s d →
  ∃ s', handle t (stuffed content ++ [CR]) w s = Some (w, s', NoReply) ∧
    receiving s' (d ++ content ++ CRLF).
Proof.
  intros (Hwf & Hm & Hd).
  assert (state s = RcptToReceived) as Hs by (by apply wf_data_mode).
  destruct (handle_total t (stuffed content ++ [CR]) w s Hwf) as [[[w' s'] r] Hh]; [by rewrite Hm|].
  assert (session_wf s') as Hwf' by (by eapply handle_wf).
  exists s'. revert Hh. unfold handle. rewrite strip_suffix_app. unfold dispatch.
  set (s1 := s <| cr_present := true |>).
  rewrite decide_False by (unfold s1; cbn; congruence).
  replace (input_mode s1) with ModeData by done. unfold data_line.
  rewrite stuffed_not_dot. cbn [andb]. unfold store_line. rewrite unstuff_stuffed.
  assert (session_wf s1) as Hwf1 by (by apply wf_cr_present).
  destruct (if receiving_headers s1 then _ else _) as [s2|] eqn:E; cbn [mbind option_bind]; [|done].
  assert (input_mode s2 = ModeData ∧ data s2 = Some d) as [Hm2 Hd2].
  { destruct (receiving_headers s1); [|by injection E as <-].
    apply header_line_wf in E as (_ & ? & Hd2); [|done|done]. split; [done|]. by rewrite Hd2. }
  rewrite Hd2. intros H. injection H as <- <- <-. split; [done|]. by split_and!.
Qed.

(** Feed raw lines, with their carriage returns, to a session. *)
Fixpoint feed (t : Tick) (lines : list bytes) (w : World St Sk) (s : Session) :
    option (World St Sk * Session) :=
  match lines with
  | [] => Some (w, s)
  | l :: rest => '(w, s, _) ← handle t l w s; feed t rest w s
  end.

Lemma receive_lines t contents (w : World St Sk) s d :
  receiving s d →
  ∃ s', feed t (map (λ c, stuffed c ++ [CR]) contents) w s = Some (w, s') ∧
    receiving s' (d ++ flat_map (λ c, c ++ CRLF) contents).
Proof.
  revert s d. induction contents as [|c contents IH]; intros s d Hs.
  { exists s. cbn. by rewrite app_nil_r. }
  destruct (receive_line t c w s d Hs) as (s1 & Hh & H1).
  destruct (IH s1 _ H1) as (s2 & Hf & H2). exists s2. cbn [map feed flat_map]. rewrite Hh.
  cbn [mbind option_bind]. split; [exact Hf|].
  by rewrite <- app_assoc in H2.
Qed.

Lemma complete_lines_stuffed contents :
  Forall (λ c, Forall (λ x, is_byte LF x = false) c ∧ valid_utf8 c) contents →
  complete_lines (flat_map (λ c, stuffed c ++ CRLF) contents) = map (λ c, stuffed c ++ [CR]) contents.
Proof.
  induction 1 as [|c contents [Hlf Hu] _ IH]; [done|]. cbn [flat_map map].
  replace ((stuffed c ++ CRLF) ++ flat_map (λ c, stuffed c ++ CRLF) contents)
    with ((stuffed c ++ [CR]) ++ LF :: flat_map (λ c, stuffed c ++ CRLF) contents)
    by (unfold CRLF; by rewrite <- !app_assoc).
  rewrite complete_lines_app, IH.
  - f_equal. rewrite lossy_app_ascii by done. cbn [from_utf8_lossy]. f_equal.
    unfold stuffed. destruct (starts_with c !"."); [|exact Hu].
    change (!"." ++ c) with ([] ++ "."%char :: c). by rewrite lossy_app_ascii, Hu.
  - apply Forall_app. split; [|by repeat constructor]. unfold stuffed.
    destruct (starts_with c !"."); [|done]. by constructor.
Qed.

(** The lines of a message without their endings, and the message with every ending
    made CR LF. *)
Definition message_lines (raw : bytes) : list bytes := map strip_cr (data_lines raw).
Definition crlf_message (raw : bytes) : bytes := flat_map (λ c, c ++ CRLF) (message_lines raw).

Lemma data_body_stuffed raw : data_body raw = flat_map (λ c, stuffed c ++ CRLF) (message_lines raw).
Proof.
  unfold data_body, message_lines. induction (data_lines raw) as [|l ls IH]; [done|]. cbn. rewrite IH.
  unfold stuff_line, stuffed. by rewrite !app_assoc.
Qed.

Lemma strip_cr_prefix l : ∃ k, strip_cr l = take k l.
Proof.
  unfold strip_cr. destruct (strip_suffix [CR] l) as [r|] eqn:E.
  - apply strip_suffix_Some in E as ->. exists (length r). cbn. by rewrite take_app_length.
  - exists (length l). by rewrite firstn_all.
Qed.

Lemma message_lines_no_lf raw : Forall (λ c, Forall (λ x, is_byte LF x = false) c) (message_lines raw).
Proof.
  unfold message_lines, data_lines. pose proof (split_on_pieces (is_byte LF) raw) as H.
  apply Forall_map. assert (Forall (Forall (λ x, is_byte LF x = false))
    (match last (split_on (is_byte LF) raw) with Some [] => removelast (split_on (is_byte LF) raw)
     | _ => split_on (is_byte LF) raw end)) as Hd.
  { destruct (last _) as [[|]|]; try done.
    rewrite removelast_firstn_len. by apply Forall_take. }
  eapply Forall_impl; [exact Hd|]. intros l Hl. cbn. destruct (strip_cr_prefix l) as [k ->].
  by apply Forall_take.
Qed.

(** C35: DATA is transparent between the repository's own client and server for messages
    each of whose lines is valid UTF-8 (the server reads a line with [from_utf8_lossy],
    which replaces other bytes).  The body [send_data] writes for such a message, cut into chunks by the network in any
    way, leaves a receiving session in DATA mode, stores nothing in the sink, and
    adds exactly the message with its line endings made CR LF: no line ends the
    message early and every doubled dot is undone. *)
Theorem data_transparency t (w : World St Sk) s d raw chunks writes :
  receiving s d → Forall valid_utf8 (message_lines raw) →
  Forall (λ c, c ≠ []) chunks → concat chunks = data_body raw →
  let l := line_stream_new (map RData chunks) writes in
  ∃ s', feed t (read_lines (S (pending l)) l) w s = Some (w, s') ∧ input_mode s' = ModeData ∧
    data s' = Some (d ++ crlf_message raw).
Proof.
  intros Hs Hv Hc Hb l. rewrite (read_lines_chunks _ l chunks) by (done || lia). cbn [ls_buffer app].
  change (ls_buffer l) with (@nil ascii). cbn [app]. rewrite Hb, data_body_stuffed, complete_lines_stuffed.
  - destruct (receive_lines t (message_lines raw) w s d Hs) as (s' & Hf & _ & Hm & Hd). by exists s'.
  - apply Forall_and. split; [apply message_lines_no_lf|done].
Qed.
End Transparency.

#[local] Existing Instance concrete_crates.
#[local] Existing Instance concrete_case.
#[local] Existing Instance concrete_order.
#[local] Existing Instance concrete_ipnet.

Lemma data_transparency_witness :
  let raw := !"Subject: x" ++ [LF; LF] ++ !".hidden" ++ CRLF ++ !"." ++ [LF] in
  let w := world_after fx_config_plain (take 7 fx_dialogue) in
  let s := session_after fx_config_plain (take 7 fx_dialogue) in
  let l := line_stream_new (map RData [take 9 (data_body raw); drop 9 (data_body raw)]) [] in
  crlf_message raw = !"Subject: x" ++ CRLF ++ CRLF ++ !".hidden" ++ CRLF ++ !"." ++ CRLF ∧
  ∃ s', feed fx_tick (read_lines (S (pending l)) l) w s = Some (w, s') ∧ input_mode s' = ModeData ∧
    data s' = Some (from_option id [] (data s) ++ crlf_message raw).
Proof.
  intros raw w s l. split; [vm_compute; reflexivity|].
  apply (data_transparency fx_tick w s (from_option id [] (data s)) raw
    [take 9 (data_body raw); drop 9 (data_body raw)] []).
  - split; [eapply reach_wf, reach_after|]. split; vm_compute; reflexivity.
  - repeat constructor.
  - repeat constructor; vm_compute; discriminate.
  - vm_compute. reflexivity.
Defined.

(** ** SPF over one connection *)

Definition fx_route_store : MemoryStore :=
  insert_route (mkRoute 31 !"uuid" 1 (Some 11%N) !"in" !"rtoken" Accept None) fx_store.

(** [a.example] lists the client's address, [bank.example] lists nobody. *)
Definition fx_resolver : StaticSpfResolver :=
  add_txt !"bank.example" !"v=spf1 -all" (add_txt !"a.example" !"v=spf1 ip4:203.0.113.9 -all" static_new).

Definition fx_transaction (from : bytes) : list bytes :=
  [!"MAIL FROM:<" ++ from ++ !">"; !"RCPT TO:<in@a.example>"; !"DATA"; !"Subject: x"; !""; !"."].

Definition fx_connection (lines : list bytes) :=
  drive_session (λ _, fx_tick) (Some (mkSpfContext (R := StaticSpfResolver) fx_resolver !"mx.example"))
    (mkWorld fx_route_store memory_sink_new) (fx_session fx_config_plain)
    (line_stream_new [RData (flat_map (λ l, l ++ CRLF) lines)] []).

(** The SPF check runs once per connection, not once per transaction: the
    second message of a connection, from a domain whose policy forbids the client,
    is stored with the passing verdict of the first sender. *)
Theorem spf_verdict_outlives_transaction :
  ∃ w s l m1 m2,
    fx_connection ([!"EHLO client"] ++ fx_transaction !"me@a.example" ++ fx_transaction !"ceo@bank.example")
      = (w, s, l, Closed) ∧
    accepted (w_sink w) = [m1; m2] ∧
    qm_mail_from m2 = !"ceo@bank.example" ∧
    evaluate fx_resolver !"bank.example" (V4 3405803785) = Some Fail_ ∧
    starts_with (qm_raw_message m2) !"Received-SPF: pass (" = true ∧
    contains (qm_raw_message m2) !"envelope-from=<me@a.example>" = true.
Proof.
  destruct (fx_connection _) as [[[w s] l] e] eqn:E. vm_compute in E. injection E as <- <- <- <-.
  eexists _, _, _, _, _. by split_and!.
Qed.
