(* ===== verification/SendLimitFacts.v ===== *)
(** * SendLimitFacts: allowances, retention and monthly usage *)

From S2P Require Import Prelude RustStr RustStrFacts Net SendLimit Mime.

(** ** Allowances *)

(** Checking the stricter of two allowances is checking both: a number of
    messages passes exactly when the server's and the organization's allowance let
    it pass, and the allowance named in the refusal is one that refuses. *)
Theorem stricter_allows a b n :
  allows (stricter a b) n = allows a n && allows b n ∧ (stricter a b = a ∨ stricter a b = b).
Proof.
  unfold allows, stricter. destruct (remaining a) as [x|] eqn:Ea, (remaining b) as [y|] eqn:Eb.
  - destruct (Z.ltb_spec x y); [rewrite Ea|destruct (Z.ltb_spec y x);
      [rewrite Eb|destruct (decide _); [rewrite Ea|rewrite Eb]]];
      (split; [|by auto]); destruct (Z.leb_spec n 0), (Z.leb_spec n x), (Z.leb_spec n y); simpl; auto; lia.
  - rewrite ?Ea, ?Eb, ?andb_true_r. auto.
  - rewrite ?Ea, ?Eb. auto.
  - rewrite ?Ea, ?Eb. auto.
Qed.

(** ** Retention *)

Lemma normalized_idemp p : normalized (normalized p) = normalized p.
Proof.
  destruct p as [[c|] [m|] w d]; cbn; try done; do 2 f_equal; lia.
Qed.

(** With any defaults and any per-organization overrides, the content of a
    message never outlives its metadata: wherever there is a metadata cut-off there
    is a content cut-off that is no earlier; without overrides the defaults apply. *)
Theorem content_never_outlives_metadata p o now :
  let q := with_overrides p o in
  (∀ m, cutoff now (rp_message_metadata_days q) = Some m →
     ∃ c, cutoff now (rp_message_content_days q) = Some c ∧ (m <= c)%Z) ∧
  normalized q = q ∧ with_overrides p overrides_default = normalized p.
Proof.
  intros q. split_and!.
  - unfold q, with_overrides, normalized.
    destruct (pick (rp_message_metadata_days p) _) as [m|] eqn:Em; cbn; rewrite ?Em; cbn; [|done].
    intros _ [= <-]. eexists. split; [done|]. unfold days, hours.
    destruct (pick (rp_message_content_days p) _); lia.
  - apply normalized_idemp.
  - by destruct p.
Qed.

(** ** Usage thresholds *)

(** The thresholds reached are exactly 80 and 100 percent, compared without
    rounding, only under a positive limit, and for all 64-bit counts the products
    compared fit the 128-bit integers the code uses. *)
Theorem reached_thresholds_spec sent l t :
  is_i64 sent → is_i64 l →
  (t ∈ reached_thresholds sent (Some l) ↔
     (t = 80 ∨ t = 100)%N ∧ (0 < l)%Z ∧ (l * Z.of_N t <= sent * 100)%Z) ∧
  reached_thresholds sent None = [] ∧
  is_i128 (sent * 100) ∧ is_i128 (l * 80) ∧ is_i128 (l * 100).
Proof.
  unfold is_i64, is_i128, i64_min, i64_max. intros Hs Hl. split_and!; try done; try lia.
  cbn [reached_thresholds]. destruct (Z.ltb_spec 0 l) as [H|H].
  - rewrite list_elem_of_filter. unfold USAGE_THRESHOLDS.
    rewrite !elem_of_cons, elem_of_nil, Z.geb_leb, Z.leb_le. naive_solver.
  - rewrite elem_of_nil. split; [done|]. lia.
Qed.

Lemma reached_thresholds_spec_witness : (80%N ∈ reached_thresholds 800 (Some 1000%Z)).
Proof. apply (reached_thresholds_spec 800 1000 80); [vm_compute; split; discriminate..|]. split; [auto|lia]. Defined.

(** ** Month labels *)

(** A field of the label: its width, its value, and no separator in it. *)
Definition year_field (y : Z) : bool :=
  let s := pad0 4 (show_Z y) in
  (length s =? 4)%nat && bool_decide (parse_i32 s = Some y) && forallb (λ c, negb (is_byte "-" c)) s.
Definition month_field (m : N) : bool :=
  let s := pad0 2 (show_N m) in (length s =? 2)%nat && bool_decide (parse_u32 s = Some m).

Lemma years_checked : forallb (λ y, year_field (Z.of_nat y)) (seq 0 (N.to_nat 10000)) = true.
Proof. vm_compute. reflexivity. Qed.
Lemma months_checked : forallb (λ m, month_field (N.of_nat m)) (seq 1 12) = true.
Proof. vm_compute. reflexivity. Qed.

(** The label of every month of the years 0 to 9999 parses back to it. *)
Theorem usage_month_round_trip y m :
  (0 <= y <= 9999)%Z → (1 <= m <= 12)%N →
  parse_usage_month (label (mkUsageMonth y m)) = Some (mkUsageMonth y m).
Proof.
  intros Hy Hm. pose proof years_checked as H. rewrite forallb_forall in H.
  specialize (H (Z.to_nat y) ltac:(apply in_seq; lia)). rewrite Z2Nat.id in H by lia.
  pose proof months_checked as H'. rewrite forallb_forall in H'.
  specialize (H' (N.to_nat m) ltac:(apply in_seq; lia)). rewrite N2Nat.id in H'.
  unfold year_field, month_field in *. bytes_bool. unfold label. cbn [um_year um_month].
  replace (y <? 0)%Z with false by (symmetry; apply Z.ltb_ge; lia).
  change (!"-" ++ pad0 2 (show_N m)) with ("-"%char :: pad0 2 (show_N m)).
  unfold parse_usage_month. rewrite (split_once_app (is_byte "-") (pad0 4 (show_Z y)) "-"); [|..|done].
  - cbn [mbind option_bind]. repeat match goal with H : _ = true |- _ => rewrite H end. cbn [negb orb].
    repeat match goal with H : _ = Some _ |- _ => rewrite H end. cbn [mbind option_bind].
    unfold valid_first_of_month.
    replace _ with true by (symmetry; rewrite !andb_true_iff, !Z.leb_le, !N.leb_le; lia). done.
  - rewrite Forall_forall. intros c Hc%list_elem_of_In.
    match goal with H : forallb _ _ = true |- _ => rewrite forallb_forall in H; specialize (H c Hc) end.
    by apply negb_true_iff.
Qed.

Lemma usage_month_round_trip_witness :
  parse_usage_month (label (mkUsageMonth 2024 3)) = Some (mkUsageMonth 2024 3).
Proof. apply (usage_month_round_trip 2024 3); lia. Defined.

(** ** Numbers and bytes as text read back

    Decimal integers ([to_string] and [parse]) and lower-case hexadecimal. *)


(** ** Decimal *)

Lemma digit_of_char x : (x < 10)%N → digit_val (pretty.pretty_N_char x) = Some x.
Proof.
  intros Hx. assert (In x (map N.of_nat (seq 0 10))) as H.
  { apply in_map_iff. exists (N.to_nat x). split; [lia|apply in_seq; lia]. }
  revert H. cbn. intros H. by repeat destruct H as [<-|H].
Qed.

Lemma digits_val_go x : ∀ s, digits_val 0 (lit (pretty.pretty_N_go x s)) = digits_val x (lit s).
Proof.
  induction (N.lt_wf_0 x) as [x _ IH]. intros s. destruct (decide (x = 0)%N) as [->|Hx].
  - by rewrite pretty.pretty_N_go_0.
  - rewrite pretty.pretty_N_go_step by lia. rewrite IH by (apply N.div_lt; lia).
    change (lit (String ?c ?s)) with (c :: lit s). cbn [digits_val].
    rewrite digit_of_char by (apply N.mod_lt; lia). f_equal. pose proof (N.div_mod x 10). lia.
Qed.

Lemma show_N_cons n : ∃ c s, show_N n = c :: s ∧ is_ascii_digit c = true.
Proof.
  enough (∃ c s, show_N n = c :: s) as (c & s & E).
  { exists c, s. split; [done|]. assert (digits_val 0 (show_N n) = Some n) as H.
    { unfold show_N, pretty, pretty.pretty_N. destruct (decide _) as [->|Hn]; [done|]. by rewrite digits_val_go. }
    rewrite E in H. cbn in H. unfold digit_val in H. by destruct (is_ascii_digit c). }
  unfold show_N, pretty, pretty.pretty_N. destruct (decide _) as [->|Hn]; [by eexists _, _|].
  destruct (pretty.pretty_N_go n "") as [|c s] eqn:E; [|by exists c, (lit s)].
  pose proof (digits_val_go n "") as H. rewrite E in H. by injection H as [=].
Qed.

Lemma digits_show_N n : digits_val 0 (show_N n) = Some n.
Proof. unfold show_N, pretty, pretty.pretty_N. destruct (decide _) as [->|Hn]; [done|]. by rewrite digits_val_go. Qed.

Lemma digits_val_Forall s : ∀ acc n, digits_val acc s = Some n → Forall (λ c, is_ascii_digit c = true) s.
Proof.
  induction s as [|c s IH]; cbn; intros acc n; [constructor|]. unfold digit_val.
  destruct (is_ascii_digit c) eqn:Hc; [|done]. intros H. constructor; [done|by eapply IH].
Qed.

Lemma show_N_digits n : Forall (λ c, is_ascii_digit c = true) (show_N n).
Proof. eapply digits_val_Forall, digits_show_N. Qed.

Lemma show_Z_sign z : show_Z z = if (z <? 0)%Z then "-"%char :: show_N (Z.abs_N z) else show_N (Z.abs_N z).
Proof. by destruct z. Qed.

(** The characters of a printed integer. *)
Lemma show_Z_chars z : Forall (λ c, is_ascii_digit c || is_byte "-" c = true) (show_Z z).
Proof.
  assert (∀ n, Forall (λ c, is_ascii_digit c || is_byte "-" c = true) (show_N n)) as H.
  { intros n. eapply Forall_impl; [apply show_N_digits|]. intros c ->. done. }
  rewrite show_Z_sign. destruct (_ <? _)%Z; [constructor|]; [done|apply H..].
Qed.

Lemma parse_uint_show max n : (n <= max)%N → parse_uint max (show_N n) = Some n.
Proof.
  intros Hn. unfold parse_uint. pose proof (digits_show_N n) as H. destruct (show_N_cons n) as (c & s & E & Hc).
  rewrite E in *. destruct (Ascii.eqb_spec c "+"); [subst; done|]. rewrite H.
  by destruct (N.leb_spec n max); [|lia].
Qed.

Lemma parse_int_show min max z : (- Z.of_N min <= z <= Z.of_N max)%Z → parse_int min max (show_Z z) = Some z.
Proof.
  intros Hz. rewrite show_Z_sign. destruct (Z.ltb_spec z 0); cbn [parse_int].
  - destruct (show_N_cons (Z.abs_N z)) as (c & s & E & _). pose proof (digits_show_N (Z.abs_N z)) as H1. rewrite E in *.
    cbn [parse_int]. rewrite H1. destruct (N.leb_spec (Z.abs_N z) min); [|lia]. f_equal. lia.
  - pose proof (parse_uint_show max (Z.abs_N z)) as H1. destruct (show_N_cons (Z.abs_N z)) as (c & s & E & Hc).
    rewrite E in *. unfold parse_int. rewrite H1 by lia.
    assert (Some (Z.of_N (Z.abs_N z)) = Some z) as -> by (f_equal; lia).
    destruct c as [[] [] [] [] [] [] [] []]; done.
Qed.

(** ** Hexadecimal *)

Lemma hex_byte_reads c : ∃ a b, hex_byte c = [a; b] ∧ hex_byte_value a b = Some c.
Proof. eexists _, _. split; [reflexivity|]. by destruct c as [[] [] [] [] [] [] [] []]. Qed.

Lemma to_hex_chars s : Forall (λ c, is_ascii_digit c || b_in 97 102 c = true) (to_hex s).
Proof.
  induction s as [|c s IH]; [constructor|]. change (to_hex (c :: s)) with (hex_byte c ++ to_hex s). apply Forall_app_2; [|exact IH].
  destruct c as [[] [] [] [] [] [] [] []]; repeat constructor.
Qed.
