(* ===== verification/SpfFacts.v ===== *)
(** * SpfFacts: termination, the lookup budget, and the two macro modes *)

From S2P Require Import Prelude RustStr RustStrFacts Net Spf Concrete.

Section Facts.
Context `{IPN : !IpNetCrate} {R : Type} `{RES : !SpfResolver R} (resolver : R) (ip : IpAddr).
Implicit Types st : EvalState.

Lemma spend_lookup_budget st st' :
  spend_lookup st = Some st' → budget st = N.succ (budget st') ∧ blocked st' = blocked st.
Proof.
  unfold spend_lookup. destruct (N.eqb_spec (budget st) 0); [done|]. intros [= <-]. cbn. split; [lia|done].
Qed.

Lemma note_unsupported_budget t d k st : budget (note_unsupported t d k st) = budget st.
Proof. unfold note_unsupported. by destruct (blocked st). Qed.

(** ** Termination *)

(** A result exists and the budget has not grown. *)
Definition settles {A} (st : EvalState) (o : option (EvalState * A)) : Prop :=
  ∃ st' x, o = Some (st', x) ∧ (budget st' <= budget st)%N.

Lemma settles_ret {A} st st' (x : A) : (budget st' <= budget st)%N → settles st (Some (st', x)).
Proof. intros H. by exists st', x. Qed.

Lemma settles_weaken {A} st st' (o : option (EvalState * A)) :
  settles st' o → (budget st' <= budget st)%N → settles st o.
Proof. intros (st1 & x & -> & H) Hb. exists st1, x. split; [done|]. by etrans. Qed.

Lemma settles_bind {A B} st (o : option (EvalState * A)) (f : EvalState → A → option (EvalState * B)) :
  settles st o → (∀ st' x, (budget st' <= budget st)%N → settles st' (f st' x)) →
  settles st ('(st', x) ← o; f st' x).
Proof.
  intros (st1 & x & -> & H) Hf. cbn. eapply settles_weaken; [by apply Hf|exact H].
Qed.

Section Terms.
Variables (mode : MacroMode) (b : nat) (recur : bytes → EvalState → option (EvalState * SpfResult)).
(** The recursive call settles on every budget below [b]. *)
Hypothesis Hrecur : ∀ d st, N.to_nat (budget st) < b → settles st (recur d st).

Lemma match_mechanism_settles m d st :
  N.to_nat (budget st) <= b → settles st (match_mechanism resolver mode ip recur m d st).
Proof.
  intros Hb. unfold match_mechanism.
  destruct (if decide _ then _ else _) as [kind|].
  { apply settles_ret. by rewrite note_unsupported_budget. }
  destruct (_ =b _); [by apply settles_ret|].
  destruct (match strip_prefix !"ip4:" _ with Some _ => _ | None => _ end); [by apply settles_ret|].
  destruct (_ || _ || _).
  { unfold match_a. destruct (parse_domain_spec _ _ _) as [target cidr].
    destruct (spend_lookup st) as [st1|] eqn:E; [|by apply settles_ret].
    apply spend_lookup_budget in E as [E _].
    destruct (ip_addresses _ _); apply settles_ret; lia. }
  destruct (_ || _ || _).
  { unfold match_mx. destruct (parse_domain_spec _ _ _) as [target cidr].
    destruct (spend_lookup st) as [st1|] eqn:E; [|by apply settles_ret].
    apply spend_lookup_budget in E as [E _].
    destruct (mx_hosts _ _); [|apply settles_ret; lia].
    destruct (_ <? _)%nat; apply settles_ret; lia. }
  destruct (strip_prefix _ _) as [target|]; [|by apply settles_ret].
  unfold match_include. destruct (spend_lookup st) as [st1|] eqn:E; [|by apply settles_ret].
  apply spend_lookup_budget in E as [E _].
  eapply settles_weaken; [|instantiate (1 := st1); lia].
  apply settles_bind; [apply Hrecur; lia|]. intros st2 r _. by apply settles_ret.
Qed.

Lemma check_terms_settles d redirect terms st :
  N.to_nat (budget st) <= b → settles st (check_terms resolver mode ip recur d redirect terms st).
Proof.
  revert redirect st. induction terms as [|term terms IH]; intros redirect st Hb; cbn [check_terms].
  - destruct redirect as [target|]; [|by apply settles_ret].
    destruct (spend_lookup st) as [st1|] eqn:E; [|by apply settles_ret].
    apply spend_lookup_budget in E as [E _].
    eapply settles_weaken; [apply Hrecur; lia|lia].
  - destruct (strip_prefix _ term) as [target|].
    { destruct (_ && _); [|by apply IH].
      eapply settles_weaken; [apply IH; by rewrite note_unsupported_budget|].
      by rewrite note_unsupported_budget. }
    destruct (contains term _); [by apply IH|]. destruct (split_qualifier term) as [q m].
    apply settles_bind; [by apply match_mechanism_settles|].
    intros st' o Hst. destruct o; try by apply settles_ret. apply IH. lia.
Qed.
End Terms.

Lemma check_host_settles mode fuel d st :
  N.to_nat (budget st) < fuel → settles st (check_host resolver mode ip fuel d st).
Proof.
  revert d st. induction fuel as [|fuel IH]; intros d st Hb; [lia|]. cbn [check_host].
  destruct (fetch_spf_record resolver d) as [r|[record|]]; [by apply settles_ret| |by apply settles_ret].
  apply (check_terms_settles mode fuel); [done|lia].
Qed.

(** C36: the evaluation of a policy terminates for every resolver, whatever records
    it serves, include loops among them: eleven levels of records are enough, both
    entry points return a result, and no more than the ten lookups are spent. *)
Theorem spf_terminates domain :
  (∀ mode, ∃ st r, walk resolver mode domain ip = Some (st, r) ∧ (budget st <= MAX_DNS_LOOKUPS)%N) ∧
  (∃ r, evaluate resolver domain ip = Some r) ∧
  (∃ v, evaluate_verifiable resolver domain ip = Some v).
Proof.
  assert (∀ mode, settles initial_state (walk resolver mode domain ip)) as Hw.
  { intros mode. apply check_host_settles. vm_compute. lia. }
  split_and!; [exact Hw|..].
  - unfold evaluate. destruct (bool_decide _); [by eexists|].
    destruct (Hw Lenient) as (st & r & -> & _). by eexists.
  - unfold evaluate_verifiable. destruct (bool_decide _); [by eexists|].
    destruct (Hw Report) as (st & r & -> & _). by eexists.
Qed.

(** ** The two macro modes *)

(** When the reporting run notes nothing, the lenient run does the same. *)
Definition agrees {A} st (report lenient : option (EvalState * A)) : Prop :=
  ∀ st' x, report = Some (st', x) → blocked st' = None → blocked st = None ∧ lenient = Some (st', x).

Lemma agrees_bind {A B} st (o o' : option (EvalState * A)) (f f' : EvalState → A → option (EvalState * B)) :
  agrees st o o' → (∀ st' x, agrees st' (f st' x) (f' st' x)) →
  agrees st ('(st', x) ← o; f st' x) ('(st', x) ← o'; f' st' x).
Proof.
  intros Ho Hf st2 y. destruct o as [[st1 x]|] eqn:E; cbn; [|done]. intros H Hn.
  destruct (Hf st1 x st2 y H Hn) as [H1 H2]. destruct (Ho st1 x eq_refl H1) as [H3 ->]. done.
Qed.

Lemma agrees_refl {A} st (o : option (EvalState * A)) :
  (∀ st' x, o = Some (st', x) → blocked st' = None → blocked st = None) → agrees st o o.
Proof. intros H st' x E Hn. eauto. Qed.

Section Agree.
Variables recur recur' : bytes → EvalState → option (EvalState * SpfResult).
Hypothesis Hrecur : ∀ d st, agrees st (recur d st) (recur' d st).

Lemma agrees_spend {A} st (f f' : EvalState → option (EvalState * A)) (x : A) :
  (∀ st', agrees st' (f st') (f' st')) →
  agrees st (match spend_lookup st with Some st => f st | None => Some (st, x) end)
    (match spend_lookup st with Some st => f' st | None => Some (st, x) end).
Proof.
  intros Hf. destruct (spend_lookup st) as [st1|] eqn:E.
  - apply spend_lookup_budget in E as [_ E]. intros st2 y H Hn. destruct (Hf st1 st2 y H Hn). by rewrite <- E.
  - apply agrees_refl. congruence.
Qed.

Lemma note_unsupported_blocked t d k st : blocked (note_unsupported t d k st) ≠ None.
Proof. unfold note_unsupported. by destruct (blocked st) eqn:E; cbn; rewrite ?E. Qed.

Lemma match_mechanism_agrees m d st :
  agrees st (match_mechanism resolver Report ip recur m d st)
    (match_mechanism resolver Lenient ip recur' m d st).
Proof.
  unfold match_mechanism. cbn [decide]. rewrite decide_True, decide_False by done.
  destruct (unsupported_kind m) as [kind|].
  { intros st' x [= <- <-] Hn. by apply note_unsupported_blocked in Hn. }
  destruct (_ =b _); [apply agrees_refl; congruence|].
  destruct (match strip_prefix !"ip4:" _ with Some _ => _ | None => _ end); [apply agrees_refl; congruence|].
  destruct (_ || _ || _).
  { apply agrees_refl. intros st' x. unfold match_a. destruct (parse_domain_spec _ _ _) as [target cidr].
    destruct (spend_lookup st) as [st1|] eqn:E; [|congruence].
    apply spend_lookup_budget in E as [_ E]. destruct (ip_addresses _ _); congruence. }
  destruct (_ || _ || _).
  { apply agrees_refl. intros st' x. unfold match_mx. destruct (parse_domain_spec _ _ _) as [target cidr].
    destruct (spend_lookup st) as [st1|] eqn:E; [|congruence].
    apply spend_lookup_budget in E as [_ E]. destruct (mx_hosts _ _); [|congruence].
    destruct (_ <? _)%nat; congruence. }
  destruct (strip_prefix _ _) as [target|]; [|apply agrees_refl; congruence].
  unfold match_include. apply agrees_spend. intros st1. apply agrees_bind; [apply Hrecur|].
  intros st2 r. apply agrees_refl. congruence.
Qed.

Lemma check_terms_agrees d redirect terms st :
  agrees st (check_terms resolver Report ip recur d redirect terms st)
    (check_terms resolver Lenient ip recur' d redirect terms st).
Proof.
  revert redirect st. induction terms as [|term terms IH]; intros redirect st; cbn [check_terms].
  - destruct redirect as [target|]; [|apply agrees_refl; congruence].
    apply agrees_spend. intros st1. apply Hrecur.
  - destruct (strip_prefix _ term) as [target|].
    { rewrite bool_decide_true, bool_decide_false by done. cbn [andb].
      destruct (term_uses_macro target); [|apply IH].
      intros st' x H Hn. destruct (IH redirect (note_unsupported term d KMacro st) st' x H Hn) as [Hb _].
      by apply note_unsupported_blocked in Hb. }
    destruct (contains term _); [apply IH|]. destruct (split_qualifier term) as [q m].
    apply agrees_bind; [apply match_mechanism_agrees|].
    intros st' o. destruct o; try (apply agrees_refl; congruence). apply IH.
Qed.
End Agree.

Lemma check_host_agrees fuel d st :
  agrees st (check_host resolver Report ip fuel d st) (check_host resolver Lenient ip fuel d st).
Proof.
  revert d st. induction fuel as [|fuel IH]; intros d st; cbn [check_host]; [done|].
  destruct (fetch_spf_record resolver d) as [r|[record|]]; try (apply agrees_refl; congruence).
  by apply check_terms_agrees.
Qed.

(** A verdict other than pass that [evaluate_verifiable] calls determined is
    the result the receive path's [evaluate] gives for the same policy: the two
    only part where the policy has a term the evaluator cannot expand. *)
Theorem determined_verdict_agrees domain r :
  evaluate_verifiable resolver domain ip = Some (Determined r) → r ≠ Pass →
  evaluate resolver domain ip = Some r.
Proof.
  unfold evaluate_verifiable, evaluate. destruct (bool_decide _); [by intros [= <-]|].
  destruct (walk resolver Report domain ip) as [[st r']|] eqn:E; cbn [mbind option_bind]; [|done].
  intros H Hr. assert (blocked st = None ∧ r' = r) as [Hn ->].
  { destruct r', (blocked st); split; congruence. }
  destruct (check_host_agrees 11 domain initial_state st r E Hn) as [_ Hl].
  unfold walk. by rewrite Hl.
Qed.
End Facts.

#[local] Existing Instance concrete_ipnet.

Lemma determined_verdict_agrees_witness :
  let r := add_txt !"b.example" !"v=spf1 ip4:192.0.2.0/24 ?all"
             (add_txt !"a.example" !"v=spf1 include:b.example ~all" static_new) in
  evaluate r !"a.example" (V4 134744072) = Some SoftFail.
Proof.
  intros r. apply (determined_verdict_agrees r (V4 134744072) !"a.example" SoftFail);
    [vm_compute; reflexivity|discriminate].
Defined.
