(* ===== verification/TemplateFacts.v ===== *)
(** * TemplateFacts: parsing terminates, rendering is bounded, escaped and layered *)

From S2P Require Import Prelude RustStr RustStrFacts Model Template.

(** ** Parsing *)

Lemma parse_loop_total fuel rest root stack :
  length rest < fuel → is_Some (parse_loop fuel rest root stack).
Proof.
  revert rest root stack. induction fuel as [|fuel IH]; intros rest root stack Hl; [lia|].
  cbn [parse_loop]. destruct (find_sub !"{{" rest) as [pos|] eqn:Ep.
  - apply find_sub_Some in Ep as [Hp _]. change (length !"{{") with 2 in Hp.
    destruct (push_text _ _ _) as [root1 stack1].
    assert (length (drop (pos + 2) rest) < length rest) as Ha by (rewrite length_drop; lia).
    destruct (strip_prefix !"{" _) as [triple|] eqn:Et.
    + apply strip_prefix_Some in Et. rewrite Et in Ha. rewrite length_app in Ha.
      destruct (find_sub !"}}}" triple) as [stop|]; [|by eexists].
      destruct (push_node _ _ _). apply IH. rewrite length_drop. lia.
    + destruct (find_sub !"}}" _) as [stop|]; [|by eexists].
      destruct (apply_tag _ _ _) as [e|[root2 stack2]]; [by eexists|]. apply IH.
      rewrite length_drop. lia.
  - destruct (push_text _ _ _) as [root1 stack1]. by eexists.
Qed.

Lemma parse_total template : is_Some (parse template).
Proof. apply parse_loop_total. lia. Qed.

(** ** Nesting *)

(** The depth of section nesting. *)
Fixpoint depth (n : Node) : nat :=
  match n with
  | Text _ | Var _ _ => 0
  | Section_ _ _ children => S (list_max (map depth children))
  end.
Definition depths (l : list Node) : nat := list_max (map depth l).

Lemma depths_app l l' : depths (l ++ l') = depths l `max` depths l'.
Proof. unfold depths. by rewrite map_app, list_max_app. Qed.

(** The nodes of an open section leave room for the sections around them. *)
Fixpoint frames_ok (stack : list Frame) : Prop :=
  match stack with
  | [] => True
  | f :: rest => depths (fr_children f) + length stack <= MAX_DEPTH ∧ frames_ok rest
  end.
Definition parse_ok (root : list Node) (stack : list Frame) : Prop :=
  depths root <= MAX_DEPTH ∧ frames_ok stack.

Lemma push_node_ok n root stack root' stack' :
  parse_ok root stack → depth n + length stack <= MAX_DEPTH →
  push_node n root stack = (root', stack') → parse_ok root' stack'.
Proof.
  unfold push_node, parse_ok. intros [Hr Hs] Hn. destruct stack as [|f rest]; intros [= <- <-].
  - split; [|done]. rewrite depths_app. unfold depths at 2. simpl in *. lia.
  - split; [done|]. destruct Hs as [Hf Hs]. cbn [frames_ok fr_children length] in *. split; [|done].
    rewrite depths_app. unfold depths at 2. simpl in *. lia.
Qed.

Lemma frames_room stack : frames_ok stack → length stack <= MAX_DEPTH.
Proof. destruct stack; simpl; [lia|]. unfold MAX_DEPTH. lia. Qed.

Lemma push_text_ok t root stack root' stack' :
  parse_ok root stack → push_text t root stack = (root', stack') → parse_ok root' stack'.
Proof.
  intros H. unfold push_text. destruct t; [by intros [= <- <-]|]. apply push_node_ok; [done|].
  cbn. apply frames_room, H.
Qed.

Lemma apply_tag_ok tag root stack root' stack' :
  parse_ok root stack → apply_tag tag root stack = inr (root', stack') → parse_ok root' stack'.
Proof.
  intros H. pose proof (frames_room stack (proj2 H)) as Hl. unfold apply_tag.
  destruct tag as [|c body]; [by intros [= <- <-]|].
  destruct (Ascii.eqb c "!"); [by intros [= <- <-]|].
  destruct (_ || _).
  { destruct (Nat.leb_spec MAX_DEPTH (length stack)); intros [= <- <-]. destruct H as [Hr Hs].
    split; [done|]. cbn. split; [unfold depths; simpl; lia|done]. }
  destruct (Ascii.eqb c "/").
  { destruct stack as [|f rest]; [done|]. destruct (negb _); [done|]. intros E. injection E as E.
    destruct H as [Hr [Hf Hs]]. eapply push_node_ok, E; [by split|].
    cbn. unfold depths in Hf. simpl in Hf. lia. }
  destruct (Ascii.eqb c "&"); intros E; injection E as E; by eapply push_node_ok, E.
Qed.

Lemma parse_loop_ok fuel rest root stack nodes :
  parse_ok root stack → parse_loop fuel rest root stack = Some (inr nodes) → depths nodes <= MAX_DEPTH.
Proof.
  revert rest root stack. induction fuel as [|fuel IH]; intros rest root stack H; cbn [parse_loop]; [done|].
  destruct (find_sub !"{{" rest) as [pos|]; cycle 1.
  { destruct (push_text _ _ _) as [root1 stack1] eqn:E. apply push_text_ok in E; [|done].
    destruct stack1; [|done]. intros [= <-]. apply E. }
  destruct (push_text _ _ _) as [root1 stack1] eqn:E. apply push_text_ok in E; [|done].
  destruct (strip_prefix !"{" _) as [triple|].
  - destruct (find_sub !"}}}" triple) as [stop|]; [|done]. destruct (push_node _ _ _) as [root2 stack2] eqn:E2.
    apply push_node_ok in E2; [by apply IH|done|]. cbn. apply frames_room, E.
  - destruct (find_sub !"}}" _) as [stop|]; [|done].
    destruct (apply_tag _ _ _) as [e|[root2 stack2]] eqn:E2; [done|]. apply apply_tag_ok in E2; [by apply IH|done].
Qed.

(** every template parses to nodes or to an error in finitely many steps (the
    loop's bound is never hit), and what parses nests at most 32 sections, so the
    renderer's recursion is bounded too. *)
Theorem parse_terminates_bounded template :
  ∃ r, parse template = Some r ∧ (∀ nodes, r = inr nodes → depths nodes <= MAX_DEPTH).
Proof.
  destruct (parse_total template) as [r Hr]. exists r. split; [done|]. intros nodes ->.
  eapply parse_loop_ok, Hr. split; [|done]. unfold depths. simpl. lia.
Qed.

(** ** Rendering: induction over nodes *)

Section NodeInd.
Variable P : Node → Prop.
Hypothesis Htext : ∀ t, P (Text t).
Hypothesis Hvar : ∀ p e, P (Var p e).
Hypothesis Hsection : ∀ p i l, Forall P l → P (Section_ p i l).

Fixpoint node_ind (n : Node) : P n :=
  match n with
  | Text t => Htext t
  | Var p e => Hvar p e
  | Section_ p i l =>
      Hsection p i l ((fix go l := match l return Forall P l with
                                   | [] => Forall_nil_2 P
                                   | n :: t => Forall_cons_2 P n t (node_ind n) (go t)
                                   end) l)
  end.
End NodeInd.

(** A relation between the output before and after that every step keeps. *)
Definition keeps {A} (Q : bytes → bytes → Prop) (f : A → bytes → result bytes) (x : A) : Prop :=
  ∀ out out', f x out = inr out' → Q out out'.

Lemma fold_result_keeps {A} (Q : bytes → bytes → Prop) (f : A → bytes → result bytes) l :
  (∀ o, Q o o) → (∀ a b c, Q a b → Q b c → Q a c) →
  Forall (keeps Q f) l → keeps Q (fold_result f) l.
Proof.
  intros Hrefl Htrans. induction 1 as [|x l Hx _ IH]; intros out out'; cbn.
  - by intros [= <-].
  - destruct (f x out) as [e|out1] eqn:E; [done|]. intros H. eapply Htrans; [by apply Hx|by apply IH].
Qed.

(** Steps that only append text satisfying [T] to the output, which stays within
    the cap. *)
Section Appends.
Variable T : bytes → Prop.
Hypothesis Tnil : T [].
Hypothesis Tapp : ∀ a b, T a → T b → T (a ++ b).

Definition appends (out out' : bytes) : Prop :=
  ∃ more, out' = out ++ more ∧ T more ∧ (more ≠ [] → (N.of_nat (length out') <= MAX_OUTPUT)%N).

Lemma appends_refl o : appends o o.
Proof. exists []. by rewrite app_nil_r. Qed.
Lemma appends_trans a b c : appends a b → appends b c → appends a c.
Proof.
  intros (m1 & -> & T1 & H1) (m2 & -> & T2 & H2). exists (m1 ++ m2). rewrite app_assoc.
  split_and!; [done|by apply Tapp|]. intros Hne. destruct m2 as [|x m2]; [|by apply H2].
  rewrite !app_nil_r in *. by apply H1.
Qed.
Lemma push_capped_appends text out out' : T text → push_capped out text = inr out' → appends out out'.
Proof.
  intros Ht. unfold push_capped. destruct (N.ltb_spec MAX_OUTPUT (N.of_nat (length out + length text))); [done|].
  intros [= <-]. exists text. split_and!; [done|done|]. intros _. rewrite length_app. lia.
Qed.

(** The nodes whose own text satisfies [T], whatever the model. *)
Fixpoint emits (n : Node) : Prop :=
  match n with
  | Text t => T t
  | Var _ escaped => ∀ v, T (if escaped then html_escape (scalar v) else scalar v)
  | Section_ _ _ children => (fix go l := match l with [] => True | n :: t => emits n ∧ go t end) children
  end.

Lemma emits_section p i children : emits (Section_ p i children) ↔ Forall emits children.
Proof.
  simpl. induction children as [|n t IH]; [by split|]. rewrite Forall_cons. naive_solver.
Qed.

Lemma render_node_appends n : emits n → ∀ stack, keeps appends (λ n, render_node n stack) n.
Proof.
  pattern n. apply node_ind; clear n.
  - intros t Ht stack out out'. by apply push_capped_appends.
  - intros p e Hv stack out out'. cbn. destruct (lookup_path stack p) as [v|].
    + apply push_capped_appends, Hv.
    + intros [= <-]. apply appends_refl.
  - intros p i children IH Hc%emits_section stack out out'. cbn [render_node].
    assert (∀ stack, keeps appends (fold_result (λ n, render_node n stack)) children) as Hl.
    { intros st. apply fold_result_keeps; [apply appends_refl|apply appends_trans|].
      rewrite Forall_forall in IH, Hc |- *. eauto. }
    destruct i.
    + destruct (match lookup_path stack p with Some v => is_truthy v | None => false end); [|apply Hl].
      intros [= <-]. apply appends_refl.
    + destruct (lookup_path stack p) as [v|]; [|intros [= <-]; apply appends_refl].
      destruct v as [| | | |items|]; try (destruct (is_truthy _); [apply Hl|intros [= <-]; apply appends_refl]).
      apply fold_result_keeps; [apply appends_refl|apply appends_trans|].
      apply Forall_forall. intros item _. apply Hl.
Qed.

Lemma render_nodes_appends nodes stack out out' :
  Forall emits nodes → render_nodes nodes stack out = inr out' → appends out out'.
Proof.
  intros Hn. apply fold_result_keeps; [apply appends_refl|apply appends_trans|].
  eapply Forall_impl; [exact Hn|]. intros n. intros He. by apply render_node_appends.
Qed.
End Appends.

Lemma emits_any n : emits (λ _, True) n.
Proof.
  pattern n. apply node_ind; clear n; [done..|]. intros p i l H. by apply emits_section.
Qed.

(** Rendering is total and bounded: every template gives an output or an error,
    and an output is never longer than the cap of 512 KiB, however the model makes
    sections repeat. *)
Theorem render_bounded template model :
  ∃ r, render template model = Some r ∧
    (∀ out, r = inr out → (N.of_nat (length out) <= MAX_OUTPUT)%N).
Proof.
  unfold render. destruct (parse_total template) as [[e|nodes] ->]; cbn; eexists; (split; [done|]); [done|].
  intros out Ho. apply (render_nodes_appends (λ _, True)) in Ho as (more & -> & _ & H); [|done..|].
  - destruct more as [|x more]; [vm_compute; discriminate|by apply H].
  - apply Forall_forall. intros n _. apply emits_any.
Qed.

(** ** Escaping *)

Definition markup (c : ascii) : bool :=
  Ascii.eqb c "<" || Ascii.eqb c ">" || Ascii.eqb c DQ || Ascii.eqb c "'".
Definition no_markup (s : bytes) : Prop := Forall (λ c, markup c = false) s.

Lemma html_escape_no_markup s : no_markup (html_escape s).
Proof.
  induction s as [|c s IH]; [constructor|]. apply Forall_app. split; [|exact IH]. clear.
  unfold escape_char.
  repeat (case_match; [repeat constructor|]). constructor; [|constructor].
  unfold markup. repeat match goal with H : Ascii.eqb _ _ = false |- _ => rewrite H; clear H end. done.
Qed.

(** Every variable of the nodes is escaped and no text of theirs has markup. *)
Fixpoint escaped_node (n : Node) : bool :=
  match n with
  | Text t => forallb (λ c, negb (markup c)) t
  | Var _ escaped => escaped
  | Section_ _ _ children => forallb escaped_node children
  end.

Lemma escaped_emits n : escaped_node n = true → emits no_markup n.
Proof.
  pattern n. apply node_ind; clear n.
  - intros t H. cbn. apply Forall_forall. intros c Hc%list_elem_of_In. cbn in H.
    rewrite forallb_forall in H. by apply negb_true_iff, H.
  - intros p e H v. cbn in H. subst e. apply html_escape_no_markup.
  - intros p i l IH H. apply emits_section. cbn in H. rewrite forallb_forall in H.
    rewrite Forall_forall in IH |- *. intros n Hn. apply IH; [done|]. by apply H, list_elem_of_In.
Qed.

(** C37: escaping cannot be bypassed: a template whose text has no markup and whose
    variables all use the escaping form renders, for every model, to output without
    any of the characters that open or close markup or attribute values. *)
Theorem escaped_output_has_no_markup template nodes model out :
  parse template = Some (inr nodes) → forallb escaped_node nodes = true →
  render template model = Some (inr out) → no_markup out.
Proof.
  unfold render. intros -> He. cbn. intros [= Ho].
  apply (render_nodes_appends no_markup) in Ho as (more & -> & H & _); [done| | |].
  - constructor.
  - intros a b Ha Hb. by apply Forall_app.
  - rewrite forallb_forall in He. apply Forall_forall. intros n Hn%list_elem_of_In. by apply escaped_emits, He.
Qed.

Lemma escaped_output_has_no_markup_witness :
  no_markup !"Hi &lt;b&gt;, &lt;b&gt;".
Proof.
  apply (escaped_output_has_no_markup !"Hi {{name}}, {{#name}}{{.}}{{/name}}"
    [Text !"Hi "; Var !"name" true; Text !", "; Section_ !"name" false [Var !"." true]]
    (VObject [(!"name", VString !"<b>")])); vm_compute; reflexivity.
Defined.

(** ** Layouts *)

Lemma render_raw_content content members out out' :
  render_node (Var !"content" false) [VObject ((!"content", VString content) :: members)] out = inr out' →
  out' = out ++ content.
Proof.
  cbn [render_node]. change (lookup_path _ !"content") with (Some (VString content)). cbn.
  unfold push_capped. destruct (_ <? _)%N; [done|]. by intros [= <-].
Qed.

(** A layout that has the raw content placeholder includes the rendered body
    verbatim, whatever else the model holds (its own [content] member included). *)
Theorem layout_includes_content wrapper model content out :
  wrapper_has_raw_content wrapper = Some true →
  render_in_layout wrapper model content = Some (inr out) → contains out content = true.
Proof.
  unfold wrapper_has_raw_content, render_in_layout, render.
  destruct (parse_total wrapper) as [[e|nodes] ->]; cbn [mbind option_bind]; [done|].
  intros [= Hex] [= Ho]. apply existsb_exists in Hex as (n & Hin & Hn).
  destruct n as [|p e|]; [done| |done]. bytes_bool. subst p e.
  apply list_elem_of_In, list_elem_of_split in Hin as (l1 & l2 & ->).
  unfold obj_insert in Ho. set (stack := [VObject _]) in Ho.
  assert (∀ l o o', fold_result (λ n, render_node n stack) l o = inr o' → ∃ m, o' = o ++ m) as Hpre.
  { intros l o o' H. apply (render_nodes_appends (λ _, True)) in H as (m & -> & _); [by exists m|done..|].
    apply Forall_forall. intros n _. apply emits_any. }
  assert (∀ l o o', fold_result (λ n, render_node n stack) (l ++ Var !"content" false :: l2) o = inr o' →
    contains o' content = true) as Hmain; [|by eapply Hmain].
  clear Ho. induction l as [|n l IH]; intros o o'; cbn [app].
  - cbn [fold_result]. destruct (render_node _ stack o) as [e|o1] eqn:E; [done|].
    apply render_raw_content in E as ->. intros H. apply Hpre in H as [m ->].
    apply contains_true. exists o, m. by rewrite app_assoc.
  - cbn [fold_result]. destruct (render_node n stack o) as [e|o1]; [done|]. apply IH.
Qed.

Lemma layout_includes_content_witness :
  contains !"<body><p>hi</p></body>" !"<p>hi</p>" = true.
Proof.
  apply (layout_includes_content !"<body>{{{content}}}</body>" (VObject [(!"content", VString !"no")]) !"<p>hi</p>");
    vm_compute; reflexivity.
Defined.
