(* ===== verification/SsrfFacts.v ===== *)
(** * SsrfFacts: which requests the outbound guard lets through

    The predicates of the guard are proved equal to membership in tables of
    reserved networks, and a request that passes is shown to reach only hosts
    outside of them. *)

From Stdlib Require Import Btauto.
From S2P Require Import Prelude RustStr RustStrFacts Net Ssrf.

(** ** Octets and segments are the digits of an address *)

Lemma octet_div a i : octet a i = ((a / 2 ^ (8 * (3 - i))) mod 256)%N.
Proof. unfold octet. by rewrite N.shiftr_div_pow2, (N.land_ones _ 8). Qed.

Lemma segment_div a i : segment a i = ((a / 2 ^ (16 * (7 - i))) mod 65536)%N.
Proof. unfold segment. by rewrite N.shiftr_div_pow2, (N.land_ones _ 16). Qed.

Lemma land_mask s v w k :
  (s < 2 ^ (w + k))%N →
  (N.land s (N.shiftl (N.ones w) k) =? N.shiftl v k)%N = (N.shiftr s k =? v)%N.
Proof.
  intros Hs. assert (N.land s (N.shiftl (N.ones w) k) = N.shiftl (N.shiftr s k) k) as ->.
  - apply N.bits_inj. intros n. rewrite N.land_spec. destruct (N.lt_ge_cases n k) as [Hn|Hn].
    + rewrite !N.shiftl_spec_low by done. apply andb_false_r.
    + rewrite !N.shiftl_spec_high', N.shiftr_spec' by done. rewrite N.sub_add by done.
      destruct (N.lt_ge_cases (n - k) w) as [Hw|Hw].
      * by rewrite N.ones_spec_low, andb_true_r.
      * rewrite N.ones_spec_high, andb_false_r by done. symmetry.
        destruct (N.eq_dec s 0%N) as [->|H0]; [apply N.bits_0|].
        apply N.bits_above_log2. apply N.log2_lt_pow2; [lia|].
        eapply N.lt_le_trans; [done|]. apply N.pow_le_mono_r; lia.
  - rewrite !N.shiftl_mul_pow2. apply eq_true_iff_eq. rewrite !N.eqb_eq.
    pose proof (N.pow_nonzero 2 k). split; [|by intros ->]. intros H'. apply N.mul_cancel_r in H'; auto.
Qed.

(** ** The reserved networks *)

Definition v4_net (a b c d len : N) : IpNet :=
  {| net_addr := V4 (a * 16777216 + b * 65536 + c * 256 + d); net_prefix_len := len |}.

(** The networks the guard refuses; the program's list ends with RFC 1918, CGNAT,
    link-local (cloud metadata), benchmarking, multicast and reserved space. *)
Definition reserved_v4 : list IpNet :=
  [ v4_net 0 0 0 0 8; v4_net 10 0 0 0 8; v4_net 100 64 0 0 10; v4_net 127 0 0 0 8;
    v4_net 169 254 0 0 16; v4_net 172 16 0 0 12; v4_net 192 0 0 0 16; v4_net 192 168 0 0 16;
    v4_net 198 18 0 0 15; v4_net 198 51 100 0 24; v4_net 203 0 113 0 24; v4_net 224 0 0 0 4;
    v4_net 240 0 0 0 4 ]%N.

Definition v6_net (g0 g1 g5 g7 len : N) : IpNet :=
  {| net_addr := V6 (of_groups [g0; g1; 0; 0; 0; g5; 0; g7]%N); net_prefix_len := len |}.

(** [::], [::1], IPv4-mapped, unique-local, link-local, multicast, documentation. *)
Definition reserved_v6 : list IpNet :=
  [ v6_net 0 0 0 0 128; v6_net 0 0 0 1 128; v6_net 0 0 65535 0 96; v6_net 64512 0 0 0 7;
    v6_net 65152 0 0 0 10; v6_net 65280 0 0 0 8; v6_net 8193 3512 0 0 32 ]%N.

(** The IPv4-compatible addresses [::a.b.c.d] and what the guard leaves out of them. *)
Definition v4_compatible : IpNet := v6_net 0 0 0 0 96.
Definition v4_compatible_low : IpNet := v6_net 0 0 0 0 112.

Definition in_any (nets : list IpNet) (ip : IpAddr) : bool := existsb (λ n, same_network n ip) nets.

#[local] Ltac Zify.zify_post_hook ::= Z.to_euclidean_division_equations.

Ltac to_arith :=
  repeat (rewrite orb_true_iff || rewrite andb_true_iff || rewrite negb_true_iff);
  rewrite ?N.eqb_eq, ?N.eqb_neq, ?N.leb_le.

Lemma v4_digits a : (a < 2 ^ 32)%N →
  ∃ o0 o1 o2 o3, (o0 < 256 ∧ o1 < 256 ∧ o2 < 256 ∧ o3 < 256)%N
    ∧ a = (o0 * 16777216 + o1 * 65536 + o2 * 256 + o3)%N
    ∧ octet a 0 = o0 ∧ octet a 1 = o1 ∧ octet a 2 = o2 ∧ octet a 3 = o3.
Proof.
  intros Ha. exists (octet a 0), (octet a 1), (octet a 2), (octet a 3). rewrite !octet_div.
  change (2 ^ (8 * (3 - 0)))%N with 16777216%N. change (2 ^ (8 * (3 - 1)))%N with 65536%N.
  change (2 ^ (8 * (3 - 2)))%N with 256%N. change (2 ^ (8 * (3 - 3)))%N with 1%N.
  change (2 ^ 32)%N with 4294967296%N in Ha. split_and!; try done; try (apply N.mod_lt; lia).
  pose proof (N.div_mod a 256). pose proof (N.div_mod (a / 256) 256).
  pose proof (N.div_mod (a / 65536) 256). rewrite !N.Div0.div_div in *. change (256 * 256)%N with 65536%N in *.
  change (65536 * 256)%N with 16777216%N in *. rewrite N.div_1_r.
  rewrite (N.mod_small (a / 16777216)); [lia|]. apply N.Div0.div_lt_upper_bound. lia.
Qed.

Lemma same_v4 a b c d len x :
  same_network (v4_net a b c d len) (V4 x)
  = (N.shiftr (a * 16777216 + b * 65536 + c * 256 + d) (32 - len) =? x / 2 ^ (32 - len))%N.
Proof. unfold same_network. cbn [net_addr net_prefix_len v4_net]. by rewrite (N.shiftr_div_pow2 x). Qed.

(** Each network as a condition on the octets. *)
Section V4Net.
Variables o0 o1 o2 o3 : N.
Hypothesis Hb : (o0 < 256 ∧ o1 < 256 ∧ o2 < 256 ∧ o3 < 256)%N.
Let addr : N := (o0 * 16777216 + o1 * 65536 + o2 * 256 + o3)%N.

Ltac net :=
  rewrite same_v4;
  repeat match goal with |- context [N.shiftr ?n ?k] =>
    let v := eval vm_compute in (N.shiftr n k) in change (N.shiftr n k) with v end;
  repeat match goal with |- context [(2 ^ ?k)%N] =>
    let v := eval vm_compute in (2 ^ k)%N in change (2 ^ k)%N with v end;
  unfold addr; apply eq_true_iff_eq; to_arith; lia.

Lemma net8 a : (a < 256)%N → same_network (v4_net a 0 0 0 8) (V4 addr) = (o0 =? a)%N.
Proof.
  intros Ha. rewrite same_v4. change (32 - 8)%N with 24%N. rewrite N.shiftr_div_pow2.
  change (2 ^ 24)%N with 16777216%N. unfold addr. apply eq_true_iff_eq. to_arith. lia.
Qed.
Lemma net16 a b : (a < 256)%N → (b < 256)%N →
  same_network (v4_net a b 0 0 16) (V4 addr) = (o0 =? a)%N && (o1 =? b)%N.
Proof.
  intros Ha Hb'. rewrite same_v4. change (32 - 16)%N with 16%N. rewrite N.shiftr_div_pow2.
  change (2 ^ 16)%N with 65536%N. unfold addr. apply eq_true_iff_eq. to_arith. lia.
Qed.
Lemma net24 a b c : (a < 256)%N → (b < 256)%N → (c < 256)%N →
  same_network (v4_net a b c 0 24) (V4 addr) = (o0 =? a)%N && (o1 =? b)%N && (o2 =? c)%N.
Proof.
  intros Ha Hb' Hc. rewrite same_v4. change (32 - 24)%N with 8%N. rewrite N.shiftr_div_pow2.
  change (2 ^ 8)%N with 256%N. unfold addr. apply eq_true_iff_eq. to_arith. lia.
Qed.
Lemma net_cgnat : same_network (v4_net 100 64 0 0 10) (V4 addr)
  = (o0 =? 100)%N && ((64 <=? o1) && (o1 <=? 127))%N.
Proof. net. Qed.
Lemma net_private12 : same_network (v4_net 172 16 0 0 12) (V4 addr)
  = (o0 =? 172)%N && ((16 <=? o1) && (o1 <=? 31))%N.
Proof. net. Qed.
Lemma net_bench : same_network (v4_net 198 18 0 0 15) (V4 addr)
  = (o0 =? 198)%N && ((o1 =? 18)%N || (o1 =? 19)%N).
Proof. net. Qed.
Lemma net_multicast : same_network (v4_net 224 0 0 0 4) (V4 addr) = ((224 <=? o0) && (o0 <=? 239))%N.
Proof. net. Qed.
Lemma net_future : same_network (v4_net 240 0 0 0 4) (V4 addr) = (240 <=? o0)%N.
Proof. net. Qed.
Lemma broadcast_future : (addr =? 4294967295)%N || (240 <=? o0)%N = (240 <=? o0)%N.
Proof. unfold addr. apply eq_true_iff_eq. to_arith. lia. Qed.
Lemma unspecified_zero : (addr =? 0)%N || (o0 =? 0)%N = (o0 =? 0)%N.
Proof. unfold addr. apply eq_true_iff_eq. to_arith. lia. Qed.
End V4Net.

Lemma ipv4_blocked_reserved a : (a < 2 ^ 32)%N → ipv4_blocked a = in_any reserved_v4 (V4 a).
Proof.
  intros Ha. destruct (v4_digits a Ha) as (o0 & o1 & o2 & o3 & Hb & -> & E0 & E1 & E2 & E3). clear Ha.
  unfold ipv4_blocked, v4_is_loopback, v4_is_private, v4_is_link_local, v4_is_broadcast,
    v4_is_documentation, v4_is_unspecified, v4_is_multicast, in_any, reserved_v4, existsb.
  rewrite !net8, !net16, !net24, net_cgnat, net_private12, net_bench, net_multicast, net_future by (done || lia).
  rewrite E0, E1, E2.
  pose proof (broadcast_future o0 o1 o2 o3 Hb) as Hbc. pose proof (unspecified_zero o0 o1 o2 o3 Hb) as Hu.
  set (bc := (_ =? 4294967295)%N) in *. set (un := (_ + o3 =? 0)%N) in *. clearbody bc un.
  assert (bc = bc && (240 <=? o0)%N) as -> by (destruct bc, (240 <=? o0)%N; done).
  assert (un = un && (o0 =? 0)%N) as -> by (destruct un, (o0 =? 0)%N; done).
  btauto.
Qed.

(** ** IPv6 *)

Section V6Net.
Variable x : N.
Hypothesis Hx : (x < 2 ^ 128)%N.

Lemma high_segment : N.shiftr x 112 = segment x 0.
Proof.
  rewrite segment_div, N.shiftr_div_pow2. change (16 * (7 - 0))%N with 112%N. symmetry. apply N.mod_small.
  apply N.Div0.div_lt_upper_bound. exact Hx.
Qed.

Lemma next_segment k k' i : (k = 16 * (7 - i))%N → (k' = 16 + k)%N →
  N.shiftr x k = (N.shiftr x k' * 65536 + segment x i)%N.
Proof.
  intros -> ->. rewrite segment_div, !N.shiftr_div_pow2, N.pow_add_r, (N.mul_comm (2 ^ 16)), <- N.Div0.div_div.
  change (2 ^ 16)%N with 65536%N. pose proof (N.div_mod (x / 2 ^ (16 * (7 - i))) 65536). lia.
Qed.

Lemma segment_bound i : (segment x i < 65536)%N.
Proof. rewrite segment_div. apply N.mod_lt. done. Qed.

Lemma same_v6 n len : same_network {| net_addr := V6 n; net_prefix_len := len |} (V6 x)
  = (N.shiftr n (128 - len) =? N.shiftr x (128 - len))%N.
Proof. done. Qed.

(** A masked comparison of the first segment is a network of its prefix. *)
Lemma high_mask w k v : (w + k = 16)%N →
  (N.land (segment x 0) (N.shiftl (N.ones w) k) =? N.shiftl v k)%N = (v =? N.shiftr x (112 + k))%N.
Proof.
  intros Hw. rewrite land_mask by (rewrite Hw; apply segment_bound).
  rewrite <- high_segment, N.shiftr_shiftr. apply N.eqb_sym.
Qed.

Lemma documentation_net : is_documentation_v6 x = same_network (v6_net 8193 3512 0 0 32) (V6 x).
Proof.
  unfold is_documentation_v6, v6_net. rewrite same_v6, (next_segment (128 - 32) 112 1) by done.
  change (N.shiftr (of_groups _) _) with (8193 * 65536 + 3512)%N.
  rewrite high_segment. pose proof (segment_bound 0). pose proof (segment_bound 1).
  apply eq_true_iff_eq. to_arith. lia.
Qed.

Lemma compatible_net : is_ipv4_compatible x
  = same_network v4_compatible (V6 x) && negb (same_network v4_compatible_low (V6 x)).
Proof.
  unfold is_ipv4_compatible, v4_compatible, v4_compatible_low, v6_net. rewrite !same_v6.
  change (N.shiftr (of_groups _) _) with 0%N. change (N.shiftr (of_groups _) _) with 0%N.
  change (128 - 96)%N with 32%N.
  rewrite (next_segment (128 - 112) 32 6), (next_segment 32 48 5), (next_segment 48 64 4),
    (next_segment 64 80 3), (next_segment 80 96 2), (next_segment 96 112 1), high_segment by done.
  apply eq_true_iff_eq. to_arith. lia.
Qed.
End V6Net.

Lemma ipv6_blocked_reserved x : (x < 2 ^ 128)%N →
  ipv6_blocked x = in_any reserved_v6 (V6 x)
    || (same_network v4_compatible (V6 x) && negb (same_network v4_compatible_low (V6 x))).
Proof.
  intros Hx. unfold ipv6_blocked. rewrite compatible_net, documentation_net by done.
  unfold v6_is_multicast, is_unique_local, is_unicast_link_local.
  pose proof (high_mask x Hx 8 8 255 eq_refl) as Em. pose proof (high_mask x Hx 7 9 126 eq_refl) as Eu.
  pose proof (high_mask x Hx 10 6 1018 eq_refl) as El.
  change (N.shiftl (N.ones 8) 8) with 65280%N in Em. change (N.shiftl 255 8) with 65280%N in Em.
  change (N.shiftl (N.ones 7) 9) with 65024%N in Eu. change (N.shiftl 126 9) with 64512%N in Eu.
  change (N.shiftl (N.ones 10) 6) with 65472%N in El. change (N.shiftl 1018 6) with 65152%N in El.
  rewrite Em, Eu, El.
  assert ((match to_ipv4_mapped x with Some _ => true | None => false end)
          = same_network (v6_net 0 0 65535 0 96) (V6 x)) as ->.
  { unfold to_ipv4_mapped, v6_net. rewrite same_v6. change (N.shiftr (of_groups _) _) with 65535%N.
    change (128 - 96)%N with 32%N. rewrite (N.eqb_sym 65535). by destruct (N.shiftr x 32 =? 65535)%N. }
  assert (∀ g0 g1 g5 g7 len v k, N.shiftr (of_groups [g0; g1; 0; 0; 0; g5; 0; g7]%N) (128 - len) = v →
    (128 - len)%N = k → same_network (v6_net g0 g1 g5 g7 len) (V6 x) = (v =? N.shiftr x k)%N) as Hn.
  { intros * <- <-. apply same_v6. }
  unfold v6_is_loopback, v6_is_unspecified, in_any, reserved_v6, existsb.
  rewrite (Hn 0 0 0 0 128 0 0)%N, (Hn 0 0 0 1 128 1 0)%N, (Hn 64512 0 0 0 7 126 121)%N,
    (Hn 65152 0 0 0 10 1018 118)%N, (Hn 65280 0 0 0 8 255 120)%N by (vm_compute; reflexivity).
  rewrite N.shiftr_0_r, (N.eqb_sym x 1), (N.eqb_sym x 0).
  apply eq_true_iff_eq. rewrite !orb_true_iff. clear. intuition discriminate.
Qed.

(** ** The verdict of the guard *)

(** What the guard refuses, stated by networks. *)
Definition internal (ip : IpAddr) : bool :=
  match ip with
  | V4 _ => in_any reserved_v4 ip
  | V6 _ => in_any reserved_v6 ip
            || (same_network v4_compatible ip && negb (same_network v4_compatible_low ip))
  end.
Definition in_range (ip : IpAddr) : Prop :=
  match ip with V4 a => (a < 2 ^ 32)%N | V6 a => (a < 2 ^ 128)%N end.

(** the address predicate of the guard is exactly membership in the reserved
    networks: [0/8], [10/8], [100.64/10], [127/8], [169.254/16], [172.16/12],
    [192.0/16], [192.168/16], [198.18/15], the documentation networks, multicast and
    [240/4]; [::], [::1], every IPv4-mapped address, [fc00::/7], [fe80::/10], [ff00::/8],
    [2001:db8::/32], and [::/96] without [::/112]. *)
Theorem ip_blocked_spec ip : in_range ip → ip_blocked ip = internal ip.
Proof. destruct ip; [apply ipv4_blocked_reserved|apply ipv6_blocked_reserved]. Qed.

Lemma ip_blocked_spec_witness :
  ip_blocked (V4 2852039166) = true ∧ internal (V4 2852039166) = true ∧
  ip_blocked (V6 281470698652420) = internal (V6 281470698652420).
Proof.
  split_and!; [vm_compute; reflexivity|vm_compute; reflexivity|].
  apply (ip_blocked_spec (V6 281470698652420)). vm_compute. reflexivity.
Defined.

Section Verdict.
Context `{UCA : !UnicodeCase, OUT : !Outbound}.

Lemma check_addrs_ok host addrs :
  check_addrs host addrs = inr tt ↔ Forall (λ ip, ip_blocked ip = false) addrs.
Proof.
  induction addrs as [|ip addrs IH]; cbn; [by split|]. rewrite Forall_cons, <- IH.
  destruct (ip_blocked ip); naive_solver.
Qed.

Lemma check_addrs_blocked host addrs h ip :
  check_addrs host addrs = inl (Blocked h ip) → ip_blocked ip = true ∧ ip ∈ addrs.
Proof.
  induction addrs as [|a addrs IH]; cbn; [done|]. destruct (ip_blocked a) eqn:E.
  - intros [= <- <-]. split; [done|by left].
  - intros [? ?]%IH. split; [done|by right].
Qed.

(** What may be requested: any URL when the guard is off, otherwise one whose host is
    allow-listed, is an external address literal, or resolves to external addresses
    only, and to at least one. *)
Definition request_allowed (g : SsrfGuard) (url : bytes) : Prop :=
  g_enabled g = false ∨
  ∃ raw port, url_parse url = Some (Some raw, port) ∧
    (is_allowlisted g (strip_brackets raw) = true
     ∨ (∃ ip, parse_ip (strip_brackets raw) = Some ip ∧ ip_blocked ip = false)
     ∨ (parse_ip (strip_brackets raw) = None ∧
        ∃ addrs, lookup_host (strip_brackets raw) (from_option id 80%N port) = Some addrs
          ∧ addrs ≠ [] ∧ Forall (λ ip, ip_blocked ip = false) addrs)).

#[local] Ltac refused := intros [|(?r & ?p & ?E & ?H)]; [done|]; simplify_eq;
  match goal with H : _ ∨ _ |- _ => destruct H as [|[(? & ? & ?)|(? & ? & ? & ? & ?)]]; congruence end.

(** the guard passes exactly the allowed requests: one internal address among
    those a name resolves to is enough to refuse, a name without addresses is refused,
    and a refusal for an address names an internal one. *)
Theorem check_url_spec g url :
  (check_url g url = inr tt ↔ request_allowed g url) ∧
  (∀ host ip, check_url g url = inl (Blocked host ip) → ip_blocked ip = true).
Proof.
  unfold check_url, request_allowed. destruct (g_enabled g); cbn [negb]; cycle 1.
  { split; [split; [by left|done]|done]. }
  destruct (url_parse url) as [[[raw|] port]|] eqn:Eu; [|split; [naive_solver|done]..].
  destruct (is_allowlisted g _) eqn:Ea.
  { split; [|done]. split; [|done]. intros _. right. exists raw, port. by split; [|left]. }
  destruct (parse_ip _) as [ip|] eqn:Ei.
  { destruct (ip_blocked ip) eqn:Eb; (split; [split|]).
    - done.
    - refused.
    - by intros h ip' [= _ <-].
    - intros _. right. exists raw, port. split; [done|]. right; left. by exists ip.
    - done.
    - done. }
  destruct (lookup_host _ _) as [[|a addrs]|] eqn:El; [split; [split; [done|refused]|done]| |
    split; [split; [done|refused]|done]].
  split; [rewrite check_addrs_ok; split|].
  - intros H. right. exists raw, port. split; [done|]. right; right. split; [done|]. by exists (a :: addrs).
  - intros [|(r & p & E & H)]; [done|]. injection E as <- <-. rewrite Ea in H.
    destruct H as [|[(ip' & E & Hip)|(? & addrs' & E & Hne & HF)]]; congruence.
  - intros host ip H. by apply check_addrs_blocked in H as [? _].
Qed.
End Verdict.
