(* ===== verification/ClientFacts.v ===== *)
(** * ClientFacts: the outbound client keeps to the protocol

    An abstract SMTP client as a step relation on what it may put on the wire
    next; every run of [send_message], whatever the network answers, is a path of
    it.  The client's Io computations are proved against it with a small program
    logic ([triple]). *)

From S2P Require Import Prelude RustStr RustStrFacts Net Message SmtpClient Concrete.

(** ** The abstract client *)

Inductive Cmd := Ehlo | Helo | Starttls | Auth | Mail | Rcpt | Data | Body | Dot | Quit.

(** Where a conversation is: before or after the first connect, behind a TLS handshake, or after the last
    thing it said on a stream. *)
Inductive Phase :=
| Idle
| Connecting
| Secured (mode : TlsMode)
| Said (s : Stream) (c : Cmd).

Section Protocol.
Context `{CRT : !Crates}.
Variables (p : SendParams) (raw : bytes).

(** Nothing but the greeting and STARTTLS in the clear unless TLS is optional. *)
Definition secure_enough (s : Stream) : Prop := sp_security p = Opportunistic ∨ is_tls s = true.

(** The text of a command. *)
Definition says (c : Cmd) : bytes :=
  match c with
  | Ehlo => !"EHLO " ++ sp_helo_hostname p ++ CRLF
  | Helo => !"HELO " ++ sp_helo_hostname p ++ CRLF
  | Starttls => !"STARTTLS" ++ CRLF
  | Auth => match sp_auth p with Some a => !"AUTH PLAIN " ++ auth_token a ++ CRLF | None => [] end
  | Mail => !"MAIL FROM:<" ++ sp_mail_from p ++ !">" ++ CRLF
  | Rcpt => !"RCPT TO:<" ++ sp_rcpt_to p ++ !">" ++ CRLF
  | Data => !"DATA" ++ CRLF
  | Body => data_body raw
  | Dot => !"." ++ CRLF
  | Quit => !"QUIT" ++ CRLF
  end.

(** Which command may follow which on one stream. *)
Definition greeted (c : Cmd) : Prop := c = Ehlo ∨ c = Helo ∨ c = Starttls.
Definition follows (s : Stream) (c c' : Cmd) : Prop :=
  match c' with
  | Ehlo => False
  | Helo => c = Ehlo
  | Starttls => c = Ehlo ∧ s = Tcp ∧ (sp_tls_mode p ≠ Disabled ∨ sp_security p = RequireStartTls)
  | Auth => greeted c ∧ is_Some (sp_auth p) ∧ secure_enough s
  | Mail => secure_enough s ∧ (c = Auth ∨ (greeted c ∧ sp_auth p = None))
  | Rcpt => c = Mail
  | Data => c = Rcpt
  | Body => c = Data
  | Dot => c = Body
  | Quit => c = Dot
  end.

Inductive step : Phase → Wire → Phase → Prop :=
| step_connect ph a : ph = Idle ∨ ph = Connecting → step ph (Connect a) Connecting
| step_implicit : sp_security p = ImplicitTls →
    step Connecting (Handshake (effective_tls_mode p)) (Secured (effective_tls_mode p))
| step_greet : sp_security p ≠ ImplicitTls → step Connecting (Write Tcp (says Ehlo)) (Said Tcp Ehlo)
| step_greet_tls m : step (Secured m) (Write (Tls m) (says Ehlo)) (Said (Tls m) Ehlo)
| step_upgrade : step (Said Tcp Starttls) (Handshake (effective_tls_mode p))
                   (Secured (effective_tls_mode p))
| step_say s c c' : follows s c c' → step (Said s c) (Write s (says c')) (Said s c')
  (* opportunistic TLS failed: once more, in the clear *)
| step_retry ph a : sp_security p = Opportunistic → (ph = Said Tcp Starttls ∨ ∃ m, ph = Secured m) →
    step ph (Connect a) Connecting.

Inductive path : Phase → list Wire → Phase → Prop :=
| path_nil ph : path ph [] ph
| path_cons ph w ph1 tr ph2 : step ph w ph1 → path ph1 tr ph2 → path ph (w :: tr) ph2.

Lemma path_app ph tr ph1 tr' ph2 : path ph tr ph1 → path ph1 tr' ph2 → path ph (tr ++ tr') ph2.
Proof. induction 1; [done|]. intros ?. econstructor; eauto. Qed.
Lemma path_one ph w ph' : step ph w ph' → path ph [w] ph'.
Proof. intros. econstructor; [done|constructor]. Qed.

(** ** A program logic for [Io] *)

(** From phase [ph], [m] extends the trace along a path; [Q] holds of a result and
    the phase reached, [E] of the phase reached by an error. *)
Definition triple {A} (ph : Phase) (m : Io A) (Q : A → Phase → Prop) (E : Phase → Prop) : Prop :=
  ∀ n, ∃ tr ph', net_trace (m n).1 = net_trace n ++ tr ∧ path ph tr ph' ∧
    match (m n).2 with inr x => Q x ph' | inl _ => E ph' end.

Definition anywhere : Phase → Prop := λ _, True.

Lemma triple_quiet {A} ph (m : Io A) (Q : A → Phase → Prop) E :
  (∀ n, net_trace (m n).1 = net_trace n) →
  (∀ n, match (m n).2 with inr x => Q x ph | inl _ => E ph end) → triple ph m Q E.
Proof.
  intros Ht Hr n. exists [], ph. rewrite app_nil_r, Ht. split_and!; [done|constructor|apply Hr].
Qed.

Lemma triple_ret {A} ph (x : A) (Q : A → Phase → Prop) E : Q x ph → triple ph (mret x) Q E.
Proof. intros H. by apply triple_quiet. Qed.

Lemma triple_error {A} ph e (Q : A → Phase → Prop) (E : Phase → Prop) : E ph → triple ph (io_error e) Q E.
Proof. intros H. by apply triple_quiet. Qed.

Lemma triple_lift {A} ph (r : bytes + A) (Q : A → Phase → Prop) (E : Phase → Prop) :
  (∀ x, Q x ph) → E ph → triple ph (lift_result r) Q E.
Proof. intros HQ HE. apply triple_quiet; [done|]. intros n. destruct r; cbn; auto. Qed.

Lemma triple_bind {A B} ph (m : Io A) (f : A → Io B) Q R (E : Phase → Prop) :
  triple ph m Q E → (∀ x ph', Q x ph' → triple ph' (f x) R E) → triple ph (m ≫= f) R E.
Proof.
  intros Hm Hf n. destruct (Hm n) as (tr & ph1 & Ht & Hp & HQ).
  unfold mbind, Io_bind. destruct (m n) as [n1 [e|x]]; cbn in *.
  - by exists tr, ph1.
  - destruct (Hf x ph1 HQ n1) as (tr' & ph2 & Ht' & Hp' & HR). exists (tr ++ tr'), ph2.
    rewrite Ht', Ht, app_assoc. split_and!; [done|by eapply path_app|done].
Qed.

Lemma triple_weaken {A} ph (m : Io A) (Q R : A → Phase → Prop) (E F : Phase → Prop) :
  triple ph m Q E → (∀ x ph', Q x ph' → R x ph') → (∀ ph', E ph' → F ph') → triple ph m R F.
Proof.
  intros H HR HE n. destruct (H n) as (tr & ph1 & Ht & Hp & HQ). exists tr, ph1. split_and!; [done..|].
  destruct (m n).2; auto.
Qed.

Lemma triple_write ph s text ph' (E : Phase → Prop) :
  step ph (Write s text) ph' → E ph' → triple ph (io_write s text) (λ _ q, q = ph') E.
Proof.
  intros Hs HE n. exists [Write s text], ph'. unfold io_write. destruct (answer _ _) as [r rest].
  split_and!; [done|by apply path_one|]. by destruct r.
Qed.

Lemma triple_handshake ph m ph' (E : Phase → Prop) :
  step ph (Handshake m) ph' → E ph' → triple ph (io_handshake m) (λ _ q, q = ph') E.
Proof.
  intros Hs HE n. exists [Handshake m], ph'. unfold io_handshake. destruct (answer _ _) as [r rest].
  split_and!; [done|by apply path_one|]. by destruct r.
Qed.

(** *** Replies leave the trace alone and the connection on its stream *)

Lemma read_line_trace c n : net_trace (read_line c n).1 = net_trace n ∧
  match (read_line c n).2 with inr (c', _) => conn_stream c' = conn_stream c | inl _ => True end.
Proof. unfold read_line. destruct (read_line_go _ _ _) as [reads [e|[b l]]]; done. Qed.

Definition on_stream (c : SmtpConnection) (r : SmtpConnection * N * bytes) : Prop :=
  conn_stream r.1.1 = conn_stream c.

Lemma read_reply_go_trace fuel c full n : net_trace (read_reply_go fuel c full n).1 = net_trace n ∧
  match (read_reply_go fuel c full n).2 with inr r => on_stream c r | inl _ => True end.
Proof.
  revert c full n. induction fuel as [|fuel IH]; intros c full n; [done|]. cbn [read_reply_go].
  unfold mbind, Io_bind. destruct (read_line_trace c n) as [Ht Hs].
  destruct (read_line c n) as [n1 [e|[c' line]]]; cbn [fst snd] in *; [done|].
  destruct (is_last_line line); [done|]. destruct (IH c' (full ++ line ++ [LF]) n1) as [-> Hr].
  split; [done|]. destruct (read_reply_go _ _ _ _).2; [done|]. unfold on_stream in *. congruence.
Qed.

Lemma triple_read_reply ph c (E : Phase → Prop) :
  E ph → triple ph (read_reply c) (λ r q, q = ph ∧ on_stream c r) E.
Proof.
  intros HE. apply triple_quiet; intros n; unfold read_reply;
    destruct (read_reply_go_trace (reply_fuel c n) c [] n) as [Ht Hr]; [done|].
  by destruct (read_reply_go _ _ _ _).2.
Qed.

Lemma triple_command ph c line ph' (E : Phase → Prop) :
  step ph (Write (conn_stream c) (line ++ CRLF)) ph' → E ph' →
  triple ph (command c line) (λ r q, q = ph' ∧ on_stream c r) E.
Proof.
  intros Hs HE. eapply triple_bind; [by apply triple_write|]. intros _ q ->. by apply triple_read_reply.
Qed.
End Protocol.

(** ** The client keeps to it *)

Section Client.
Context `{RES : !Resolve, CRT : !Crates, UCA : !UnicodeCase}.
Variables (p : SendParams) (raw : bytes).

Abbreviation triple := (triple p raw).

(** How an attempt may end: the signal to retry only with STARTTLS allowed, under
    opportunistic TLS, from a phase that allows a new connection. *)
Definition resumable (ph : Phase) : Prop := ph = Said Tcp Starttls ∨ ∃ m, ph = Secured m.
Definition ends (allow_starttls : bool) (x : Attempt) (ph : Phase) : Prop :=
  match x with
  | Complete _ => True
  | OpportunisticStartTlsHandshakeFailed =>
      allow_starttls = true ∧ sp_security p = Opportunistic ∧ resumable ph
  end.

Lemma triple_complete ph code response tls a : triple ph (complete code response tls) (ends a) anywhere.
Proof. by apply triple_ret. Qed.

(** A command, and then either the end or the next step on the same stream. *)
Lemma triple_say c line s prev cmd (ok : N → bool) a rest tls :
  conn_stream c = s → line ++ CRLF = says p raw cmd → follows p s prev cmd →
  (∀ c', conn_stream c' = s → triple (Said s cmd) (rest c') (ends a) anywhere) →
  triple (Said s prev)
    ('(c, code, response) ← command c line;
     if negb (ok code) then complete code response tls else rest c) (ends a) anywhere.
Proof.
  intros <- Hl Hf Hr. eapply triple_bind; [apply triple_command with (ph' := Said (conn_stream c) cmd)|].
  - rewrite Hl. by apply step_say.
  - done.
  - intros [[c' code] response] q [-> Hs]. cbn [fst snd] in *. destruct (ok code); cbn [negb].
    + by apply Hr.
    + apply triple_complete.
Qed.

Lemma triple_quit c s (Q : unit → Phase → Prop) :
  conn_stream c = s → Q tt (Said s Quit) → triple (Said s Dot) (send_quit c) Q anywhere.
Proof.
  intros <- HQ n. unfold send_quit, send_line. change (!"QUIT" ++ CRLF) with (says p raw Quit).
  destruct (triple_write p raw (Said (conn_stream c) Dot) (conn_stream c) (says p raw Quit)
    (Said (conn_stream c) Quit) (λ q, q = Said (conn_stream c) Quit)
    (step_say _ _ _ Dot Quit eq_refl) eq_refl n) as (tr & ph & Ht & Hp & HR).
  exists tr, ph. destruct (io_write _ _ _) as [n' [e|[]]]; cbn in *; subst ph; done.
Qed.

Lemma triple_transmit c s tls a :
  conn_stream c = s → triple (Said s Rcpt) (transmit p raw tls c) (ends a) anywhere.
Proof.
  intros Hs. unfold transmit. apply triple_say with (cmd := Data) (ok := λ code, (code =? 354)%N); [done..|].
  clear c Hs. intros c Hs. unfold send_data.
  eapply triple_bind with (Q := λ r q, q = Said s Dot ∧ conn_stream r.1.1 = s).
  - eapply triple_bind; [rewrite Hs; apply triple_write with (ph' := Said s Body); [|done]|].
    { by apply step_say with (c' := Body). }
    intros _ q ->. eapply triple_bind; [apply triple_command with (ph' := Said s Dot); [|done]|].
    { cbn. rewrite Hs. by apply step_say with (c' := Dot). }
    intros [[c' code] response] q [-> Hc]. unfold on_stream in Hc. cbn in Hc. apply triple_ret.
    split; [done|]. cbn. congruence.
  - intros [[c' code] response] q [-> Hc]. cbn in Hc. eapply triple_bind with (Q := λ _ _, True); [by apply triple_quit|].
    intros _ q _. apply triple_complete.
Qed.

Lemma triple_envelope c s prev tls a :
  conn_stream c = s → follows p s prev Mail →
  triple (Said s prev) (envelope p raw tls c) (ends a) anywhere.
Proof.
  intros Hs Hf. apply triple_say with (cmd := Mail); [done| |done|].
  { cbn. by rewrite <- !app_assoc. }
  clear c Hs. intros c Hs. apply triple_say with (cmd := Rcpt); [done| |done|].
  { cbn. by rewrite <- !app_assoc. }
  intros c' Hs'. by apply triple_transmit.
Qed.

Lemma triple_deliver c s prev a :
  conn_stream c = s → greeted prev → (sp_security p = ImplicitTls → is_tls s = true) →
  triple (Said s prev) (deliver p raw (is_tls s) c) (ends a) anywhere.
Proof.
  intros Hs Hg Hi. unfold deliver. destruct (_ && _) eqn:E; [by apply triple_ret|].
  assert (secure_enough p s) as Hse.
  { unfold secure_enough. destruct (sp_security p), (is_tls s); naive_solver. }
  destruct (sp_auth p) as [auth|] eqn:Ea.
  - apply triple_say with (cmd := Auth) (ok := λ code, (code =? 235)%N); [done| | |].
    + cbn. by rewrite Ea, <- !app_assoc.
    + split_and!; [done|by rewrite Ea|done].
    + intros c' Hs'. apply triple_envelope; [done|]. split; [done|by left].
  - apply triple_envelope; [done|]. split; [done|by right].
Qed.

Lemma triple_tls_connect ph :
  step p raw ph (Handshake (effective_tls_mode p)) (Secured (effective_tls_mode p)) →
  triple ph (tls_connect p)
    (λ s q, s = Tls (effective_tls_mode p) ∧ q = Secured (effective_tls_mode p))
    (λ q, q = ph ∨ q = Secured (effective_tls_mode p)).
Proof.
  intros Hs. unfold tls_connect. destruct (valid_server_name _).
  - eapply triple_bind; [apply triple_handshake; [done|by right]|]. intros _ q ->. by apply triple_ret.
  - apply triple_error. by left.
Qed.

Lemma triple_starttls c :
  conn_stream c = Tcp →
  triple (Said Tcp Starttls) (starttls_accepted p raw c) (ends true) anywhere.
Proof.
  intros Hs n. unfold starttls_accepted.
  assert (triple (Said Tcp Starttls) (upgrade c p)
            (λ c', λ q, conn_stream c' = Tls (effective_tls_mode p) ∧ q = Secured (effective_tls_mode p))
            resumable) as Hu.
  { eapply triple_bind.
    - eapply triple_weaken; [apply triple_tls_connect, step_upgrade|intros x q Hx; exact Hx|].
      intros q [->| ->]; [by left|by right; eexists].
    - intros s q [-> ->]. by apply triple_ret. }
  destruct (Hu n) as (tr & ph & Ht & Hp & HQ). destruct (upgrade c p n) as [n1 [e|c1]]; cbn [fst snd] in *.
  - destruct (bool_decide (sp_security p = Opportunistic)) eqn:Eo; exists tr, ph; split_and!; try done.
    cbn. by apply bool_decide_eq_true in Eo.
  - destruct HQ as [Hs1 ->].
    assert (triple (Secured (effective_tls_mode p))
      ('(c, code, response) ← command c1 (!"EHLO " ++ sp_helo_hostname p);
       if negb (ok_2xx code) then complete code response true else deliver p raw true c)
      (ends true) anywhere) as Hd.
    { eapply triple_bind; [apply triple_command with (ph' := Said (Tls (effective_tls_mode p)) Ehlo); [|done]|].
      - rewrite Hs1, <- app_assoc. apply step_greet_tls.
      - intros [[c2 code] response] q [-> Hc]. unfold on_stream in Hc. cbn in Hc.
        destruct (negb _); [apply triple_complete|].
        apply (triple_deliver c2 (Tls (effective_tls_mode p))); [congruence|by left|done]. }
    destruct (Hd n1) as (tr2 & ph2 & Ht2 & Hp2 & HR). exists (tr ++ tr2), ph2.
    rewrite Ht2, Ht, app_assoc. split_and!; [done|by eapply path_app|done].
Qed.

Lemma triple_starttls_branch c :
  conn_stream c = Tcp → sp_security p ≠ ImplicitTls →
  (sp_tls_mode p ≠ Disabled ∨ sp_security p = RequireStartTls) →
  triple (Said Tcp Ehlo) (starttls_branch p raw c) (ends true) anywhere.
Proof.
  intros Hs Hi Hm. unfold starttls_branch.
  eapply triple_bind; [apply triple_command with (ph' := Said Tcp Starttls); [|done]|].
  { rewrite Hs. by apply step_say with (c' := Starttls). }
  intros [[c1 code] response] q [-> Hc]. unfold on_stream in Hc. cbn in Hc.
  destruct (ok_2xx code); [apply triple_starttls; congruence|].
  destruct (bool_decide _); [by apply triple_ret|].
  apply (triple_deliver c1 Tcp); [congruence|by right; right|done].
Qed.

Lemma triple_connect_any ph e l (Q : unit → Phase → Prop) :
  Q tt Connecting → ph = Idle ∨ ph = Connecting → triple ph (connect_any e l) Q anywhere.
Proof.
  intros HQ Hph. revert ph Hph e. induction l as [|a l IH]; intros ph Hph e; [by apply triple_error|].
  intros n. cbn [connect_any].
  assert (net_trace (io_connect a n).1 = net_trace n ++ [Connect a]) as Ht.
  { unfold io_connect. by destruct (answer _ _). }
  destruct (io_connect a n) as [n1 [e1|[]]]; cbn [fst] in Ht.
  - destruct (IH Connecting (or_intror eq_refl) e1 n1) as (tr & ph1 & Ht1 & Hp & HQ1).
    exists (Connect a :: tr), ph1. rewrite Ht1, Ht, <- app_assoc.
    split_and!; [done| |done]. econstructor; [by apply step_connect|done].
  - exists [Connect a], Connecting. split_and!; [done|by apply path_one, step_connect|done].
Qed.

Lemma triple_open_stream :
  triple Idle (open_stream p)
    (λ r q, r.2 = is_tls r.1 ∧ (r.1 = Tcp ∧ q = Connecting ∧ sp_security p ≠ ImplicitTls ∨
                                ∃ m, r.1 = Tls m ∧ q = Secured m)) anywhere.
Proof.
  unfold open_stream, connect.
  eapply triple_bind with (Q := λ _ q, q = Connecting).
  { eapply triple_bind with (Q := λ _ q, q = Idle); [by apply triple_lift|]. intros addresses q ->.
    eapply triple_bind with (Q := λ _ q, q = Idle); [by apply triple_lift|]. intros candidates q ->.
    apply triple_connect_any; [done|by left]. }
  intros _ q ->. case_bool_decide as Hi.
  - eapply triple_bind; [eapply triple_weaken; [by apply triple_tls_connect, step_implicit|intros x q H; exact H|done]|].
    intros s q [-> ->]. apply triple_ret. split; [done|]. right. by eexists.
  - apply triple_ret. split; [done|]. by left.
Qed.

Lemma triple_try_send allow :
  triple Idle (try_send p raw allow) (ends allow) anywhere.
Proof.
  unfold try_send. eapply triple_bind; [apply triple_open_stream|].
  intros [s tls] ph [Ht Hs]. cbn [fst snd] in *. subst tls.
  eapply triple_bind; [by apply triple_read_reply|]. intros [[c code] response] q [-> Hc].
  unfold on_stream in Hc. cbn in Hc. destruct (negb _); [apply triple_complete|].
  assert (sp_security p = ImplicitTls → is_tls s = true) as Hi.
  { intros Hi. by destruct Hs as [(_ & _ & ?)|(m & -> & _)]. }
  eapply triple_bind; [apply triple_command with (ph' := Said s Ehlo); [|done]|].
  { rewrite Hc, <- app_assoc. destruct Hs as [(-> & -> & ?)|(m & -> & ->)];
      [by apply step_greet|apply step_greet_tls]. }
  clear response. intros [[c1 code1] response] q [-> Hc1]. unfold on_stream in Hc1. cbn in Hc1.
  destruct (negb (ok_2xx code1)).
  - apply triple_say with (cmd := Helo); [congruence| |done|].
    + cbn. by rewrite <- app_assoc.
    + intros c2 Hc2. apply triple_deliver; [done|by right; left|done].
  - destruct (wants_starttls _ _ _ _) eqn:Ew.
    + apply triple_weaken with (Q := ends true) (E := anywhere); [| |done].
      * unfold wants_starttls in Ew. destruct s; [|done]. apply triple_starttls_branch; [congruence| |].
        { intros H. by specialize (Hi H). }
        destruct (sp_tls_mode p); [by left|by left|]. cbn in Ew. right.
        by destruct (bool_decide_reflect (sp_security p = RequireStartTls)); [|destruct allow].
      * intros [|] q Hx; [done|]. unfold wants_starttls in Ew. destruct s, allow; try done.
    + apply triple_deliver; [congruence|by left|done].
Qed.

Lemma send_message_path n : ∃ tr ph,
  net_trace (send_message p raw n).1 = net_trace n ++ tr ∧ path p raw Idle tr ph.
Proof.
  unfold send_message. destruct (triple_try_send true n) as (tr & ph & Ht & Hp & HQ).
  destruct (try_send p raw true n) as [n1 [e|[o|]]]; cbn [fst snd] in *; [by exists tr, ph..|].
  destruct HQ as (_ & Ho & Hr). destruct (triple_try_send false n1) as (tr1 & ph1 & Ht1 & Hp1 & HQ1).
  destruct (try_send p raw false n1) as [n2 r2]; cbn [fst snd] in *.
  assert (net_trace n2 = net_trace n ++ (tr ++ tr1)) as Htr by (by rewrite Ht1, Ht, app_assoc).
  destruct tr1 as [|w tr1].
  { exists tr, ph. rewrite app_nil_r in Htr. by destruct r2 as [e|[o|]]. }
  assert (path p raw ph (w :: tr1) ph1) as Hp2.
  { inversion Hp1 as [|? ? ? ? ? Hw Hrest]; subst. inversion Hw; subst; (econstructor; [|done]); by apply step_retry. }
  exists (tr ++ w :: tr1), ph1. split; [by destruct r2 as [e|[o|]]|by eapply path_app].
Qed.
End Client.

(** ** What no conversation does *)

Section Consequences.
Context `{RES : !Resolve, CRT : !Crates, UCA : !UnicodeCase}.

(** On a connection that must be encrypted: no certificate policy is disabled, and
    the clear text is the greeting and STARTTLS of a [RequireStartTls] endpoint. *)
Definition protected (p : SendParams) (w : Wire) : Prop :=
  match w with
  | Connect _ => True
  | Handshake m | Write (Tls m) _ => m ≠ Disabled
  | Write Tcp text =>
      sp_security p = RequireStartTls ∧
      (text = says p [] Ehlo ∨ text = says p [] Helo ∨ text = says p [] Starttls)
  end.

Definition phase_protected (p : SendParams) (ph : Phase) : Prop :=
  match ph with
  | Idle | Connecting => True
  | Secured m | Said (Tls m) _ => m ≠ Disabled
  | Said Tcp c => sp_security p = RequireStartTls ∧ greeted c
  end.

Lemma effective_not_disabled p : sp_security p ≠ Opportunistic → effective_tls_mode p ≠ Disabled.
Proof. unfold effective_tls_mode. destruct (sp_tls_mode p), (sp_security p); done. Qed.

Lemma step_protected p raw ph w ph' :
  sp_security p ≠ Opportunistic → step p raw ph w ph' → phase_protected p ph →
  protected p w ∧ phase_protected p ph'.
Proof.
  intros Ho Hs. pose proof (effective_not_disabled p Ho). destruct Hs as [| |Hi| | |s c c' Hf|]; cbn; try done.
  - intros _. destruct (sp_security p) eqn:E; [done| |done].
    split; [split; [done|by left]|]. split; [done|by left].
  - destruct s as [|m]; [|done]. intros [Hsec Hg].
    assert (secure_enough p Tcp → False) as Hn by (by intros [?|?]).
    destruct c'; cbn in Hf; try (unfold greeted in Hg; naive_solver); (split; [split; [done|]|]); auto;
      unfold greeted; auto.
Qed.

Lemma path_protected p raw ph tr ph' :
  sp_security p ≠ Opportunistic → path p raw ph tr ph' → phase_protected p ph → Forall (protected p) tr.
Proof.
  intros Ho. induction 1 as [|ph w ph1 tr ph2 Hs _ IH]; intros Hp; [constructor|].
  destruct (step_protected p raw ph w ph1 Ho Hs Hp). constructor; auto.
Qed.

Lemma read_line_go_pending timeout buffer reads reads' buffer' line :
  read_line_go timeout buffer reads = (reads', inr (buffer', line)) →
  length buffer' + pending_bytes reads' < length buffer + pending_bytes reads.
Proof.
  revert buffer. induction reads as [|e reads IH]; intros buffer; cbn [read_line_go];
    destruct (find_byte _ buffer) as [i|] eqn:Ei.
  1,3: intros [= <- <- _]; apply find_byte_Some in Ei as (a & c & b & -> & <- & _);
    rewrite length_drop, length_app; simpl; lia.
  - done.
  - destruct e as [[|b chunk]| |]; [done| |done|done]. intros H%IH. rewrite length_app in H. simpl in *. lia.
Qed.

Lemma read_reply_go_fuel fuel fuel' c full n :
  reply_fuel c n <= fuel → reply_fuel c n <= fuel' →
  read_reply_go fuel c full n = read_reply_go fuel' c full n.
Proof.
  revert fuel' c full n. induction fuel as [|fuel IH]; intros fuel' c full n H H';
    [unfold reply_fuel in H; lia|]. destruct fuel' as [|fuel']; [unfold reply_fuel in *; lia|]. cbn [read_reply_go].
  unfold mbind, Io_bind, read_line. destruct (read_line_go _ _ _) as [reads [e|[b l]]] eqn:E; [done|].
  destruct (is_last_line l); [done|]. apply read_line_go_pending in E.
  unfold reply_fuel in H, H'.
  apply IH; [change (S (length b + pending_bytes reads) <= fuel)|
             change (S (length b + pending_bytes reads) <= fuel')]; lia.
Qed.

(** C38: whatever the network answers, what [send_message] puts on the wire is a path
    of the abstract client: connects first, then one command at a time in the order
    EHLO, HELO or STARTTLS, AUTH, MAIL FROM, RCPT TO, DATA, the message, the final dot
    and QUIT, on one stream, with AUTH and MAIL FROM only on a stream secure enough
    and a second connection only after a failed opportunistic STARTTLS. *)
Theorem client_follows_protocol p raw n : ∃ tr ph,
  net_trace (send_message p raw n).1 = net_trace n ++ tr ∧ path p raw Idle tr ph.
Proof. apply send_message_path. Qed.

(** towards a relay that requires TLS (STARTTLS on the submission port, or smtps)
    nothing but EHLO, HELO and STARTTLS is ever written in the clear, on smtps nothing
    at all, and every handshake verifies or at least runs: no downgrade by the network
    leaks the credentials, the envelope or the message. *)
Theorem no_cleartext_credentials p raw n :
  sp_security p ≠ Opportunistic → net_trace n = [] →
  Forall (protected p) (net_trace (send_message p raw n).1).
Proof.
  intros Ho Hn. destruct (send_message_path p raw n) as (tr & ph & -> & Hp). rewrite Hn.
  by eapply path_protected.
Qed.

(** Every send has an outcome: the [unreachable!] after the plaintext retry is
    unreachable, and no reply is longer than the bound of the reply loop, so the
    outcome is never one of the model running out of fuel. *)
Theorem send_message_total p raw n :
  is_Some (send_message p raw n).2 ∧
  ∀ c n fuel, reply_fuel c n <= fuel → read_reply_go fuel c [] n = read_reply c n.
Proof.
  split; [|intros; by apply read_reply_go_fuel].
  unfold send_message. destruct (try_send p raw true n) as [n1 [e|[o|]]]; cbn; [by eexists..|].
  destruct (triple_try_send p raw false n1) as (tr & ph & _ & _ & HQ).
  destruct (try_send p raw false n1) as [n2 [e|[o|]]]; cbn in *; [by eexists..|by destruct HQ].
Qed.
End Consequences.

(** ** Witnesses *)

#[local] Existing Instance concrete_crates.
#[local] Existing Instance concrete_case.
#[local] Existing Instance concrete_resolve.

Definition fx_params (security : ConnectionSecurity) (mode : TlsMode) (auth : option SmtpAuth) : SendParams :=
  mkSendParams !"relay.example" 587 !"mx.example" !"a@a.example" !"b@b.example" 30 60 120 mode security
    auth None.

(** A network on which connects and handshakes succeed and every reply arrives in
    one piece. *)
Definition fx_network (replies : list bytes) : Network :=
  mkNetwork [None] [None] [] (map (λ r, ReadChunk (r ++ CRLF)) replies) [].

(** A submission relay with credentials: what is written, and on which stream. *)
Definition fx_submission : Network * option SendOutcome :=
  send_message (fx_params RequireStartTls Disabled (Some (mkSmtpAuth !"user" !"secret"))) !"hi"
    (fx_network [!"220 relay"; !"250 STARTTLS"; !"220 go"; !"250 ok"; !"235 ok"; !"250 ok"; !"250 ok";
                 !"354 go"; !"250 queued"]).

Lemma no_cleartext_credentials_witness :
  Forall (protected (fx_params RequireStartTls Disabled (Some (mkSmtpAuth !"user" !"secret"))))
    (net_trace fx_submission.1) ∧ fx_submission.2 = Some (Sent !"250 queued" true) ∧
  length (net_trace fx_submission.1) = 12.
Proof.
  split; [|vm_compute; done].
  apply (no_cleartext_credentials _ _ (fx_network _)); [discriminate|reflexivity].
Defined.

(** An unexpected success reply ends the attempt as delivered: a server that
    answers DATA with 250 instead of 354 (or AUTH with 334, or greets with 250) makes
    [classify] report the message as sent, although no byte of it was transmitted. *)
Theorem sent_without_transmission : ∃ n,
  let '(n', outcome) := send_message (fx_params Opportunistic Verify None) !"hi" n in
  outcome = Some (Sent !"250 ok" false) ∧
  Forall (λ w, ∀ s, w ≠ Write s (data_body !"hi")) (net_trace n').
Proof.
  exists (fx_network [!"220 mx"; !"250 mx"; !"250 ok"; !"250 ok"; !"250 ok"]).
  vm_compute. split; [done|]. repeat constructor; done.
Qed.
