(* ===== verification/BounceFacts.v ===== *)
(** * BounceFacts: correlation tokens and the classification of reports *)

From S2P Require Import Prelude RustStr RustStrFacts Net Model Message Bounce Concrete.

(** ** Lines *)

(** The pieces of [split_inclusive]: lines with their line feed, and possibly an
    unterminated last one. *)
Inductive inclusive : list bytes → Prop :=
| inclusive_nil : inclusive []
| inclusive_last l : Forall (λ c, is_byte LF c = false) l → inclusive [l]
| inclusive_cons l rest : Forall (λ c, is_byte LF c = false) l → inclusive rest →
    inclusive ((l ++ [LF]) :: rest).

Lemma split_inclusive_shape s : inclusive (split_inclusive (is_byte LF) s).
Proof.
  induction s as [|c s IH]; cbn [split_inclusive]; [constructor|]. destruct (is_byte LF c) eqn:Ec.
  - apply is_byte_eq in Ec. subst c. apply (inclusive_cons []); [constructor|done].
  - inversion IH as [|l Hl|l rest Hl Hr]; [constructor; by constructor|constructor; by constructor|].
    apply (inclusive_cons (c :: l)); [by constructor|done].
Qed.

(** A line of a message without its ending. *)
Definition line_content (l : bytes) : bytes := strip_cr (from_option id l (strip_suffix [LF] l)).

Lemma strip_suffix_free l : Forall (λ c, is_byte LF c = false) l → strip_suffix [LF] l = None.
Proof.
  intros H. apply strip_suffix_None. intros r ->. rewrite Forall_app, Forall_singleton in H. by destruct H.
Qed.

Lemma line_content_free l : Forall (λ c, is_byte LF c = false) l → line_content l = strip_cr l.
Proof. intros H. unfold line_content. by rewrite strip_suffix_free. Qed.
Lemma line_content_lf l : line_content (l ++ [LF]) = strip_cr l.
Proof. unfold line_content. by rewrite strip_suffix_app. Qed.

Lemma split_on_line l s : Forall (λ c, is_byte LF c = false) l →
  split_on (is_byte LF) ((l ++ [LF]) ++ s) = l :: split_on (is_byte LF) s.
Proof. intros H. rewrite <- app_assoc. by apply split_on_app. Qed.

(** A message from its first blank line on. *)
Fixpoint after_blank (lines : list bytes) : bytes :=
  match lines with
  | [] => []
  | l :: rest => if bool_decide (line_content l = []) then concat (l :: rest) else after_blank rest
  end.
Definition body_of (raw : bytes) : bytes := after_blank (split_inclusive (is_byte LF) raw).

(** ** Token lines *)

Lemma line_token_nil l : strip_cr l = [] → line_token l = None.
Proof. unfold line_token. by intros ->. Qed.

Lemma line_token_header l t :
  line_token l = Some t → ∃ c line, strip_cr l = c :: line ∧ (Ascii.eqb c SP || Ascii.eqb c TAB) = false ∧
    is_message_token_header (from_option id [] (head (split_on (is_byte ":") (strip_cr l)))) = true.
Proof.
  unfold line_token. destruct (split_once _ _) as [[name value]|] eqn:E; cbn; [|done].
  destruct (is_message_token_header name) eqn:Eh; cbn; [|done]. intros _.
  apply split_once_Some in E as (c & E & Hc & Hn).
  destruct name as [|n name]; [done|]. exists n, (name ++ c :: value).
  split; [by rewrite E|]. split.
  - apply orb_false_iff. split; apply not_true_is_false; intros E1%ascii_eqb_eq; subst n;
      vm_compute in Eh; discriminate Eh.
  - rewrite E, split_on_app by done. exact Eh.
Qed.

(** Whether a header line is dropped, given whether the line before it was. *)
Definition skips (skipping : bool) (line : bytes) : bool :=
  if match line with c :: _ => Ascii.eqb c SP || Ascii.eqb c TAB | [] => false end then skipping
  else is_message_token_header (from_option id [] (head (split_on (is_byte ":") line))).

Lemma drop_token_headers_cons skipping l rest :
  drop_token_headers skipping (l :: rest)
  = if bool_decide (line_content l = []) then concat (l :: rest)
    else let skipping := skips skipping (line_content l) in
         (if skipping then [] else l) ++ drop_token_headers skipping rest.
Proof. cbn [drop_token_headers]. fold (line_content l). by destruct (line_content l). Qed.

Lemma skips_token skipping l t : line_token l = Some t → skips skipping (strip_cr l) = true.
Proof. intros (c & line & E & Hc & Hh)%line_token_header. unfold skips. rewrite E in *. by rewrite Hc. Qed.

(** A token line left by [drop_token_headers] is one of the body. *)
Lemma drop_token_headers_body lines skipping l t :
  inclusive lines →
  l ∈ split_on (is_byte LF) (drop_token_headers skipping lines) → line_token l = Some t →
  l ∈ split_on (is_byte LF) (after_blank lines).
Proof.
  intros Hi. revert skipping. induction Hi as [|x Hx|x rest Hx Hi IH]; intros skipping Hl Ht.
  - done.
  - rewrite drop_token_headers_cons, (line_content_free x Hx) in Hl. cbn [after_blank drop_token_headers] in *.
    rewrite (line_content_free x Hx). case_bool_decide; [done|].
    destruct (skips skipping (strip_cr x)) eqn:Es; [done|]. rewrite app_nil_r, split_on_none in Hl by done.
    apply list_elem_of_singleton in Hl as ->. rewrite (skips_token skipping x t Ht) in Es. done.
  - rewrite drop_token_headers_cons, line_content_lf in Hl. cbn [after_blank].
    rewrite line_content_lf. case_bool_decide; [done|].
    destruct (skips skipping (strip_cr x)) eqn:Es; [by apply IH in Hl|].
    cbv beta iota zeta in Hl. rewrite split_on_line in Hl by done. apply elem_of_cons in Hl as [->|Hl]; [|by apply IH in Hl].
    rewrite (skips_token skipping x t Ht) in Es. done.
Qed.

(** ** Collecting tokens *)

Definition collect (tokens : list bytes) (line : bytes) : list bytes :=
  match line_token line with
  | Some token => if existsb (bytes_eqb token) tokens then tokens else tokens ++ [token]
  | None => tokens
  end.

Lemma collect_new lines tokens :
  ∃ new, fold_left collect lines tokens = tokens ++ new ∧
    ∀ t, t ∈ new → ∃ l, l ∈ lines ∧ line_token l = Some t.
Proof.
  revert tokens. induction lines as [|l lines IH]; intros tokens; cbn [fold_left].
  - exists []. rewrite app_nil_r. split; [done|]. by intros t ?%elem_of_nil.
  - assert (∃ first, collect tokens l = tokens ++ first ∧ ∀ t, t ∈ first → line_token l = Some t)
      as (first & -> & Hf).
    { unfold collect. destruct (line_token l) as [t|];
        [destruct (existsb _ _); [exists []|exists [t]]|exists []]; rewrite ?app_nil_r; (split; [done|]).
      - by intros u ?%elem_of_nil.
      - by intros u ->%list_elem_of_singleton.
      - by intros u ?%elem_of_nil. }
    destruct (IH (tokens ++ first)) as (new & -> & Hn). exists (first ++ new). rewrite app_assoc.
    split; [done|]. intros t [H|H]%elem_of_app.
    + exists l. split; [by left|by apply Hf].
    + destruct (Hn t H) as (l' & ? & ?). exists l'. split; [by right|done].
Qed.

(** What the worker generates: up to 64 ASCII letters and digits. *)
Definition valid_token (token : bytes) : Prop :=
  token ≠ [] ∧ length token <= 64 ∧ Forall (λ c, is_ascii_alphanumeric c = true) token.

Lemma alnum_not_ws c : is_ascii_alphanumeric c = true → is_ascii_whitespace c = false.
Proof.
  destruct c as [[] [] [] [] [] [] [] []]; try reflexivity; intros H; vm_compute in H; discriminate H.
Qed.

Lemma take_while_all P s : Forall (λ c, P c = true) s → take_while P s = s.
Proof. induction 1 as [|c s Hc _ IH]; [done|]. cbn. by rewrite Hc, IH. Qed.

Lemma line_token_own token : valid_token token →
  line_token (MESSAGE_TOKEN_HEADER ++ !": " ++ token ++ [CR]) = Some token.
Proof.
  intros (Hne & Hlen & Ha). unfold line_token.
  assert (strip_cr (MESSAGE_TOKEN_HEADER ++ !": " ++ token ++ [CR])
          = MESSAGE_TOKEN_HEADER ++ ":"%char :: SP :: token) as ->.
  { unfold strip_cr. rewrite !app_assoc, strip_suffix_app. cbn [from_option]. by rewrite <- app_assoc. }
  rewrite split_once_app by (vm_compute; repeat constructor). cbn [mbind option_bind].
  change (is_message_token_header MESSAGE_TOKEN_HEADER) with true. cbn [negb].
  assert (Forall (λ c, is_ascii_whitespace c = false) token) as Hw.
  { eapply Forall_impl; [exact Ha|]. apply alnum_not_ws. }
  assert (trim_ascii (SP :: token) = token) as ->.
  { unfold trim_ascii, trim_matches, trim_end_matches.
    change (trim_start_matches is_ascii_whitespace (SP :: token))
      with (trim_start_matches is_ascii_whitespace token).
    rewrite (trim_start_matches_id _ token) by done.
    rewrite trim_start_matches_id by (by apply Forall_rev). apply rev_involutive. }
  rewrite take_while_all by done. rewrite bool_decide_false by done.
  by rewrite (proj2 (Nat.ltb_ge 64 (length token))).
Qed.

(** correlation round trip: the tokens read back from a message begin with the
    token that was stamped on it, and any other one comes from the body: a header a
    client smuggled in to claim another message's bounces is gone. *)
Theorem message_token_round_trip raw token :
  valid_token token →
  ∃ rest, original_message_tokens (add_message_token_header raw token) = token :: rest ∧
    ∀ t, t ∈ rest → ∃ l, l ∈ split_on (is_byte LF) (body_of raw) ∧ line_token l = Some t.
Proof.
  intros Ht. unfold original_message_tokens, raw_lines. fold collect.
  assert (split_on (is_byte LF) (add_message_token_header raw token)
    = (MESSAGE_TOKEN_HEADER ++ !": " ++ token ++ [CR])
      :: split_on (is_byte LF) (drop_token_headers false (split_inclusive (is_byte LF) raw))) as ->.
  { unfold add_message_token_header, CRLF.
    rewrite <- (split_on_line (MESSAGE_TOKEN_HEADER ++ !": " ++ token ++ [CR])).
    - by rewrite <- !app_assoc.
    - repeat (apply Forall_app; split); [vm_compute; by repeat constructor..| |by repeat constructor].
      eapply Forall_impl; [apply Ht|]. intros c Hc%alnum_not_ws. unfold is_ascii_whitespace in Hc.
      rewrite !orb_false_iff in Hc. unfold is_byte. rewrite Ascii.eqb_sym. tauto. }
  cbn [fold_left]. unfold collect at 2. rewrite line_token_own by done. cbn [existsb app].
  destruct (collect_new (split_on (is_byte LF) (drop_token_headers false (split_inclusive (is_byte LF) raw)))
    [token]) as (new & -> & Hn).
  exists new. split; [done|]. intros t (l & Hl & Htok)%Hn. exists l. split; [|done].
  eapply drop_token_headers_body; [apply split_inclusive_shape|done..].
Qed.

Lemma message_token_round_trip_witness :
  original_message_tokens (add_message_token_header
    (!"x-camelmailer-msgid: forged" ++ CRLF ++ !"From: a@a.example" ++ CRLF ++ CRLF ++ !"hi") !"abc123")
  = [!"abc123"] ∧
  ∃ rest, original_message_tokens (add_message_token_header !"hi" !"abc123") = !"abc123" :: rest ∧
    ∀ t, t ∈ rest → ∃ l, l ∈ split_on (is_byte LF) (body_of !"hi") ∧ line_token l = Some t.
Proof.
  split; [vm_compute; reflexivity|]. apply (message_token_round_trip !"hi" !"abc123").
  split_and!; [discriminate|vm_compute; lia|vm_compute; repeat constructor].
Defined.

(** ** Classification *)

Lemma field_value_ascii trimmed prefix : is_ascii trimmed = true → is_Some (field_value trimmed prefix).
Proof.
  intros Ha. unfold field_value. destruct (Nat.leb_spec (length prefix) (length trimmed)); [|by eexists].
  rewrite slice_to_ascii by done. cbn [mbind option_bind]. destruct (eq_ignore_ascii_case _ _); [|by eexists].
  rewrite slice_from_ascii by done. cbn. by eexists.
Qed.

Lemma is_ascii_concat ls : is_ascii (concat ls) = true → Forall (λ l, is_ascii l = true) ls.
Proof.
  induction ls as [|l ls IH]; cbn; [constructor|]. rewrite is_ascii_app, andb_true_iff. intros [? ?].
  constructor; auto.
Qed.

Lemma str_lines_ascii s : is_ascii s = true → Forall (λ l, is_ascii l = true) (str_lines s).
Proof.
  intros H. unfold str_lines. apply Forall_map. rewrite <- (split_inclusive_concat (is_byte LF) s) in H.
  eapply Forall_impl; [by apply is_ascii_concat|]. intros l Hl. cbv beta.
  destruct (strip_suffix [LF] l) as [r|] eqn:E; [|done]. apply strip_suffix_Some in E as ->.
  rewrite is_ascii_app, andb_true_iff in Hl. destruct Hl as [Hl _]. unfold strip_cr.
  destruct (strip_suffix [CR] r) as [q|] eqn:E; [|done]. apply strip_suffix_Some in E as ->.
  rewrite is_ascii_app, andb_true_iff in Hl. apply Hl.
Qed.

Lemma classify_lines_ascii ls : Forall (λ l, is_ascii l = true) ls → is_Some (classify_lines ls).
Proof.
  induction 1 as [|l ls Hl _ IH]; [by eexists|]. cbn [classify_lines]. unfold dsn_value.
  apply is_ascii_trim in Hl. destruct (field_value_ascii (trim l) !"Status:" Hl) as [[v|] ->]; cbn [mbind option_bind].
  - case_bool_decide; [done|by eexists].
  - destruct (field_value_ascii (trim l) !"Diagnostic-Code:" Hl) as [[v|] ->]; cbn [mbind option_bind]; [|done].
    case_bool_decide; [done|by eexists].
Qed.

#[local] Existing Instance concrete_case.

(** A well-formed failure report whose text has a two-byte character over offset 7 of
    a line, as any non-English mail server writes. *)
Definition fx_report : bytes :=
  !"Content-Type: multipart/report; report-type=delivery-status; boundary=b" ++ CRLF ++ CRLF
  ++ !"--b" ++ CRLF ++ CRLF ++ !"Empf" ++ [ascii_of_N 195; ascii_of_N 164] ++ [ascii_of_N 195; ascii_of_N 164]
  ++ !" unbekannt" ++ CRLF ++ !"--b" ++ CRLF ++ !"Content-Type: message/delivery-status" ++ CRLF ++ CRLF
  ++ !"Action: failed" ++ CRLF ++ !"Status: 5.1.1" ++ CRLF ++ !"--b--" ++ CRLF.

(** The classification of an inbound failure report is total on ASCII reports,
    but a report that passes the failed-notification check and has a multi-byte
    character across byte 7 (or 16) of a line panics the worker. *)
Theorem dsn_classification_panics :
  (∀ raw, is_ascii raw = true → is_Some (classify_dsn raw)) ∧
  is_failed_delivery_status_notification fx_report = true ∧ classify_dsn fx_report = None.
Proof.
  split; [|split; vm_compute; reflexivity]. intros raw Ha. unfold classify_dsn. rewrite lossy_ascii by done.
  by apply classify_lines_ascii, str_lines_ascii.
Qed.
