(* ===== verification/MemoryFacts.v ===== *)
(** * MemoryFacts: lookups, usage counters and alerts of the in-memory store *)

From Stdlib Require Import Sorted.
From S2P Require Import Prelude RustStr RustStrFacts Net Model SendLimit SendLimitFacts Message Store MemoryStore Concrete.

(** ** Sorting and searching *)

Section Sort.
Context {A : Type} (le : A → A → bool).
Hypothesis le_total : ∀ a b, le a b = false → le b a = true.
Hypothesis le_trans : ∀ a b c, le a b = true → le b c = true → le a c = true.
Let R (a b : A) : Prop := le a b = true.

Lemma insert_by_perm x l : insert_by le x l ≡ₚ x :: l.
Proof. induction l as [|y l IH]; cbn; [done|]. destruct (le x y); [done|]. rewrite IH. apply Permutation_swap. Qed.

Lemma stable_sort_perm l : stable_sort le l ≡ₚ l.
Proof. induction l as [|x l IH]; cbn; [done|]. by rewrite insert_by_perm, IH. Qed.

Lemma insert_by_sorted x l : StronglySorted R l → StronglySorted R (insert_by le x l).
Proof.
  induction 1 as [|y l Hl IH Hy]; cbn; [by repeat constructor|]. destruct (le x y) eqn:E.
  - constructor; [by constructor|]. constructor; [done|]. eapply Forall_impl; [exact Hy|].
    intros z. by apply le_trans.
  - constructor; [done|]. rewrite insert_by_perm. constructor; [by apply le_total|done].
Qed.

Lemma stable_sort_sorted l : StronglySorted R (stable_sort le l).
Proof. induction l as [|x l IH]; cbn; [constructor|]. by apply insert_by_sorted. Qed.

(** The first match of a sorted list goes before every other match. *)
Lemma find_sorted P l x :
  StronglySorted R l → List.find P l = Some x →
  P x = true ∧ x ∈ l ∧ ∀ y, y ∈ l → P y = true → x = y ∨ R x y.
Proof.
  induction 1 as [|y l _ IH Hy]; cbn; [done|]. destruct (P y) eqn:E.
  - intros [= ->]. split_and!; [done|by left|]. intros z [->|Hz]%elem_of_cons _; [by left|right].
    rewrite Forall_forall in Hy. by apply Hy.
  - intros (? & ? & Hm)%IH. split_and!; [done|by right|]. intros z [->|Hz]%elem_of_cons; [congruence|auto].
Qed.
End Sort.

Lemma find_In {A} (P : A → bool) l x : List.find P l = Some x → x ∈ l ∧ P x = true.
Proof. intros [? ?]%List.find_some. split; [by apply list_elem_of_In|done]. Qed.

Lemma find_none_all {A} (P : A → bool) l : List.find P l = None ↔ ∀ x, x ∈ l → P x = false.
Proof.
  split.
  - intros H x Hx. by apply (List.find_none _ _ H), list_elem_of_In.
  - induction l as [|y l IH]; cbn; [done|]. intros H. rewrite (H y) by left. apply IH. intros x Hx. apply H. by right.
Qed.

Lemma filter_elem_ext {A} (P Q : A → Prop) `{!∀ x, Decision (P x), !∀ x, Decision (Q x)} (l : list A) :
  (∀ x, x ∈ l → P x ↔ Q x) → filter P l = filter Q l.
Proof.
  induction l as [|x l IH]; intros Hpq; [done|]. rewrite !filter_cons, IH by (intros; apply Hpq; by right).
  destruct (Hpq x) as [Hp Hq]; [by left|]. destruct (decide (P x)), (decide (Q x)); naive_solver.
Qed.

(** ** The credential of an IP address *)

Section Ip.
Context `{IPN : !IpNetCrate}.

(** A credential authorises an address: an SMTP-IP credential whose key is a network
    holding the address. *)
Definition authorises (c : Credential) (net : IpNet) (ip : IpAddr) : Prop :=
  cred_credential_type c = CtSmtpIp ∧ key_network (cred_key c) = Some net ∧ network_matches net ip = true.

Lemma ip_candidates_spec l net c :
  (net, c) ∈ ip_candidates l ↔ c ∈ l ∧ cred_credential_type c = CtSmtpIp ∧ key_network (cred_key c) = Some net.
Proof.
  unfold ip_candidates. rewrite list_elem_of_omap. split.
  - intros (c' & Hc & H). destruct (decide _); [|done].
    destruct (key_network (cred_key c')) eqn:E; [|done]. by injection H as -> ->.
  - intros (Hc & Ht & Hk). exists c. split; [done|]. by rewrite decide_True, Hk.
Qed.

(** IP authentication picks the most specific network: the credential found
    authorises the address and no credential that authorises it has a longer prefix;
    none is found only when none authorises. *)
Theorem match_ip_credential_spec l ip :
  match match_ip_credential l ip with
  | Some c => ∃ net, c ∈ l ∧ authorises c net ip ∧
      ∀ c' net', c' ∈ l → authorises c' net' ip → (net_prefix_len net' <= net_prefix_len net)%N
  | None => ∀ c net, c ∈ l → ¬ authorises c net ip
  end.
Proof.
  assert (∀ a b, longer_prefix a b = false → longer_prefix b a = true) as Htot.
  { unfold longer_prefix. intros a b ?%N.leb_gt. apply N.leb_le. lia. }
  assert (∀ a b d, longer_prefix a b = true → longer_prefix b d = true → longer_prefix a d = true) as Htr.
  { unfold longer_prefix. intros a b d ?%N.leb_le ?%N.leb_le. apply N.leb_le. lia. }
  pose proof (stable_sort_sorted longer_prefix Htot Htr (ip_candidates l)) as Hs.
  unfold match_ip_credential. destruct (List.find _ _) as [[net c]|] eqn:E; cbn.
  - destruct (find_sorted _ _ _ _ Hs E) as (Hm & Hin & Hbest).
    rewrite stable_sort_perm, ip_candidates_spec in Hin. destruct Hin as (Hc & Ht & Hk).
    exists net. split_and!; [done..|]. intros c' net' Hc' (Ht' & Hk' & Hm').
    destruct (Hbest (net', c')) as [[= <- <-]|Hle]; [|done|done|].
    + by rewrite stable_sort_perm, ip_candidates_spec.
    + by apply N.leb_le in Hle.
  - intros c net Hc (Ht & Hk & Hm). rewrite find_none_all in E. specialize (E (net, c)). cbn in E.
    rewrite E in Hm; [done|]. by rewrite stable_sort_perm, ip_candidates_spec.
Qed.
End Ip.

(** ** The authenticated domain of a message *)

Section Domains.
Context `{ORD : !HashOrder, CRT : !Crates, IPN : !IpNetCrate}.

Lemma values_elem {A} (table : gmap Id A) x : x ∈ values table ↔ ∃ id, table !! id = Some x.
Proof.
  unfold values. rewrite hash_order_perm, list_elem_of_fmap. split.
  - intros ([id y] & -> & H%elem_of_map_to_list). by exists id.
  - intros (id & H). exists (id, x). split; [done|]. by apply elem_of_map_to_list.
Qed.

(** The domain of an address header is one the server may send for. *)
Definition sends_for (m : MemoryStore) (server : Server) (value : bytes) (d : Domain) : Prop :=
  ∃ id uname, mem_domains m !! id = Some d ∧ dom_verified d = true ∧
    (dom_owner d = OwnerServer (srv_id server) ∨ dom_owner d = OwnerOrganization (srv_organization_id server)) ∧
    split_once (is_byte "@") (strip_name_from_address value) = Some (uname, dom_name d) ∧ uname ≠ [].

Lemma owner_is_spec server d : owner_is server d = true ↔
  dom_owner d = OwnerServer (srv_id server) ∨ dom_owner d = OwnerOrganization (srv_organization_id server).
Proof. unfold owner_is. destruct (dom_owner d) as [id|id]; rewrite N.eqb_eq; naive_solver. Qed.

Lemma domain_for_address_spec m server value :
  match domain_for_address m server value with
  | Some id => ∃ d, sends_for m server value d ∧ dom_id d = id
  | None => ∀ d, ¬ sends_for m server value d
  end.
Proof.
  unfold domain_for_address, sends_for. destruct (split_once _ _) as [[uname name]|]; cbn [mbind option_bind]; [|naive_solver].
  case_bool_decide as Hu; [naive_solver|]. destruct (List.find _ _) as [d|] eqn:E; cbn.
  - apply find_In in E as [Hd Ho]. apply list_elem_of_In, List.filter_In in Hd as [Hd Hv].
    apply list_elem_of_In, values_elem in Hd as [id Hd]. apply andb_true_iff in Hv as [Hv Hn%bytes_eqb_eq].
    exists d. split; [|done]. exists id, uname. rewrite Hn. split_and!; auto. by apply owner_is_spec.
  - intros d (id & u & Hd & Hv & Ho & Heq & _). injection Heq as -> ->. rewrite find_none_all in E. specialize (E d).
    apply owner_is_spec in Ho. rewrite E in Ho; [done|]. apply list_elem_of_In, List.filter_In.
    rewrite Hv, bytes_eqb_refl. split; [|done]. apply list_elem_of_In, values_elem. by exists id.
Qed.

(** the From check: a message is authenticated exactly when it has From (or
    Sender) headers and every one of them names a verified domain that belongs to the
    sending server or to its organization; the domain recorded is that of the first. *)
Theorem find_authenticated_domain_spec m server_id values_ :
  match mem_find_authenticated_domain m server_id values_ with
  | Some id => ∃ server first rest d, mem_servers m !! server_id = Some server ∧ values_ = first :: rest ∧
      sends_for m server first d ∧ dom_id d = id ∧ Forall (λ v, ∃ d, sends_for m server v d) values_
  | None => ∀ server, mem_servers m !! server_id = Some server →
      values_ = [] ∨ ∃ v, v ∈ values_ ∧ ∀ d, ¬ sends_for m server v d
  end.
Proof.
  unfold mem_find_authenticated_domain. destruct (mem_servers m !! server_id) as [server|]; cbn [mbind option_bind]; [|done].
  destruct values_ as [|first rest]; cbn [map]; [naive_solver|].
  destruct (forallb _ _) eqn:E.
  - assert (Forall (λ v, ∃ d, sends_for m server v d) (first :: rest)) as Hall.
    { rewrite Forall_forall. intros v Hv. rewrite forallb_forall in E.
      specialize (E (domain_for_address m server v)). pose proof (domain_for_address_spec m server v) as Hs.
      destruct (domain_for_address m server v) as [id|] eqn:Ed; [naive_solver|]. discriminate E.
      apply (List.in_map_iff (domain_for_address m server) (first :: rest)). exists v.
      split; [done|by apply list_elem_of_In]. }
    pose proof (domain_for_address_spec m server first) as Hf. cbn in E.
    destruct (domain_for_address m server first) as [id|]; [|done]. destruct Hf as (d & Hd & <-).
    by exists server, first, rest, d.
  - intros server' [= <-]. right. apply not_true_iff_false in E.
    destruct (decide (Exists (λ v, domain_for_address m server v = None) (first :: rest))) as [H|H].
    + apply Exists_exists in H as (v & Hv & Hn). exists v. split; [done|].
      pose proof (domain_for_address_spec m server v) as Hs. by rewrite Hn in Hs.
    + destruct E. apply forallb_forall. intros o Ho.
      apply (List.in_map_iff (domain_for_address m server) (first :: rest)) in Ho as (v & <- & Hv).
      apply list_elem_of_In in Hv. apply not_Exists_Forall in H; [|intros ?; apply _]. rewrite Forall_forall in H. specialize (H v Hv).
      cbn in H. by destruct (domain_for_address m server v).
Qed.
End Domains.

(** ** Usage *)

Section Usage.
Context `{CRT : !Crates}.

(** The alerts of one send: every threshold not raised before. *)
Definition new_alerts (m : MemoryStore) (org : Id) (month : UsageMonth) (ts : list N) : list N :=
  filter (λ t, (org, month, t) ∉ mem_usage_alerts m) ts.

Lemma fold_raise_alert now o month sent limit ts m :
  NoDup ts →
  let m' := fold_left (raise_alert now o month sent limit) ts m in
  mem_send_counters m' = mem_send_counters m ∧
  mem_organization_send_counters m' = mem_organization_send_counters m ∧
  (∀ k, k ∈ mem_usage_alerts m' ↔ k ∈ mem_usage_alerts m ∨ ∃ t, t ∈ ts ∧ k = (org_id o, month, t)) ∧
  mem_lifecycle_events m' = mem_lifecycle_events m ++
    map (λ t, usage_threshold_event now o month t sent (from_option id 0%Z limit))
      (new_alerts m (org_id o) month ts).
Proof.
  intros Hnd. revert m. induction Hnd as [|t ts Ht _ IH]; intros m; cbn [fold_left].
  { split_and!; try done; [|by rewrite app_nil_r]. set_solver. }
  destruct (IH (raise_alert now o month sent limit m t)) as (-> & -> & Ha & He). clear IH.
  assert (∀ k, k ∈ mem_usage_alerts (raise_alert now o month sent limit m t)
    ↔ k ∈ mem_usage_alerts m ∨ k = (org_id o, month, t)) as Hk.
  { intros k. unfold raise_alert. destruct (decide _) as [H|H]; [split; [by left|by intros [?| ->]]|].
    cbn. rewrite elem_of_union, elem_of_singleton. tauto. }
  assert (new_alerts (raise_alert now o month sent limit m t) (org_id o) month ts
          = new_alerts m (org_id o) month ts) as Hn.
  { apply filter_elem_ext. intros u Hu. rewrite Hk. naive_solver. }
  rewrite Hn in He. split_and!.
  - unfold raise_alert. by destruct (decide _).
  - unfold raise_alert. by destruct (decide _).
  - intros k. rewrite Ha, Hk. setoid_rewrite elem_of_cons. naive_solver.
  - rewrite He. unfold raise_alert, new_alerts. destruct (decide _) as [H|H].
    + rewrite filter_cons_False by naive_solver. done.
    + rewrite filter_cons_True by done. cbn. by rewrite <- app_assoc.
Qed.

(** *** The usage windows *)

Definition usage_step (server_id : Id) (today : Z) (key : Id * Z) (sent total : Z) : Z :=
  if in_window server_id today key then (total + sent)%Z else total.

Lemma usage_step_comm (server_id : Id) (today : Z) k1 k2 v1 v2 acc :
  usage_step server_id today k1 v1 (usage_step server_id today k2 v2 acc)
  = usage_step server_id today k2 v2 (usage_step server_id today k1 v1 acc).
Proof. unfold usage_step. destruct (in_window _ _ k1), (in_window _ _ k2); lia. Qed.

Lemma usage_count (server_id : Id) (today : Z) (key : Id * Z) (c : gmap (Id * Z) Z) :
  map_fold (usage_step server_id today) 0%Z (<[key := (from_option id 0 (c !! key) + 1)%Z]> c)
  = (map_fold (usage_step server_id today) 0%Z c + if in_window server_id today key then 1 else 0)%Z.
Proof.
  destruct (c !! key) as [v|] eqn:E; cbn.
  - rewrite (map_fold_delete_L (usage_step server_id today) 0%Z key v c), <- insert_delete_eq, map_fold_insert_L;
      try (by rewrite ?lookup_delete_eq); try (intros; by apply usage_step_comm).
    unfold usage_step at 1 3. destruct (in_window _ _ _); lia.
  - rewrite map_fold_insert_L by (done || (intros; by apply usage_step_comm)).
    unfold usage_step at 1. destruct (in_window _ _ _); lia.
Qed.

(** The organization an outgoing message of a server counts for. *)
Definition paying_organization (m : MemoryStore) (server_id : Id) : option Organization :=
  mem_servers m !! server_id ≫= λ s, mem_organizations m !! srv_organization_id s.

Lemma reached_thresholds_nodup sent limit : NoDup (reached_thresholds sent limit).
Proof.
  unfold reached_thresholds. destruct limit as [l|]; [|constructor]. destruct (0 <? l)%Z; [|constructor].
  apply NoDup_filter. unfold USAGE_THRESHOLDS. repeat constructor; set_solver.
Qed.

(** The store after the counters, before the alerts. *)
Definition sent_before (m : MemoryStore) (o : Organization) (at_ : datetime) : Z :=
  from_option id 0%Z (mem_organization_send_counters m !! (org_id o, usage_month_of at_)).
Definition counted (server_id : Id) (at_ : datetime) (m : MemoryStore) : MemoryStore :=
  m <| mem_send_counters := <[(server_id, date_naive at_) :=
         (from_option id 0 (mem_send_counters m !! (server_id, date_naive at_)) + 1)%Z]>
         (mem_send_counters m) |>.
Definition charged (o : Organization) (at_ : datetime) (m : MemoryStore) : MemoryStore :=
  m <| mem_organization_send_counters := <[(org_id o, usage_month_of at_) := (sent_before m o at_ + 1)%Z]>
         (mem_organization_send_counters m) |>.

Lemma count_outgoing_paid server_id at_ m o :
  paying_organization m server_id = Some o →
  count_outgoing server_id at_ m
  = fold_left (raise_alert at_ o (usage_month_of at_) (sent_before m o at_ + 1)%Z
      (mem_organization_policies m !! org_id o ≫= pol_monthly_send_limit))
      (reached_thresholds (sent_before m o at_ + 1)%Z
        (mem_organization_policies m !! org_id o ≫= pol_monthly_send_limit))
      (charged o at_ (counted server_id at_ m)).
Proof. intros H. unfold count_outgoing. cbn zeta. by setoid_rewrite H. Qed.

Lemma count_outgoing_unpaid server_id at_ m :
  paying_organization m server_id = None → count_outgoing server_id at_ m = counted server_id at_ m.
Proof. intros H. unfold count_outgoing. cbn zeta. by setoid_rewrite H. Qed.

(** Counting one outgoing message: the 30-day usage of its server grows by one
    when the day is in the window and no other server's usage changes; the month usage
    of its organization grows by one and no other organization's or month's changes;
    and exactly the thresholds reached for the first time in the month are alerted,
    each with one lifecycle event. *)
Theorem count_outgoing_spec server_id at_ now m :
  let m' := count_outgoing server_id at_ m in
  (∀ s, mem_send_usage now m' s
        = mem_send_usage now m s + if in_window s (date_naive now) (server_id, date_naive at_) then 1 else 0)%Z ∧
  (∀ o, mem_organization_month_usage now m' o
        = mem_organization_month_usage now m o
          + if decide (org_id <$> paying_organization m server_id = Some o ∧ usage_month_of at_ = usage_month_of now)
            then 1 else 0)%Z ∧
  match paying_organization m server_id with
  | None => mem_usage_alerts m' = mem_usage_alerts m ∧ mem_lifecycle_events m' = mem_lifecycle_events m
  | Some o =>
      let month := usage_month_of at_ in
      let sent := (sent_before m o at_ + 1)%Z in
      let limit := mem_organization_policies m !! org_id o ≫= pol_monthly_send_limit in
      let ts := reached_thresholds sent limit in
      (∀ k, k ∈ mem_usage_alerts m' ↔ k ∈ mem_usage_alerts m ∨ ∃ t, t ∈ ts ∧ k = (org_id o, month, t)) ∧
      mem_lifecycle_events m' = mem_lifecycle_events m ++
        map (λ t, usage_threshold_event at_ o month t sent (from_option id 0%Z limit))
          (new_alerts m (org_id o) month ts)
  end.
Proof.
  cbn zeta. destruct (paying_organization m server_id) as [o|] eqn:Ep.
  - rewrite (count_outgoing_paid _ _ _ _ Ep).
    destruct (fold_raise_alert at_ o (usage_month_of at_) (sent_before m o at_ + 1)%Z
      (mem_organization_policies m !! org_id o ≫= pol_monthly_send_limit)
      (reached_thresholds (sent_before m o at_ + 1) (mem_organization_policies m !! org_id o ≫= pol_monthly_send_limit))
      (charged o at_ (counted server_id at_ m)) (reached_thresholds_nodup _ _)) as (Hc & Hm & Ha & He).
    split_and!; [| |exact Ha|exact He].
    + intros s. unfold mem_send_usage. rewrite Hc. apply (usage_count s).
    + intros o'. unfold mem_organization_month_usage. rewrite Hm. cbn. unfold sent_before.
      destruct (decide ((org_id o, usage_month_of at_) = (o', usage_month_of now))) as [Hk|Hne].
      * pose proof (f_equal fst Hk) as E1. pose proof (f_equal snd Hk) as E. cbn [fst snd] in E1, E.
        subst o'. rewrite E, lookup_insert_eq. rewrite decide_True by done. by destruct (_ !! _).
      * rewrite lookup_insert_ne by done. rewrite decide_False; [lia|]. intros [H1 E]. injection H1 as H1. by rewrite H1, E in Hne.
  - rewrite (count_outgoing_unpaid _ _ _ Ep). split_and!; [| |done|done].
    + intros s. apply (usage_count s).
    + intros o'. rewrite decide_False by naive_solver. cbn. unfold mem_organization_month_usage, counted. cbn. lia.
Qed.
End Usage.
