(* ===== verification/MessageFacts.v ===== *)
(** * MessageFacts: the messages of the in-memory store

    Replay of idempotent sends, the invariant every reachable store keeps, retention
    and the separation of tenants. *)

From S2P Require Import Prelude RustStr RustStrFacts Net Model SendLimit Message Store MemoryStore MemoryFacts Concrete.

(** ** Idempotent sends *)

Section Sends.
Context `{CRT : !Crates, UCA : !UnicodeCase}.

(** a stored send is replayed: until the request expires, any later send under the
    same key returns the stored response, or a conflict when the request or operation
    differs, and leaves the store untouched: nothing is sent twice. *)
Theorem idempotent_send now tok server_id plan r m resp m1 :
  insert_send_operation now tok server_id plan (Some r) m = (SendStored resp, m1) →
  ∀ now' tok' plan' r', ir_key_hash r' = ir_key_hash r → (now' < ir_expires_at r)%Z →
  insert_send_operation now' tok' server_id plan' (Some r') m1
  = (if (ir_request_hash r =b ir_request_hash r') && (ir_operation r =b ir_operation r')
     then SendReplayed resp else SendConflict, m1).
Proof.
  intros H now' tok' plan' r' Hk Ht.
  assert (∃ m0, m1 = m0 <| mem_idempotency_requests := <[(server_id, ir_key_hash r) :=
      mkMemoryIdempotencyRecord (ir_request_hash r) (ir_operation r) resp (ir_expires_at r)]>
      (mem_idempotency_requests m0) |>) as [m0 ->].
  { unfold insert_send_operation in H.
    destruct (mem_idempotency_requests m !! _) as [rec|].
    - destruct (_ <? _)%Z; [by destruct (_ && _)|]. destruct (insert_plan _ _ _ _ _) as [resp' m0].
      injection H as -> <-. by exists m0.
    - destruct (insert_plan _ _ _ _ _) as [resp' m0]. injection H as -> <-. by exists m0. }
  unfold insert_send_operation. rewrite Hk. cbn [mem_idempotency_requests].
  assert (∀ m0 t, mem_idempotency_requests (m0 <| mem_idempotency_requests := t |>) = t) as Hget by done.
  rewrite Hget, lookup_insert_eq. cbn [mir_expires_at mir_request_hash mir_operation mir_response].
  rewrite (proj2 (Z.ltb_lt _ _) Ht). by destruct (_ && _).
Qed.
End Sends.

(** ** The invariant *)

Definition ids (m : MemoryStore) : list Z := map mr_id (mem_messages m).

(** The part of the store the invariant is about. *)
Definition core (m : MemoryStore) :=
  (mem_messages m, mem_message_deliveries m, mem_message_opens m, mem_message_clicks m,
   mem_message_campaigns m, mem_next_id m).

(** Message ids are distinct and below the next id, and every row that refers to a
    message, or a bounce to its original, refers to one that exists. *)
Record store_wf (m : MemoryStore) : Prop := {
  wf_nodup : NoDup (ids m);
  wf_bound : Forall (λ i, (0 < i < Z.of_N (mem_next_id m))%Z) (ids m);
  wf_next : (0 < mem_next_id m)%N;
  wf_deliveries : Forall (λ row, row.1 ∈ ids m) (mem_message_deliveries m);
  wf_opens : Forall (λ row, row.1 ∈ ids m) (mem_message_opens m);
  wf_clicks : Forall (λ row, row.1 ∈ ids m) (mem_message_clicks m);
  wf_bounces : Forall (λ r, ∀ o, mr_bounce_for_id r = Some o → o ∈ ids m) (mem_messages m);
  wf_campaigns : ∀ i, is_Some (mem_message_campaigns m !! i) → i ∈ ids m;
}.

Lemma store_wf_core m m' : core m' = core m → store_wf m → store_wf m'.
Proof.
  unfold core. intros E [H1 H2 H3 H4 H5 H6 H7 H8]. injection E as E1 E2 E3 E4 E5 E6.
  assert (ids m' = ids m) as Ei by (unfold ids; by rewrite E1).
  constructor; rewrite ?Ei, ?E1, ?E2, ?E3, ?E4, ?E5, ?E6; done.
Qed.

Section Invariant.
Context `{CRT : !Crates, UCA : !UnicodeCase}.

Lemma raise_alert_core now o month sent limit ts m :
  core (fold_left (raise_alert now o month sent limit) ts m) = core m.
Proof.
  revert m. induction ts as [|t ts IH]; intros m; cbn; [done|]. rewrite IH. unfold raise_alert.
  by destruct (decide _).
Qed.

Lemma count_outgoing_core server_id at_ m : core (count_outgoing server_id at_ m) = core m.
Proof.
  destruct (paying_organization m server_id) as [o|] eqn:E.
  - rewrite (count_outgoing_paid _ _ _ _ E), raise_alert_core. done.
  - by rewrite (count_outgoing_unpaid _ _ _ E).
Qed.

(** The message a send adds. *)
Lemma push_message_core now tok q m :
  core (push_message now tok q m).2
  = (mem_messages m ++ [(build_message_record now (tok (mem_next_id m)) (Z.of_N (mem_next_id m)) q).1],
     mem_message_deliveries m, mem_message_opens m, mem_message_clicks m, mem_message_campaigns m,
     (mem_next_id m + 1)%N).
Proof.
  unfold push_message, fresh_id. destruct (build_message_record _ _ _ _) as [record sent]. cbn [snd fst].
  set (m0 := m <| mem_next_id := _ |>).
  assert (core m0 = (mem_messages m, mem_message_deliveries m, mem_message_opens m, mem_message_clicks m,
    mem_message_campaigns m, (mem_next_id m + 1)%N)) as H0 by done.
  assert (core (if mr_scope record =b !"outgoing" then count_outgoing (mr_server_id record) (mr_created_at record) m0
                else m0) = core m0) as H1.
  { destruct (_ =b _); [apply count_outgoing_core|done]. }
  rewrite H0 in H1. unfold core in H1 |- *. injection H1 as E1 E2 E3 E4 E5 E6.
  cbn [mem_messages mem_message_deliveries]. 
  by rewrite <- E1, <- E2, <- E3, <- E4, <- E5, <- E6.
Qed.

Lemma push_message_wf now tok q m : store_wf m → store_wf (push_message now tok q m).2.
Proof.
  intros [H1 H2 H3 H4 H5 H6 H7 H8]. pose proof (push_message_core now tok q m) as E.
  generalize dependent (push_message now tok q m).2. intros m' E.
  unfold core in E. injection E as E1 E2 E3 E4 E5 E6.
  assert (ids m' = ids m ++ [Z.of_N (mem_next_id m)]) as Ei.
  { unfold ids. rewrite E1, map_app. done. }
  assert (∀ i, i ∈ ids m → i ∈ ids m ++ [Z.of_N (mem_next_id m)]) as Hsub by set_solver.
  constructor; rewrite ?Ei, ?E1, ?E2, ?E3, ?E4, ?E5, ?E6.
  - apply NoDup_app. split_and!; [done| |repeat constructor; set_solver].
    intros i Hi ->%list_elem_of_singleton. rewrite Forall_forall in H2. apply H2 in Hi. lia.
  - apply Forall_app. split; [eapply Forall_impl; [exact H2|]; cbn; lia|]. repeat constructor; lia.
  - lia.
  - eapply Forall_impl; [exact H4|]; auto.
  - eapply Forall_impl; [exact H5|]; auto.
  - eapply Forall_impl; [exact H6|]; auto.
  - apply Forall_app. split; [eapply Forall_impl; [exact H7|]; cbn; eauto|]. repeat constructor. done.
  - auto.
Qed.

Lemma insert_planned_wf now tok server_id l m :
  store_wf m → store_wf (insert_planned now tok server_id l m).2.
Proof.
  revert m. induction l as [|planned l IH]; intros m Hm; [done|]. cbn [insert_planned].
  set (m0 := match spm_unsubscribe_token planned with Some _ => _ | None => m end).
  assert (store_wf m0) as H0.
  { subst m0. destruct (spm_unsubscribe_token planned); [|done]. by eapply store_wf_core, Hm. }
  clearbody m0. apply (push_message_wf now tok (spm_message planned)) in H0.
  destruct (push_message _ _ _ m0) as [sent m1]. cbn [snd] in H0. apply IH in H0.
  by destruct (insert_planned _ _ _ _ _).
Qed.

Lemma insert_plan_wf now tok server_id plan m :
  store_wf m → store_wf (insert_plan now tok server_id plan m).2.
Proof.
  revert m. induction plan as [|item plan IH]; intros m Hm; [done|]. cbn [insert_plan].
  assert (∃ res m1, store_wf m1 ∧
    match item with
    | PlanMessages messages =>
        let '(sents, m) := insert_planned now tok server_id messages m in
        (ItemSuccess (mkStoredSendResult (sm_id <$> head sents) sents), m)
    | PlanError code message => (ItemError code message, m)
    end = (res, m1)) as (res & m1 & H1 & ->).
  { destruct item as [messages|code message]; [|by eexists _, _].
    pose proof (insert_planned_wf now tok server_id messages m Hm) as H1.
    destruct (insert_planned _ _ _ _ _) as [sents m1]. by eexists _, _. }
  apply IH in H1. by destruct (insert_plan _ _ _ _ _).
Qed.

Lemma insert_send_operation_wf now tok server_id plan idem m :
  store_wf m → store_wf (insert_send_operation now tok server_id plan idem m).2.
Proof.
  intros Hm. unfold insert_send_operation.
  assert (∀ m0, core m0 = core m → store_wf (insert_plan now tok server_id plan m0).2) as Hp.
  { intros m0 E. apply insert_plan_wf. by eapply store_wf_core, Hm. }
  assert (∀ r m0, core m0 = core m → store_wf
    (let '(response, m) := insert_plan now tok server_id plan m0 in
     (SendStored response, m <| mem_idempotency_requests := <[(server_id, ir_key_hash r) :=
        mkMemoryIdempotencyRecord (ir_request_hash r) (ir_operation r) response (ir_expires_at r)]>
        (mem_idempotency_requests m) |>)).2) as Hg.
  { intros r m0 E. specialize (Hp m0 E). destruct (insert_plan _ _ _ _ _). cbn [snd] in *.
    by eapply store_wf_core, Hp. }
  destruct idem as [r|].
  - destruct (mem_idempotency_requests m !! _) as [rec|]; [|by apply Hg].
    destruct (_ <? _)%Z; [by destruct (_ && _)|by apply Hg].
  - specialize (Hp m eq_refl). by destruct (insert_plan _ _ _ _ _).
Qed.

(** *** Updates of one message *)

Lemma update_first_elem {A} (P : A → bool) f l x :
  x ∈ update_first P f l → x ∈ l ∨ ∃ y, y ∈ l ∧ x = f y.
Proof.
  induction l as [|y l IH]; cbn; [by left|]. destruct (P y).
  - intros [->|?]%elem_of_cons; [right; exists y; split; [by left|done]|left; by right].
  - intros [->|[?|(z & ? & ->)]%IH]%elem_of_cons; [left; by left|left; by right|].
    right. exists z. split; [by right|done].
Qed.

Lemma update_first_map {A B} (P : A → bool) f (g : A → B) l :
  (∀ x, g (f x) = g x) → map g (update_first P f l) = map g l.
Proof. intros H. induction l as [|x l IH]; cbn; [done|]. destruct (P x); cbn; [by rewrite H|by rewrite IH]. Qed.

Lemma update_first_wf P f m :
  (∀ r, mr_id (f r) = mr_id r) →
  (∀ r o, mr_bounce_for_id (f r) = Some o → mr_bounce_for_id r = Some o ∨ o ∈ ids m) →
  store_wf m → store_wf (m <| mem_messages := update_first P f (mem_messages m) |>).
Proof.
  intros Hid Hb [H1 H2 H3 H4 H5 H6 H7 H8].
  assert (ids (m <| mem_messages := update_first P f (mem_messages m) |>) = ids m) as Ei.
  { unfold ids. cbn. by apply update_first_map. }
  constructor; rewrite ?Ei; try done. cbn. rewrite Forall_forall in H7 |- *.
  intros r [Hr|(y & Hy & ->)]%update_first_elem o Ho; [by eapply H7|].
  destruct (Hb y o Ho); [by eapply H7|done].
Qed.

Lemma add_row_wf {A} (row : Z * A) (rows : list (Z * A)) (m : MemoryStore) :
  row.1 ∈ ids m → Forall (λ r, r.1 ∈ ids m) rows → Forall (λ r, r.1 ∈ ids m) (rows ++ [row]).
Proof. intros. apply Forall_app. by repeat constructor. Qed.
End Invariant.

(** ** Retention *)

Definition expired_ids (older_than : datetime) (m : MemoryStore) : gset Z :=
  list_to_set (map mr_id (List.filter (λ r, (mr_created_at r <? older_than)%Z) (mem_messages m))).

(** A message with its reference to an expired original removed. *)
Definition unlinked (expired : gset Z) (r : MessageRecord) : MessageRecord :=
  match mr_bounce_for_id r with
  | Some original => if decide (original ∈ expired) then r <| mr_bounce_for_id := None |> else r
  | None => r
  end.

Lemma unlinked_fields expired r :
  mr_id (unlinked expired r) = mr_id r ∧ mr_created_at (unlinked expired r) = mr_created_at r ∧
  ∀ o, mr_bounce_for_id (unlinked expired r) = Some o → mr_bounce_for_id r = Some o ∧ o ∉ expired.
Proof.
  unfold unlinked. destruct (mr_bounce_for_id r) as [o|] eqn:E; [|by rewrite E].
  destruct (decide _); cbn; [done|]. rewrite E. split_and!; [done..|]. by intros ? [= <-].
Qed.

Lemma expired_spec t m i :
  i ∈ expired_ids t m ↔ ∃ r, r ∈ mem_messages m ∧ mr_id r = i ∧ (mr_created_at r < t)%Z.
Proof.
  unfold expired_ids. rewrite elem_of_list_to_set. split.
  - intros H. apply list_elem_of_In, List.in_map_iff in H as (r & <- & [Hr Ht]%List.filter_In).
    exists r. split_and!; [by apply list_elem_of_In|done|by apply Z.ltb_lt].
  - intros (r & Hr & <- & Ht). apply list_elem_of_In, List.in_map_iff. exists r. split; [done|].
    apply List.filter_In. split; [by apply list_elem_of_In|by apply Z.ltb_lt].
Qed.

(** What retention leaves, whether or not anything is expired. *)
Lemma prune_spec t m :
  let m' := (prune_messages_before t m).2 in
  let expired := expired_ids t m in
  mem_messages m' = List.filter (λ r, negb (bool_decide (mr_id r ∈ expired)))
                      (map (unlinked expired) (mem_messages m)) ∧
  (∀ row, row ∈ mem_message_deliveries m' ↔ row ∈ mem_message_deliveries m ∧ row.1 ∉ expired) ∧
  (∀ row, row ∈ mem_message_opens m' ↔ row ∈ mem_message_opens m ∧ row.1 ∉ expired) ∧
  (∀ row, row ∈ mem_message_clicks m' ↔ row ∈ mem_message_clicks m ∧ row.1 ∉ expired) ∧
  (∀ i, is_Some (mem_message_campaigns m' !! i) ↔ is_Some (mem_message_campaigns m !! i) ∧ i ∉ expired) ∧
  mem_next_id m' = mem_next_id m.
Proof.
  assert (∀ A (l : list (Z * A)) row,
    row ∈ List.filter (λ row, negb (bool_decide (row.1 ∈ expired_ids t m))) l ↔ row ∈ l ∧ row.1 ∉ expired_ids t m)
    as Hrows.
  { intros A l row. rewrite list_elem_of_In, List.filter_In, <- list_elem_of_In. case_bool_decide; cbn; intuition (done || discriminate). }
  cbn zeta. unfold prune_messages_before. fold (expired_ids t m).
  destruct (decide (expired_ids t m = ∅)) as [E|E]; cbn [snd].
  - rewrite E. split_and!; [|intros; split; [intros ?; split; [done|apply not_elem_of_empty]|by intros [? _]]..|done].
    clear. induction (mem_messages m) as [|r l IH]; cbn; [done|].
    assert (unlinked ∅ r = r) as ->.
    { unfold unlinked. destruct (mr_bounce_for_id r); [|done]. by rewrite decide_False by apply not_elem_of_empty. }
    rewrite bool_decide_false by apply not_elem_of_empty. cbn. by rewrite <- IH.
  - split_and!; [done|apply Hrows..| |done]. intros i. split.
    + intros [x [Hx Hi]%map_lookup_filter_Some]. split; [by exists x|done].
    + intros [[x Hx] Hi]. exists x. by apply map_lookup_filter_Some.
Qed.

Lemma pruned_elem t m r :
  r ∈ mem_messages (prune_messages_before t m).2 ↔
  ∃ r0, r0 ∈ mem_messages m ∧ r = unlinked (expired_ids t m) r0 ∧ mr_id r0 ∉ expired_ids t m.
Proof.
  destruct (prune_spec t m) as (-> & _). rewrite list_elem_of_In, List.filter_In, List.in_map_iff. split.
  - intros ((r0 & <- & H0) & H). exists r0. rewrite (proj1 (unlinked_fields _ r0)) in H.
    case_bool_decide; [done|]. by rewrite list_elem_of_In.
  - intros (r0 & H0 & -> & H). rewrite (proj1 (unlinked_fields _ r0)), bool_decide_false by done.
    split; [|done]. exists r0. by rewrite <- list_elem_of_In.
Qed.

Lemma pruned_ids t m i : i ∈ ids (prune_messages_before t m).2 ↔ i ∈ ids m ∧ i ∉ expired_ids t m.
Proof.
  unfold ids. rewrite !list_elem_of_In, !List.in_map_iff. setoid_rewrite <- list_elem_of_In. split.
  - intros (r & <- & (r0 & H0 & -> & H)%pruned_elem). rewrite (proj1 (unlinked_fields _ r0)).
    split; [|done]. by exists r0.
  - intros ((r0 & <- & H0) & H). exists (unlinked (expired_ids t m) r0).
    rewrite (proj1 (unlinked_fields _ r0)). split; [done|]. apply pruned_elem. by exists r0.
Qed.

Lemma prune_wf t m : store_wf m → store_wf (prune_messages_before t m).2.
Proof.
  intros [H1 H2 H3 H4 H5 H6 H7 H8].
  pose proof (pruned_ids t m) as Hi. pose proof (pruned_elem t m) as He.
  destruct (prune_spec t m) as (Em & Ed & Eo & Ec & Ek & En).
  generalize dependent (prune_messages_before t m).2. intros m' Hi He Em Ed Eo Ec Ek En.
  constructor; rewrite ?Forall_forall in *.
  - unfold ids. rewrite Em. clear - H1. unfold ids in H1. induction (mem_messages m) as [|r l IH]; cbn; [constructor|].
    inversion H1 as [|? ? Hn Hd]; subst. case_bool_decide; cbn; [by apply IH|]. constructor; [|by apply IH].
    rewrite (proj1 (unlinked_fields _ r)). intros Hin. apply Hn.
    apply list_elem_of_In, List.in_map_iff in Hin as (x & Hx & [Hin _]%List.filter_In).
    apply List.in_map_iff in Hin as (y & <- & Hy). rewrite (proj1 (unlinked_fields _ y)) in Hx. rewrite <- Hx.
    apply list_elem_of_In, List.in_map_iff. by exists y.
  - intros i [Hin _]%Hi. rewrite En. by apply H2.
  - by rewrite En.
  - intros row [Hr Hne]%Ed. apply Hi. auto.
  - intros row [Hr Hne]%Eo. apply Hi. auto.
  - intros row [Hr Hne]%Ec. apply Hi. auto.
  - intros r (r0 & H0 & -> & _)%He o Ho. destruct (unlinked_fields (expired_ids t m) r0) as (_ & _ & Hu).
    apply Hu in Ho as [Ho Hne]. apply Hi. split; [by eapply H7|done].
  - intros i [Hs Hne]%Ek. apply Hi. auto.
Qed.

Lemma nodup_map_inj {A B} (f : A → B) l x y : NoDup (map f l) → x ∈ l → y ∈ l → f x = f y → x = y.
Proof.
  induction l as [|z l IH]; cbn; intros Hnd Hx Hy E; [by apply elem_of_nil in Hx|].
  apply NoDup_cons in Hnd as [Hn Hnd].
  assert (∀ u, u ∈ l → f u ∈ map f l) as Hin.
  { intros u Hu. apply list_elem_of_In, List.in_map, list_elem_of_In, Hu. }
  apply elem_of_cons in Hx as [->|Hx], Hy as [->|Hy]; [done| | |by apply IH].
  - destruct Hn. rewrite E. by apply Hin.
  - destruct Hn. rewrite <- E. by apply Hin.
Qed.

(** ** Every reachable store *)

Section Steps.
Context `{CRT : !Crates, UCA : !UnicodeCase, IPN : !IpNetCrate}.

(** One operation on the store: sends, the read-model setters, retention, retries and
    the configuration tables. *)
Inductive store_step (m : MemoryStore) : MemoryStore → Prop :=
| st_insert now tok q : store_step m (insert_message_record now tok q m).2
| st_send now tok sid plan idem : store_step m (insert_send_operation now tok sid plan idem m).2
| st_prune t : store_step m (prune_messages_before t m).2
| st_prune_requests now : store_step m (prune_idempotency_requests_at now m).2
| st_status i status : store_step m (set_message_status i status m)
| st_bounce now i original : original ∈ ids m → store_step m (set_bounce_for_id now i original m)
| st_requeue_inbound sid i bypass : store_step m (requeue_inbound sid i bypass m).2
| st_requeue_outbound sid i : store_step m (requeue_outbound sid i m).2
| st_delivery i d : i ∈ ids m → store_step m (insert_delivery_record i d m)
| st_open i e : i ∈ ids m → store_step m (insert_open_record i e m)
| st_click i e : i ∈ ids m → store_step m (insert_click_record i e m)
| st_organization o : store_step m (insert_organization o m)
| st_server s : store_step m (insert_server s m)
| st_domain d : store_step m (insert_domain d m)
| st_route r : store_step m (insert_route r m)
| st_credential c : store_step m (insert_credential c m)
| st_sender a : store_step m (insert_sender_address a m)
| st_delete_organization i : store_step m (delete_organization i m).2
| st_delete_server i : store_step m (delete_server i m).2
| st_delete_domain i : store_step m (delete_domain i m).2
| st_credential_use now i : store_step m (mem_record_credential_use now m i).

Lemma store_step_wf m m' : store_step m m' → store_wf m → store_wf m'.
Proof.
  intros Hs Hm. destruct Hs; try (eapply store_wf_core, Hm; reflexivity).
  - by apply push_message_wf.
  - by apply insert_send_operation_wf.
  - by apply prune_wf.
  - apply update_first_wf; [|intros r o H; left|done].
    + intros r. by destruct (_ =b _).
    + destruct (_ =b _) in H; exact H.
  - apply update_first_wf; [done|intros r o H'; right|done]. cbn in H'. by injection H' as <-.
  - unfold requeue_inbound. destruct (List.find _ _); [|done]. apply update_first_wf; [|intros r' o H; left|done].
    + intros r'. by destruct bypass.
    + destruct bypass; exact H.
  - unfold requeue_outbound. destruct (List.find _ _) as [r|]; [|done].
    destruct (negb _); [done|]. destruct (bool_decide _); [done|].
    apply update_first_wf; [done|intros r' o H; by left|done].
  - destruct Hm. by constructor; try apply add_row_wf.
  - destruct Hm. by constructor; try apply add_row_wf.
  - destruct Hm. by constructor; try apply add_row_wf.
Qed.

Lemma memory_store_new_wf : store_wf memory_store_new.
Proof.
  constructor; cbn; try constructor. intros i [x H]. by rewrite lookup_empty in H.
Qed.

Lemma reachable_wf m : rtc store_step memory_store_new m → store_wf m.
Proof.
  intros H. pose proof memory_store_new_wf as H0. revert H0.
  induction H as [|m0 m1 m2 Hs _ IH]; [done|]. intros H0. by eapply IH, store_step_wf.
Qed.

(** In every store the operations can reach, message ids are distinct and below
    the next one to be drawn, every delivery, open, click and campaign row belongs to a
    message that exists, and every bounce that names its original names one that exists:
    neither retention nor retries leave a dangling reference. *)
Theorem reachable_store_wf m : rtc store_step memory_store_new m → store_wf m.
Proof. apply reachable_wf. Qed.

(** Retention is exact: every message older than the limit goes, with its
    deliveries; every other message stays, changed only by the loss of a reference to
    an expired original, with all of its deliveries; and the count returned is that of
    the messages gone. *)
Theorem retention_exact t m :
  rtc store_step memory_store_new m →
  let '(count, m') := prune_messages_before t m in
  count = N.of_nat (length (List.filter (λ r, mr_created_at r <? t)%Z (mem_messages m))) ∧
  (∀ r, r ∈ mem_messages m' ↔ ∃ r0, r0 ∈ mem_messages m ∧ (t <= mr_created_at r0)%Z ∧
                                    r = unlinked (expired_ids t m) r0) ∧
  (∀ row, row ∈ mem_message_deliveries m' ↔
     row ∈ mem_message_deliveries m ∧ ∃ r, r ∈ mem_messages m ∧ mr_id r = row.1 ∧ (t <= mr_created_at r)%Z).
Proof.
  intros Hwf%reachable_wf. destruct Hwf as [Hnd _ _ Hdl _ _ _ _].
  assert (∀ r, r ∈ mem_messages m → mr_id r ∈ expired_ids t m ↔ (mr_created_at r < t)%Z) as He.
  { intros r Hr. rewrite expired_spec. split; [|intros; by exists r]. intros (r' & Hr' & Hid & Ht).
    by rewrite <- (nodup_map_inj mr_id (mem_messages m) r' r). }
  assert ((prune_messages_before t m).1 = N.of_nat (size (expired_ids t m))) as Hc.
  { unfold prune_messages_before. fold (expired_ids t m). destruct (decide _) as [E|]; [|done].
    by rewrite E, size_empty. }
  pose proof (pruned_elem t m) as Hp. destruct (prune_spec t m) as (_ & Hd & _).
  destruct (prune_messages_before t m) as [count m']. cbn [fst snd] in *. subst count. split_and!.
  - unfold expired_ids. rewrite size_list_to_set; [by rewrite length_map|]. clear - Hnd. unfold ids in Hnd.
    induction (mem_messages m) as [|r l IH]; cbn; [constructor|]. apply NoDup_cons in Hnd as [Hn Hnd].
    destruct (_ <? _)%Z; [|by apply IH]. cbn. constructor; [|by apply IH]. intros Hin. apply Hn.
    apply list_elem_of_In, List.in_map_iff in Hin as (x & <- & [Hx _]%List.filter_In).
    by apply list_elem_of_In, List.in_map.
  - intros r. rewrite Hp. split; intros (r0 & H0 & H1 & H2); exists r0; (split; [done|]).
    + rewrite He in H2 by done. split; [lia|done].
    + split; [done|]. rewrite He by done. lia.
  - intros row. rewrite Hd. rewrite Forall_forall in Hdl. split; (intros [Hr H]; split; [done|]).
    + specialize (Hdl row Hr). unfold ids in Hdl. apply list_elem_of_In, List.in_map_iff in Hdl as (r & Hid & Hin).
      apply list_elem_of_In in Hin. exists r. split_and!; [done..|]. rewrite <- Hid, He in H by done. lia.
    + destruct H as (r & Hin & Hid & Ht). rewrite <- Hid, He by done. lia.
Qed.

Lemma foreign_message m r sid x :
  store_wf m → r ∈ mem_messages m → mr_server_id r ≠ sid → x ∈ mem_messages m →
  (mr_server_id x =? sid)%N && (mr_id x =? mr_id r)%Z = false.
Proof.
  intros [Hnd _ _ _ _ _ _ _] Hr Hs Hx. destruct (Z.eqb_spec (mr_id x) (mr_id r)) as [E|]; [|by rewrite andb_false_r].
  rewrite (nodup_map_inj mr_id _ x r Hnd Hx Hr E). by rewrite (proj2 (N.eqb_neq _ _) Hs).
Qed.

(** Tenants are separate: through the operations of one server a message of another
    server does not exist: it cannot be read, none of its rows can, and neither retry
    touches it. *)
Theorem tenant_isolation m r sid bypass :
  rtc store_step memory_store_new m → r ∈ mem_messages m → mr_server_id r ≠ sid →
  message_for m sid (mr_id r) = None ∧
  deliveries_for m sid (mr_id r) = [] ∧ opens_for m sid (mr_id r) = [] ∧ clicks_for m sid (mr_id r) = [] ∧
  requeue_inbound sid (mr_id r) bypass m = (None, m) ∧
  requeue_outbound sid (mr_id r) m = (NotFound, m).
Proof.
  intros Hwf%reachable_wf Hr Hs.
  assert (message_belongs_to m sid (mr_id r) = false) as Hb.
  { apply not_true_iff_false. intros (x & Hx & E)%List.existsb_exists. apply list_elem_of_In in Hx.
    by rewrite (foreign_message m r sid x Hwf Hr Hs Hx) in E. }
  assert (∀ scope, List.find (owned sid (mr_id r) scope) (mem_messages m) = None) as Hf.
  { intros scope. apply find_none_all. intros x Hx. unfold owned.
    pose proof (foreign_message m r sid x Hwf Hr Hs Hx) as E.
    destruct (mr_server_id x =? sid)%N, (mr_id x =? mr_id r)%Z; done. }
  unfold deliveries_for, opens_for, clicks_for, rows_for, requeue_inbound, requeue_outbound, message_for.
  rewrite Hb, !Hf. split_and!; try done. apply find_none_all. intros x Hx. by apply (foreign_message m).
Qed.
End Steps.

(** ** Witnesses *)

#[local] Existing Instance concrete_crates.
#[local] Existing Instance concrete_case.
#[local] Existing Instance concrete_ipnet.

Definition fx_message (server : Id) (rcpt : bytes) : QueuedMessage :=
  mkQueuedMessage server rcpt !"a@a.example" !"hi" true Outgoing false None None None None None None.

(** One message of each tenant, the first stored at time 0, the second at 10. *)
Definition fx_messages : MemoryStore :=
  (insert_message_record 10 (λ _, !"tok2") (fx_message 2 !"y@example.net")
    (insert_message_record 0 (λ _, !"tok1") (fx_message 1 !"x@example.net") memory_store_new).2).2.

Lemma fx_messages_reachable : rtc store_step memory_store_new fx_messages.
Proof.
  apply rtc_l with (insert_message_record 0 (λ _, !"tok1") (fx_message 1 !"x@example.net") memory_store_new).2;
    [apply st_insert|].
  apply rtc_once. apply st_insert.
Qed.

Definition fx_request (hash : bytes) : IdempotencyRequest := mkIdempotencyRequest !"key" hash !"send" 100.
Definition fx_plan : list SendPlanItem := [PlanMessages [mkSendPlanMessage (fx_message 1 !"x@example.net") None]].

Lemma idempotent_send_witness :
  let m1 := (insert_send_operation 0 (λ _, !"tok") 1 fx_plan (Some (fx_request !"h")) memory_store_new).2 in
  insert_send_operation 50 (λ _, !"tok'") 1 fx_plan (Some (fx_request !"h")) m1
  = (SendReplayed [ItemSuccess (mkStoredSendResult (Some 1%Z) [mkSentMessage 1 !"tok" !"x@example.net"])], m1).
Proof.
  cbn zeta. apply (idempotent_send 0 (λ _, !"tok") 1 fx_plan (fx_request !"h") memory_store_new
    [ItemSuccess (mkStoredSendResult (Some 1%Z) [mkSentMessage 1 !"tok" !"x@example.net"])]); [|reflexivity|reflexivity].
  vm_compute. reflexivity.
Defined.

Lemma reachable_store_wf_witness : store_wf fx_messages ∧ ids fx_messages = [1; 2]%Z.
Proof. split; [|vm_compute; reflexivity]. apply (reachable_store_wf _ fx_messages_reachable). Defined.

Lemma retention_exact_witness : ∃ m', prune_messages_before 5 fx_messages = (1%N, m') ∧ ids m' = [2]%Z ∧
  ∀ r, r ∈ mem_messages m' → (5 <= mr_created_at r)%Z.
Proof.
  exists (prune_messages_before 5 fx_messages).2.
  pose proof (retention_exact 5 fx_messages fx_messages_reachable) as H.
  split; [vm_compute; reflexivity|]. split; [vm_compute; reflexivity|].
  destruct (prune_messages_before 5 fx_messages) as [n m']. destruct H as (_ & H & _).
  intros r (r0 & _ & Ht & ->)%H. by rewrite (proj1 (proj2 (unlinked_fields _ r0))).
Defined.

Lemma tenant_isolation_witness : ∃ r, r ∈ mem_messages fx_messages ∧ mr_server_id r = 2%N ∧
  requeue_outbound 1 (mr_id r) fx_messages = (NotFound, fx_messages).
Proof.
  assert (∃ r, r ∈ mem_messages fx_messages ∧ mr_server_id r = 2%N) as (r & Hr & Hs).
  { eexists. split; [right; left|]; vm_compute; reflexivity. }
  exists r. split; [done|]. split; [done|].
  apply (tenant_isolation fx_messages r 1 false fx_messages_reachable Hr). rewrite Hs. discriminate.
Defined.
