(* ===== verification/DkimFacts.v ===== *)
(** * DkimFacts: what a verifier sees of a signed message *)

From S2P Require Import Prelude RustStr RustStrFacts Net Dkim Concrete.

(** ** Splitting a message with one more header in front *)

Lemma split_loop_acc lines pre headers current offset k :
  split_loop lines (pre ++ headers) current (k + offset)
  = let '(h, c, o) := split_loop lines headers current offset in (pre ++ h, c, k + o).
Proof.
  revert headers current offset. induction lines as [|line lines IH]; intros headers current offset; cbn; [done|].
  destruct (trim_end_matches _ _) as [|c text]; [by rewrite Nat.add_assoc|].
  rewrite <- Nat.add_assoc, <- app_assoc. destruct (is_wsp c); apply IH.
Qed.

(** The first line of a text does not continue a header. *)
Definition starts_header (raw : bytes) : Prop :=
  match raw with c :: _ => is_wsp c = false | [] => True end.

Lemma starts_header_line raw line lines c text :
  starts_header raw → split_inclusive (is_byte LF) raw = line :: lines →
  trim_end_matches is_crlf (from_utf8_lossy line) = c :: text → is_wsp c = false.
Proof.
  destruct raw as [|d raw]; [done|]. cbn [starts_header]. intros Hd E.
  destruct (split_inclusive_head (is_byte LF) d raw) as (l & ls & E'). rewrite E' in E. injection E as <- <-.
  destruct (lossy_head d l) as (x & t & -> & Hx).
  destruct (trim_end_matches_prefix is_crlf (x :: t)) as [[|k] ->]; [done|]. cbn. intros [= <- _].
  by destruct Hx as [->| ->].
Qed.

Lemma split_message_prepend h raw :
  Forall (λ c, is_crlf c = false) h → valid_utf8 h → starts_header h → h ≠ [] → starts_header raw →
  split_message (h ++ CRLF ++ raw) = (h :: (split_message raw).1, (split_message raw).2).
Proof.
  intros Hc Hu Hh Hne Hr. unfold split_message.
  assert (Forall (λ x, is_byte LF x = false) (h ++ [CR])) as Hlf.
  { apply Forall_app. split; [|by repeat constructor]. eapply Forall_impl; [exact Hc|]. intros c Hcr.
    unfold is_crlf in Hcr. apply orb_false_iff in Hcr as [_ Hcr]. unfold is_byte. by rewrite Ascii.eqb_sym. }
  assert (h ++ CRLF ++ raw = (h ++ [CR]) ++ LF :: raw) as -> by (by rewrite <- app_assoc).
  rewrite split_inclusive_app by done. cbn [split_loop].
  assert (trim_end_matches is_crlf (from_utf8_lossy ((h ++ [CR]) ++ [LF])) = h) as ->.
  { rewrite <- app_assoc. cbn [app]. rewrite lossy_app_ascii, Hu by done.
    rewrite trim_end_matches_app by (by repeat constructor). by apply trim_end_matches_id. }
  destruct h as [|c h]; [done|]. cbn [starts_header] in Hh. rewrite Hh. cbn [option_list app].
  set (n := length (((c :: h) ++ [CR]) ++ [LF])).
  assert (∀ x, drop (n + x) (((c :: h) ++ [CR]) ++ LF :: raw) = drop x raw) as Hdrop.
  { intros x. assert (((c :: h) ++ [CR]) ++ LF :: raw = (((c :: h) ++ [CR]) ++ [LF]) ++ raw) as ->
      by (by rewrite <- !app_assoc). by rewrite drop_app_add'. }
  destruct (split_inclusive (is_byte LF) raw) as [|line lines] eqn:El; cbn [split_loop].
  - f_equal. specialize (Hdrop 0). rewrite Nat.add_0_r in Hdrop. exact Hdrop.
  - destruct (trim_end_matches is_crlf (from_utf8_lossy line)) as [|d text] eqn:Et.
    + cbn. f_equal. apply Hdrop.
    + rewrite (starts_header_line raw line lines d text Hr El Et). cbn [option_list app].
      pose proof (split_loop_acc lines [c :: h] [] (Some (d :: text)) (length line) n) as E. cbn [app] in E.
      etransitivity; [exact (f_equal (λ r, let '(hs, cur, o) := r in
        (hs ++ option_list cur, drop o (((c :: h) ++ [CR]) ++ LF :: raw))) E)|]. rewrite Nat.add_0_l.
      change (option_list None) with (@nil bytes). destruct (split_loop lines [] _ _) as [[hs cur] o].
      by rewrite Hdrop.
Qed.

(** ** Signing *)

Section Sign.
Context {K : Type} `{UCA : !UnicodeCase, CRT : !Crates, SGN : !Signer K}.

Lemma canonicalize_dkim rest : ∃ value,
  canonicalize_header (!"DKIM-Signature: " ++ rest) = Some (!"dkim-signature", value).
Proof.
  unfold canonicalize_header.
  change (!"DKIM-Signature: " ++ rest) with (!"DKIM-Signature" ++ ":"%char :: SP :: rest).
  rewrite split_once_app by (vm_compute; by repeat constructor). cbn [mbind option_bind].
  change (trim !"DKIM-Signature") with !"DKIM-Signature". rewrite to_lowercase_ascii by done. by eexists.
Qed.

(** A signature header is not itself one of the signed headers. *)
Lemma select_headers_dkim rest headers :
  select_headers ((!"DKIM-Signature: " ++ rest) :: headers) = select_headers headers.
Proof.
  unfold select_headers. destruct (canonicalize_dkim rest) as [value E]. cbn [omap list_omap]. rewrite E.
  done.
Qed.

Lemma sign_shape raw domain selector signer timestamp : ∃ rest,
  sign raw domain selector signer timestamp = Some (!"DKIM-Signature: " ++ rest).
Proof.
  unfold sign. destruct (split_message raw) as [headers body]. unfold signing_input.
  destruct (canonicalize_dkim (unsigned_dkim domain selector timestamp (map fst (select_headers headers))
    (b64_encode (sha256 (canonicalize_body body))))) as [value ->]. cbn [mbind option_bind]. by eexists.
Qed.

(** signing is total (the [expect] never fails) and a verifier recovers exactly
    what was signed: when the signature is printable text and the message starts with a
    header or its body, splitting the signed message gives the signature header, then
    the original headers and body, so that the headers selected for the signature and
    the canonical body hash are those of the original message. *)
Theorem signature_verifies raw domain selector signer timestamp :
  ∃ header, sign raw domain selector signer timestamp = Some header ∧
    sign_and_prepend raw domain selector signer timestamp = Some (header ++ CRLF ++ raw) ∧
    (Forall (λ c, is_crlf c = false) header → valid_utf8 header → starts_header raw →
     let '(headers, body) := split_message (header ++ CRLF ++ raw) in
     headers = header :: (split_message raw).1 ∧ body = (split_message raw).2 ∧
     select_headers headers = select_headers (split_message raw).1).
Proof.
  destruct (sign_shape raw domain selector signer timestamp) as [rest Hs].
  exists (!"DKIM-Signature: " ++ rest). split; [exact Hs|].
  split; [unfold sign_and_prepend; by rewrite Hs|]. intros Hc Hu Hr.
  rewrite split_message_prepend by done. split_and!; [done..|]. apply select_headers_dkim.
Qed.
End Sign.

#[local] Existing Instance concrete_crates.
#[local] Existing Instance concrete_case.
#[local] Existing Instance concrete_signer.

(** The signed headers of a message in the order of the list, unfolded. *)
Example select_example :
  select_headers (split_message (!"Subject: a" ++ CRLF ++ !"  b" ++ CRLF ++ !"From:  x@y " ++ CRLF ++ CRLF ++ !"hi")).1
  = [(!"from", !"x@y"); (!"subject", !"a b")].
Proof. vm_compute. reflexivity. Qed.
