(* ===== verification/QueueFacts.v ===== *)
(** * QueueFacts: what a dequeue hands out, fairness, and exclusive delivery *)

From Stdlib Require Import Sorted.
From S2P Require Import Prelude RustStr RustStrFacts Net MemoryFacts Queue.

(** ** Orders *)

Lemma key_le_total a b : key_le a b = false → key_le b a = true.
Proof.
  unfold key_le. rewrite !orb_true_iff, !orb_false_iff, !andb_true_iff, !andb_false_iff.
  rewrite !orb_true_iff, !orb_false_iff, !andb_true_iff, !andb_false_iff, !Z.ltb_lt, !Z.ltb_ge, !Z.eqb_eq, !Z.eqb_neq,
    !Z.leb_le, !Z.leb_gt. lia.
Qed.

Lemma key_le_spec a b : key_le a b = true ↔
  (a.1.1 < b.1.1 ∨ (a.1.1 = b.1.1 ∧ (a.1.2 < b.1.2 ∨ (a.1.2 = b.1.2 ∧ a.2 <= b.2))))%Z.
Proof.
  unfold key_le. rewrite orb_true_iff, andb_true_iff, orb_true_iff, andb_true_iff, !Z.ltb_lt, !Z.eqb_eq, Z.leb_le. done.
Qed.

Lemma key_le_trans a b c : key_le a b = true → key_le b c = true → key_le a c = true.
Proof. rewrite !key_le_spec. lia. Qed.

Section Keyed.
Context {A : Type} (key : A → Z * Z * Z).

Lemma keyed_sorted l : StronglySorted (λ a b, key_le (key a) (key b) = true)
  (stable_sort (λ a b, key_le (key a) (key b)) l).
Proof.
  apply stable_sort_sorted; [intros a b; apply key_le_total|intros a b c; apply key_le_trans].
Qed.

(** The first of a sorted list is a least element. *)
Lemma keyed_head l x : head (stable_sort (λ a b, key_le (key a) (key b)) l) = Some x →
  x ∈ l ∧ ∀ y, y ∈ l → key_le (key x) (key y) = true.
Proof.
  intros H. pose proof (keyed_sorted l) as Hs. pose proof (stable_sort_perm (λ a b, key_le (key a) (key b)) l) as Hp.
  destruct (stable_sort _ l) as [|y s]; [done|]. injection H as ->. split; [rewrite <- Hp; by left|].
  intros z Hz. rewrite <- Hp in Hz. apply elem_of_cons in Hz as [->|Hz].
  - rewrite key_le_spec. lia.
  - apply StronglySorted_inv in Hs as [_ Hs]. rewrite Forall_forall in Hs. by apply Hs.
Qed.

Lemma keyed_head_None l : head (stable_sort (λ a b, key_le (key a) (key b)) l) = None ↔ l = [].
Proof.
  pose proof (stable_sort_perm (λ a b, key_le (key a) (key b)) l) as Hp. split; [|by intros ->].
  destruct (stable_sort _ l); [|done]. by apply Permutation_nil_l in Hp.
Qed.
End Keyed.

Lemma elem_of_filter_list {A} (P : A → bool) l x : x ∈ List.filter P l ↔ x ∈ l ∧ P x = true.
Proof. by rewrite !list_elem_of_In, List.filter_In. Qed.

Lemma elem_of_map_list {A B} (f : A → B) l y : y ∈ map f l ↔ ∃ x, x ∈ l ∧ y = f x.
Proof.
  rewrite list_elem_of_In, List.in_map_iff. setoid_rewrite list_elem_of_In. split; intros (x & H1 & H2); eauto.
Qed.

(** ** One lock statement *)

(** A row a worker may take: free, due, of its kind, and held by no transaction. *)
Definition pickable (p : PgQueue) (now : datetime) (busy : list Z) (server_id : Id) (r : QueuedMessageRow) : Prop :=
  q_server_id r = server_id ∧ lock_free (pq_stale_lock_days p) now r = true ∧ due now r = true ∧
  of_kind (pq_filter p) r = true ∧ q_id r ∉ busy.

Definition locked_table (r : QueuedMessageRow) (worker_id : bytes) (now : datetime) (t : QueueTable) : QueueTable :=
  t <| qt_rows := map (λ x, if (q_id x =? q_id r)%Z then lock_row worker_id now x else x) (qt_rows t) |>.

Lemma lock_first_spec p worker_id now busy server_id t :
  match lock_first p worker_id now busy server_id t with
  | Some (row, t') => ∃ r, r ∈ qt_rows t ∧ pickable p now busy server_id r ∧
      row = lock_row worker_id now r ∧ t' = locked_table r worker_id now t ∧
      ∀ r', r' ∈ qt_rows t → pickable p now busy server_id r' → bulk_then_id r r' = true
  | None => ∀ r, r ∈ qt_rows t → ¬ pickable p now busy server_id r
  end.
Proof.
  unfold lock_first.
  set (P r := (q_server_id r =? server_id)%N && lock_free (pq_stale_lock_days p) now r && due now r
               && of_kind (pq_filter p) r && negb (existsb (Z.eqb (q_id r)) busy)).
  assert (∀ r, P r = true ↔ pickable p now busy server_id r) as HP.
  { intros r. unfold P, pickable. rewrite !andb_true_iff, N.eqb_eq, negb_true_iff.
    assert (existsb (Z.eqb (q_id r)) busy = false ↔ q_id r ∉ busy) as ->; [|tauto].
    rewrite <- not_true_iff_false, List.existsb_exists. split; intros H H'; apply H.
    - exists (q_id r). rewrite <- list_elem_of_In. split; [done|by apply Z.eqb_eq].
    - destruct H' as (x & Hx & ->%Z.eqb_eq). by apply list_elem_of_In. }
  unfold bulk_then_id. fold P.
  destruct (head _) as [r|] eqn:E.
  - apply (keyed_head (λ r, (0, if q_bulk r then 1 else 0, q_id r)%Z)) in E as [Hin Hmin].
    apply elem_of_filter_list in Hin as [Hin Hr%HP]. exists r. split_and!; [done..|].
    intros r' Hr' Hp. apply Hmin, elem_of_filter_list. by rewrite HP.
  - apply (keyed_head_None (λ r, (0, if q_bulk r then 1 else 0, q_id r)%Z)) in E.
    intros r Hr Hp%HP. assert (r ∈ List.filter P (qt_rows t)) as H by (by apply elem_of_filter_list).
    rewrite E in H. by apply elem_of_nil in H.
Qed.

Lemma eligible_spec p now r : eligible p now r = true ↔
  pickable p now [] (q_server_id r) r ∧ serves (pq_filter p) (q_server_id r) = true.
Proof.
  unfold eligible, pickable. rewrite !andb_true_iff. pose proof (not_elem_of_nil (q_id r)). tauto.
Qed.

(** ** Candidates *)

Lemma min_id_spec rows : rows ≠ [] → ∃ r, r ∈ rows ∧ min_id rows = q_id r.
Proof.
  destruct rows as [|r0 rows]; [done|]. intros _. cbn [min_id]. revert r0.
  assert (∀ l m, fold_left (λ m r, Z.min m (q_id r)) l m = m
                 ∨ ∃ r, r ∈ l ∧ fold_left (λ m r, Z.min m (q_id r)) l m = q_id r) as H.
  { induction l as [|r l IH]; intros m; cbn; [by left|].
    destruct (IH (Z.min m (q_id r))) as [->|(r' & ? & ->)].
    - destruct (Z.min_spec m (q_id r)) as [[_ ->]|[_ ->]]; [by left|]. right. exists r. split; [by left|done].
    - right. exists r'. split; [by right|done]. }
  intros r0. destruct (H rows (q_id r0)) as [->|(r & ? & ->)]; [exists r0; split; [by left|done]|].
  exists r. split; [by right|done].
Qed.

(** The servers with eligible mail; the query lists at most 1000 of them. *)
Definition waiting_servers (p : PgQueue) (now : datetime) (t : QueueTable) : list Id :=
  remove_dups (map q_server_id (List.filter (eligible p now) (qt_rows t))).

Lemma waiting_servers_elem p now t s :
  s ∈ waiting_servers p now t ↔ ∃ r, r ∈ qt_rows t ∧ eligible p now r = true ∧ q_server_id r = s.
Proof.
  unfold waiting_servers. rewrite elem_of_remove_dups, elem_of_map_list. setoid_rewrite elem_of_filter_list.
  split; [intros (r & [? ?] & ->)|intros (r & ? & ? & <-)]; by exists r.
Qed.

Lemma candidates_servers p now t s :
  s ∈ map cd_server_id (candidates p now t) → s ∈ waiting_servers p now t.
Proof.
  intros (c & Hc & ->)%elem_of_map_list. unfold candidates in Hc.
  assert (∀ {A} n (l : list A) x, x ∈ take n l → x ∈ l) as Htake.
  { intros A n l x Hx. rewrite <- (take_drop n l). apply elem_of_app. by left. }
  apply Htake in Hc. rename Hc into Hi. rewrite stable_sort_perm in Hi. by apply elem_of_map_list in Hi as (s & Hs & ->).
Qed.

Lemma candidates_complete p now t :
  length (waiting_servers p now t) <= N.to_nat 1000 →
  map cd_server_id (candidates p now t) ≡ₚ waiting_servers p now t.
Proof.
  intros Hl. unfold candidates. rewrite firstn_all2.
  - rewrite stable_sort_perm, List.map_map. cbn. by rewrite List.map_id.
  - rewrite stable_sort_perm, length_map. exact Hl.
Qed.

Lemma turn_order_perm cs last : turn_order cs last ≡ₚ map cd_server_id cs.
Proof. unfold turn_order. by rewrite stable_sort_perm. Qed.

(** ** The dequeue *)

Lemma try_servers_spec p worker_id now busy servers t :
  match try_servers p worker_id now busy servers t with
  | (Some row, p', t') => ∃ before s after r, servers = before ++ s :: after ∧
      (∀ s' r', s' ∈ before → r' ∈ qt_rows t → ¬ pickable p now busy s' r') ∧
      r ∈ qt_rows t ∧ pickable p now busy s r ∧ row = lock_row worker_id now r ∧
      t' = locked_table r worker_id now t ∧ p' = (p <| pq_turns := served s (pq_turns p) |>) ∧
      (∀ r', r' ∈ qt_rows t → pickable p now busy s r' → bulk_then_id r r' = true)
  | (None, p', t') => p' = p ∧ t' = t ∧ ∀ s r, s ∈ servers → r ∈ qt_rows t → ¬ pickable p now busy s r
  end.
Proof.
  induction servers as [|s servers IH]; cbn [try_servers].
  - split_and!; [done..|]. intros s r Hs. by apply elem_of_nil in Hs.
  - pose proof (lock_first_spec p worker_id now busy s t) as Hl.
    destruct (lock_first p worker_id now busy s t) as [[row t']|].
    + destruct Hl as (r & ? & ? & -> & -> & ?). exists [], s, servers, r. split_and!; try done.
      intros s' r' Hs'. by apply elem_of_nil in Hs'.
    + destruct (try_servers p worker_id now busy servers t) as [[[row|] p'] t'].
      * destruct IH as (b & s0 & a & r & -> & Hb & H). exists (s :: b), s0, a, r. split; [done|].
        split; [|exact H]. intros s' r' [->|Hs']%elem_of_cons Hr'; [by apply Hl|by eapply Hb].
      * destruct IH as (-> & -> & IH). split_and!; [done..|].
        intros s' r [->|Hs']%elem_of_cons Hr'; [by apply Hl|by eapply IH].
Qed.

Lemma pickable_nil p now busy s r : pickable p now busy s r → pickable p now [] s r.
Proof. intros (? & ? & ? & ? & ?). split_and!; [done..|apply not_elem_of_nil]. Qed.

Lemma sorted_before {A} (le : A → A → Prop) (b : list A) c a d :
  StronglySorted le (b ++ c :: a) → d ∈ b ++ c :: a → d ∉ b → d = c ∨ le c d.
Proof.
  induction b as [|x b IH]; cbn; intros Hs Hd Hb.
  - apply StronglySorted_inv in Hs as [_ Hf]. rewrite Forall_forall in Hf.
    apply elem_of_cons in Hd as [->|Hd]; [by left|right; by apply Hf].
  - apply StronglySorted_inv in Hs as [Hs _]. apply not_elem_of_cons in Hb as [Hx Hb].
    apply elem_of_cons in Hd as [->|Hd]; [done|]. by apply IH.
Qed.

Lemma map_app_split {A B} (f : A → B) l b s a : map f l = b ++ s :: a →
  ∃ lb c la, l = lb ++ c :: la ∧ map f lb = b ∧ f c = s ∧ map f la = a.
Proof.
  revert b. induction l as [|x l IH]; intros [|y b] H; cbn in H; try discriminate.
  - injection H as <- <-. by exists [], x, l.
  - injection H as <- H. destruct (IH b H) as (lb & c & la & -> & <- & <- & <-). by exists (x :: lb), c, la.
Qed.

(** The candidate that describes a waiting server. *)
Lemma candidates_in_flight p now t c : c ∈ candidates p now t →
  cd_in_flight c = in_flight (pq_stale_lock_days p) now (qt_rows t) (cd_server_id c).
Proof.
  unfold candidates. intros Hc.
  assert (∀ {A} n (l : list A) x, x ∈ take n l → x ∈ l) as Htake.
  { intros A n l x Hx. rewrite <- (take_drop n l). apply elem_of_app. by left. }
  apply Htake in Hc. rename Hc into Hi. rewrite stable_sort_perm in Hi. by apply elem_of_map_list in Hi as (s & Hs & ->).
Qed.

(** A dequeue serves a server with a smallest turn key among those that have a row
    to take. *)
Lemma dequeue_turn p worker_id now busy t row p' t' c :
  dequeue p worker_id now busy t = (Some row, p', t') →
  c ∈ candidates p now t →
  (∃ r, r ∈ qt_rows t ∧ pickable p now busy (cd_server_id c) r) →
  ∃ c0, c0 ∈ candidates p now t ∧ cd_server_id c0 = q_server_id row ∧
    p' = (p <| pq_turns := served (q_server_id row) (pq_turns p) |>) ∧
    key_le (turn_key (last_served (pq_turns p)) c0) (turn_key (last_served (pq_turns p)) c) = true.
Proof.
  intros Hd Hc (r1 & Hr1 & Hp1). unfold dequeue in Hd.
  pose proof (try_servers_spec p worker_id now busy (turn_order (candidates p now t) (last_served (pq_turns p))) t) as H.
  rewrite Hd in H. destruct H as (b & s & a & r & Hs & Hb & Hr & Hp & -> & -> & -> & _).
  unfold turn_order in Hs.
  pose proof (keyed_sorted (turn_key (last_served (pq_turns p))) (candidates p now t)) as Hss.
  pose proof (stable_sort_perm (λ a b, key_le (turn_key (last_served (pq_turns p)) a)
    (turn_key (last_served (pq_turns p)) b)) (candidates p now t)) as Hperm.
  apply map_app_split in Hs as (lb & c0 & la & Hsp & <- & <- & <-). rewrite Hsp in Hss, Hperm.
  assert (q_server_id (lock_row worker_id now r) = cd_server_id c0) as Hsid by apply Hp.
  exists c0. rewrite Hsid. split_and!; [|done|done|].
  - rewrite <- Hperm. apply elem_of_app. right. by left.
  - rewrite <- Hperm in Hc. destruct (sorted_before _ lb c0 la c Hss Hc) as [->|H]; [|rewrite key_le_spec; lia|exact H].
    intros Hin. apply (Hb (cd_server_id c) r1); [|done|done]. apply elem_of_map_list. by exists c.
Qed.

Lemma dequeue_cases p worker_id now busy t :
  match dequeue p worker_id now busy t with
  | (Some row, p', t') => ∃ r, r ∈ qt_rows t ∧ eligible p now r = true ∧ (q_id r ∉ busy) ∧
      row = lock_row worker_id now r ∧ t' = locked_table r worker_id now t ∧
      p' = (p <| pq_turns := served (q_server_id r) (pq_turns p) |>) ∧
      (∀ r', r' ∈ qt_rows t → eligible p now r' = true → q_server_id r' = q_server_id r → q_id r' ∉ busy →
        bulk_then_id r r' = true)
  | (None, p', t') => p' = p ∧ t' = t ∧
      (length (waiting_servers p now t) <= N.to_nat 1000 →
       ∀ r, r ∈ qt_rows t → eligible p now r = true → q_id r ∈ busy)
  end.
Proof.
  pose proof (try_servers_spec p worker_id now busy (turn_order (candidates p now t) (last_served (pq_turns p))) t) as H.
  unfold dequeue. destruct (try_servers _ _ _ _ _ _) as [[[row|] p'] t'].
  - destruct H as (b & s & a & r & Hs & _ & Hr & Hp & -> & -> & -> & Hmin). exists r.
    assert (s ∈ waiting_servers p now t) as Hw.
    { apply candidates_servers. rewrite <- (turn_order_perm _ (last_served (pq_turns p))), Hs. apply elem_of_app. right. by left. }
    apply waiting_servers_elem in Hw as (r0 & _ & He & Hs0).
    pose proof Hp as (<- & ? & ? & ? & Hbusy).
    split_and!; [done| |done..|].
    + apply eligible_spec. split; [by eapply pickable_nil|]. rewrite <- Hs0. by apply eligible_spec in He as [_ ?].
    + intros r' Hr' [(? & ? & ? & ? & _) _]%eligible_spec Hsv Hb'. apply Hmin; [done|]. split_and!; try done.
  - destruct H as (-> & -> & Hn). split_and!; [done..|]. intros Hl r Hr He.
    destruct (decide (q_id r ∈ busy)) as [|Hb]; [done|]. exfalso.
    apply (Hn (q_server_id r) r); [|done|].
    + rewrite turn_order_perm, candidates_complete by done. apply waiting_servers_elem. by exists r.
    + apply eligible_spec in He as [(? & ? & ? & ? & _) _]. split_and!; done.
Qed.

(** A dequeue hands out an eligible row that no open transaction holds, the first
    of its server by kind and id, and changes nothing but the lock of that row and
    the turn of its server.  While at most 1000 servers wait it returns nothing
    only when every eligible row is held. *)
Theorem dequeue_spec p worker_id now busy t :
  match dequeue p worker_id now busy t with
  | (Some row, p', t') => ∃ r, r ∈ qt_rows t ∧ eligible p now r = true ∧ (q_id r ∉ busy) ∧
      row = lock_row worker_id now r ∧ t' = locked_table r worker_id now t ∧
      p' = (p <| pq_turns := served (q_server_id r) (pq_turns p) |>) ∧
      (∀ r', r' ∈ qt_rows t → eligible p now r' = true → q_server_id r' = q_server_id r → q_id r' ∉ busy →
        bulk_then_id r r' = true)
  | (None, p', t') => p' = p ∧ t' = t ∧
      (length (waiting_servers p now t) <= N.to_nat 1000 →
       ∀ r, r ∈ qt_rows t → eligible p now r = true → q_id r ∈ busy)
  end.
Proof. apply dequeue_cases. Qed.

(** ** Taking turns *)

(** Every recorded turn is older than the counter, which stays below [2^64]. *)
Definition turns_ok (n : N) (tn : Turns) : Prop :=
  (∀ s k, tn_last tn !! s = Some k → (k < tn_counter tn)%N) ∧
  (tn_counter tn + n < 18446744073709551616)%N ∧ (N.of_nat (size (tn_last tn)) + n <= 10000)%N.

Lemma turns_ok_default : turns_ok 10000 turns_default.
Proof. split_and!; [intros s k; cbn; rewrite lookup_empty; done|done|done]. Qed.

Lemma served_lookup n tn s : turns_ok (N.succ n) tn →
  turns_ok n (served s tn) ∧ tn_last (served s tn) = <[s := tn_counter tn]> (tn_last tn) ∧
  tn_counter (served s tn) = (tn_counter tn + 1)%N.
Proof.
  intros (H1 & H2 & H3). unfold served.
  destruct (N.ltb_spec 10000 (N.of_nat (size (tn_last tn)))); [lia|]. cbn [tn_last tn_counter].
  rewrite N.mod_small by lia. split_and!; [|done..]. split_and!; cbn [tn_last tn_counter]; [|lia|].
  - intros s' k [[_ <-]|[_ Hk]]%lookup_insert_Some; [lia|]. apply H1 in Hk. lia.
  - pose proof (map_size_insert s (tn_counter tn) (tn_last tn)). destruct (tn_last tn !! s); cbn in *; lia.
Qed.

(** The dequeues of one worker, each on the table as it is then. *)
Fixpoint dequeues (p : PgQueue) (worker_id : bytes) (moments : list (datetime * QueueTable)) :
    list (option Id) * PgQueue :=
  match moments with
  | [] => ([], p)
  | (now, t) :: rest =>
      let '(row, p, _) := dequeue p worker_id now [] t in
      let '(out, p) := dequeues p worker_id rest in
      (option_map q_server_id row :: out, p)
  end.

(** A server waits its turn: it has eligible mail and no more in flight than any
    other, among at most 1000 servers. *)
Definition waits (f : PgQueue) (s : Id) (m : datetime * QueueTable) : Prop :=
  let '(now, t) := m in
  s ∈ waiting_servers f now t ∧ length (waiting_servers f now t) <= N.to_nat 1000 ∧
  ∀ s', (in_flight (pq_stale_lock_days f) now (qt_rows t) s
         <= in_flight (pq_stale_lock_days f) now (qt_rows t) s')%Z.

Definition behind (a b : Id) (tn : Turns) : Prop :=
  ∃ ka, tn_last tn !! a = Some ka ∧ ∀ kb, tn_last tn !! b = Some kb → (kb < ka)%N.

Lemma behind_served n a b s tn : turns_ok (N.succ n) tn → behind a b tn → s ≠ b → behind a b (served s tn).
Proof.
  intros Hok (ka & Ha & Hb) Hs. destruct (served_lookup n tn s Hok) as (_ & Hl & _). destruct Hok as (H1 & _).
  unfold behind. rewrite Hl. setoid_rewrite (lookup_insert_ne _ s b) at 1; [|done].
  destruct (decide (s = a)) as [->|Hsa].
  - rewrite lookup_insert_eq. exists (tn_counter tn). split; [done|]. intros kb Hk. by apply H1 in Hk.
  - rewrite lookup_insert_ne by done. by exists ka.
Qed.

Lemma behind_after n a b tn : turns_ok (N.succ n) tn → a ≠ b → behind a b (served a tn).
Proof.
  intros Hok Hab. destruct (served_lookup n tn a Hok) as (_ & Hl & _). destruct Hok as (H1 & _).
  unfold behind. rewrite Hl, lookup_insert_eq. setoid_rewrite (lookup_insert_ne _ a b) at 1; [|done].
  exists (tn_counter tn). split; [done|]. intros kb Hk. by apply H1 in Hk.
Qed.

(** While [b] waits, a dequeue serves some server, and not one behind which [b] is. *)
Lemma waiting_step p worker_id b m :
  waits p b m → ∃ row t', dequeue p worker_id m.1 [] m.2 =
    (Some row, p <| pq_turns := served (q_server_id row) (pq_turns p) |>, t') ∧
    ¬ behind (q_server_id row) b (pq_turns p).
Proof.
  destruct m as [now t]. intros (Hw & Hlen & Hmin). cbn [fst snd].
  pose proof (dequeue_cases p worker_id now [] t) as H. pose proof (dequeue_turn p worker_id now [] t) as Ht.
  pose proof Hw as (r & Hr & He & Hrs)%waiting_servers_elem.
  destruct (dequeue p worker_id now [] t) as [[[row|] p'] t'].
  - assert (b ∈ map cd_server_id (candidates p now t)) as Hb by (by rewrite candidates_complete).
    apply elem_of_map_list in Hb as (c & Hc & ->).
    destruct (Ht row p' t' c eq_refl Hc) as (c0 & Hc0 & Hs0 & -> & Hle).
    { exists r. split; [done|]. rewrite <- Hrs. by apply eligible_spec in He as [? _]. }
    exists row, t'. split; [done|]. intros (ka & Ha & Hb).
    apply key_le_spec in Hle. unfold turn_key, last_served in Hle. cbn [fst snd] in Hle.
    rewrite (candidates_in_flight _ _ _ _ Hc), (candidates_in_flight _ _ _ _ Hc0), Hs0, Ha in Hle.
    specialize (Hmin (q_server_id row)). destruct (tn_last (pq_turns p) !! cd_server_id c) as [kb|] eqn:Ek; [specialize (Hb kb eq_refl)|]; lia.
  - destruct H as (_ & _ & Hn). specialize (Hn Hlen r Hr He). by apply elem_of_nil in Hn.
Qed.

Lemma overtaken a b ms p worker_id outs :
  turns_ok (N.of_nat (length ms)) (pq_turns p) → a ≠ b → behind a b (pq_turns p) → Forall (waits p b) ms →
  (dequeues p worker_id ms).1 = outs ++ [Some a] → Some b ∈ outs.
Proof.
  revert p outs. induction ms as [|[now t] ms IH]; intros p outs Hok Hab Hbeh Hw Hout; cbn [dequeues] in Hout.
  { by destruct outs. }
  apply Forall_cons in Hw as [Hm Hw]. destruct (waiting_step p worker_id b (now, t) Hm) as (row & t' & Hd & Hnb).
  cbn [fst snd] in Hd. rewrite Hd in Hout.
  set (p1 := p <| pq_turns := served (q_server_id row) (pq_turns p) |>) in *.
  destruct (dequeues p1 worker_id ms) as [out p2] eqn:E. cbn [fst option_map] in Hout.
  destruct outs as [|o outs]; cbn [app] in Hout; injection Hout as H1 H2.
  - exfalso. apply Hnb. by rewrite H1.
  - subst o. destruct (decide (q_server_id row = b)) as [->|Hsb]; [by left|]. right.
    cbn [length] in Hok. rewrite Nat2N.inj_succ in Hok.
    apply (IH p1); [by apply (served_lookup _ _ _ Hok)|done|by eapply behind_served|exact Hw|by rewrite E].
Qed.

(** C33: A worker takes turns: between two dequeues that serve server [a], a server [b]
    is served, provided that at every dequeue from the first on [b] has a row to
    deliver and no more in flight than any other server, that at most 1000 servers wait
    (the [LIMIT] of the statement that lists them), that no other open transaction
    holds rows of the queue (no row is skipped as busy), and that the turns remembered
    and the dequeues together are at most 10000 (beyond which the worker forgets the
    turns) with a counter that does not wrap. *)
Theorem round_robin p worker_id a b m0 ms outs :
  turns_ok (N.of_nat (S (length ms))) (pq_turns p) → a ≠ b → Forall (waits p b) (m0 :: ms) →
  (dequeues p worker_id (m0 :: ms)).1 = Some a :: outs ++ [Some a] → Some b ∈ outs.
Proof.
  intros Hok Hab Hw Hout. apply Forall_cons in Hw as [Hm Hw]. destruct m0 as [now t].
  destruct (waiting_step p worker_id b (now, t) Hm) as (row & t' & Hd & _). cbn [dequeues fst snd] in *. rewrite Hd in Hout.
  set (p1 := p <| pq_turns := served (q_server_id row) (pq_turns p) |>) in *.
  destruct (dequeues p1 worker_id ms) as [out p2] eqn:E. cbn [fst option_map] in Hout. injection Hout as H1 H2.
  rewrite Nat2N.inj_succ in Hok. rewrite <- H1 in *.
  apply (overtaken (q_server_id row) b ms p1 worker_id); [by apply (served_lookup _ _ _ Hok)|done
    |by eapply behind_after|exact Hw|by rewrite E].
Qed.

(** ** Exclusive delivery

    Workers of one stale-lock window interleave their statements on the table; a
    worker holds the row its lock statement returned until it completes or retries
    it, or crashes.  [clear_backoff], a helper of the tests, is not a step. *)

Record Fleet := mkFleet { fl_now : datetime; fl_table : QueueTable; fl_held : list (bytes * QueuedMessageRow) }.

Definition locked_since (row : QueuedMessageRow) : datetime := default 0%Z (q_locked_at row).
Definition fresh (stale_days : Z) (now : datetime) (row : QueuedMessageRow) : Prop :=
  (now - days stale_days <= locked_since row)%Z.

(** [careful] says whether a worker settles a row only while its lock is fresh;
    the code does not ask. *)
Inductive fleet_step (stale_days : Z) (careful : bool) : Fleet → Fleet → Prop :=
| fleet_time d f : (0 <= d)%Z →
    fleet_step stale_days careful f (mkFleet (fl_now f + d) (fl_table f) (fl_held f))
| fleet_enqueue message_id server_id domain bulk f :
    fleet_step stale_days careful f
      (mkFleet (fl_now f) (enqueue_with_kind message_id server_id domain bulk (fl_table f)).2 (fl_held f))
| fleet_lock p worker_id busy server_id row t' f :
    pq_stale_lock_days p = stale_days →
    lock_first p worker_id (fl_now f) busy server_id (fl_table f) = Some (row, t') →
    fleet_step stale_days careful f (mkFleet (fl_now f) t' ((worker_id, row) :: fl_held f))
| fleet_complete before worker_id row after owner f :
    fl_held f = before ++ (worker_id, row) :: after →
    (careful = true → fresh stale_days (fl_now f) row) →
    fleet_step stale_days careful f
      (mkFleet (fl_now f) (complete_message (q_id row) owner (fl_table f)) (before ++ after))
| fleet_retry before worker_id row after owner f :
    fl_held f = before ++ (worker_id, row) :: after →
    (careful = true → fresh stale_days (fl_now f) row) →
    fleet_step stale_days careful f
      (mkFleet (fl_now f) (retry_message (fl_now f) (q_id row) (q_attempts row) owner (fl_table f)) (before ++ after))
| fleet_crash before held after f :
    fl_held f = before ++ held :: after →
    fleet_step stale_days careful f (mkFleet (fl_now f) (fl_table f) (before ++ after)).

Definition fleet_start (now : datetime) (t : QueueTable) : Fleet := mkFleet now t [].

(** Two holders of one row never both hold it freshly. *)
Definition exclusive (stale_days : Z) (f : Fleet) : Prop :=
  ∀ i j w1 r1 w2 r2, fl_held f !! i = Some (w1, r1) → fl_held f !! j = Some (w2, r2) →
    q_id r1 = q_id r2 → fresh stale_days (fl_now f) r1 → fresh stale_days (fl_now f) r2 → i = j.

(** The lock of a fresh holder is the one in the table, in every row of that id. *)
Definition backed (stale_days : Z) (f : Fleet) : Prop :=
  ∀ w r, (w, r) ∈ fl_held f →
    (locked_since r <= fl_now f)%Z ∧
    (fresh stale_days (fl_now f) r → ∀ x, x ∈ qt_rows (fl_table f) → q_id x = q_id r →
       is_Some (q_locked_by x) ∧ q_locked_at x = Some (locked_since r)) ∧
    (q_id r < qt_next (fl_table f))%Z.

Definition ids_below (t : QueueTable) : Prop := ∀ x, x ∈ qt_rows t → (q_id x < qt_next t)%Z.
Definition fleet_inv (stale_days : Z) (f : Fleet) : Prop :=
  exclusive stale_days f ∧ backed stale_days f ∧ ids_below (fl_table f).

Lemma held_removed {A} (b : list A) x a y : y ∈ b ++ a → y ∈ b ++ x :: a.
Proof. rewrite !elem_of_app, elem_of_cons. tauto. Qed.

(** Removing a holder keeps the indices of the others distinct. *)
Lemma exclusive_removed sd now t t' b x a now' : (now <= now')%Z →
  exclusive sd (mkFleet now t (b ++ x :: a)) → exclusive sd (mkFleet now' t' (b ++ a)).
Proof.
  intros Hn He i j w1 r1 w2 r2 Hi Hj Hid Hf1 Hf2. unfold exclusive in He. cbn [fl_held fl_now] in *.
  set (up k := if decide (k < length b) then k else S k).
  assert (∀ k v, (b ++ a) !! k = Some v → (b ++ x :: a) !! up k = Some v) as Hup.
  { intros k v. unfold up. destruct (decide (k < length b)) as [|Hk].
    - by rewrite !lookup_app_l by done.
    - rewrite !lookup_app_r by lia. by replace (S k - length b) with (S (k - length b)) by lia. }
  assert (up i = up j) as Hu.
  { apply (He (up i) (up j) w1 r1 w2 r2); [by apply Hup|by apply Hup|done|unfold fresh in *; lia|unfold fresh in *; lia]. }
  unfold up in Hu. do 2 destruct (decide _); lia.
Qed.

(** A statement that touches only the rows of one id keeps the locks of the others
    [backed]; the holders of that id are gone or stale. *)
Lemma settle_inv sd now t t' b w r a : fleet_inv sd (mkFleet now t (b ++ (w, r) :: a)) →
  fresh sd now r → qt_next t' = qt_next t →
  (∀ x, x ∈ qt_rows t' → (∃ y, y ∈ qt_rows t ∧ q_id y = q_id x) ∧ (q_id x ≠ q_id r → x ∈ qt_rows t)) →
  fleet_inv sd (mkFleet now t' (b ++ a)).
Proof.
  intros (He & Hb & Hi) Hf Hn Ht. split_and!.
  - by eapply exclusive_removed.
  - intros w' r' Hin. cbn [fl_now fl_table fl_held] in *.
    destruct (Hb w' r') as (H1 & H2 & H3); [by apply held_removed|]. cbn [fl_now fl_table] in *.
    split_and!; [done| |by rewrite Hn]. intros Hf' x Hx Hid. apply H2; [done| |done]. apply Ht; [done|].
    rewrite Hid. intros Heq. apply list_elem_of_lookup in Hin as [i Hin].
    destruct (decide (i < length b)) as [Hl|Hl].
    + assert (i = length b) as ->; [|lia]. eapply (He i (length b)); cbn [fl_held fl_now].
      * rewrite lookup_app_l in Hin |- * by done. exact Hin.
      * by rewrite lookup_app_r, Nat.sub_diag by done.
      * done. * done. * done.
    + assert (S i = length b); [|lia]. eapply (He (S i) (length b)); cbn [fl_held fl_now].
      * rewrite lookup_app_r in Hin |- * by lia. replace (S i - length b) with (S (i - length b)) by lia. exact Hin.
      * by rewrite lookup_app_r, Nat.sub_diag by done.
      * done. * done. * done.
  - intros x Hx. cbn [fl_table]. rewrite Hn. destruct (Ht x Hx) as [(y & Hy & <-) _]. by apply Hi.
Qed.

Lemma lock_inv sd p f worker_id busy server_id row t' :
  pq_stale_lock_days p = sd → lock_first p worker_id (fl_now f) busy server_id (fl_table f) = Some (row, t') →
  fleet_inv sd f → fleet_inv sd (mkFleet (fl_now f) t' ((worker_id, row) :: fl_held f)).
Proof.
  intros <- Hl (He & Hb & Hi). destruct f as [now t held]. cbn [fl_now fl_table fl_held] in *.
  pose proof (lock_first_spec p worker_id now busy server_id t) as H. rewrite Hl in H.
  destruct H as (r & Hr & (_ & Hfree & _) & -> & -> & _).
  assert (∀ w r', (w, r') ∈ held → q_id r' = q_id r → ¬ fresh (pq_stale_lock_days p) now r') as Hothers.
  { intros w r' Hin Hid Hf. destruct (Hb w r' Hin) as (_ & H2 & _). cbn [fl_now fl_table] in H2.
    destruct (H2 Hf r Hr (eq_sym Hid)) as [[by_ Hby] Hat]. unfold lock_free in Hfree. rewrite Hby, Hat in Hfree.
    apply Z.ltb_lt in Hfree. unfold fresh in Hf. lia. }
  split_and!.
  - intros [|i] [|j] w1 r1 w2 r2 Hi1 Hj2 Hid Hf1 Hf2; cbn [fl_held fl_now] in *; cbn in Hi1, Hj2.
    + done.
    + injection Hi1 as <- <-. exfalso. eapply Hothers; [eapply list_elem_of_lookup_2; exact Hj2|by rewrite <- Hid|exact Hf2].
    + injection Hj2 as <- <-. exfalso. eapply Hothers; [eapply list_elem_of_lookup_2; exact Hi1|by rewrite Hid|exact Hf1].
    + f_equal. by eapply (He i j).
  - intros w r' Hin. cbn [fl_held fl_now fl_table] in *. apply elem_of_cons in Hin as [[= -> ->]|Hin].
    + split_and!; [cbn; lia| |exact (Hi r Hr)]. intros _ x Hx Hid. unfold locked_table in Hx. cbn in Hx.
      apply elem_of_map_list in Hx as (y & Hy & ->).
      destruct (q_id y =? q_id r)%Z eqn:E; [by split; [eexists; reflexivity|]|].
      apply Z.eqb_neq in E. by destruct E.
    + destruct (Hb w r' Hin) as (H1 & H2 & H3). cbn [fl_now fl_table] in *. split_and!; [done| |done].
      intros Hf x Hx Hid. unfold locked_table in Hx. cbn in Hx. apply elem_of_map_list in Hx as (y & Hy & ->).
      destruct (q_id y =? q_id r)%Z eqn:E; [|by apply H2]. apply Z.eqb_eq in E. exfalso.
      eapply Hothers; [exact Hin| |exact Hf]. rewrite <- Hid, <- E. done.
  - intros x Hx. cbn in *. apply elem_of_map_list in Hx as (y & Hy & ->). pose proof (Hi y Hy). by destruct (_ =? _)%Z.
Qed.

Lemma fleet_step_inv sd f f' : fleet_inv sd f → fleet_step sd true f f' → fleet_inv sd f'.
Proof.
  intros Hinv Hs. destruct Hs as [d [now t held] Hd|mid sid domain bulk [now t held]|p w busy s row t' f Hp Hl
    |b w row a owner [now t held] Hh Hc|b w row a owner [now t held] Hh Hc|b h a [now t held] Hh]; cbn [fl_now fl_table fl_held] in *.
  - destruct Hinv as (He & Hb & Hi). split_and!; [|intros w r Hin|done].
    + intros i j w1 r1 w2 r2 Hi1 Hj2 Hid H1 H2. unfold fresh in *. cbn [fl_held fl_now] in *.
      eapply (He i j w1 r1 w2 r2); [done|done|done|unfold fresh; cbn; lia|unfold fresh; cbn; lia].
    + destruct (Hb w r Hin) as (H1 & H2 & H3). cbn [fl_now fl_table] in *. split_and!; [lia| |done].
      intros Hf. apply H2. unfold fresh in *. cbn in *. lia.
  - destruct Hinv as (He & Hb & Hi). split_and!; [exact He|intros w r Hin|intros x Hx].
    + destruct (Hb w r Hin) as (H1 & H2 & H3). cbn in *. split_and!; [done| |lia].
      intros Hf x [Hx| ->%list_elem_of_singleton]%elem_of_app Hid; [by apply H2|]. cbn in Hid. lia.
    + cbn in *. apply elem_of_app in Hx as [Hx| ->%list_elem_of_singleton]; [|cbn; lia]. apply Hi in Hx. cbn in *. lia.
  - by eapply lock_inv.
  - subst held. eapply (settle_inv sd now t); [exact Hinv|by apply Hc|done|]. intros x Hx.
    apply elem_of_filter_list in Hx as [Hx _]. split; [by exists x|done].
  - subst held. eapply (settle_inv sd now t); [exact Hinv|by apply Hc|done|]. intros x Hx.
    apply elem_of_map_list in Hx as (y & Hy & ->). unfold addressed.
    destruct (q_id y =? q_id row)%Z eqn:E; cbn [andb]; [|by split; [exists y|]]. apply Z.eqb_eq in E.
    split; [exists y; split; [done|by destruct owner as [[? ?]|]; [destruct (_ && _)|]]|].
    intros Hn. exfalso. apply Hn. destruct owner as [[? ?]|]; [destruct (_ && _)|]; exact E.
  - subst held. destruct Hinv as (He & Hb & Hi). split_and!; [by eapply exclusive_removed|intros w r Hin|done].
    apply (Hb w r). cbn. by apply held_removed.
Qed.

(** C34: Exclusive delivery: if no worker settles a row after its lock has gone stale,
    no two workers ever hold the same row with fresh locks. *)
Theorem exclusive_delivery sd now t f :
  ids_below t → rtc (fleet_step sd true) (fleet_start now t) f → exclusive sd f.
Proof.
  intros Hi Hr. assert (fleet_inv sd f) as (He & _); [|exact He].
  revert Hr. apply (rtc_ind_r (λ f, fleet_inv sd f)).
  - split_and!; [intros i j w1 r1 w2 r2 H; by destruct i|intros w r H; by apply elem_of_nil in H|exact Hi].
  - intros y z _ Hs Hy. by eapply fleet_step_inv.
Qed.

(** The code does not ask: a worker that retries a row after its lock went stale
    unlocks the row under the worker that took it over, and a third one takes it. *)
Theorem stale_worker_breaks_exclusion :
  ∃ f, rtc (fleet_step 1 false) (fleet_start 0 queue_empty) f ∧ ¬ exclusive 1 f.
Proof.
  set (p := queue_new).
  set (t0 := (enqueue_with_kind 7 1 !"example.com" false queue_empty).2).
  set (at2 := (2 * days 1)%Z).
  set (l1 := lock_first p !"a" 0 [] 1 t0). set (t1 := from_option snd t0 l1).
  set (l2 := lock_first p !"b" at2 [] 1 t1). set (t2 := from_option snd t0 l2).
  set (t3 := retry_message at2 1 0 None t2).
  set (now3 := (at2 + minutes 1)%Z).
  set (l3 := lock_first p !"c" now3 [] 1 t3). set (t3' := from_option snd t0 l3).
  set (r (o : option (QueuedMessageRow * QueueTable)) :=
    from_option fst (mkQueuedMessageRow 0 0 0 [] 0 false None None None) o).
  exists (mkFleet now3 t3' [(!"c", r l3); (!"b", r l2)]). split.
  - eapply rtc_l; [eapply (fleet_enqueue _ _ 7 1 !"example.com" false)|].
    eapply rtc_l; [eapply (fleet_lock _ _ p !"a" [] 1 (r l1) t1); vm_compute; reflexivity|].
    eapply rtc_l; [apply (fleet_time _ _ at2); vm_compute; done|].
    eapply rtc_l; [eapply (fleet_lock _ _ p !"b" [] 1 (r l2) t2); vm_compute; reflexivity|].
    eapply rtc_l; [eapply (fleet_retry _ _ [(!"b", r l2)] !"a" (r l1) [] None); [reflexivity|done]|].
    eapply rtc_l; [apply (fleet_time _ _ (minutes 1)); vm_compute; done|].
    eapply rtc_l; [eapply (fleet_lock _ _ p !"c" [] 1 (r l3) t3'); vm_compute; reflexivity|].
    apply rtc_refl.
  - intros He. assert (0 = 1) as H; [|discriminate H].
    eapply (He 0 1); [reflexivity|reflexivity|vm_compute; reflexivity|vm_compute; discriminate|vm_compute; discriminate].
Qed.

(** ** Two servers and a worker *)

Definition fx_queue : QueueTable :=
  (enqueue_with_kind 8 2 !"b.example" false (enqueue_with_kind 7 1 !"a.example" false queue_empty).2).2.
Definition fx_moment : datetime * QueueTable := (0%Z, fx_queue).

Lemma fx_waits : waits queue_new 2 fx_moment.
Proof.
  split_and!.
  - apply waiting_servers_elem. exists (mkQueuedMessageRow 2 8 2 !"b.example" 0 false None None None).
    split_and!; [right; left|reflexivity|reflexivity].
  - vm_compute. lia.
  - intros s. unfold in_flight, fx_moment, fx_queue. cbn. by rewrite !andb_false_r.
Qed.

Theorem round_robin_witness :
  (dequeues queue_new !"w" [fx_moment; fx_moment; fx_moment]).1 = [Some 1%N; Some 2%N; Some 1%N] ∧ Some 2%N ∈ [Some 2%N].
Proof.
  assert ((dequeues queue_new !"w" [fx_moment; fx_moment; fx_moment]).1 = [Some 1%N; Some 2%N; Some 1%N]) as H
    by (vm_compute; reflexivity).
  split; [exact H|].
  apply (round_robin queue_new !"w" 1 2 fx_moment [fx_moment; fx_moment] [Some 2%N]); [|done| |exact H].
  - split_and!; [intros s k; cbn; by rewrite lookup_empty|done|done].
  - repeat constructor; apply fx_waits.
Defined.

Definition fx_locked : QueuedMessageRow * QueueTable :=
  from_option id (mkQueuedMessageRow 0 0 0 [] 0 false None None None, queue_empty)
    (lock_first queue_new !"a" 0 [] 1 fx_queue).

Theorem exclusive_delivery_witness :
  lock_first queue_new !"b" (minutes 1) [] 1 fx_locked.2 = None ∧
  exclusive 1 (mkFleet (0 + minutes 1) fx_locked.2 [(!"a", fx_locked.1)]).
Proof.
  split; [vm_compute; reflexivity|]. apply (exclusive_delivery 1 0 fx_queue).
  - intros x [->|[->|H%elem_of_nil]%elem_of_cons]%elem_of_cons; [reflexivity|reflexivity|done].
  - apply (rtc_l _ _ (mkFleet 0 fx_locked.2 [(!"a", fx_locked.1)])).
    + apply (fleet_lock 1 true queue_new !"a" [] 1 fx_locked.1 fx_locked.2 (fleet_start 0 fx_queue)); [reflexivity|vm_compute; reflexivity].
    + apply rtc_once, (fleet_time 1 true (minutes 1) (mkFleet 0 fx_locked.2 [(!"a", fx_locked.1)])). vm_compute. discriminate.
Defined.

(** ** Backoff *)

Lemma retry_delay_bounds attempts : (1 <= retry_delay_minutes attempts <= 1024)%Z.
Proof.
  unfold retry_delay_minutes. set (n := Z.max 0 (Z.min 10 attempts)). assert (0 <= n <= 10)%Z as [H1 H2] by lia.
  split; [apply Z.pow_pos_nonneg with (a := 2%Z) in H1; lia|]. change 1024%Z with (2 ^ 10)%Z.
  by apply Z.pow_le_mono_r.
Qed.
