(* ===== verification/TrackingFacts.v ===== *)
(** * TrackingFacts: encodings, the rewritten part, the links and the pixel *)

From S2P Require Import Prelude RustStr RustStrFacts Net Message Bounce Mime Tracking Concrete.

(** ** Quoted-printable *)

Lemma decode_plain c s : Ascii.eqb c "=" = false → decode_quoted_printable (c :: s) = c :: decode_quoted_printable s.
Proof. intros H. cbn [decode_quoted_printable]. by rewrite H. Qed.

Lemma decode_break s : decode_quoted_printable (!"=" ++ CRLF ++ s) = decode_quoted_printable s.
Proof. reflexivity. Qed.

Lemma decode_crlf s : decode_quoted_printable (CRLF ++ s) = CRLF ++ decode_quoted_printable s.
Proof. reflexivity. Qed.

Lemma decode_escape c s : decode_quoted_printable (escape c ++ s) = c :: decode_quoted_printable s.
Proof. by destruct c as [[] [] [] [] [] [] [] []]. Qed.

Lemma decode_piece c last s : decode_quoted_printable (qp_piece c last ++ s) = c :: decode_quoted_printable s.
Proof.
  unfold qp_piece. destruct (_ || _) eqn:E; [|apply decode_escape].
  apply decode_plain. destruct (Ascii.eqb_spec c "="); [|done]. subst c. by destruct last.
Qed.

Lemma decode_qp_line line : ∀ width s,
  decode_quoted_printable (qp_line width line ++ s) = line ++ decode_quoted_printable s.
Proof.
  induction line as [|c t IH]; intros width s; [done|]. cbn [qp_line].
  destruct (75 <? _)%nat.
  - rewrite <- !(assoc_L app), decode_break, decode_piece, IH. done.
  - rewrite <- !(assoc_L app), decode_piece, IH. done.
Qed.

(** Line breaks become CRLF. *)
Definition crlf_lines (text : bytes) : bytes := join CRLF (map strip_cr (split_on (is_byte LF) text)).

Lemma qp_decode_encode text : decode_quoted_printable (encode_quoted_printable text) = crlf_lines text.
Proof.
  unfold encode_quoted_printable, crlf_lines.
  destruct (split_on (is_byte LF) text) as [|l ls]; [done|]. cbn [map join].
  rewrite decode_qp_line. f_equal.
  induction ls as [|m ls IH]; [done|]. cbn [map flat_map]. rewrite <- !(assoc_L app).
  by rewrite decode_crlf, decode_qp_line, IH.
Qed.

(** ** The width of the lines *)

(** Behind [w] columns, the rest of the line and every other line fit 76 columns. *)
Definition fits (w : nat) (s : bytes) : Prop :=
  match split_on (is_byte LF) s with
  | [] => True
  | l :: ls => w + length (strip_cr l) <= 76 ∧ Forall (λ l, length (strip_cr l) <= 76) ls
  end.

Definition plain_byte (c : ascii) : Prop := c ≠ LF ∧ c ≠ CR.

Lemma strip_cr_app_plain p l : Forall plain_byte p → p ≠ [] → strip_cr (p ++ l) = p ++ strip_cr l.
Proof.
  intros Hp Hne. unfold strip_cr.
  destruct (strip_suffix [CR] l) as [r|] eqn:E; cbn [from_option].
  - apply strip_suffix_Some in E as ->. by rewrite (assoc_L app), strip_suffix_app.
  - destruct (strip_suffix [CR] (p ++ l)) as [r|] eqn:E'; [|done]. exfalso. apply strip_suffix_Some in E'.
    destruct l as [|x l _] using rev_ind.
    + rewrite app_nil_r in E'. subst p. apply Forall_app in Hp as [_ Hp]. apply Forall_cons in Hp as [[_ ?] _]. done.
    + rewrite (assoc_L app) in E'. apply app_inj_tail in E' as [_ ->].
      by rewrite strip_suffix_app in E.
Qed.

Lemma fits_plain p w s : Forall plain_byte p → p ≠ [] → fits (w + length p) s → fits w (p ++ s).
Proof.
  intros Hp Hne. unfold fits.
  assert (∀ q, Forall plain_byte q → split_on (is_byte LF) (q ++ s) =
    match split_on (is_byte LF) s with l :: ls => (q ++ l) :: ls | [] => [q] end) as Hs.
  { intros q. induction q as [|c q IH]; intros Hq; [by destruct (split_on _ s) eqn:E; [apply split_on_not_nil in E|]|].
    apply Forall_cons in Hq as [[Hc _] Hq]. cbn [app split_on].
    destruct (is_byte LF c) eqn:E; [apply is_byte_eq in E; congruence|]. rewrite IH by done. by destruct (split_on _ s). }
  rewrite Hs by done. destruct (split_on _ s) as [|l ls] eqn:E; [by apply split_on_not_nil in E|].
  rewrite strip_cr_app_plain, length_app by done. intros [? ?]. split; [lia|done].
Qed.

Lemma fits_break w s : w <= 76 → fits 0 s → fits w (CRLF ++ s).
Proof.
  intros Hw. unfold fits. cbn [CRLF app split_on]. destruct (is_byte LF CR) eqn:E; [done|]. clear E.
  destruct (is_byte LF LF) eqn:E; [|done]. cbn. destruct (split_on _ s) as [|l ls] eqn:E2; [by apply split_on_not_nil in E2|].
  intros [H1 H2]. split; [lia|]. constructor; [lia|done].
Qed.

Lemma fits_nil w : w <= 76 → fits w [].
Proof. intros H. unfold fits. cbn. split; [lia|done]. Qed.

Lemma qp_piece_plain c last : Forall plain_byte (qp_piece c last) ∧ qp_piece c last ≠ [] ∧ length (qp_piece c last) <= 3.
Proof.
  unfold qp_piece. destruct (_ || _) eqn:E.
  - split_and!; [|done|cbn; lia]. constructor; [|done]. split; intros ->; by destruct last.
  - split_and!; [|done|cbn; lia]. unfold escape.
    by destruct c as [[] [] [] [] [] [] [] []]; repeat constructor.
Qed.

Lemma fits_qp_line line : ∀ w s, w <= 75 → (∀ w', w' <= 75 → fits w' s) → fits w (qp_line w line ++ s).
Proof.
  induction line as [|c t IH]; intros w s Hw Hs; [by apply Hs|]. cbn [qp_line].
  set (last := match t with [] => true | _ => false end).
  destruct (qp_piece_plain c last) as (Hp & Hne & Hl).
  destruct (Nat.ltb_spec 75 (w + length (qp_piece c last))) as [H|H]; rewrite <- !(assoc_L app).
  - apply fits_plain; [by constructor|done|]. change (length !"=") with 1. apply fits_break; [lia|].
    apply fits_plain; [done|done|]. apply IH; [lia|done].
  - apply fits_plain; [done|done|]. apply IH; [lia|done].
Qed.

Lemma qp_lines_fit text : Forall (λ l, length (strip_cr l) <= 76) (split_on (is_byte LF) (encode_quoted_printable text)).
Proof.
  assert (∀ ls w, w <= 75 → fits w (flat_map (λ x, CRLF ++ x) (map (λ l, qp_line 0 (strip_cr l)) ls))) as Hrest.
  { induction ls as [|m ls IH]; intros w Hw; [apply fits_nil; lia|]. cbn [map flat_map]. rewrite <- (assoc_L app).
    apply fits_break; [lia|]. apply fits_qp_line; [lia|done]. }
  assert (fits 0 (encode_quoted_printable text)) as H.
  { unfold encode_quoted_printable. destruct (split_on (is_byte LF) text) as [|l ls]; [apply fits_nil; lia|].
    cbn [map join]. apply fits_qp_line; [lia|]. apply Hrest. }
  unfold fits in H. destruct (split_on _ _) as [|l ls]; [done|]. destruct H as [H1 H2]. constructor; [lia|done].
Qed.

(** ** Base64 *)

Section Encodings.
Context `{UCASE : !UnicodeCase, CRATES : !Crates, BASE : !Base64}.

Lemma filter_keep {A} (P : A → bool) l : forallb P l = true → List.filter P l = l.
Proof.
  induction l as [|x l IH]; cbn; [done|]. rewrite andb_true_iff. intros [-> HP]. by rewrite IH.
Qed.

Lemma chunks_filter fuel n s : 1 <= n → length s <= fuel →
  forallb (λ c, negb (is_ascii_whitespace c)) s = true →
  List.filter (λ c, negb (is_ascii_whitespace c)) (flat_map (λ x, CRLF ++ x) (chunks_go fuel n s)) = s.
Proof.
  intros Hn. revert s. induction fuel as [|fuel IH]; intros s Hl Hs; [by destruct s; [|cbn in Hl; lia]|].
  destruct s as [|c s]; [done|]. cbn [chunks_go flat_map].
  rewrite <- (take_drop n (c :: s)) in Hs. rewrite forallb_app in Hs. apply andb_true_iff in Hs as [H1 H2].
  rewrite !List.filter_app, (filter_keep _ (take n (c :: s))), IH by (try done; rewrite length_drop; cbn in *; lia).
  assert (List.filter (λ c, negb (is_ascii_whitespace c)) CRLF = []) as -> by reflexivity.
  exact (take_drop n (c :: s)).
Qed.

Lemma base64_wrapped s : forallb (λ c, negb (is_ascii_whitespace c)) s = true →
  List.filter (λ c, negb (is_ascii_whitespace c)) (join CRLF (chunks 76 s)) = s.
Proof.
  intros Hs. pose proof (chunks_filter (length s) 76 s ltac:(lia) ltac:(lia) Hs) as H. unfold chunks.
  destruct (chunks_go (length s) 76 s) as [|h t]; [exact H|]. cbn [join flat_map] in *.
  rewrite !List.filter_app in H. rewrite List.filter_app. exact H.
Qed.

(** What a reader of the re-encoded part decodes. *)
Definition canonical (e : Encoding) (text : bytes) : bytes :=
  match e with QuotedPrintable => crlf_lines text | _ => text end.

(** Re-encoding the rewritten HTML is undone by decoding it: the text comes back
    exactly, with its line breaks as CRLF under quoted-printable, whose lines never
    exceed the 76 columns of RFC 2045. *)
Theorem reencoded_part_reads_back e text :
  decode e (encode e text) = Some (canonical e text) ∧
  (e = QuotedPrintable → Forall (λ l, length (strip_cr l) <= 76) (split_on (is_byte LF) (encode e text))).
Proof.
  split; [|intros ->; apply qp_lines_fit]. destruct e; cbn [encode decode canonical]; [done| |].
  - by rewrite qp_decode_encode.
  - rewrite base64_wrapped by apply b64_alphabet. apply b64_padded_roundtrip.
Qed.
End Encodings.

(** ** The rewritten part *)

Lemma delimiter_lines_bound fuel body d at_ l : l ∈ delimiter_lines fuel body d at_ →
  l.1.1 <= length body ∧ l.1.2 <= length body.
Proof.
  revert at_. induction fuel as [|fuel IH]; intros at_ Hl; cbn [delimiter_lines] in Hl; [by apply elem_of_nil in Hl|].
  destruct (Nat.leb_spec (at_ + length d) (length body)) as [Hat|]; [|by apply elem_of_nil in Hl].
  destruct (_ && _); [|by eapply IH].
  assert (match find_byte (is_byte LF) (drop (at_ + length d) body) with
          | Some p => at_ + length d + p + 1 | None => length body end <= length body) as Hend.
  { destruct (find_byte _ _) as [p|] eqn:E; [|lia]. apply find_byte_Some in E as (a & c & b & E & <- & _).
    apply (f_equal length) in E. rewrite length_drop, length_app in E. cbn in E. lia. }
  apply elem_of_cons in Hl as [->|Hl]; [cbn [fst snd]; split; [lia|exact Hend]|].
  destruct (starts_with _ !"--"); [by apply elem_of_nil in Hl|by eapply IH].
Qed.

Lemma multipart_ranges_bound body boundary r : r ∈ multipart_ranges body boundary → r.1 <= r.2 <= length body.
Proof.
  unfold multipart_ranges. pose proof (delimiter_lines_bound (S (length body)) body (!"--" ++ boundary) 0) as Hb.
  revert Hb. generalize (delimiter_lines (S (length body)) body (!"--" ++ boundary) 0). intros ls.
  induction ls as [|l0 [|l1 ls] IH]; intros Hb Hr; [by apply elem_of_nil in Hr..|].
  cbn [windows2] in Hr. apply elem_of_cons in Hr as [->|Hr].
  - destruct (Hb l0) as [_ H0]; [by left|]. destruct (Hb l1) as [H1 _]; [by right; left|].
    unfold part_range. cbn [fst snd]. repeat match goal with |- context [if ?b then _ else _] => destruct b end; lia.
  - apply IH; [|done]. intros l Hl. apply Hb. by right.
Qed.

Lemma body_offset_bound raw n : body_offset raw = Some n → n <= length raw.
Proof.
  unfold body_offset. destruct (find_sub (CRLF ++ CRLF) raw) as [i|] eqn:E.
  - intros [= <-]. apply find_sub_Some in E as [E _]. cbn in E. lia.
  - destruct (find_sub [LF; LF] raw) as [i|] eqn:E'; [|done]. intros [= <-]. apply find_sub_Some in E' as [E' _]. cbn in E'. lia.
Qed.

Lemma find_map_Some {A B} (f : A → option B) l y : find_map f l = Some y → ∃ x, x ∈ l ∧ f x = Some y.
Proof.
  induction l as [|x l IH]; cbn; [done|]. destruct (f x) as [z|] eqn:E.
  - intros [= ->]. exists x. split; [by left|done].
  - intros (x' & ? & ?)%IH. exists x'. split; [by right|done].
Qed.

Lemma slice_split {A} (s : list A) i j : i <= j <= length s → s = take i s ++ take (j - i) (drop i s) ++ drop j s.
Proof.
  intros H. rewrite <- (take_drop i s) at 1. f_equal. rewrite <- (take_drop (j - i) (drop i s)) at 1. f_equal.
  rewrite drop_drop. f_equal. lia.
Qed.

Section Part.
Context `{UCASE : !UnicodeCase, CRATES : !Crates, BASE : !Base64}.

(** The bytes of a MIME entity that is an HTML part to be shown. *)
Definition html_entity (header body : bytes) (e : Encoding) : Prop :=
  let headers := parse_headers (header ++ body) in
  let content_type := from_option id !"text/plain" (header_of headers !"content-type") in
  body_offset (header ++ body) = Some (length header) ∧
  to_ascii_lowercase (trim (from_option id [] (head (split_on (is_byte ";") content_type)))) = !"text/html" ∧
  is_attachment headers = false ∧ charset_ok content_type = true ∧ part_encoding headers = e.

Lemma find_html_spec fuel raw base_ p : find_html fuel raw base_ = Some p →
  ∃ before header body after, raw = before ++ header ++ body ++ after ∧
    hp_start p = base_ + length (before ++ header) ∧ hp_end p = base_ + length (before ++ header ++ body) ∧
    html_entity header body (hp_encoding p).
Proof.
  revert raw base_. induction fuel as [|fuel IH]; intros raw base_; cbn [find_html]; [done|].
  destruct (body_offset raw) as [offset|] eqn:Eo; [|done]. cbn [mbind option_bind].
  pose proof (body_offset_bound _ _ Eo) as Hoff.
  destruct (starts_with _ !"multipart/") eqn:Em.
  - destruct (_ =b !"multipart/signed"); [done|]. destruct (parameter _ !"boundary") as [boundary|]; [|done].
    cbn [mbind option_bind]. intros (r & Hr & Hf)%find_map_Some. apply multipart_ranges_bound in Hr.
    apply IH in Hf as (b & h & bd & a & Hs & Hst & Hen & He).
    pose proof (slice_split _ _ _ Hr) as Hsp. unfold slice in Hs. rewrite Hs in Hsp.
    rewrite length_drop in Hr.
    exists (take offset raw ++ take r.1 (drop offset raw) ++ b), h, bd, (a ++ drop r.2 (drop offset raw)).
    split_and!; [|..|done].
    + rewrite <- (take_drop offset raw) at 1. rewrite Hsp at 1. by rewrite <- !(assoc_L app).
    + rewrite Hst, !length_app, !length_take, length_drop. lia.
    + rewrite Hen, !length_app, !length_take, length_drop. lia.
  - destruct (negb (_ =b !"text/html") || _) eqn:Et; [done|]. apply orb_false_iff in Et as [Et Ha].
    apply negb_false_iff, bytes_eqb_eq in Et.
    destruct (charset_ok _) eqn:Ec; cbn [negb]; [|done].
    intros [= <-]. exists [], (take offset raw), (drop offset raw), []. cbn [hp_start hp_end hp_encoding app].
    rewrite app_nil_r. unfold html_entity. rewrite take_drop, length_take_le by done.
    split_and!; try done.
Qed.

(** C39: Tracking rewrites nothing but the body of one HTML part: the first one that is
    not an attachment and is in UTF-8; the slices it takes are in bounds, the part
    keeps its encoding, and every other byte of the message stays as it was. *)
Theorem tracking_rewrites_one_part raw html out :
  with_html raw html = Some out →
  ∃ before header body after e, raw = before ++ header ++ body ++ after ∧ html_entity header body e ∧
    html_of raw = (decode e body ≫= from_utf8) ∧
    out = before ++ header ++ encode e html ++ after.
Proof.
  unfold with_html, html_of. destruct (find_html (S MAX_DEPTH) raw 0) as [p|] eqn:E; [|done]. cbn [mbind option_bind].
  intros [= <-]. apply find_html_spec in E as (b & h & bd & a & -> & Hs & He & Hent).
  exists b, h, bd, a, (hp_encoding p). cbn [Nat.add] in Hs, He.
  assert (slice (b ++ h ++ bd ++ a) (hp_start p) (hp_end p) = bd) as ->.
  { unfold slice. rewrite Hs, He, (assoc_L app b h (bd ++ a)), drop_app_length.
    rewrite !length_app. replace (_ - _) with (length bd) by lia. by rewrite take_app_length. }
  assert (take (hp_start p) (b ++ h ++ bd ++ a) = b ++ h) as ->.
  { by rewrite Hs, (assoc_L app b h (bd ++ a)), take_app_length. }
  assert (drop (hp_end p) (b ++ h ++ bd ++ a) = a) as ->.
  { rewrite He, (assoc_L app h bd a), (assoc_L app b (h ++ bd) a). apply drop_app_length. }
  split_and!; [done|done|done|by rewrite <- (assoc_L app)].
Qed.
End Part.

(** ** Links *)

Section Links.
Context `{UCASE : !UnicodeCase, CRATES : !Crates, BASE : !Base64}.

Lemma trim_start_split s : ∃ w, s = w ++ trim_start s.
Proof. destruct (trim_start_suffix s) as [k ->]. exists (take k s). by rewrite take_drop. Qed.

Lemma match_href_spec s n q : match_href s = Some (Some (n, q)) →
  (q = DQ ∨ q = "'"%char) ∧ ∃ a b, s = a ++ q :: b ∧ n = S (length a).
Proof.
  unfold match_href. destruct (negb _); [done|].
  unfold slice_from. destruct (is_char_boundary s 4) eqn:Eb; [|done]. cbn [mbind option_bind].
  destruct (trim_start_split (drop 4 s)) as [w1 Hw1].
  destruct (strip_prefix !"=" (trim_start (drop 4 s))) as [after|] eqn:Ea; [|done].
  apply strip_prefix_Some in Ea. cbn [mbind option_bind].
  destruct (trim_start_split after) as [w2 Hw2].
  destruct (trim_start after) as [|quote rest] eqn:Et; [done|]. cbn [head mbind option_bind].
  destruct (negb _ && _) eqn:Eq; [done|]. intros H. injection H as H1 H2. subst quote.
  split. { apply andb_false_iff in Eq as [Eq%negb_false_iff|Eq%negb_false_iff]; apply ascii_eqb_eq in Eq; [by left|by right]. }
  rewrite Ea in Hw1. rewrite Hw2 in Hw1.
  exists (take 4 s ++ w1 ++ !"=" ++ w2), rest. split.
  { rewrite <- (take_drop 4 s) at 1. rewrite Hw1. by rewrite <- !(assoc_L app). }
  rewrite <- H1, Ea, Hw1, Hw2, !length_app. cbn [length].
  assert (4 <= length s).
  { assert (length (drop 4 s) <> 0) as Hd by (rewrite Hw1, !length_app; cbn; lia). rewrite length_drop in Hd. lia. }
  rewrite length_take_le by done. change (length !"=") with 1. lia.
Qed.

(** Registering urls in order. *)
Fixpoint register {A} (make_click_url : A → bytes → bytes * A) (urls : list bytes) (st : A) : list bytes * A :=
  match urls with
  | [] => ([], st)
  | url :: rest => let '(click, st) := make_click_url st url in
                   let '(clicks, st) := register make_click_url rest st in (click :: clicks, st)
  end.

(** The text as pieces, each followed by the value of a link, and what is left. *)
Definition plain_text (segs : list (bytes * bytes)) (tail : bytes) : bytes :=
  flat_map (λ s, s.1 ++ s.2) segs ++ tail.
Definition prepend (x : bytes) (segs : list (bytes * bytes)) (tail : bytes) : list (bytes * bytes) * bytes :=
  match segs with [] => ([], x ++ tail) | (t, r) :: rest => ((x ++ t, r) :: rest, tail) end.

Definition link_ok (s : bytes * bytes) : Prop :=
  is_http (decode_html_entities s.2) = true ∧
  ∃ q, (q = DQ ∨ q = "'"%char) ∧ last s.1 = Some q ∧ Forall (λ c, c ≠ q) s.2.

Definition rewritten {A} (make_click_url : A → bytes → bytes * A) (html : bytes) (st : A)
    (out : bytes) (urls : list bytes) (st' : A) : Prop :=
  ∃ segs tail clicks, html = plain_text segs tail ∧ Forall link_ok segs ∧
    urls = map (λ s, decode_html_entities s.2) segs ∧
    register make_click_url urls st = (clicks, st') ∧
    out = plain_text (zip (map fst segs) clicks) tail.

Lemma register_length {A} (make : A → bytes → bytes * A) urls st : length (register make urls st).1 = length urls.
Proof.
  revert st. induction urls as [|u urls IH]; intros st; cbn; [done|].
  destruct (make st u) as [c st1]. specialize (IH st1). destruct (register make urls st1). cbn in *. lia.
Qed.

Lemma rewritten_prepend {A} (make : A → bytes → bytes * A) x html st out urls st' :
  rewritten make html st out urls st' → rewritten make (x ++ html) st (x ++ out) urls st'.
Proof.
  intros (segs & tail & clicks & -> & Hok & -> & Hreg & ->).
  exists (prepend x segs tail).1, (prepend x segs tail).2, clicks.
  pose proof (register_length make (map (λ s, decode_html_entities s.2) segs) st) as Hl. rewrite Hreg in Hl. cbn in Hl.
  destruct segs as [|[t r] segs]; cbn [prepend fst snd map zip plain_text flat_map] in *.
  - cbn in Hreg. injection Hreg as <- <-. cbn. by split_and!.
  - destruct clicks as [|c clicks]; [done|]. cbn [zip zip_with flat_map fst snd]. split_and!; [|..|done|done|].
    + unfold plain_text. cbn [flat_map fst snd]. by rewrite <- ?(assoc_L app).
    + apply Forall_cons in Hok as [(? & q & ? & Hlast & ?) Hok]. constructor; [|done]. split; [done|].
      exists q. split_and!; [done| |done]. cbn [fst snd] in *. by rewrite last_app, Hlast.
    + unfold plain_text. cbn [flat_map fst snd]. by rewrite <- ?(assoc_L app).
Qed.

Lemma char_len_pos s : 1 <= char_len s.
Proof. unfold char_len. destruct s; [lia|]. repeat destruct (_ <? _)%N; lia. Qed.

Lemma rewrite_go_spec {A} (make : A → bytes → bytes * A) fuel html st out urls st' :
  rewrite_go make fuel html st = Some (out, urls, st') → rewritten make html st out urls st'.
Proof.
  revert html st out urls st'. induction fuel as [|fuel IH]; intros html st out urls st'.
  { destruct html; [|done]. intros [= <- <- <-]. by exists [], [], []. }
  destruct html as [|c html]; [intros [= <- <- <-]; by exists [], [], []|].
  cbn [rewrite_go]. set (s := c :: html).
  assert (∀ o u t, ('(out, urls, st) ← rewrite_go make fuel (drop (char_len s) s) st;
    Some (take (char_len s) s ++ out, urls, st)) = Some (o, u, t) → rewritten make s st o u t) as Hcopy.
  { intros o u t. destruct (rewrite_go _ _ _ _) as [[[out1 urls1] st1]|] eqn:E; [|done]. cbn [mbind option_bind].
    intros H. injection H as <- <- <-. apply IH, (rewritten_prepend _ (take (char_len s) s)) in E.
    by rewrite take_drop in E. }
  destruct (match_href s) as [[[n q]|]|] eqn:Eh; [|exact (Hcopy out urls st')|done]. cbn [mbind option_bind].
  destruct (find_byte (is_byte q) (drop n s)) as [close|] eqn:Ec; [|exact (Hcopy out urls st')].
  apply match_href_spec in Eh as (Hq & a & b & Hs & Hn).
  set (raw := take close (drop n s)).
  assert (take n s = a ++ [q]) as Htake.
  { rewrite Hs, Hn. replace (S (length a)) with (length (a ++ [q])) by (rewrite length_app; cbn; lia).
    replace (a ++ q :: b) with ((a ++ [q]) ++ b) by (by rewrite <- (assoc_L app)). apply take_app_length. }
  assert (Forall (λ c, c ≠ q) raw) as Hraw.
  { unfold raw. apply find_byte_Some in Ec as (x & y & z & -> & <- & _ & Hx). rewrite take_app_length.
    eapply Forall_impl; [exact Hx|]. intros d Hd ->. by rewrite (proj2 (is_byte_eq q q) eq_refl) in Hd. }
  assert (s = take n s ++ raw ++ drop close (drop n s)) as Hsplit by (unfold raw; by rewrite !take_drop).
  destruct (is_http (decode_html_entities raw)) eqn:Ehttp.
  - destruct (make st (decode_html_entities raw)) as [click st1] eqn:Em.
    destruct (rewrite_go _ _ _ st1) as [[[out1 urls1] st2]|] eqn:E; [|done]. cbn [mbind option_bind].
    intros H. injection H as <- <- <-. apply IH in E as (segs & tail & clicks & Hd & Hok & -> & Hreg & ->).
    exists ((take n s, raw) :: segs), tail, (click :: clicks). split_and!.
    + rewrite Hsplit at 1. rewrite Hd. unfold plain_text. cbn [flat_map fst snd]. by rewrite <- !(assoc_L app).
    + constructor; [|done]. split; [done|]. exists q. split_and!; [done| |done]. cbn [fst].
      by rewrite Htake, last_snoc.
    + done.
    + cbn [app register]. by rewrite Em, Hreg.
    + unfold plain_text. cbn [map zip zip_with flat_map fst snd]. by rewrite <- !(assoc_L app).
  - cbn [mbind option_bind].
    destruct (rewrite_go make fuel (drop close (drop n s)) st) as [[[out1 urls1] st2]|] eqn:E; [|done]. cbn [mbind option_bind].
    intros H. injection H as <- <- <-. apply IH, (rewritten_prepend _ (take n s ++ raw)) in E.
    rewrite <- !(assoc_L app) in E. by rewrite <- Hsplit in E.
Qed.

(** No character but the ASCII letters lower-cases to a letter of [href]. *)
Definition href_case : Prop :=
  ∀ s, starts_with (to_lowercase s) !"href" = true → is_char_boundary s 4 = true.

Lemma rewrite_go_total {A} (make : A → bytes → bytes * A) fuel html st : href_case →
  length html <= fuel → is_Some (rewrite_go make fuel html st).
Proof.
  intros Hcase. revert html st. induction fuel as [|fuel IH]; intros html st Hl.
  { destruct html; [eauto|cbn in Hl; lia]. }
  destruct html as [|c html]; [eauto|]. cbn [rewrite_go]. set (s := c :: html).
  assert (∀ st, is_Some ('(out, urls, st) ← rewrite_go make fuel (drop (char_len s) s) st;
    Some (take (char_len s) s ++ out, urls, st))) as Hcopy.
  { intros st0. destruct (IH (drop (char_len s) s) st0) as [[[o u] t] ->]; [|eexists; reflexivity].
    rewrite length_drop. pose proof (char_len_pos s). cbn [length] in *. unfold s in *. cbn [length] in *. lia. }
  destruct (match_href s) as [[[n q]|]|] eqn:Eh; [|apply Hcopy|].
  - cbn [mbind option_bind]. destruct (find_byte _ _) as [close|]; [|apply Hcopy].
    assert (length (drop close (drop n s)) <= fuel) as Hd.
    { apply match_href_spec in Eh as (_ & a & b & _ & ->). rewrite !length_drop. unfold s. cbn [length] in *. lia. }
    set (raw := take close (drop n s)).
    destruct (is_http _); [destruct (make st _) as [click st1]; destruct (IH _ st1 Hd) as [[[o u] t] ->]
                          |destruct (IH _ st Hd) as [[[o u] t] ->]]; eexists; reflexivity.
  - exfalso. unfold match_href in Eh. destruct (starts_with (to_lowercase s) !"href") eqn:E; cbn [negb] in Eh; [|done].
    unfold slice_from in Eh. by rewrite (Hcase _ E) in Eh.
Qed.

(** Link rewriting always ends and changes nothing but the values of quoted [href]
    attributes that decode to http(s) URLs: the decoded URLs are registered in
    document order and each value is replaced by the tracking URL made for it. *)
Theorem rewrite_links_spec {A} (make_click_url : A → bytes → bytes * A) html st (Hcase : href_case) :
  ∃ out urls st', rewrite_links make_click_url html st = Some (out, urls, st') ∧
    rewritten make_click_url html st out urls st'.
Proof.
  unfold rewrite_links. destruct (rewrite_go_total make_click_url (length html) html st Hcase) as [[[out urls] st'] E]; [lia|].
  exists out, urls, st'. split; [done|]. by apply rewrite_go_spec in E.
Qed.
End Links.

(** ** The pixel *)

Lemma rfind_sub_spec p s :
  match rfind_sub p s with
  | Some i => i <= length s ∧ starts_with (drop i s) p = true ∧
              ∀ j, i < j <= length s → starts_with (drop j s) p = false
  | None => ∀ j, j <= length s → starts_with (drop j s) p = false
  end.
Proof.
  induction s as [|c s IH]; cbn [rfind_sub].
  - destruct (starts_with [] p) eqn:E; cbn [length].
    + split_and!; [lia|done|lia].
    + intros [|j] Hj; [done|lia].
  - destruct (rfind_sub p s) as [i|].
    + destruct IH as (H1 & H2 & H3). cbn [length]. split_and!; [lia|done|]. intros [|j] Hj; [lia|]. apply H3. lia.
    + destruct (starts_with (c :: s) p) eqn:E.
      * split_and!; [cbn; lia|done|]. intros [|j] Hj; [lia|]. cbn [length] in Hj. apply IH. lia.
      * intros [|j] Hj; [done|]. cbn [length] in Hj. apply IH. lia.
Qed.

Section Pixel.
Context `{UCASE : !UnicodeCase}.

Lemma lower_drop i s : to_ascii_lowercase (drop i s) = drop i (to_ascii_lowercase s).
Proof. unfold to_ascii_lowercase. symmetry. apply skipn_map. Qed.

(** In ASCII HTML the pixel goes right before the last closing body tag, in any
    case, and at the end when there is none; nothing else changes. *)
Theorem open_pixel_spec html pixel_url (Ha : is_ascii html = true) :
  ∃ front back, html = front ++ back ∧ inject_open_pixel html pixel_url = Some (front ++ open_pixel pixel_url ++ back) ∧
    (∀ j, length front < j <= length html → starts_with (to_ascii_lowercase (drop j html)) !"</body>" = false) ∧
    (starts_with (to_ascii_lowercase back) !"</body>" = true
     ∨ (back = [] ∧ ∀ j, j <= length html → starts_with (to_ascii_lowercase (drop j html)) !"</body>" = false)).
Proof.
  unfold inject_open_pixel. rewrite to_lowercase_ascii by done.
  pose proof (rfind_sub_spec !"</body>" (to_ascii_lowercase html)) as H.
  assert (length (to_ascii_lowercase html) = length html) as Hlen by (unfold to_ascii_lowercase; apply length_map).
  rewrite Hlen in H. destruct (rfind_sub _ _) as [i|].
  - destruct H as (H1 & H2 & H3). exists (take i html), (drop i html).
    rewrite slice_to_ascii, slice_from_ascii by done. cbn [mbind option_bind]. rewrite take_drop, length_take_le, lower_drop by done.
    split_and!; [done|done| |by left]. intros j Hj. rewrite lower_drop. by apply H3.
  - exists html, []. rewrite !app_nil_r. split_and!; [done|done|intros j Hj; lia|right].
    split; [done|]. intros j Hj. rewrite lower_drop. by apply H.
Qed.

(** U+0130 lower-cases to [i] and a combining dot, three bytes for two: the
    position found in the lower-cased text lies beyond the end of the HTML, and
    the slice panics. *)
Definition dotted_I : bytes := map ascii_of_N [196; 176]%N.
Definition dotted_i : bytes := map ascii_of_N [105; 204; 135]%N.
Definition dotted_html : bytes := flat_map (λ _, dotted_I) (seq 0 10) ++ !"</body>".

Theorem open_pixel_panics pixel_url
    (Hlower : to_lowercase dotted_html = flat_map (λ _, dotted_i) (seq 0 10) ++ !"</body>") :
  inject_open_pixel dotted_html pixel_url = None.
Proof. unfold inject_open_pixel. rewrite Hlower. vm_compute. reflexivity. Qed.
End Pixel.

(** A case mapping that knows U+0130 and the ASCII letters. *)
Fixpoint lower_dotted (s : bytes) : bytes :=
  match s with
  | c :: r =>
      match r with
      | d :: t => if (byte_n c =? 196)%N && (byte_n d =? 176)%N then dotted_i ++ lower_dotted t
                  else byte_to_lower c :: lower_dotted r
      | [] => [byte_to_lower c]
      end
  | [] => []
  end.
Definition dotted_case : UnicodeCase.
Proof.
  refine {| to_lowercase s := if is_ascii s then to_ascii_lowercase s else lower_dotted s;
            to_uppercase := to_ascii_uppercase |}; [|done]. intros s H. by rewrite H.
Defined.

Theorem open_pixel_panics_witness : @inject_open_pixel dotted_case dotted_html !"https://t" = None.
Proof. apply (@open_pixel_panics dotted_case !"https://t"). vm_compute. reflexivity. Defined.
Theorem open_pixel_spec_witness :
  is_ascii !"<p>x</BODY>" = true ∧ ∃ front back, !"<p>x</BODY>" = front ++ back ∧
    @inject_open_pixel dotted_case !"<p>x</BODY>" !"u" = Some (front ++ open_pixel !"u" ++ back).
Proof.
  split; [vm_compute; reflexivity|].
  destruct (@open_pixel_spec dotted_case !"<p>x</BODY>" !"u" ltac:(vm_compute; reflexivity)) as (f & b & H1 & H2 & _).
  exists f, b. by split.
Defined.

(** ** A message to rewrite *)

Definition ascii_case : UnicodeCase.
Proof.
  refine {| to_lowercase s := if is_ascii s then to_ascii_lowercase s else []; to_uppercase := to_ascii_uppercase |};
    [|done]. intros s H. by rewrite H.
Defined.
Lemma ascii_case_href : @href_case ascii_case.
Proof.
  intros s. cbn. destruct (is_ascii s) eqn:E; [|done]. intros H. apply ascii_boundary; [done|].
  apply starts_with_true in H as [r H]. apply (f_equal length) in H. unfold to_ascii_lowercase in H.
  rewrite length_map, length_app in H. change (length !"href") with 4 in H. lia.
Qed.

(** A registrar that numbers its urls. *)
Definition click_number (n : nat) (url : bytes) : bytes * nat := (!"__CM_CLICK_" ++ show_N (N.of_nat n) ++ !"__", S n).
Definition sample_html : bytes := !"<a href='http://a/?x=1&amp;y=2'>" ++ !"<a HREF = 'mailto:x'>".

Theorem rewrite_links_spec_witness :
  ∃ out urls n, @rewrite_links ascii_case nat click_number sample_html 0 = Some (out, urls, n) ∧
    rewritten click_number sample_html 0 out urls n.
Proof. apply (@rewrite_links_spec ascii_case nat click_number sample_html 0 ascii_case_href). Defined.
Example rewrite_sample : @rewrite_links ascii_case nat click_number sample_html 0
  = Some (!"<a href='__CM_CLICK_0__'>" ++ !"<a HREF = 'mailto:x'>", [!"http://a/?x=1&y=2"], 1).
Proof. vm_compute. reflexivity. Qed.

(** Hexadecimal in the place of base64. *)
Fixpoint of_hex (s : bytes) : option bytes :=
  match s with
  | [] => Some []
  | a :: r => match r with
              | b :: t => h ← hex_val a; l ← hex_val b; rest ← of_hex t; Some (ascii_of_N (h * 16 + l) :: rest)
              | [] => None
              end
  end.
Lemma of_hex_byte c s : of_hex (hex_byte c ++ s) = rest ← of_hex s; Some (c :: rest).
Proof. by destruct c as [[] [] [] [] [] [] [] []]. Qed.
Lemma of_to_hex s : of_hex (to_hex s) = Some s.
Proof.
  induction s as [|c s IH]; [done|]. unfold to_hex in *. cbn [flat_map]. by rewrite of_hex_byte, IH.
Qed.
Definition hex_crates : Crates.
Proof.
  refine {| b64_encode := to_hex; b64_decode := of_hex; sha256 s := s; hmac_md5 k m := k ++ m;
            idna_to_ascii := Some; fmt_rfc2822 _ := !"Mon, 01 Jan 2024 00:00:00 +0000";
            date_year t := (1970 + t / days 365)%Z; date_month _ := 1%N |}.
  exact of_to_hex.
Defined.
Definition hex_base64 : @Base64 hex_crates.
Proof.
  refine (@Build_Base64 hex_crates of_hex _ _); [exact of_to_hex|].
  intros s. cbn. unfold to_hex. induction s as [|c s IH]; [done|]. cbn [flat_map]. rewrite forallb_app, IH, andb_true_r.
  by destruct c as [[] [] [] [] [] [] [] []].
Defined.

Definition sample_mail : bytes :=
  !"Content-Type: text/html" ++ CRLF ++ !"Content-Transfer-Encoding: quoted-printable" ++ CRLF ++ CRLF ++ !"<b>a=3Db</b>".

Theorem tracking_rewrites_one_part_witness :
  ∃ out, @with_html concrete_case hex_crates sample_mail !"<i>=</i>" = Some out ∧
  ∃ before header body after e, sample_mail = before ++ header ++ body ++ after ∧
    out = before ++ header ++ @encode hex_crates e !"<i>=</i>" ++ after.
Proof.
  eexists. split; [vm_compute; reflexivity|].
  edestruct (@tracking_rewrites_one_part concrete_case hex_crates hex_base64 sample_mail !"<i>=</i>")
    as (b & h & bd & a & e & H1 & _ & _ & H2); [vm_compute; reflexivity|].
  exists b, h, bd, a, e. by split.
Defined.
