(* ===== verification/MailDbFacts.v ===== *)
(** * MailDbFacts: tenants, final states, and mail that cannot be stranded

    What each transaction of [MailDb] and [PgSink] leaves alone ([foreign], the rows of
    other tenants), the order of the states of a message, and what queues it. *)

From S2P Require Import Prelude RustStr RustStrFacts Net Model SendLimit Message MemoryStore MemoryFacts Queue QueueFacts MailDb PgSink Concrete.

(** ** Statements as frames *)

(** An update that keeps the identity of a row. *)
Definition keeps_identity (f : MessageRow → MessageRow) : Prop := ∀ r,
  row_id (f r) = row_id r ∧ sg_server_id (stored (f r)) = sg_server_id (stored r)
  ∧ sg_scope (stored (f r)) = sg_scope (stored r) ∧ sg_bounce (stored (f r)) = sg_bounce (stored r)
  ∧ row_content_purged_at (f r) = row_content_purged_at r.

Ltac identity := let r := fresh "r" in intros r; destruct r as [[] ? ? ?]; cbn; by split_and!.

Create HintDb mail.
#[export] Hint Extern 1 (keeps_identity _) => identity : mail.

Lemma set_status_identity status category now : keeps_identity (set_status status category now).
Proof. identity. Qed.
#[export] Hint Resolve set_status_identity : mail.

Lemma has_id_identity f tenant id r : keeps_identity f → has_id tenant id (f r) = has_id tenant id r.
Proof. intros H. destruct (H r) as (H1 & H2 & _). unfold has_id, visible. by rewrite H1, H2. Qed.

Lemma is_scope_identity f scope r : keeps_identity f → is_scope scope (f r) = is_scope scope r.
Proof. intros H. destruct (H r) as (_ & _ & H3 & _). unfold is_scope. by rewrite H3. Qed.

Lemma has_id_spec tenant id r : has_id tenant id r = true ↔ sg_server_id (stored r) = tenant ∧ row_id r = id.
Proof. unfold has_id, visible. by rewrite andb_true_iff, N.eqb_eq, Z.eqb_eq. Qed.

(** Adding webhook requests touches one table. *)
Section Requests.
Context `{PAY : !Payloads}.

Lemma enqueue_webhook_requests_eq server_id event payload d :
  ∃ rs n, enqueue_webhook_requests server_id event payload d
    = d <| db_requests := db_requests d ++ rs |> <| db_next_request := n |> ∧
    length rs = length (subscribers d server_id event) ∧
    Forall (λ r, wr_server_id r = server_id ∧ wr_event r = event ∧ wr_attempts r = 0%Z ∧ wr_locked_by r = None) rs.
Proof.
  unfold enqueue_webhook_requests. generalize (subscribers d server_id event). intros ws.
  assert (∀ d0, ∃ rs n, fold_left (enqueue_request server_id event payload) ws d0
    = d0 <| db_requests := db_requests d0 ++ rs |> <| db_next_request := n |> ∧ length rs = length ws ∧
    Forall (λ r, wr_server_id r = server_id ∧ wr_event r = event ∧ wr_attempts r = 0%Z ∧ wr_locked_by r = None) rs) as H; [|apply H].
  induction ws as [|w ws IH]; intros d0; cbn [fold_left].
  - exists [], (db_next_request d0). split_and!; [|done|done]. destruct d0. cbn. by rewrite app_nil_r.
  - destruct (IH (enqueue_request server_id event payload d0 w)) as (rs & n & -> & Hl & Hf).
    exists (request_row server_id event payload d0 w :: rs), n. split_and!; [|by cbn; rewrite Hl|constructor; [|exact Hf]].
    + unfold enqueue_request. cbn. rewrite <- (assoc_L app). reflexivity.
    + by split_and!.
Qed.
End Requests.

(** ** Tenants *)

(** Everything the database keeps for other servers than one. *)
Definition foreign (tenant : Id) (d : MailDb) :=
  (List.filter (λ r, negb (visible tenant r)) (db_messages d),
   List.filter (λ v, negb (dv_server_id v =? tenant)%N) (db_deliveries d),
   List.filter (λ q, negb (q_server_id q =? tenant)%N) (qt_rows (db_queue d)),
   List.filter (λ r, negb (wr_server_id r =? tenant)%N) (db_requests d),
   List.filter (λ s, negb (sp_server_id s =? tenant)%N) (db_suppressions d),
   filter (λ kv, kv.1.1.1 ≠ tenant) (db_subscriptions d),
   filter (λ kv, kv.1.1 ≠ tenant) (db_idempotency_requests d),
   db_webhooks d,
   List.filter (λ t, negb (t.2.1.1 =? tenant)%N) (db_unsubscribe_tokens d),
   filter (λ kv, kv.1.1 ≠ tenant) (db_send_counters d)).




Section Tenants.
Context `{CASE : !UnicodeCase, CRA : !Crates, PAY : !Payloads}.

(** Functions of the database that leave every other tenant alone. *)
Definition within (tenant : Id) (f : MailDb → MailDb) : Prop := ∀ d, foreign tenant (f d) = foreign tenant d.






Lemma within_comp tenant f g : within tenant f → within tenant g → within tenant (λ d, g (f d)).
Proof. intros Hf Hg d. by rewrite (Hg (f d)), (Hf d). Qed.

(** The transactions a tenant's operations run, with their results forgotten. *)
Inductive tenant_transaction (tenant : Id) : (MailDb → MailDb) → Prop :=
| tx_record_delivery mid st de ou tls cat :
    tenant_transaction tenant (λ d, (record_delivery tenant mid st de ou tls cat d).2)
| tx_record_outbound_delivery mid qid st de ou tls cat action event payload :
    tenant_transaction tenant (λ d, (record_outbound_delivery tenant mid qid st de ou tls cat action event payload d).2)
| tx_record_inspection mid st sc th det : tenant_transaction tenant (record_inspection tenant mid st sc th det)
| tx_record_unmatched_bounce mid qid cat de : tenant_transaction tenant (λ d, (record_unmatched_bounce tenant mid qid cat de d).2)
| tx_correlate_bounce mid tokens cat payload : tenant_transaction tenant (λ d, (correlate_bounce tenant mid tokens cat payload d).2)
| tx_requeue_inbound mid bypass : tenant_transaction tenant (λ d, (requeue_inbound tenant mid bypass d).2)
| tx_requeue_outbound mid : tenant_transaction tenant (λ d, (requeue_outbound tenant mid d).2)
| tx_record_complaint stream address : tenant_transaction tenant (record_complaint tenant stream address)
| tx_write_feedback_complaint stream address : tenant_transaction tenant (write_feedback_complaint tenant stream address)
| tx_insert m : qm_server_id m = tenant → tenant_transaction tenant (λ d, (insert_message_in_tx m d).2)
| tx_webhooks event payload : tenant_transaction tenant (enqueue_webhook_requests tenant event payload).















End Tenants.

(** ** What happens to the messages *)

(** An outgoing message that bounced, and one that is still to be delivered. *)
Definition bounced (r : MessageRow) : bool := is_scope !"outgoing" r && is_status !"Bounced" r.
Definition pending_status (status : bytes) : bool := (status =b !"Pending") || (status =b !"SoftFail").
Definition pending (r : MessageRow) : bool := is_scope !"outgoing" r && pending_status (sg_status (stored r)).

Definition firm (r r' : MessageRow) : Prop := bounced r = true → bounced r' = true.
Definition tame (r r' : MessageRow) : Prop := firm r r' ∧ (pending r' = true → pending r = true).

#[export] Instance firm_preorder : PreOrder firm.
Proof. split; [intros r H; exact H|intros a b c Hab Hbc H; apply Hbc, Hab, H]. Qed.
#[export] Instance tame_preorder : PreOrder tame.
Proof.
  split; [intros r; split; [reflexivity|intros H; exact H]|].
  intros a b c [H1 H2] [H3 H4]. split; [by etrans|intros H; apply H2, H4, H].
Qed.

(** The rows stay, each with its identity, and change only as [Φ] allows. *)
Definition touch (Φ : MessageRow → MessageRow → Prop) (d d' : MailDb) : Prop :=
  ∃ g, keeps_identity g ∧ (∀ r, r ∈ db_messages d → Φ r (g r)) ∧
    db_messages d' = map g (db_messages d) ∧ db_next_message d' = db_next_message d.

Lemma keeps_identity_id : keeps_identity id.
Proof. by intros r. Qed.
Lemma keeps_identity_comp f g : keeps_identity f → keeps_identity g → keeps_identity (λ r, g (f r)).
Proof.
  intros Hf Hg r. destruct (Hf r) as (? & ? & ? & ? & ?), (Hg (f r)) as (? & ? & ? & ? & ?). split_and!; congruence.
Qed.
Lemma keeps_identity_if (P : MessageRow → bool) f : keeps_identity f → keeps_identity (λ r, if P r then f r else r).
Proof. intros Hf r. destruct (P r); [apply Hf|by split_and!]. Qed.

Section Touch.
Context (Φ : MessageRow → MessageRow → Prop) `{!PreOrder Φ}.

Lemma touch_same d d' : db_messages d' = db_messages d → db_next_message d' = db_next_message d → touch Φ d d'.
Proof. intros H1 H2. exists id. split_and!; [apply keeps_identity_id|done|by rewrite List.map_id|done]. Qed.

Lemma touch_trans d1 d2 d3 : touch Φ d1 d2 → touch Φ d2 d3 → touch Φ d1 d3.
Proof.
  intros (g1 & I1 & P1 & E1 & N1) (g2 & I2 & P2 & E2 & N2). exists (λ r, g2 (g1 r)).
  split_and!; [by apply keeps_identity_comp| |by rewrite E2, E1, List.map_map|congruence].
  intros r Hr. etrans; [by apply P1|]. apply P2. rewrite E1. apply elem_of_map_list. by exists r.
Qed.

Lemma touch_update P f d : keeps_identity f → (∀ r, r ∈ db_messages d → P r = true → Φ r (f r)) →
  touch Φ d (update_rows P f d).2.
Proof.
  intros Hf HP. exists (λ r, if P r then f r else r). split_and!; [by apply keeps_identity_if| |done|done].
  intros r Hr. destruct (P r) eqn:E; [by apply HP|done].
Qed.

Lemma touch_pair {A} (f : MailDb → A * MailDb) d a d' : touch Φ d (f d).2 → f d = (a, d') → touch Φ d d'.
Proof. intros H E. by rewrite E in H. Qed.

(** A row found after a touch was there before. *)
Lemma touch_row d d' r' : touch Φ d d' → r' ∈ db_messages d' → ∃ r, r ∈ db_messages d ∧ Φ r r' ∧
  row_id r' = row_id r ∧ sg_server_id (stored r') = sg_server_id (stored r) ∧ sg_scope (stored r') = sg_scope (stored r)
  ∧ sg_bounce (stored r') = sg_bounce (stored r) ∧ row_content_purged_at r' = row_content_purged_at r.
Proof.
  intros (g & Hi & HP & -> & _) (r & Hr & ->)%elem_of_map_list. destruct (Hi r) as (H1 & H2 & H3 & H4 & H5).
  exists r. split_and!; [done|by apply HP|done..].
Qed.
Lemma touch_row' d d' r : touch Φ d d' → r ∈ db_messages d → ∃ r', r' ∈ db_messages d' ∧ Φ r r' ∧
  row_id r' = row_id r ∧ sg_server_id (stored r') = sg_server_id (stored r) ∧ sg_scope (stored r') = sg_scope (stored r)
  ∧ sg_bounce (stored r') = sg_bounce (stored r) ∧ row_content_purged_at r' = row_content_purged_at r.
Proof.
  intros (g & Hi & HP & -> & _) Hr. destruct (Hi r) as (H1 & H2 & H3 & H4 & H5).
  exists (g r). split_and!; [apply elem_of_map_list; by exists r|by apply HP|done..].
Qed.
End Touch.

Lemma touch_firm d d' : touch tame d d' → touch firm d d'.
Proof. intros (g & Hi & HP & ? & ?). exists g. split_and!; [done| |done..]. intros r Hr. by apply HP. Qed.

(** Primary keys. *)
Definition ids_ok (d : MailDb) : Prop :=
  NoDup (map row_id (db_messages d)) ∧ ∀ r, r ∈ db_messages d → (row_id r < db_next_message d)%Z.

Lemma ids_ok_touch Φ d d' : touch Φ d d' → ids_ok d → ids_ok d'.
Proof.
  intros (g & Hi & _ & E & N) [Hnd Hlt]. split.
  - rewrite E, List.map_map. erewrite List.map_ext; [exact Hnd|]. intros r. by destruct (Hi r).
  - intros r. rewrite E, N. intros (r0 & Hr & ->)%elem_of_map_list. destruct (Hi r0) as (-> & _). by apply Hlt.
Qed.

Lemma ids_ok_inj d r r' : ids_ok d → r ∈ db_messages d → r' ∈ db_messages d → row_id r = row_id r' → r = r'.
Proof.
  intros [Hnd _] [i Hi]%list_elem_of_lookup [j Hj]%list_elem_of_lookup E. assert (i = j) as ->; [|congruence].
  change (map row_id (db_messages d)) with (row_id <$> db_messages d) in Hnd.
  apply (NoDup_lookup _ i j (row_id r) Hnd); rewrite list_lookup_fmap; [by rewrite Hi|by rewrite Hj, E].
Qed.

(** With unique ids the row of an id is the one the code found. *)
Lemma found_row d P r0 tenant id r : ids_ok d → List.find P (db_messages d) = Some r0 →
  (P r0 = true → has_id tenant id r0 = true) → r ∈ db_messages d → has_id tenant id r = true → r = r0 ∧ P r = true.
Proof.
  intros Hok Hf HP Hr Hid. apply List.find_some in Hf as [Hin Hp]. apply list_elem_of_In in Hin.
  pose proof (HP Hp) as Hid0. apply has_id_spec in Hid0, Hid. destruct Hid0 as [_ Hid0], Hid as [_ Hid].
  assert (r = r0) as ->; [|done]. apply (ids_ok_inj d); [done..|congruence].
Qed.

(** ** The transactions on the messages *)

Section TouchTransactions.
Context `{CASE : !UnicodeCase, CRA : !Crates, PAY : !Payloads} (Φ : MessageRow → MessageRow → Prop) `{!PreOrder Φ}.

Lemma touch_delivery tenant mid st de ou tls d : touch Φ d (insert_delivery tenant mid st de ou tls d).2.
Proof. by apply touch_same. Qed.
Lemma touch_queue f d : touch Φ d (on_queue f d).
Proof. by apply touch_same. Qed.
Lemma touch_requests tenant event payload d : touch Φ d (enqueue_webhook_requests tenant event payload d).
Proof. destruct (enqueue_webhook_requests_eq tenant event payload d) as (rs & n & -> & _). by apply touch_same. Qed.

(** The rows a recorded outcome changes. *)
Lemma touch_record_outbound tenant mid qid st de ou tls cat action event payload d :
  (∀ r, has_id tenant mid r = true → is_scope !"outgoing" r = true → is_status !"Bounced" r = false →
    Φ r (set_status st cat (db_now d) r)) →
  touch Φ d (record_outbound_delivery tenant mid qid st de ou tls cat action event payload d).2.
Proof.
  intros HΦ. unfold record_outbound_delivery. destruct (update_rows _ _ d) as [n d1] eqn:E.
  apply (touch_pair Φ (update_rows _ _)) in E.
  2:{ apply touch_update; [done|auto with mail|]. intros r _. rewrite !andb_true_iff, negb_true_iff.
      intros [[? ?] ?]. by apply HΦ. }
  destruct (n =? 0)%nat; cbn [snd]; [eapply touch_trans; [done|exact E|apply touch_queue]|].
  destruct (insert_delivery _ _ _ _ _ _ d1) as [i d2] eqn:E2. apply (touch_pair Φ (insert_delivery _ _ _ _ _ _)) in E2;
    [|apply touch_delivery]. cbn [snd].
  eapply touch_trans; [done|exact E|]. eapply touch_trans; [done|exact E2|].
  eapply touch_trans; [done| |apply touch_requests]. apply touch_queue.
Qed.

Lemma touch_record_delivery tenant mid st de ou tls cat d :
  (∀ r, has_id tenant mid r = true → is_status !"Bounced" r = false → Φ r (set_status st cat (db_now d) r)) →
  touch Φ d (record_delivery tenant mid st de ou tls cat d).2.
Proof.
  intros HΦ. unfold record_delivery. destruct (update_rows _ _ d) as [n d1] eqn:E.
  apply (touch_pair Φ (update_rows _ _)) in E.
  2:{ apply touch_update; [done|auto with mail|]. intros r _. rewrite !andb_true_iff, negb_true_iff.
      intros [? ?]. by apply HΦ. }
  destruct (n =? 0)%nat; cbn [snd]; [done|].
  destruct (insert_delivery _ _ _ _ _ _ d1) as [i d2] eqn:E2. apply (touch_pair Φ (insert_delivery _ _ _ _ _ _)) in E2;
    [|apply touch_delivery]. cbn [snd]. eapply touch_trans; [done|exact E|exact E2].
Qed.
End TouchTransactions.

(** Rows out of the scope of outgoing mail are neither bounced nor pending. *)
Lemma tame_not_outgoing r r' : is_scope !"outgoing" r' = false → is_scope !"outgoing" r = false → tame r r'.
Proof. unfold tame, firm, bounced, pending. intros -> ->. done. Qed.
Lemma tame_status r r' : sg_scope (stored r') = sg_scope (stored r) → sg_status (stored r') = sg_status (stored r) → tame r r'.
Proof. unfold tame, firm, bounced, pending, is_scope, is_status. intros -> ->. done. Qed.
Lemma tame_settled r r' : sg_scope (stored r') = sg_scope (stored r) → pending_status (sg_status (stored r')) = false →
  (bounced r = false ∨ sg_status (stored r') = !"Bounced") → tame r r'.
Proof.
  unfold tame, firm, bounced, pending, is_scope, is_status. intros -> ->. rewrite andb_false_r. intros H. split; [|done].
  intros Hb. destruct H as [H|H]; [congruence|]. rewrite H, bytes_eqb_refl. by apply andb_true_iff in Hb as [-> _].
Qed.
Lemma incoming_not_outgoing r : is_scope !"incoming" r = true → is_scope !"outgoing" r = false.
Proof. unfold is_scope. intros ->%bytes_eqb_eq. reflexivity. Qed.

(** A transaction that leaves the messages alone. *)
Ltac untouched := apply touch_same; [apply _|reflexivity|reflexivity].

Section Transactions.
Context `{CASE : !UnicodeCase, CRA : !Crates, PAY : !Payloads}.

Lemma touch_inspection tenant mid st sc th det d : touch tame d (record_inspection tenant mid st sc th det d).
Proof. apply touch_update; [apply _|identity|]. intros r _ _. by apply tame_status. Qed.

Lemma touch_unmatched tenant mid qid cat de d : touch tame d (record_unmatched_bounce tenant mid qid cat de d).2.
Proof.
  unfold record_unmatched_bounce. destruct (update_rows _ _ d) as [n d1] eqn:E.
  apply (touch_pair tame (update_rows _ _)) in E.
  2:{ apply touch_update; [apply _|identity|]. intros r _. unfold is_dsn. rewrite !andb_true_iff. intros [[_ H] _].
      apply incoming_not_outgoing in H. by apply tame_not_outgoing. }
  destruct (n =? 1)%nat; cbn [snd].
  - destruct (insert_delivery _ _ _ _ _ _ d1) as [i d2] eqn:E2. apply (touch_pair tame (insert_delivery _ _ _ _ _ _)) in E2;
      [|apply touch_delivery, _]. cbn [snd]. eapply touch_trans; [apply _|exact E|].
    eapply touch_trans; [apply _|exact E2|apply touch_queue, _].
  - eapply touch_trans; [apply _|exact E|apply touch_queue, _].
Qed.

Lemma touch_correlate tenant mid tokens cat payload d : ids_ok d →
  touch tame d (correlate_bounce tenant mid tokens cat payload d).2.
Proof.
  intros Hok. unfold correlate_bounce. destruct (List.find _ _) as [b|] eqn:Ef; [|untouched].
  destruct (sg_bounce_correlated_at _).
  { apply touch_update; [apply _|identity|]. intros r Hr Hid.
    destruct (found_row d _ b tenant mid r Hok Ef) as [_ Hd]; [|done..|].
    { unfold is_dsn. by intros [[? _]%andb_true_iff _]%andb_true_iff. }
    unfold is_dsn in Hd. rewrite !andb_true_iff in Hd. destruct Hd as [[_ Hs] _].
    apply incoming_not_outgoing in Hs. by apply tame_not_outgoing. }
  set (d1 := (update_rows (is_dsn tenant mid) _ d).2).
  assert (touch tame d d1) as H1.
  { apply touch_update; [apply _|identity|]. intros r _ _. by apply tame_status. }
  destruct tokens as [|tok tokens]; [exact H1|]. destruct (outgoing_by_tokens _ _ d1) as [row|]; [|exact H1].
  destruct (update_rows _ _ d1) as [n d2] eqn:E. apply (touch_pair tame (update_rows _ _)) in E.
  2:{ apply touch_update; [apply _|identity|]. intros r _. unfold is_dsn. rewrite !andb_true_iff. intros [[[_ Hs] _] _].
      apply incoming_not_outgoing in Hs. by apply tame_not_outgoing. }
  eapply touch_trans; [apply _|exact H1|]. eapply touch_trans; [apply _|exact E|].
  destruct (n =? 0)%nat; [untouched|]. cbn [snd].
  eapply touch_trans; [apply _| |apply touch_requests, _].
  eapply touch_trans; [apply _|eapply touch_trans; [apply _|apply touch_delivery, _|apply touch_delivery, _]|].
  apply touch_update; [apply _|identity|]. intros r _ _. apply tame_settled; [done|done|by right].
Qed.

Lemma touch_requeue_inbound tenant mid bypass d : touch tame d (requeue_inbound tenant mid bypass d).2.
Proof.
  unfold requeue_inbound. destruct (List.find _ _) as [r|]; [|untouched]. cbn [snd].
  eapply touch_trans; [apply _| |apply touch_queue, _]. apply touch_update; [apply _|identity|].
  intros r' _ [_ Hs]%andb_true_iff. apply incoming_not_outgoing in Hs. by apply tame_not_outgoing.
Qed.

Lemma touch_requeue_outbound tenant mid d : ids_ok d → touch firm d (requeue_outbound tenant mid d).2.
Proof.
  intros Hok. unfold requeue_outbound. destruct (List.find _ _) as [r0|] eqn:Ef; [|untouched].
  destruct (existsb _ _) eqn:Er; cbn [negb]; [|untouched]. destruct (bool_decide _); [untouched|].
  cbn [snd]. set (d1 := on_queue _ d).
  match goal with |- context [update_rows _ _ ?x] => set (d2 := x) end.
  assert (touch firm d d2 ∧ db_messages d2 = db_messages d) as [H2 Hm].
  { unfold d2. destruct (existsb _ (qt_rows (db_queue d1))); (split; [untouched|reflexivity]). }
  eapply touch_trans; [apply _|exact H2|]. apply touch_update; [apply _|identity|]. rewrite Hm. intros r Hr Hid.
  destruct (found_row d _ r0 tenant mid r Hok Ef) as [-> _]; [|done..|].
  { by intros [? _]%andb_true_iff. }
  unfold firm, bounced, is_status. intros [_ Hb%bytes_eqb_eq]%andb_true_iff. rewrite Hb in Er. discriminate.
Qed.

Lemma touch_opt_out kind reason tenant stream address d : touch tame d (opt_out kind reason tenant stream address d).
Proof.
  unfold opt_out, insert_suppression. destruct stream, (existsb _ _); untouched.
Qed.

Lemma set_status_firm st cat now r : is_status !"Bounced" r = false → firm r (set_status st cat now r).
Proof. unfold firm, bounced. by intros ->; rewrite andb_false_r. Qed.

Lemma insert_message_row m d :
  db_messages (insert_message_in_tx m d).2 = db_messages d ++ [message_row (db_now d) (db_next_message d) m]
  ∧ db_next_message (insert_message_in_tx m d).2 = (db_next_message d + 1)%Z
  ∧ qt_rows (db_queue (insert_message_in_tx m d).2) = qt_rows (db_queue d) ++
      [mkQueuedMessageRow (qt_next (db_queue d)) (db_next_message d) (qm_server_id m) (domain_after_at (qm_rcpt_to m)) 0
         (is_broadcast d (qm_stream_id m)) None None None]
  ∧ qt_next (db_queue (insert_message_in_tx m d).2) = (qt_next (db_queue d) + 1)%Z.
Proof.
  pose proof (insert_message_tables m d) as Ht. unfold mail_tables in Ht.
  set (d1 := (insert_message_in_tx m d).2) in *. injection Ht as -> -> _ -> _. by split_and!.
Qed.

(** An insertion adds one row with the next id. *)
Lemma insert_ids_ok m d : ids_ok d → ids_ok (insert_message_in_tx m d).2.
Proof.
  intros [Hnd Hlt]. destruct (insert_message_row m d) as (H1 & H2 & _). split.
  - rewrite H1, List.map_app. apply NoDup_app. split_and!; [done| |apply NoDup_singleton].
    intros i (r & Hr & Ei)%elem_of_map_list Hi%list_elem_of_singleton. apply Hlt in Hr. cbn in Hi. lia.
  - intros r. rewrite H1, H2. intros [Hr|Hr%list_elem_of_singleton]%elem_of_app; [apply Hlt in Hr; lia|].
    rewrite Hr. cbn. lia.
Qed.

(** A tenant's transaction keeps the rows and the bounced ones bounced, or inserts one. *)
Lemma tenant_transaction_messages tenant f d : tenant_transaction tenant f → ids_ok d →
  touch firm d (f d) ∨ ∃ m, f d = (insert_message_in_tx m d).2.
Proof.
  intros H Hok. destruct H; [left..|right; by exists m|left].
  - apply touch_record_delivery; [apply _|]. intros r _. apply set_status_firm.
  - apply touch_record_outbound; [apply _|]. intros r _ _. apply set_status_firm.
  - apply touch_firm, touch_inspection.
  - apply touch_firm, touch_unmatched.
  - by apply touch_firm, touch_correlate.
  - apply touch_firm, touch_requeue_inbound.
  - by apply touch_requeue_outbound.
  - apply touch_firm, touch_opt_out.
  - apply touch_firm, touch_opt_out.
  - apply touch_requests, _.
Qed.

(** What may happen to the database between two looks at it: a transaction of any
    tenant, any change of the delivery queue, and time. *)
Inductive db_step (d : MailDb) : MailDb → Prop :=
| step_tenant tenant f : tenant_transaction tenant f → db_step d (f d)
| step_queue f : db_step d (on_queue f d)
| step_time now : db_step d (d <| db_now := now |>).

Lemma db_step_ids d d' : db_step d d' → ids_ok d → ids_ok d'.
Proof.
  intros [tenant f H|f|now] Hok; [|done|done]. destruct (tenant_transaction_messages tenant f d H Hok) as [Ht|[m ->]].
  - by eapply ids_ok_touch.
  - by apply insert_ids_ok.
Qed.

Definition has_bounced (tenant : Id) (mid : Z) (d : MailDb) : Prop :=
  ∃ r, r ∈ db_messages d ∧ has_id tenant mid r = true ∧ bounced r = true.

Lemma db_step_bounced tenant mid d d' : db_step d d' → ids_ok d → has_bounced tenant mid d → has_bounced tenant mid d'.
Proof.
  intros [tenant' f H|f|now] Hok (r & Hr & Hid & Hb); [|by exists r|by exists r].
  destruct (tenant_transaction_messages tenant' f d H Hok) as [Ht|[m ->]].
  - destruct (touch_row' firm d (f d) r Ht Hr) as (r' & Hr' & Hf & H1 & H2 & _). exists r'.
    split_and!; [done| |by apply Hf]. apply has_id_spec in Hid as [? ?]. apply has_id_spec. split; congruence.
  - exists r. split_and!; [|done..]. destruct (insert_message_row m d) as (-> & _). apply elem_of_app. by left.
Qed.

Lemma bounced_steps tenant mid d d' : rtc db_step d d' → ids_ok d → has_bounced tenant mid d →
  ids_ok d' ∧ has_bounced tenant mid d'.
Proof.
  intros H. induction H as [d|d1 d2 d3 H _ IH]; intros Hok Hb; [done|].
  apply IH; [by eapply db_step_ids|by eapply db_step_bounced].
Qed.

Lemma update_rows_none P f d : (∀ r, r ∈ db_messages d → P r = false) → update_rows P f d = (0, d).
Proof.
  intros H. unfold update_rows. f_equal.
  - induction (db_messages d) as [|r l IH]; [done|]. cbn. rewrite (H r) by apply list_elem_of_here.
    apply IH. intros r' Hr. apply H. by apply list_elem_of_further.
  - assert (map (λ r, if P r then f r else r) (db_messages d) = db_messages d) as ->; [|by destruct d].
    induction (db_messages d) as [|r l IH]; [done|]. cbn. rewrite (H r) by apply list_elem_of_here.
    f_equal. apply IH. intros r' Hr. apply H. by apply list_elem_of_further.
Qed.

(** C30: An outgoing message that bounced stays bounced whatever any tenant, worker or
    request does, and an attempt to record another outcome for it (a slow worker
    that was sending it meanwhile) leaves no delivery and no webhook: it removes the
    queue row it was given and nothing else. *)
Theorem bounced_is_final tenant mid d d' : ids_ok d → has_bounced tenant mid d → rtc db_step d d' →
  has_bounced tenant mid d' ∧
  ∀ qid st de ou tls cat action event payload,
    record_outbound_delivery tenant mid qid st de ou tls cat action event payload d'
    = (None, on_queue (complete_message qid (Some (mid, tenant))) d').
Proof.
  intros Hok Hb Hs. destruct (bounced_steps tenant mid d d' Hs Hok Hb) as [Hok' Hb']. split; [done|].
  intros qid st de ou tls cat action event payload. unfold record_outbound_delivery.
  destruct Hb' as (r0 & Hr0 & [_ Hid0]%has_id_spec & [_ Hbs]%andb_true_iff).
  rewrite update_rows_none; [done|]. intros r Hr. destruct (has_id tenant mid r) eqn:Hid; [|done].
  apply has_id_spec in Hid as [_ Hid]. assert (r = r0) as ->; [|by rewrite Hbs, andb_false_r].
  apply (ids_ok_inj d'); [done..|congruence].
Qed.

(** ** One bounce, one original *)

Definition keeps_correlation (r r' : MessageRow) : Prop :=
  is_Some (sg_bounce_correlated_at (stored r)) → is_Some (sg_bounce_correlated_at (stored r')).
#[export] Instance keeps_correlation_preorder : PreOrder keeps_correlation.
Proof. split; [intros r H; exact H|intros a b c Hab Hbc H; apply Hbc, Hab, H]. Qed.

Lemma is_dsn_identity tenant mid r r' : row_id r' = row_id r → sg_server_id (stored r') = sg_server_id (stored r) →
  sg_scope (stored r') = sg_scope (stored r) → sg_bounce (stored r') = sg_bounce (stored r) →
  is_dsn tenant mid r' = is_dsn tenant mid r.
Proof. unfold is_dsn, has_id, visible, is_scope. by intros -> -> -> ->. Qed.

(** A notification that was correlated is found as such after a touch. *)
Lemma correlated_after tenant mid d d' : touch keeps_correlation d d' →
  (∀ r, r ∈ db_messages d → is_dsn tenant mid r = true → is_Some (sg_bounce_correlated_at (stored r))) →
  (∃ r, r ∈ db_messages d ∧ is_dsn tenant mid r = true) →
  ∃ b at_, List.find (is_dsn tenant mid) (db_messages d') = Some b ∧ sg_bounce_correlated_at (stored b) = Some at_.
Proof.
  intros Ht Hall (r0 & Hr0 & Hd0). destruct (touch_row' _ _ _ _ Ht Hr0) as (r1 & Hr1 & _ & H1 & H2 & H3 & H4 & _).
  destruct (List.find (is_dsn tenant mid) (db_messages d')) as [b|] eqn:Ef.
  - apply List.find_some in Ef as [Hb Hbd]. apply list_elem_of_In in Hb.
    destruct (touch_row _ _ _ _ Ht Hb) as (r & Hr & Hk & I1 & I2 & I3 & I4 & _).
    rewrite (is_dsn_identity tenant mid r b I1 I2 I3 I4) in Hbd. destruct (Hk (Hall r Hr Hbd)) as [at_ Hat].
    by exists b, at_.
  - apply list_elem_of_In in Hr1. apply (List.find_none _ _ Ef) in Hr1.
    rewrite (is_dsn_identity tenant mid r0 r1 H1 H2 H3 H4) in Hr1. congruence.
Qed.

Lemma outgoing_by_tokens_spec tenant tokens d row : outgoing_by_tokens tenant tokens d = Some row →
  row ∈ db_messages d ∧ visible tenant row = true ∧ is_scope !"outgoing" row = true ∧
  is_Some (array_position tokens (sg_token (stored row))).
Proof.
  unfold outgoing_by_tokens.
  intros [[Hin Hp]%elem_of_filter_list _]%(keyed_head (λ r, (0, _, _)%Z)).
  rewrite !andb_true_iff, bool_decide_eq_true in Hp. tauto.
Qed.
Lemma array_position_elem tokens token : is_Some (array_position tokens token) → token ∈ tokens.
Proof.
  induction tokens as [|x l IH]; cbn; [by intros [? ?]|]. destruct (bytes_eqb_spec x token) as [->|]; [left|].
  intros [? H]. right. apply IH. destruct (array_position l token); [by eexists|done].
Qed.

Lemma update_rows_elem P f d r : r ∈ db_messages (update_rows P f d).2 ↔
  ∃ r0, r0 ∈ db_messages d ∧ r = (if P r0 then f r0 else r0).
Proof. apply elem_of_map_list. Qed.

(** The original of a correlated notification is an outgoing message of the tenant
    that carries one of the notification's tokens, as it was before. *)
Lemma original_of_tokens tenant mid tokens cat d row :
  let d1 := (update_rows (is_dsn tenant mid) (on_stored (λ m, m <| sg_bounce_category := Some cat |>)) d).2 in
  outgoing_by_tokens tenant tokens d1 = Some row →
  row ∈ db_messages d ∧ visible tenant row = true ∧ is_scope !"outgoing" row = true ∧ sg_token (stored row) ∈ tokens.
Proof.
  intros d1 (Hin & Hv & Ho & Ht)%outgoing_by_tokens_spec. split_and!; [|done|done|by apply array_position_elem].
  apply update_rows_elem in Hin as (r0 & Hr0 & ->). destruct (is_dsn tenant mid r0) eqn:E; [|done].
  unfold is_dsn in E. rewrite !andb_true_iff in E. destruct E as [[_ Hs] _]. apply incoming_not_outgoing in Hs.
  unfold is_scope in Ho, Hs. cbn in Ho. change ((sg_scope (stored r0) =b !"outgoing") = true) in Ho. congruence.
Qed.

(** What a correlation did, up to the columns that do not matter. *)
Lemma correlate_inv tenant mid tokens cat payload d o d' :
  correlate_bounce tenant mid tokens cat payload d = (Correlated o, d') →
  ∃ row d2 v w f, o = bounce_original_from_row row ∧
    row ∈ db_messages d ∧ visible tenant row = true ∧ is_scope !"outgoing" row = true ∧ sg_token (stored row) ∈ tokens ∧
    (∃ b, b ∈ db_messages d ∧ is_dsn tenant mid b = true) ∧
    touch keeps_correlation d d2 ∧
    (∀ r, r ∈ db_messages d2 → is_dsn tenant mid r = true → is_Some (sg_bounce_correlated_at (stored r))) ∧
    dv_message_id v = mid ∧ dv_status v = !"Processed" ∧ dv_message_id w = bo_id o ∧ dv_status w = !"Bounced" ∧
    touch keeps_correlation d2 d' ∧ db_deliveries d' = db_deliveries d ++ [v; w] ∧
    keeps_identity f ∧ (∀ r, sg_status (stored (f r)) = !"Bounced") ∧
    db_messages d' = map (λ r, if has_id tenant (bo_id o) r then f r else r) (db_messages d2).
Proof.
  unfold correlate_bounce. destruct (List.find _ (db_messages d)) as [b|] eqn:Ef; [|done].
  apply List.find_some in Ef as [Hb Hbd]. apply list_elem_of_In in Hb.
  destruct (sg_bounce_correlated_at _); [done|].
  set (d1 := (update_rows (is_dsn tenant mid) _ d).2).
  assert (touch keeps_correlation d d1) as H1.
  { apply touch_update; [apply _|identity|]. intros r _ _ H. exact H. }
  destruct tokens as [|tok rest] eqn:Et; [done|]. rewrite <- Et. clear Et tok rest.
  destruct (outgoing_by_tokens tenant tokens d1) as [row|] eqn:Er; [|done].
  destruct (original_of_tokens tenant mid tokens cat d row Er) as (R1 & R2 & R3 & R4).
  destruct (update_rows _ _ d1) as [n d2] eqn:E. destruct (n =? 0)%nat; [done|].
  set (o' := bounce_original_from_row row). match goal with |- context [update_rows _ ?f _] => set (f' := f) end.
  intros H. pose proof (f_equal snd H) as Hd. apply (f_equal fst) in H. cbn [fst snd] in H, Hd. injection H as <-. subst d'.
  apply (f_equal snd) in E. cbn [snd] in E. exists row, d2.
  eexists (mkDelivery _ _ _ _ _ _ _), (mkDelivery _ _ _ _ _ _ _), f'.
  split_and!; [done|done|done|done|done|by exists b| | |done|done|done|done| | |identity|by intros r|].
  - eapply touch_trans; [apply _|exact H1|]. rewrite <- E. apply touch_update; [apply _|identity|].
    intros r _ _ _. by eexists.
  - rewrite <- E. intros r (r0 & _ & ->)%update_rows_elem. destruct (is_dsn tenant mid r0) eqn:Ed; cbn [andb].
    + destruct (bool_decide (is_Some _)) eqn:Eb; cbn [negb]; [|by eexists]. by apply bool_decide_eq_true in Eb.
    + congruence.
  - eapply touch_trans; [apply _| |apply touch_requests, _].
    match goal with |- touch _ _ (update_rows _ _ ?x).2 => apply (touch_trans _ _ x); [untouched|] end.
    apply touch_update; [apply _|identity|]. intros r _ _ H. exact H.
  - match goal with |- context [enqueue_webhook_requests _ _ ?p ?x] =>
      destruct (enqueue_webhook_requests_eq tenant !"MessageBounced" p x) as (rs & k & -> & _) end.
    rewrite <- E. cbn. rewrite <- (assoc_L app). reflexivity.
  - match goal with |- context [enqueue_webhook_requests _ _ ?p ?x] =>
      destruct (enqueue_webhook_requests_eq tenant !"MessageBounced" p x) as (rs & k & -> & _) end. reflexivity.
Qed.

(** A failure notification is attributed to one outgoing message of its tenant,
    whose token it carries; that message is bounced, one delivery is recorded for
    each of the two, and the same notification processed again (a worker that died
    before it removed the queue row) is recognised: no delivery, no webhook and no
    queue row is added, and no second message is bounced. *)
Theorem bounce_counted_once tenant mid tokens cat payload d o d' :
  correlate_bounce tenant mid tokens cat payload d = (Correlated o, d') →
  (∃ row, row ∈ db_messages d ∧ visible tenant row = true ∧ is_scope !"outgoing" row = true ∧
     sg_token (stored row) ∈ tokens ∧ o = bounce_original_from_row row) ∧
  has_bounced tenant (bo_id o) d' ∧
  (∃ v w, db_deliveries d' = db_deliveries d ++ [v; w] ∧ dv_message_id v = mid ∧ dv_status v = !"Processed" ∧
     dv_message_id w = bo_id o ∧ dv_status w = !"Bounced") ∧
  ∀ tokens' cat' payload',
    let '(o', d2) := correlate_bounce tenant mid tokens' cat' payload' d' in
    o' = AlreadyCorrelated ∧ db_deliveries d2 = db_deliveries d' ∧ db_requests d2 = db_requests d' ∧
    db_queue d2 = db_queue d' ∧ ∀ r, r ∈ db_messages d2 → r ∈ db_messages d' ∨ has_id tenant mid r = true.
Proof.
  intros H. destruct (correlate_inv _ _ _ _ _ _ _ _ H)
    as (row & d2 & v & w & f & -> & R1 & R2 & R3 & R4 & (b & Hb & Hbd) & T1 & Hall & V1 & V2 & W1 & W2 & T2 & Hd & Hi & Hf & Hm).
  split_and!; [by exists row| |by exists v, w|].
  - destruct (touch_row' _ _ _ _ T1 R1) as (r & Hr & _ & I1 & I2 & I3 & _). exists (f r).
    assert (has_id tenant (row_id row) r = true) as Hid.
    { apply has_id_spec. unfold visible in R2. apply N.eqb_eq in R2. split; congruence. }
    split_and!; [rewrite Hm; apply elem_of_map_list; exists r; split; [done|]|by rewrite has_id_identity|].
    { change (bo_id (bounce_original_from_row row)) with (row_id row). by rewrite Hid. }
    unfold bounced. rewrite is_scope_identity by done. unfold is_scope, is_status in *. by rewrite I3, R3, Hf, bytes_eqb_refl.
  - intros tokens' cat' payload'. destruct (touch_row' _ _ _ _ T1 Hb) as (r & Hr & _ & I1 & I2 & I3 & I4 & _).
    destruct (correlated_after tenant mid d2 d' T2 Hall) as (b' & at_ & Ef & Ec).
    { exists r. split; [done|]. by rewrite (is_dsn_identity tenant mid b r). }
    unfold correlate_bounce. rewrite Ef, Ec. split_and!; [done..|].
    intros r' (r0 & Hr0 & ->)%update_rows_elem. destruct (has_id tenant mid r0) eqn:E; [right|by left]. exact E.
Qed.
End Transactions.

(** ** A small database *)

#[local] Existing Instance concrete_crates.
#[local] Existing Instance concrete_case.

Definition concrete_payloads : Payloads :=
  {| json_to_string _ := []; parse_header_value := Some; f64_seconds := show_Z; message_token := show_Z;
     tracking_token n := show_N (N.of_nat n); request_uuid := show_Z |}.
#[local] Existing Instance concrete_payloads.
Definition fx_db : MailDb := mkMailDb 0 [] 1 [] 1 queue_empty [] [] 1 [] ∅ [] ∅ ∅ ∅ ∅ ∅ ∅ [] ∅ (mkActivity [] 1 [] [] []).
Definition fx_message : QueuedMessage :=
  mkQueuedMessage 1 !"you@other.example" !"me@a.example" (!"Subject: hi" ++ CRLF ++ CRLF ++ !"hello") false Outgoing false
    None None None None None None.
Definition fx_notification : QueuedMessage :=
  mkQueuedMessage 1 !"token@rp.example" [] (!"Subject: failed" ++ CRLF ++ CRLF ++ !"bounced") false Incoming true
    None None None None None None.
(** Message 1 went out, message 2 is the notification of its failure. *)
Definition fx_sent_db : MailDb := (insert_message_in_tx fx_notification (insert_message_in_tx fx_message fx_db).2).2.
Definition fx_correlated : BounceCorrelationOutcome * MailDb :=
  correlate_bounce 1 2 [!"1"] !"hard" (λ _, VNull) fx_sent_db.


Theorem bounce_counted_once_witness :
  ∃ o d, fx_correlated = (Correlated o, d) ∧ bo_id o = 1%Z ∧ has_bounced 1 1 d.
Proof.
  pose proof (bounce_counted_once 1 2 [!"1"] !"hard" (λ _, VNull) fx_sent_db) as H.
  assert (bool_decide (match fx_correlated.1 with Correlated o => bo_id o | _ => 0%Z end = 1%Z) = true) as Ho by (vm_compute; reflexivity).
  apply bool_decide_eq_true in Ho. change (correlate_bounce 1 2 [!"1"] !"hard" (λ _, VNull) fx_sent_db) with fx_correlated in H.
  destruct fx_correlated as [[o| |] d] eqn:E; [|done..]. cbn in Ho. exists o, d.
  destruct (H o d eq_refl) as (_ & Hb & _). rewrite Ho in Hb. by split_and!.
Defined.

Lemma fx_sent_ids : ids_ok fx_sent_db.
Proof. by apply insert_ids_ok, insert_ids_ok; split; [constructor|intros r Hr%elem_of_nil]. Qed.

Lemma fx_correlated_ids : ids_ok fx_correlated.2.
Proof.
  unfold fx_correlated. eapply (ids_ok_touch tame); [|exact fx_sent_ids]. apply touch_correlate. exact fx_sent_ids.
Qed.

Lemma fx_has_bounced : has_bounced 1 1 fx_correlated.2.
Proof.
  assert (existsb (λ r, has_id 1 1 r && bounced r) (db_messages fx_correlated.2) = true) as H by (vm_compute; reflexivity).
  apply List.existsb_exists in H as (r & Hr%list_elem_of_In & [Hid Hb]%andb_true_iff). by exists r.
Qed.

Theorem bounced_is_final_witness :
  has_bounced 1 1 fx_correlated.2 ∧
  (record_outbound_delivery 1 1 1 !"Sent" [] [] false None Complete !"MessageSent" VNull
     (fx_correlated.2 <| db_now := 60%Z |>)).1 = None.
Proof.
  split; [exact fx_has_bounced|].
  destruct (bounced_is_final 1 1 fx_correlated.2 (fx_correlated.2 <| db_now := 60%Z |>) fx_correlated_ids fx_has_bounced
    (rtc_once _ _ (step_time fx_correlated.2 60%Z))) as [_ H].
  exact (f_equal fst (H 1%Z !"Sent" [] [] false None Complete !"MessageSent" VNull)).
Defined.
