(* ===== verification/MailInvariant.v ===== *)
(** * MailInvariant: no mail is stranded

    An outgoing message that is still to be delivered has a row in the delivery
    queue, queue ids are unique and attempts stay below the limit.  The invariant
    holds of the database between any two transactions; this file proves it of each
    transaction, [WorkerFacts] of every step of a worker. *)

From S2P Require Import Prelude RustStr RustStrFacts Net Model SendLimit Message MemoryStore MemoryFacts Queue QueueFacts MailDb PgSink MailDbFacts.

Definition queue_rows (d : MailDb) : list QueuedMessageRow := qt_rows (db_queue d).

(** The queue row [q] is for the message of row [r]. *)
Definition backs (q : QueuedMessageRow) (r : MessageRow) : Prop :=
  of_message (sg_server_id (stored r)) (row_id r) q = true.
Lemma backs_spec q r : backs q r ↔ q_message_id q = row_id r ∧ q_server_id q = sg_server_id (stored r).
Proof. unfold backs, of_message. by rewrite andb_true_iff, Z.eqb_eq, N.eqb_eq. Qed.

Record mail_inv (max : Z) (d : MailDb) : Prop := {
  inv_ids : ids_ok d;
  inv_queue : NoDup (map q_id (queue_rows d));
  inv_next : ∀ q, q ∈ queue_rows d → (q_id q < qt_next (db_queue d))%Z;
  inv_attempts : ∀ q, q ∈ queue_rows d → (0 <= q_attempts q < max)%Z;
  inv_backed : ∀ r, r ∈ db_messages d → pending r = true → ∃ q, q ∈ queue_rows d ∧ backs q r;
  inv_content : ∀ r q, r ∈ db_messages d → is_scope !"outgoing" r = true → q ∈ queue_rows d → backs q r →
    row_content_purged_at r = None;
}.

Section Invariant.
Context (max : Z).

Lemma inv_empty d : db_messages d = [] → qt_rows (db_queue d) = [] → mail_inv max d.
Proof.
  intros Hm Hq. split; unfold queue_rows, ids_ok; rewrite ?Hm, ?Hq; cbn; try by constructor.
  - split; [constructor|]. by intros r Hr%elem_of_nil.
  - by intros q Hin%elem_of_nil.
  - by intros q Hin%elem_of_nil.
  - by intros r Hr%elem_of_nil.
  - by intros r q Hr%elem_of_nil.
Qed.

(** A transaction on the messages that makes none pending. *)
Lemma inv_touch d d' : touch tame d d' → db_queue d' = db_queue d → mail_inv max d → mail_inv max d'.
Proof.
  intros Ht Hq [H1 H2 H3 H4 H5 H6]. unfold queue_rows in *.
  split; unfold queue_rows; rewrite ?Hq; [by eapply ids_ok_touch|done|done|done|intros r' Hr' Hp|intros r' q Hr' Ho Hin Hb]; last first.
  { destruct (touch_row _ _ _ _ Ht Hr') as (r & Hr & _ & I1 & I2 & I3 & _ & ->). apply (H6 r q Hr); [|done|].
    - unfold is_scope in *. by rewrite <- I3.
    - apply backs_spec in Hb. apply backs_spec. by rewrite <- I1, <- I2. }
  destruct (touch_row _ _ _ _ Ht Hr') as (r & Hr & [_ Ht'] & I1 & I2 & _).
  destruct (H5 r Hr (Ht' Hp)) as (q & Hin & Hb). exists q. split; [done|].
  apply backs_spec in Hb. apply backs_spec. by rewrite I1, I2.
Qed.

Lemma inv_same d d' : db_messages d' = db_messages d → db_next_message d' = db_next_message d → db_queue d' = db_queue d →
  mail_inv max d → mail_inv max d'.
Proof. intros H1 H2 H3. apply inv_touch; [|done]. by apply touch_same; [apply _|..]. Qed.

(** A statement on the queue that keeps a row for every pending message. *)
Lemma inv_on_queue f d :
  (NoDup (map q_id (queue_rows d)) → (∀ q, q ∈ queue_rows d → (q_id q < qt_next (db_queue d))%Z) →
   NoDup (map q_id (qt_rows (f (db_queue d)))) ∧
   ∀ q, q ∈ qt_rows (f (db_queue d)) → (q_id q < qt_next (f (db_queue d)))%Z) →
  (∀ q, q ∈ qt_rows (f (db_queue d)) → (∀ q, q ∈ queue_rows d → (0 <= q_attempts q < max)%Z) → (0 <= q_attempts q < max)%Z) →
  (∀ r q, r ∈ db_messages d → pending r = true → q ∈ queue_rows d → backs q r →
    ∃ q', q' ∈ qt_rows (f (db_queue d)) ∧ backs q' r) →
  (∀ r q', r ∈ db_messages d → is_scope !"outgoing" r = true → q' ∈ qt_rows (f (db_queue d)) → backs q' r →
    row_content_purged_at r = None ∨ ∃ q, q ∈ queue_rows d ∧ backs q r) →
  mail_inv max d → mail_inv max (on_queue f d).
Proof.
  intros Hn Ha Hb Hc [H1 H2 H3 H4 H5 H6]. destruct (Hn H2 H3) as [N1 N2].
  split; [done|exact N1|exact N2|intros q Hq; by apply Ha| |].
  - intros r Hr Hp. destruct (H5 r Hr Hp) as (q & Hq & Hqb). by apply (Hb r q).
  - intros r q' Hr Ho Hq' Hb'. destruct (Hc r q' Hr Ho Hq' Hb') as [?|(q & Hq & Hqb)]; [done|by apply (H6 r q)].
Qed.

(** Rows updated in place. *)
Lemma inv_queue_map g d :
  (∀ q, q_id (g q) = q_id q ∧ q_message_id (g q) = q_message_id q ∧ q_server_id (g q) = q_server_id q) →
  (∀ q, q ∈ queue_rows d → (0 <= q_attempts q < max)%Z → (0 <= q_attempts (g q) < max)%Z) →
  mail_inv max d → mail_inv max (on_queue (λ t, t <| qt_rows := map g (qt_rows t) |>) d).
Proof.
  intros Hg Ha. apply inv_on_queue; cbn; fold (queue_rows d).
  - intros Hn Hlt. split.
    + rewrite List.map_map. erewrite List.map_ext; [exact Hn|]. intros q. apply Hg.
    + intros q' (q & Hq & ->)%elem_of_map_list. destruct (Hg q) as (-> & _). by apply Hlt.
  - intros q' (q & Hq & ->)%elem_of_map_list H. by apply Ha, H.
  - intros r q _ _ Hq Hb. exists (g q). split; [apply elem_of_map_list; by exists q|].
    apply backs_spec. apply backs_spec in Hb. by destruct (Hg q) as (_ & -> & ->).
  - intros r q' _ _ (q & Hq & ->)%elem_of_map_list Hb. right. exists q. split; [done|].
    apply backs_spec. apply backs_spec in Hb. destruct (Hg q) as (_ & E1 & E2). by rewrite <- E1, <- E2.
Qed.

(** Rows removed, none of them for a pending message. *)
Lemma inv_queue_filter P d :
  (∀ r q, r ∈ db_messages d → pending r = true → q ∈ queue_rows d → backs q r → P q = true) →
  mail_inv max d → mail_inv max (on_queue (λ t, t <| qt_rows := List.filter P (qt_rows t) |>) d).
Proof.
  intros HP. apply inv_on_queue; cbn; fold (queue_rows d).
  - intros Hn Hlt. split.
    + clear - Hn. induction (queue_rows d) as [|q l IH]; cbn in *; [done|]. apply NoDup_cons in Hn as [Hn1 Hn2].
      destruct (P q); [|by apply IH]. cbn. apply NoDup_cons. split; [|by apply IH].
      intros (q' & Hq' & E)%elem_of_map_list. apply elem_of_filter_list in Hq' as [Hq' _]. apply Hn1.
      apply elem_of_map_list. by exists q'.
    + intros q [Hq _]%elem_of_filter_list. by apply Hlt.
  - intros q [Hq _]%elem_of_filter_list H. by apply H.
  - intros r q Hr Hp Hq Hb. exists q. split; [|done]. apply elem_of_filter_list. split; [done|by eapply HP].
  - intros r q _ _ [Hq _]%elem_of_filter_list Hb. right. by exists q.
Qed.

(** A row added, not for a message whose content is gone. *)
Lemma inv_enqueue mid tenant domain bulk d : (0 < max)%Z →
  (∀ r, r ∈ db_messages d → has_id tenant mid r = true → is_scope !"outgoing" r = true → row_content_purged_at r = None) →
  mail_inv max d → mail_inv max (on_queue (λ t, (enqueue_with_kind mid tenant domain bulk t).2) d).
Proof.
  intros Hmax Hc. apply inv_on_queue; cbn; fold (queue_rows d).
  - intros Hn Hlt. split.
    + rewrite List.map_app. apply NoDup_app. split_and!; [done| |apply NoDup_singleton].
      intros i (q & Hq & ->)%elem_of_map_list Hi%list_elem_of_singleton. apply Hlt in Hq. cbn in Hi. lia.
    + intros q [Hq|Hq%list_elem_of_singleton]%elem_of_app; [apply Hlt in Hq; lia|rewrite Hq; cbn; lia].
  - intros q [Hq|Hq%list_elem_of_singleton]%elem_of_app H; [by apply H|rewrite Hq; cbn; lia].
  - intros r q _ _ Hq Hb. exists q. split; [|done]. apply elem_of_app. by left.
  - intros r q Hr Ho [Hq|Hq%list_elem_of_singleton]%elem_of_app Hb; [right; by exists q|left].
    apply (Hc r Hr); [|done]. apply backs_spec in Hb. subst q. apply has_id_spec. cbn in Hb. by destruct Hb as [-> ->].
Qed.

Lemma inv_lock p worker_id now busy d row p' t' :
  dequeue p worker_id now busy (db_queue d) = (row, p', t') → mail_inv max d → mail_inv max (on_queue (λ _, t') d).
Proof.
  intros E. pose proof (try_servers_spec p worker_id now busy
    (turn_order (candidates p now (db_queue d)) (last_served (pq_turns p))) (db_queue d)) as H.
  unfold dequeue in E. rewrite E in H. destruct row as [row|].
  - destruct H as (_ & _ & _ & r & _ & _ & _ & _ & _ & -> & _).
    apply (inv_queue_map (λ x, if (q_id x =? q_id r)%Z then lock_row worker_id now x else x)).
    + intros q. by destruct (_ =? _)%Z.
    + intros q _. by destruct (_ =? _)%Z.
  - destruct H as (_ & -> & _). apply inv_same; reflexivity.
Qed.

(** Queue ids name one row. *)
Lemma queue_row_inj d q q' : mail_inv max d → q ∈ queue_rows d → q' ∈ queue_rows d → q_id q = q_id q' → q = q'.
Proof.
  intros Hi [i Hq]%list_elem_of_lookup [j Hq']%list_elem_of_lookup E. pose proof (inv_queue _ _ Hi) as Hnd.
  change (map q_id (queue_rows d)) with (q_id <$> queue_rows d) in Hnd. assert (i = j) as ->; [|congruence].
  apply (NoDup_lookup _ i j (q_id q) Hnd); rewrite list_lookup_fmap; [by rewrite Hq|by rewrite Hq', E].
Qed.

(** An update that makes only backed rows pending. *)
Lemma inv_update P f d : keeps_identity f →
  (∀ r, r ∈ db_messages d → P r = true → pending (f r) = true → ∃ q, q ∈ queue_rows d ∧ backs q r) →
  mail_inv max d → mail_inv max (update_rows P f d).2.
Proof.
  intros Hf HP [H1 H2 H3 H4 H5 H6].
  assert (touch (λ _ _, True) d (update_rows P f d).2) as Ht.
  { exists (λ r, if P r then f r else r). split_and!; [by apply keeps_identity_if|done..]. }
  split; [by eapply ids_ok_touch|done|done|done| |]; last first.
  { intros r' q Hr' Ho Hin Hb. destruct (touch_row _ _ _ _ Ht Hr') as (r & Hr & _ & I1 & I2 & I3 & _ & ->).
    apply (H6 r q Hr); [unfold is_scope in *; by rewrite <- I3|done|].
    apply backs_spec in Hb. apply backs_spec. by rewrite <- I1, <- I2. }
  intros r' (r & Hr & ->)%update_rows_elem Hp.
  assert (∃ q, q ∈ queue_rows d ∧ backs q r) as (q & Hq & Hb) by (destruct (P r) eqn:E; eauto).
  exists q. split; [done|]. apply backs_spec in Hb. apply backs_spec. destruct (P r); [|done].
  destruct (Hf r) as (-> & -> & _). done.
Qed.

(** Removing a row of a message that is settled. *)
Definition settled_message (tenant : Id) (mid : Z) (d : MailDb) : Prop :=
  ∀ r, r ∈ db_messages d → has_id tenant mid r = true → pending r = false.

Lemma inv_complete_owner tenant mid qid d : settled_message tenant mid d →
  mail_inv max d → mail_inv max (on_queue (complete_message qid (Some (mid, tenant))) d).
Proof.
  intros Hs. apply inv_queue_filter. intros r q Hr Hp _ [Hm Ht]%backs_spec.
  apply negb_true_iff. unfold addressed. rewrite Hm, Ht. apply not_true_iff_false.
  rewrite !andb_true_iff, Z.eqb_eq, Z.eqb_eq, N.eqb_eq. intros [_ [H1 H2]].
  rewrite (Hs r Hr) in Hp; [done|]. by apply has_id_spec.
Qed.

Lemma inv_delivery tenant mid st de ou tls d :
  mail_inv max d → mail_inv max (insert_delivery tenant mid st de ou tls d).2.
Proof. by apply inv_same. Qed.

Lemma inv_retry now qid attempts owner d : (∀ q, q ∈ queue_rows d → q_id q = qid → (q_attempts q + 1 < max)%Z) →
  mail_inv max d → mail_inv max (on_queue (retry_message now qid attempts owner) d).
Proof.
  intros Ha. apply inv_queue_map.
  - intros q. by destruct (addressed _ _ _).
  - intros q Hq Hb. destruct (addressed qid owner q) eqn:E; [|done]. apply andb_true_iff in E as [E%Z.eqb_eq _].
    specialize (Ha q Hq E). cbn. lia.
Qed.

Section Database.
Context `{CASE : !UnicodeCase, CRA : !Crates, PAY : !Payloads}.

Lemma inv_requests tenant event payload d : mail_inv max d → mail_inv max (enqueue_webhook_requests tenant event payload d).
Proof. destruct (enqueue_webhook_requests_eq tenant event payload d) as (rs & n & -> & _). by apply inv_same. Qed.

(** A recorded outcome: final, or a retry of the row that backs the message. *)
Lemma inv_record_outbound tenant mid qid st de ou tls cat action event payload d :
  match action with
  | Complete => pending_status st = false
  | Retry _ => (∃ q, q ∈ queue_rows d ∧ of_message tenant mid q = true) ∧
               ∀ q, q ∈ queue_rows d → q_id q = qid → (q_attempts q + 1 < max)%Z
  end →
  mail_inv max d → mail_inv max (record_outbound_delivery tenant mid qid st de ou tls cat action event payload d).2.
Proof.
  intros Ha Hi. unfold record_outbound_delivery.
  set (P := λ r, has_id tenant mid r && is_scope !"outgoing" r && negb (is_status !"Bounced" r)).
  set (d1 := update_rows P (set_status st cat (db_now d)) d).
  assert (mail_inv max d1.2) as H1.
  { apply inv_update; [auto with mail| |done]. intros r Hr Hp Hpend.
    unfold P in Hp. rewrite !andb_true_iff in Hp. destruct Hp as [[Hid%has_id_spec _] _].
    destruct action as [|attempts].
    - unfold pending in Hpend. cbn in Hpend. rewrite Ha, andb_false_r in Hpend. done.
    - destruct Ha as [(q & Hq & Hb) _]. exists q. split; [done|]. unfold backs. by destruct Hid as [-> ->]. }
  assert (∀ u, d1.1 = u → (u = 0 ∨ action = Complete) → settled_message tenant mid d1.2) as H2.
  { intros u Hu Hc r Hr Hid. apply update_rows_elem in Hr as (r0 & Hr0 & ->). destruct (P r0) eqn:Ep.
    - destruct Hc as [->| ->].
      + unfold d1 in Hu. cbn in Hu. apply length_zero_iff_nil in Hu.
        assert (r0 ∈ List.filter P (db_messages d)) as H by (by apply elem_of_filter_list). rewrite Hu in H.
        by apply elem_of_nil in H.
      + unfold pending. cbn. by rewrite Ha, andb_false_r.
    - unfold P in Ep. rewrite Hid in Ep. cbn [andb] in Ep. unfold pending. destruct (is_scope _ r0); [|done].
      apply negb_false_iff, bytes_eqb_eq in Ep. rewrite Ep. reflexivity. }
  destruct d1 as [n d1'] eqn:E. cbn [fst snd] in *. destruct (n =? 0)%nat eqn:En; cbn [snd].
  - apply Nat.eqb_eq in En. apply inv_complete_owner; [|done]. eapply H2; [reflexivity|by left].
  - cbn [insert_delivery]. match goal with |- context [on_queue _ ?x] => set (d2 := x) end.
    assert (mail_inv max d2) as H3 by (by apply inv_delivery).
    apply inv_requests. destruct action as [|attempts].
    + apply inv_complete_owner; [|done]. intros r Hr. apply (H2 n eq_refl (or_intror eq_refl) r Hr).
    + apply inv_retry; [|done]. intros q Hq. apply Ha. assert (d1' = d1.2) as Hd by (by rewrite E).
      unfold d2 in Hq. by rewrite Hd in Hq.
Qed.

Lemma record_delivery_queue tenant mid st de ou tls cat d :
  db_queue (record_delivery tenant mid st de ou tls cat d).2 = db_queue d.
Proof. unfold record_delivery. cbn [update_rows]. by destruct (_ =? 0)%nat. Qed.

Lemma inv_record_delivery tenant mid st de ou tls cat d : pending_status st = false →
  mail_inv max d → mail_inv max (record_delivery tenant mid st de ou tls cat d).2.
Proof.
  intros Hst. apply inv_touch; [|apply record_delivery_queue]. apply touch_record_delivery; [apply _|].
  intros r _ Hb. apply tame_settled; [done|done|]. left. unfold bounced. by rewrite Hb, andb_false_r.
Qed.

Lemma inv_inspection tenant mid st sc th det d : mail_inv max d → mail_inv max (record_inspection tenant mid st sc th det d).
Proof. apply inv_touch; [apply touch_inspection|done]. Qed.

Lemma inv_unmatched tenant mid qid cat de d : settled_message tenant mid d →
  mail_inv max d → mail_inv max (record_unmatched_bounce tenant mid qid cat de d).2.
Proof.
  intros Hs Hi. unfold record_unmatched_bounce.
  match goal with |- context [update_rows ?P ?f ?x] => pose (d1 := (update_rows P f x).2);
    assert (mail_inv max d1 ∧ settled_message tenant mid d1) as [H1 H2] end.
  { split.
    - apply inv_update; [identity| |done]. intros r _. unfold is_dsn. rewrite !andb_true_iff. intros [[_ Ho] _].
      apply incoming_not_outgoing in Ho. unfold pending. unfold is_scope in *. cbn.
      change (sg_scope (stored r)) with (sg_scope (stored_message_from_row r)) in Ho. by rewrite Ho.
    - intros r (r0 & Hr0 & ->)%update_rows_elem. destruct (is_dsn tenant mid r0); [|by apply Hs].
      intros _. unfold pending. cbn. by rewrite andb_false_r. }
  cbn [update_rows]. destruct (_ =? 1)%nat; cbn [snd insert_delivery].
  - apply inv_complete_owner; [exact H2|]. by apply (inv_delivery tenant mid !"HardFail" de [] false d1).
  - by apply inv_complete_owner.
Qed.

Lemma correlate_queue tenant mid tokens cat payload d : db_queue (correlate_bounce tenant mid tokens cat payload d).2 = db_queue d.
Proof.
  unfold correlate_bounce. destruct (List.find _ _); [|done]. destruct (sg_bounce_correlated_at _); [done|].
  match goal with |- context [outgoing_by_tokens _ _ ?x] => set (d1 := x) end.
  destruct tokens; [done|]. destruct (outgoing_by_tokens _ _ _); [|done]. cbn [update_rows].
  destruct (_ =? 0)%nat; [done|]. cbn [snd].
  match goal with |- context [enqueue_webhook_requests _ _ ?p ?x] =>
    destruct (enqueue_webhook_requests_eq tenant !"MessageBounced" p x) as (rs & n & -> & _) end. done.
Qed.

Lemma inv_correlate tenant mid tokens cat payload d :
  mail_inv max d → mail_inv max (correlate_bounce tenant mid tokens cat payload d).2.
Proof. intros Hi. apply (inv_touch d); [apply touch_correlate, Hi|apply correlate_queue|done]. Qed.

Lemma inv_opt_out kind reason tenant stream address d : mail_inv max d → mail_inv max (opt_out kind reason tenant stream address d).
Proof. unfold opt_out, insert_suppression. apply inv_same; destruct stream, (existsb _ _); reflexivity. Qed.

Lemma inv_requeue_inbound tenant mid bypass d : (0 < max)%Z →
  mail_inv max d → mail_inv max (requeue_inbound tenant mid bypass d).2.
Proof.
  intros Hmax Hi. unfold requeue_inbound. destruct (List.find _ _) as [r0|] eqn:Ef; [|done]. cbn [snd].
  match goal with |- context [update_rows ?P ?f d] => assert (mail_inv max (update_rows P f d).2) as H1 end.
  { apply inv_update; [identity| |done]. intros r _ [_ Ho]%andb_true_iff.
    apply incoming_not_outgoing in Ho. unfold pending, is_scope in *. cbn. by rewrite Ho. }
  apply inv_enqueue; [done| |exact H1]. intros r' (r & Hr & ->)%update_rows_elem Hid Ho. exfalso.
  assert (has_id tenant mid r = true ∧ is_scope !"outgoing" r = true) as [Hid' Ho'] by (by destruct (_ && _)).
  destruct (found_row d _ r0 tenant mid r (inv_ids _ _ Hi) Ef) as [_ [_ Hin]%andb_true_iff]; [|done|done|].
  { by intros [? _]%andb_true_iff. }
  apply incoming_not_outgoing in Hin. congruence.
Qed.

(** Requeueing makes the message pending and leaves a row for it. *)
Lemma inv_requeue_outbound tenant mid d : (0 < max)%Z → mail_inv max d → mail_inv max (requeue_outbound tenant mid d).2.
Proof.
  intros Hmax Hi. unfold requeue_outbound. destruct (List.find _ _) as [r0|] eqn:Ef; [|done].
  destruct (negb _); [done|]. destruct (bool_decide _) eqn:Ep; [done|]. cbn [snd].
  match goal with |- context [on_queue ?f d] => pose (d1 := on_queue f d) end. fold d1.
  assert (mail_inv max d1) as H1.
  { apply inv_queue_map; [|intros q _; by destruct (_ && _)|done]. intros q. by destruct (_ && _). }
  match goal with |- context [update_rows _ _ ?x] => pose (d2 := x) end. fold d2.
  assert (mail_inv max d2 ∧ ∃ q, q ∈ queue_rows d2 ∧ of_message tenant mid q = true) as [H2 (q & Hq & Hm)].
  { unfold d2. destruct (existsb _ (qt_rows (db_queue d1))) eqn:E.
    - split; [done|]. apply List.existsb_exists in E as (q & Hq%list_elem_of_In & Hm). by exists q.
    - split.
      + apply inv_enqueue; [done| |done]. intros r Hr Hid _. apply bool_decide_eq_false in Ep.
        destruct (found_row d _ r0 tenant mid r (inv_ids _ _ Hi) Ef) as [-> _]; [|exact Hr|exact Hid|].
        { by intros [? _]%andb_true_iff. }
        destruct (row_content_purged_at r0); [|done]. exfalso. apply Ep. by eexists.
      + eexists. split; [apply elem_of_app; right; by left|]. unfold of_message. cbn. by rewrite Z.eqb_refl, N.eqb_refl. }
  apply inv_update; [identity| |done]. intros r _ [<- <-]%has_id_spec _. by exists q.
Qed.

(** A new message comes with its row. *)
Lemma inv_insert m d : (0 < max)%Z → mail_inv max d → mail_inv max (insert_message_in_tx m d).2.
Proof.
  intros Hmax Hi. pose proof (insert_ids_ok m d (inv_ids _ _ Hi)) as Hids.
  assert (∀ r, r ∈ db_messages d → has_id (qm_server_id m) (db_next_message d) r = true → False) as Hfresh.
  { intros r Hr [_ E]%has_id_spec. destruct (inv_ids _ _ Hi) as [_ Hlt]. apply Hlt in Hr. lia. }
  pose proof (inv_enqueue (db_next_message d) (qm_server_id m) (domain_after_at (qm_rcpt_to m))
    (is_broadcast d (qm_stream_id m)) d Hmax (λ r Hr Hid _, False_ind _ (Hfresh r Hr Hid)) Hi) as [_ H2 H3 H4 H5 H6].
  destruct (insert_message_row m d) as (M1 & M2 & M3 & M4). unfold queue_rows in *. cbn in H2, H3, H4, H5, H6.
  split; unfold queue_rows; rewrite ?M3, ?M4; [done..| |]; intros r; rewrite M1.
  - intros [Hr|Hr%list_elem_of_singleton]%elem_of_app Hp; [by apply H5|].
    eexists. split; [apply elem_of_app; right; by left|]. subst r. apply backs_spec. by split.
  - intros q [Hr|Hr%list_elem_of_singleton]%elem_of_app Ho Hq Hb; [by apply (H6 r q)|by subst r].
Qed.
End Database.
End Invariant.
