(* ===== verification/RetentionFacts.v ===== *)
(** * RetentionFacts: batches add up

    Deleting in batches, in any order the database picks, is deleting at once; every
    loop ends whatever fails; and retention neither strands mail nor empties a
    message that waits in the queue. *)

From S2P Require Import Prelude RustStr RustStrFacts Net Model SendLimit MemoryStore MemoryFacts Queue QueueFacts MailDb PgSink MailDbFacts MailInvariant Retention Concrete.

(** ** The loop *)

Lemma sweep_total {S} (step : S → nat * nat * S) batch (I : S → Prop) (todo : S → nat) (all : S → S) :
  1 <= batch →
  (∀ s, I s → ∃ s', step s = (Nat.min batch (todo s), Nat.min batch (todo s), s') ∧
     I s' ∧ todo s' = todo s - Nat.min batch (todo s) ∧ all s' = all s) →
  (∀ s, I s → todo s = 0 → all s = s) →
  ∀ fuel total s, I s → todo s < fuel → sweep fuel batch step total ([], s) = (Total (total + todo s), ([], all s)).
Proof.
  intros Hb Hstep Hnil. induction fuel as [|fuel IH]; intros total s Hs Hf; [lia|]. cbn [sweep tail].
  destruct (Hstep s Hs) as (s' & -> & Hs' & Ht & Ha). destruct (Nat.ltb_spec (Nat.min batch (todo s)) batch).
  - rewrite <- Ha. rewrite Hnil; [|done|lia]. do 2 f_equal. lia.
  - rewrite IH; [|done|lia]. rewrite Ht, Ha. do 2 f_equal. lia.
Qed.

(** Whatever fails, a loop that removes what it selects ends. *)
Lemma sweep_ends {S} (step : S → nat * nat * S) batch (I : S → Prop) (todo : S → nat) : 1 <= batch →
  (∀ s, I s → let '(n, _, s') := step s in I s' ∧ (batch <= n → todo s' < todo s)) →
  ∀ fuel total faults s, I s → todo s < fuel → (sweep fuel batch step total (faults, s)).1 ≠ Unfinished.
Proof.
  intros Hb Hstep. induction fuel as [|fuel IH]; intros total faults s Hs Hf; [lia|]. cbn [sweep].
  pose proof (Hstep s Hs) as H. destruct (step s) as [[n m] s']. destruct H as [Hs' Ht].
  destruct faults as [|[|] faults]; [|done|]; (destruct (Nat.ltb_spec n batch); [done|]; apply IH; [done|]; specialize (Ht ltac:(lia)); lia).
Qed.

(** ** Selected ids *)

Lemma among_spec ids id : among ids id = true ↔ id ∈ ids.
Proof.
  unfold among. rewrite List.existsb_exists. setoid_rewrite Z.eqb_eq. rewrite list_elem_of_In. split; [by intros (x & Hx & ->)|by exists id].
Qed.
Lemma among_ext ids ids' id : (id ∈ ids ↔ id ∈ ids') → among ids id = among ids' id.
Proof. intros H. apply eq_true_iff_eq. by rewrite !among_spec. Qed.

Section Keys.
Context {A : Type} (key : A → Z).

(** With unique keys, as many rows are hit as ids were selected. *)
Lemma count_selected (P Q : A → bool) l ids : NoDup (map key l) → NoDup ids → (∀ x, P x = true → Q x = true) →
  (∀ id, id ∈ ids → id ∈ map key (List.filter P l)) →
  length (List.filter (λ x, Q x && among ids (key x)) l) = length ids.
Proof.
  intros Hl Hi HPQ Hsub. rewrite <- (List.length_map key (List.filter _ l)). apply Permutation_length, NoDup_Permutation; [|done|].
  - clear - Hl. induction l as [|x l IH]; cbn in *; [constructor|]. apply NoDup_cons in Hl as [Hx Hl].
    destruct (_ && _); cbn; [|by apply IH]. apply NoDup_cons. split; [|by apply IH].
    intros (y & Hy & E)%elem_of_map_list. apply elem_of_filter_list in Hy as [Hy _]. apply Hx, elem_of_map_list. by exists y.
  - intros id. split.
    + intros (x & Hx & ->)%elem_of_map_list. apply elem_of_filter_list in Hx as [_ [_ Hx]%andb_true_iff]. by apply among_spec.
    + intros Hid. apply Hsub in Hid as Hid'. apply elem_of_map_list in Hid' as (x & [Hx Hp]%elem_of_filter_list & ->).
      apply elem_of_map_list. exists x. split; [|done]. apply elem_of_filter_list. split; [done|].
      apply andb_true_iff. split; [by apply HPQ|by apply among_spec].
Qed.

(** A selected row satisfies what it was selected for. *)
Lemma selected_row (P : A → bool) l ids x : NoDup (map key l) → (∀ id, id ∈ ids → id ∈ map key (List.filter P l)) →
  x ∈ l → among ids (key x) = true → P x = true.
Proof.
  intros Hl Hsub Hx Ha%among_spec. apply Hsub in Ha. apply elem_of_map_list in Ha as (y & [Hy Hp]%elem_of_filter_list & E).
  apply list_elem_of_lookup in Hx as [i Hi]. apply list_elem_of_lookup in Hy as [j Hj].
  assert (i = j) as ->; [|congruence]. change (map key l) with (key <$> l) in Hl.
  apply (NoDup_lookup _ i j (key x) Hl); rewrite list_lookup_fmap; [by rewrite Hi|by rewrite Hj, E].
Qed.

End Keys.

Lemma filter_split {A} (P S : A → bool) l : (∀ x, x ∈ l → S x = true → P x = true) →
  length (List.filter (λ x, P x && negb (S x)) l) = length (List.filter P l) - length (List.filter S l).
Proof.
  intros H. enough (length (List.filter (λ x, P x && negb (S x)) l) + length (List.filter S l) = length (List.filter P l)) by lia.
  induction l as [|x l IH]; [done|]. cbn. specialize (IH ltac:(intros y Hy; apply H; by right)).
  specialize (H x ltac:(by left)). destruct (P x), (S x); cbn in *; try lia; exfalso; by specialize (H eq_refl).
Qed.

Lemma filter_length_map {A B} (f : A → B) (P : B → bool) l : length (List.filter P (map f l)) = length (List.filter (λ x, P (f x)) l).
Proof. induction l as [|x l IH]; cbn; [done|]. destruct (P (f x)); cbn; lia. Qed.

Lemma filter_ext_elem {A} (P Q : A → bool) l : (∀ x, x ∈ l → P x = Q x) → List.filter P l = List.filter Q l.
Proof.
  intros H. induction l as [|x l IH]; [done|]. cbn. rewrite (H x) by (by left). rewrite IH; [done|].
  intros y Hy. apply H. by right.
Qed.

Section Retention.
Context `{ORD : !HashOrder}.

(** ** Message content *)

(** Every purgeable row at once. *)
Definition purge_all (tenant : Id) (cutoff : datetime) (d : MailDb) : MailDb :=
  (update_rows (purgeable tenant cutoff d) (purge_row (db_now d)) d).2.

Lemma take_map_perm {A} (key : A → Z) n (l l' : list A) : l ≡ₚ l' → NoDup (map key l') →
  NoDup (take n (map key l)) ∧ length (take n (map key l)) = Nat.min n (length l') ∧ ∀ id, id ∈ take n (map key l) → id ∈ map key l'.
Proof.
  intros Hp Hnd. assert (map key l ≡ₚ map key l') as Hm by (by apply Permutation_map).
  assert (take n (map key l) `sublist_of` map key l) as Hs by apply sublist_take. split_and!.
  - apply (sublist_NoDup _ (map key l)); [by rewrite Hm|exact Hs].
  - rewrite List.length_firstn, List.length_map. by rewrite Hp.
  - intros id Hid. rewrite <- Hm. by apply (elem_of_sublist (take n (map key l))).
Qed.

Lemma filter_key_NoDup {A} (key : A → Z) (P : A → bool) l : NoDup (map key l) → NoDup (map key (List.filter P l)).
Proof.
  induction l as [|x l IH]; cbn; [done|]. intros [Hx Hl]%NoDup_cons. destruct (P x); [|by apply IH]. cbn.
  apply NoDup_cons. split; [|by apply IH]. intros (y & [Hy _]%elem_of_filter_list & E)%elem_of_map_list.
  apply Hx, elem_of_map_list. by exists y.
Qed.

(** One batch takes some purgeable rows, and leaves the others as they are. *)
Lemma purge_batch_spec tenant cutoff batch d : ids_ok d →
  let M := List.filter (purgeable tenant cutoff d) (db_messages d) in
  ∃ S, (∀ r, r ∈ db_messages d → S r = true → purgeable tenant cutoff d r = true) ∧
    purge_batch tenant cutoff batch d =
      (Nat.min batch (length M), Nat.min batch (length M), (update_rows S (purge_row (db_now d)) d).2) ∧
    length (List.filter S (db_messages d)) = Nat.min batch (length M).
Proof.
  intros [Hnd _] M. set (ids := take batch (map row_id (hash_order M))).
  destruct (take_map_perm row_id batch (hash_order M) M (hash_order_perm M)) as (H1 & H2 & H3); [by apply filter_key_NoDup|].
  fold ids in H1, H2, H3. exists (λ r, visible tenant r && among ids (row_id r)).
  assert (length (List.filter (λ r, visible tenant r && among ids (row_id r)) (db_messages d)) = length ids) as Hc.
  { apply (count_selected row_id (purgeable tenant cutoff d)); [done|done| |exact H3].
    intros r. unfold purgeable. rewrite !andb_true_iff. tauto. }
  split_and!.
  - intros r Hr [_ Ha]%andb_true_iff. by apply (selected_row row_id _ (db_messages d) ids).
  - unfold purge_batch. fold M ids. cbn [update_rows]. by rewrite Hc, H2.
  - by rewrite Hc.
Qed.

Lemma purge_row_done tenant cutoff d now r : purgeable tenant cutoff d (purge_row now r) = false.
Proof. unfold purgeable. cbn. by rewrite andb_false_r. Qed.

Lemma messages_eq d a b : a = b → d <| db_messages := a |> = d <| db_messages := b |>.
Proof. by intros ->. Qed.

(** Purging some of the rows leaves the rest to be purged. *)
Lemma purge_rest tenant cutoff d S : (∀ r, r ∈ db_messages d → S r = true → purgeable tenant cutoff d r = true) →
  let d' := (update_rows S (purge_row (db_now d)) d).2 in
  purge_all tenant cutoff d' = purge_all tenant cutoff d ∧
  length (List.filter (purgeable tenant cutoff d') (db_messages d'))
  = length (List.filter (purgeable tenant cutoff d) (db_messages d)) - length (List.filter S (db_messages d)).
Proof.
  intros HS d'. assert (∀ r, purgeable tenant cutoff d' r = purgeable tenant cutoff d r) as Hd by done. split.
  - refine (messages_eq d _ _ _). etrans; [apply List.map_map|]. apply List.map_ext_in. intros r Hr%list_elem_of_In. cbv beta.
    change (purgeable tenant cutoff _ ?x) with (purgeable tenant cutoff d x). specialize (HS r Hr).
    destruct (S r); [rewrite purge_row_done|done]. by rewrite HS.
  - rewrite <- filter_split by exact HS. unfold d', update_rows. cbn. rewrite filter_length_map. f_equal.
    apply filter_ext_elem. intros r Hr. change (purgeable tenant cutoff _ ?x) with (purgeable tenant cutoff d x).
    destruct (S r); [by rewrite purge_row_done, andb_false_r|by rewrite andb_true_r].
Qed.

Lemma ids_ok_update S f d : (∀ r, row_id (f r) = row_id r) → ids_ok d → ids_ok (update_rows S f d).2.
Proof.
  intros Hf [Hnd Hlt]. split.
  - cbn. rewrite List.map_map. erewrite List.map_ext; [exact Hnd|]. intros r. by destruct (S r).
  - intros r (r0 & Hr & ->)%update_rows_elem. cbn. destruct (S r0); [rewrite Hf|]; by apply Hlt.
Qed.

Definition purged_todo (tenant : Id) (cutoff : datetime) (d : RetentionDb) : nat :=
  length (List.filter (purgeable tenant cutoff (rt_mail d)) (db_messages (rt_mail d))).

Lemma purge_step tenant cutoff batch d : ids_ok (rt_mail d) →
  ∃ d', on_mail (purge_batch tenant cutoff batch) d =
      (Nat.min batch (purged_todo tenant cutoff d), Nat.min batch (purged_todo tenant cutoff d), d') ∧
    ids_ok (rt_mail d') ∧ purged_todo tenant cutoff d' = purged_todo tenant cutoff d - Nat.min batch (purged_todo tenant cutoff d) ∧
    d' <| rt_mail := purge_all tenant cutoff (rt_mail d') |> = d <| rt_mail := purge_all tenant cutoff (rt_mail d) |>.
Proof.
  intros Hok. unfold on_mail, purged_todo. destruct (purge_batch_spec tenant cutoff batch (rt_mail d) Hok) as (S & HS & -> & Hc).
  destruct (purge_rest tenant cutoff (rt_mail d) S HS) as [Hall Hrest].
  eexists. split_and!; [reflexivity|by apply ids_ok_update| |].
  - cbn [rt_mail]. rewrite <- Hc. exact Hrest.
  - destruct d. cbn in *. by rewrite Hall.
Qed.

Lemma purge_all_nothing tenant cutoff d : List.filter (purgeable tenant cutoff d) (db_messages d) = [] → purge_all tenant cutoff d = d.
Proof.
  intros H. unfold purge_all. rewrite update_rows_none; [done|]. intros r Hr. apply not_true_iff_false. intros Hp.
  assert (r ∈ List.filter (purgeable tenant cutoff d) (db_messages d)) as Hin by (by apply elem_of_filter_list).
  rewrite H in Hin. by apply elem_of_nil in Hin.
Qed.

(** ** Message metadata *)

(** Every expired message at once, with all that hangs off it. *)
Definition prune_all (tenant : Id) (cutoff : datetime) (d : RetentionDb) : RetentionDb :=
  let ids := expired_ids tenant cutoff (rt_mail d) in
  d <| rt_mail := prune_messages_of tenant ids (rt_mail d) |>
    <| rt_message_shares := List.filter (λ s, keep_other tenant ids s.1.1.2 s.1.2) (rt_message_shares d) |>.

Lemma expired_ids_elem tenant cutoff d id : id ∈ expired_ids tenant cutoff d ↔
  ∃ r, r ∈ db_messages d ∧ expired tenant cutoff r = true ∧ id = row_id r.
Proof.
  unfold expired_ids. rewrite elem_of_map_list. setoid_rewrite stable_sort_perm. setoid_rewrite elem_of_filter_list.
  split; intros (r & H); exists r; tauto.
Qed.

Lemma clear_bounce_for_same tenant ids r : row_id (clear_bounce_for tenant ids r) = row_id r ∧
  visible tenant (clear_bounce_for tenant ids r) = visible tenant r ∧
  sg_created_at (stored (clear_bounce_for tenant ids r)) = sg_created_at (stored r).
Proof. unfold clear_bounce_for. by destruct (_ && _). Qed.

Lemma clear_bounce_for_frame tenant ids r : pending (clear_bounce_for tenant ids r) = pending r ∧
  is_scope !"outgoing" (clear_bounce_for tenant ids r) = is_scope !"outgoing" r ∧
  sg_server_id (stored (clear_bounce_for tenant ids r)) = sg_server_id (stored r) ∧
  row_content_purged_at (clear_bounce_for tenant ids r) = row_content_purged_at r.
Proof. unfold clear_bounce_for. by destruct (_ && _). Qed.

(** The ids after a part of them is gone. *)
Lemma expired_ids_rest tenant cutoff d ids id :
  id ∈ expired_ids tenant cutoff (prune_messages_of tenant ids d) ↔ id ∈ expired_ids tenant cutoff d ∧ id ∉ ids.
Proof.
  rewrite !expired_ids_elem. unfold prune_messages_of. cbn [db_messages]. split.
  - intros (r' & Hr' & He & ->). cbn in Hr'. apply elem_of_filter_list in Hr' as [(r & Hr & ->)%elem_of_map_list Hn].
    destruct (clear_bounce_for_same tenant ids r) as (I1 & I2 & I3). unfold expired in *. rewrite I1, I2, I3 in *.
    split; [by exists r|]. intros Hin%among_spec. rewrite Hin in Hn. apply andb_true_iff in He as [Hv _]. by rewrite Hv in Hn.
  - intros [(r & Hr & He & ->) Hn]. exists (clear_bounce_for tenant ids r).
    destruct (clear_bounce_for_same tenant ids r) as (I1 & I2 & I3). unfold expired in *. rewrite I1, I2, I3.
    split_and!; [|done|done]. cbn. apply elem_of_filter_list. split; [apply elem_of_map_list; by exists r|].
    rewrite I1, I2. destruct (among ids (row_id r)) eqn:E; [by apply among_spec in E|by rewrite andb_false_r].
Qed.

Lemma filter_twice {A} (P Q R : A → bool) l : (∀ x, x ∈ l → R x = P x && Q x) → List.filter Q (List.filter P l) = List.filter R l.
Proof.
  intros H. induction l as [|x l IH]; [done|]. cbn. rewrite (H x) by (by left).
  specialize (IH ltac:(intros y Hy; apply H; by right)). destruct (P x); cbn; [by rewrite IH|done].
Qed.

Lemma activity_eq a c l o t c' l' o' t' : c = c' → l = l' → o = o' → t = t' →
  a <| act_link_clicks := c |> <| act_links := l |> <| act_loads := o |> <| act_tracking_tokens := t |>
  = a <| act_link_clicks := c' |> <| act_links := l' |> <| act_loads := o' |> <| act_tracking_tokens := t' |>.
Proof. by intros -> -> -> ->. Qed.
Lemma mail_tables_eq d m v q a m' v' q' a' : m = m' → v = v' → q = q' → a = a' →
  d <| db_messages := m |> <| db_deliveries := v |> <| db_queue := q |> <| db_activity := a |>
  = d <| db_messages := m' |> <| db_deliveries := v' |> <| db_queue := q' |> <| db_activity := a' |>.
Proof. by intros -> -> -> ->. Qed.
Lemma retention_eq d m s m' s' : m = m' → s = s' →
  d <| rt_mail := m |> <| rt_message_shares := s |> = d <| rt_mail := m' |> <| rt_message_shares := s' |>.
Proof. by intros -> ->. Qed.
Lemma queue_rows_eq (t : QueueTable) l l' : l = l' → t <| qt_rows := l |> = t <| qt_rows := l' |>.
Proof. by intros ->. Qed.

(** What two parts remove is what the whole removes. *)
Section TwoParts.
Context (tenant : Id) (E A B : list Z) (Hsplit : ∀ id, among E id = among A id || among B id).

Lemma keep_other_split s m : keep_other tenant E s m = keep_other tenant A s m && keep_other tenant B s m.
Proof. unfold keep_other. rewrite Hsplit. by destruct (_ =? _)%N, (among A m), (among B m). Qed.

Lemma clear_bounce_for_split r : clear_bounce_for tenant B (clear_bounce_for tenant A r) = clear_bounce_for tenant E r.
Proof.
  unfold clear_bounce_for at 1. destruct (clear_bounce_for_same tenant A r) as (_ & -> & _).
  unfold clear_bounce_for. destruct (visible tenant r); [|done]. cbn [andb].
  destruct (sg_bounce_for_id (stored r)) as [id|] eqn:Eb; [|by rewrite Eb]. rewrite Hsplit.
  destruct (among A id); cbn; [done|]. rewrite Eb. by destruct (among B id).
Qed.

Lemma messages_split l :
  List.filter (λ r, negb (visible tenant r && among B (row_id r))) (map (clear_bounce_for tenant B)
    (List.filter (λ r, negb (visible tenant r && among A (row_id r))) (map (clear_bounce_for tenant A) l)))
  = List.filter (λ r, negb (visible tenant r && among E (row_id r))) (map (clear_bounce_for tenant E) l).
Proof.
  induction l as [|r l IH]; [done|]. cbn [map List.filter].
  destruct (clear_bounce_for_same tenant A r) as (I1 & I2 & _), (clear_bounce_for_same tenant E r) as (J1 & J2 & _).
  rewrite I1, I2, J1, J2, Hsplit. destruct (visible tenant r && among A (row_id r)) eqn:Ea; cbn [negb].
  - apply andb_true_iff in Ea as [-> ->]. exact IH.
  - cbn [map List.filter]. destruct (clear_bounce_for_same tenant B (clear_bounce_for tenant A r)) as (K1 & K2 & _).
    rewrite K1, K2, I1, I2, clear_bounce_for_split, IH.
    destruct (visible tenant r), (among A (row_id r)), (among B (row_id r)); by cbn in *.
Qed.

Lemma link_ids_split ls link :
  let links ids ls := map (λ l : Z * Id * Z * bytes, l.1.1.1) (List.filter (λ l, (l.1.1.2 =? tenant)%N && among ids l.1.2) ls) in
  among (links E ls) link = among (links A ls) link
    || among (links B (List.filter (λ l, keep_other tenant A l.1.1.2 l.1.2) ls)) link.
Proof.
  intros links. apply eq_true_iff_eq. rewrite orb_true_iff, !among_spec. unfold links. rewrite !elem_of_map_list. split.
  - intros (l & [Hl [Ht He]%andb_true_iff]%elem_of_filter_list & ->). rewrite Hsplit in He.
    destruct (among A l.1.2) eqn:Ea; [left|right]; exists l; (split; [|done]); apply elem_of_filter_list.
    + by rewrite Ht, Ea.
    + split; [apply elem_of_filter_list; unfold keep_other; by rewrite Ea, andb_false_r|by rewrite Ht].
  - intros [(l & [Hl [Ht Ha]%andb_true_iff]%elem_of_filter_list & ->)|
      (l & [[Hl _]%elem_of_filter_list [Ht Hb]%andb_true_iff]%elem_of_filter_list & ->)];
      exists l; (split; [|done]); apply elem_of_filter_list; (split; [done|]); rewrite Ht, Hsplit; cbn [andb].
    + by rewrite Ha.
    + by rewrite Hb, orb_true_r.
Qed.

Lemma activity_split a : prune_activity tenant B (prune_activity tenant A a) = prune_activity tenant E a.
Proof.
  refine (activity_eq a _ _ _ _ _ _ _ _ _ _ _ _); [|apply filter_twice; intros x _; apply keep_other_split..].
  apply filter_twice. intros [[[s link] ip] ua] _. cbn [fst snd]. destruct (s =? tenant)%N; [|done]. cbn [andb].
  rewrite <- negb_orb. f_equal. apply link_ids_split.
Qed.

Lemma prune_messages_split d : prune_messages_of tenant B (prune_messages_of tenant A d) = prune_messages_of tenant E d.
Proof.
  transitivity (d <| db_messages := List.filter (λ r, negb (visible tenant r && among B (row_id r))) (map (clear_bounce_for tenant B)
      (List.filter (λ r, negb (visible tenant r && among A (row_id r))) (map (clear_bounce_for tenant A) (db_messages d)))) |>
    <| db_deliveries := List.filter (λ v, keep_other tenant B (dv_server_id v) (dv_message_id v))
      (List.filter (λ v, keep_other tenant A (dv_server_id v) (dv_message_id v)) (db_deliveries d)) |>
    <| db_queue := (db_queue d) <| qt_rows := List.filter (λ q, keep_other tenant B (q_server_id q) (q_message_id q))
      (List.filter (λ q, keep_other tenant A (q_server_id q) (q_message_id q)) (qt_rows (db_queue d))) |> |>
    <| db_activity := prune_activity tenant B (prune_activity tenant A (db_activity d)) |>); [reflexivity|].
  apply mail_tables_eq.
  - apply messages_split.
  - apply filter_twice. intros x _. apply keep_other_split.
  - apply queue_rows_eq, filter_twice. intros x _. apply keep_other_split.
  - apply activity_split.
Qed.
End TwoParts.

Lemma prune_split tenant cutoff d A : (∀ id, id ∈ A → id ∈ expired_ids tenant cutoff (rt_mail d)) →
  prune_all tenant cutoff (d <| rt_mail := prune_messages_of tenant A (rt_mail d) |>
     <| rt_message_shares := List.filter (λ s, keep_other tenant A s.1.1.2 s.1.2) (rt_message_shares d) |>)
  = prune_all tenant cutoff d.
Proof.
  intros HA. set (E := expired_ids tenant cutoff (rt_mail d)) in *.
  set (B := expired_ids tenant cutoff (prune_messages_of tenant A (rt_mail d))).
  assert (∀ id, among E id = among A id || among B id) as Hsplit.
  { intros id. apply eq_true_iff_eq. rewrite orb_true_iff, !among_spec. unfold B. rewrite expired_ids_rest. fold E.
    specialize (HA id). destruct (decide (id ∈ A)); tauto. }
  transitivity (d <| rt_mail := prune_messages_of tenant B (prune_messages_of tenant A (rt_mail d)) |>
    <| rt_message_shares := List.filter (λ s, keep_other tenant B s.1.1.2 s.1.2)
         (List.filter (λ s, keep_other tenant A s.1.1.2 s.1.2) (rt_message_shares d)) |>); [reflexivity|].
  apply retention_eq; [by apply prune_messages_split|]. apply filter_twice. intros x _. by apply keep_other_split.
Qed.

Definition expired_todo (tenant : Id) (cutoff : datetime) (d : RetentionDb) : nat :=
  length (List.filter (expired tenant cutoff) (db_messages (rt_mail d))).

Lemma expired_ids_length tenant cutoff d :
  length (expired_ids tenant cutoff d) = length (List.filter (expired tenant cutoff) (db_messages d)).
Proof. unfold expired_ids. rewrite List.length_map. by rewrite stable_sort_perm. Qed.

Lemma prune_ids_ok tenant ids d : ids_ok d → ids_ok (prune_messages_of tenant ids d).
Proof.
  intros [Hnd Hlt]. split.
  - cbn. apply filter_key_NoDup. rewrite List.map_map. erewrite List.map_ext; [exact Hnd|].
    intros r. by destruct (clear_bounce_for_same tenant ids r).
  - intros r. cbn. intros [(r0 & Hr & ->)%elem_of_map_list _]%elem_of_filter_list.
    destruct (clear_bounce_for_same tenant ids r0) as (-> & _). by apply Hlt.
Qed.

Lemma remaining_expired tenant cutoff ids l :
  length (List.filter (expired tenant cutoff) (List.filter (λ r, negb (visible tenant r && among ids (row_id r)))
    (map (clear_bounce_for tenant ids) l)))
  = length (List.filter (λ r, expired tenant cutoff r && negb (visible tenant r && among ids (row_id r))) l).
Proof.
  induction l as [|r l IH]; [done|]. cbn [map List.filter]. destruct (clear_bounce_for_same tenant ids r) as (I1 & I2 & I3).
  rewrite I1, I2. destruct (visible tenant r && among ids (row_id r)); cbn [negb].
  - by rewrite andb_false_r.
  - rewrite andb_true_r. cbn [List.filter].
    assert (expired tenant cutoff (clear_bounce_for tenant ids r) = expired tenant cutoff r) as -> by (unfold expired; by rewrite I2, I3).
    destruct (expired tenant cutoff r); cbn [length]; by rewrite IH.
Qed.

(** One batch of expired messages. *)
Lemma prune_step tenant cutoff batch d : ids_ok (rt_mail d) →
  ∃ d', prune_batch tenant cutoff batch d =
      (Nat.min batch (expired_todo tenant cutoff d), Nat.min batch (expired_todo tenant cutoff d), d') ∧
    ids_ok (rt_mail d') ∧ expired_todo tenant cutoff d' = expired_todo tenant cutoff d - Nat.min batch (expired_todo tenant cutoff d) ∧
    prune_all tenant cutoff d' = prune_all tenant cutoff d.
Proof.
  intros Hok. pose proof Hok as [Hnd _]. unfold prune_batch. set (ids := take batch (expired_ids tenant cutoff (rt_mail d))).
  set (M := List.filter (expired tenant cutoff) (db_messages (rt_mail d))).
  destruct (take_map_perm row_id batch (stable_sort (λ a b, (row_id a <=? row_id b)%Z) M) M) as (H1 & H2 & H3);
    [apply stable_sort_perm|by apply filter_key_NoDup|]. fold (expired_ids tenant cutoff (rt_mail d)) ids in H1, H2, H3.
  assert (length (List.filter (λ r, visible tenant r && among ids (row_id r)) (db_messages (rt_mail d))) = length ids) as Hc.
  { apply (count_selected row_id (expired tenant cutoff)); [done|done| |exact H3].
    intros r. unfold expired. by intros [? _]%andb_true_iff. }
  assert (length ids = Nat.min batch (expired_todo tenant cutoff d)) as Hlen by exact H2.
  rewrite Hc, Hlen. eexists. split_and!; [reflexivity|by apply prune_ids_ok| |].
  - rewrite <- Hlen, <- Hc. unfold expired_todo at 2. rewrite <- filter_split.
    2:{ intros r Hr [_ Ha]%andb_true_iff. by apply (selected_row row_id _ (db_messages (rt_mail d)) ids). }
    apply remaining_expired.
  - apply prune_split. intros id Hid. apply expired_ids_elem. apply H3, elem_of_map_list in Hid as (r & [? ?]%elem_of_filter_list & ->).
    by exists r.
Qed.

Lemma filter_all {A} (P : A → bool) l : (∀ x, P x = true) → List.filter P l = l.
Proof. intros H. induction l as [|x l IH]; [done|]. cbn. by rewrite H, IH. Qed.

Lemma keep_other_nil tenant s m : keep_other tenant [] s m = true.
Proof. unfold keep_other. by rewrite andb_false_r. Qed.

Lemma prune_activity_nil tenant a : prune_activity tenant [] a = a.
Proof.
  transitivity (a <| act_link_clicks := act_link_clicks a |> <| act_links := act_links a |> <| act_loads := act_loads a |>
    <| act_tracking_tokens := act_tracking_tokens a |>); [|by destruct a].
  apply activity_eq; apply filter_all; try (intros x; apply keep_other_nil). intros x.
  assert (List.filter (λ l : Z * Id * Z * bytes, (l.1.1.2 =? tenant)%N && among [] l.1.2) (act_links a) = []) as ->.
  { induction (act_links a) as [|l ls IH]; [done|]. cbn. by rewrite andb_false_r. }
  by rewrite andb_false_r.
Qed.

Lemma prune_messages_nil tenant d : prune_messages_of tenant [] d = d.
Proof.
  transitivity (d <| db_messages := db_messages d |> <| db_deliveries := db_deliveries d |> <| db_queue := db_queue d |>
    <| db_activity := db_activity d |>); [|by destruct d].
  apply mail_tables_eq; [|apply filter_all; intros x; apply keep_other_nil| |apply prune_activity_nil].
  - rewrite filter_all by (intros r; by rewrite andb_false_r). induction (db_messages d) as [|r l IH]; [done|]. cbn. rewrite IH.
    f_equal. unfold clear_bounce_for. destruct (sg_bounce_for_id (stored r)); by rewrite andb_false_r.
  - rewrite filter_all by (intros x; apply keep_other_nil). by destruct (db_queue d).
Qed.

Lemma prune_all_nothing tenant cutoff d : expired_todo tenant cutoff d = 0 → prune_all tenant cutoff d = d.
Proof.
  intros H. unfold expired_todo in H. rewrite <- expired_ids_length in H. apply length_zero_iff_nil in H.
  unfold prune_all. rewrite H, prune_messages_nil, filter_all by (intros x; apply keep_other_nil). by destruct d.
Qed.

Lemma retention_batches_cases tenant cutoff batch d : 1 <= batch → ids_ok (rt_mail d) →
  purge_message_content tenant cutoff batch ([], d)
  = (Total (length (List.filter (purgeable tenant cutoff (rt_mail d)) (db_messages (rt_mail d)))),
     ([], d <| rt_mail := purge_all tenant cutoff (rt_mail d) |>)) ∧
  prune_message_metadata tenant cutoff batch ([], d)
  = (Total (length (List.filter (expired tenant cutoff) (db_messages (rt_mail d)))), ([], prune_all tenant cutoff d)).
Proof.
  intros Hb Hok. split.
  - apply (sweep_total _ batch (λ d, ids_ok (rt_mail d)) (purged_todo tenant cutoff)
      (λ d, d <| rt_mail := purge_all tenant cutoff (rt_mail d) |>)); [done| | |done|].
    + intros s Hs. apply purge_step, Hs.
    + intros s _ H. apply length_zero_iff_nil in H. rewrite purge_all_nothing by exact H. by destruct s.
    + unfold purged_todo. cbn. pose proof (List.filter_length_le (purgeable tenant cutoff (rt_mail d)) (db_messages (rt_mail d))). lia.
  - apply (sweep_total _ batch (λ d, ids_ok (rt_mail d)) (expired_todo tenant cutoff) (prune_all tenant cutoff)); [done| | |done|].
    + intros s Hs. apply prune_step, Hs.
    + intros s _. apply prune_all_nothing.
    + unfold expired_todo. cbn. pose proof (List.filter_length_le (expired tenant cutoff) (db_messages (rt_mail d))). lia.
Qed.

(** C9: Retention in batches of any size is retention at once, in whatever order the
    database picks the rows of a batch: the loops end; content is emptied of exactly
    the messages of the server older than the limit that have content and no queue
    row; and exactly the older messages are deleted with their deliveries, queue
    rows, tracking and share links, and the references of bounces to them.  The
    totals reported are the numbers of those messages. *)
Theorem retention_batches tenant cutoff batch d : 1 <= batch → ids_ok (rt_mail d) →
  purge_message_content tenant cutoff batch ([], d)
  = (Total (length (List.filter (purgeable tenant cutoff (rt_mail d)) (db_messages (rt_mail d)))),
     ([], d <| rt_mail := purge_all tenant cutoff (rt_mail d) |>)) ∧
  prune_message_metadata tenant cutoff batch ([], d)
  = (Total (length (List.filter (expired tenant cutoff) (db_messages (rt_mail d)))), ([], prune_all tenant cutoff d)).
Proof. apply retention_batches_cases. Qed.

(** ** Retention and the queue *)

Lemma is_queued_backs tenant d r q : visible tenant r = true → q ∈ queue_rows d → backs q r → is_queued tenant d (row_id r) = true.
Proof.
  intros Hv%N.eqb_eq Hq Hb. apply List.existsb_exists. exists q. split; [by apply list_elem_of_In|]. unfold backs in Hb. by rewrite <- Hv.
Qed.

Lemma inv_purge max tenant cutoff batch d : mail_inv max d → mail_inv max (purge_batch tenant cutoff batch d).2.
Proof.
  intros [H1 H2 H3 H4 H5 H6]. destruct (purge_batch_spec tenant cutoff batch d H1) as (S & HS & -> & _). cbn [snd].
  split; [by apply ids_ok_update|done|done|done| |].
  - intros r' (r & Hr & ->)%update_rows_elem Hp.
    assert (pending r = true) as Hp' by (destruct (S r); exact Hp). destruct (H5 r Hr Hp') as (q & Hq & Hb%backs_spec).
    exists q. split; [exact Hq|]. apply backs_spec. destruct (S r); exact Hb.
  - intros r' q (r & Hr & ->)%update_rows_elem Ho Hq Hb. specialize (HS r Hr). destruct (S r); [|by apply (H6 r q)].
    specialize (HS eq_refl). unfold purgeable in HS. rewrite !andb_true_iff, !negb_true_iff in HS. destruct HS as [[[Hv _] _] Hn].
    assert (backs q r) as Hb' by exact Hb.
    by rewrite (is_queued_backs tenant d r q Hv Hq Hb') in Hn.
Qed.

Lemma inv_prune max tenant ids d : mail_inv max d → mail_inv max (prune_messages_of tenant ids d).
Proof.
  intros [H1 H2 H3 H4 H5 H6].
  assert (∀ q, q ∈ queue_rows (prune_messages_of tenant ids d) → q ∈ queue_rows d) as Hsub.
  { intros q Hq. unfold queue_rows in *. cbn in Hq. by apply elem_of_filter_list in Hq as [? _]. }
  split; [by apply prune_ids_ok| |intros q Hq; by apply H3, Hsub|intros q Hq; by apply H4, Hsub| |].
  - unfold queue_rows. cbn. by apply filter_key_NoDup.
  - intros r'. cbn. intros [(r & Hr & ->)%elem_of_map_list Hn]%elem_of_filter_list Hp.
    destruct (clear_bounce_for_same tenant ids r) as (I1 & I2 & _). rewrite I1, I2 in Hn.
    destruct (clear_bounce_for_frame tenant ids r) as (Ep & _ & Hs & _). rewrite Ep in Hp.
    destruct (H5 r Hr Hp) as (q & Hq & Hb). apply backs_spec in Hb as [B1 B2]. exists q. split.
    + unfold queue_rows. cbn. apply elem_of_filter_list. split; [exact Hq|]. unfold keep_other. rewrite B1, B2. exact Hn.
    + apply backs_spec. by rewrite I1, Hs.
  - intros r' q. cbn. intros [(r & Hr & ->)%elem_of_map_list _]%elem_of_filter_list Ho Hq Hb.
    destruct (clear_bounce_for_same tenant ids r) as (I1 & _), (clear_bounce_for_frame tenant ids r) as (_ & Eo & Hs & ->).
    rewrite Eo in Ho. apply backs_spec in Hb. rewrite I1, Hs in Hb. apply backs_spec in Hb.
    apply (H6 r q); [done|done|by apply Hsub|done].
Qed.

(** ** One pass *)

Lemma sweep_frame {S A} (proj : S → A) (step : S → nat * nat * S) batch fuel :
  (∀ s, proj (step s).2 = proj s) → ∀ total s, proj (sweep fuel batch step total s).2.2 = proj s.2.
Proof.
  intros H. induction fuel as [|fuel IH]; intros total [faults s]; [done|]. cbn [sweep].
  specialize (H s). destruct (step s) as [[n m] s']. cbn [snd] in H.
  destruct faults as [|[|] faults]; [|done|]; (destruct (n <? batch)%nat; [exact H|rewrite IH; exact H]).
Qed.

Lemma sweep_faults {S} (step : S → nat * nat * S) batch fuel : ∀ total s, (sweep fuel batch step total ([], s)).2.1 = [].
Proof.
  induction fuel as [|fuel IH]; intros total s; [done|]. cbn [sweep]. destruct (step s) as [[n m] s'].
  by destruct (n <? batch)%nat; [|apply IH].
Qed.

(** What retention owes a server: nothing older than the metadata limit, and
    content only of messages younger than the content limit or in the queue. *)
Definition retained (c : RetentionConfig) (now : datetime) (t : RetentionTarget) (d : MailDb) : Prop :=
  let periods := with_overrides (rc_retention c) (rtt_overrides t) in
  ∀ r, r ∈ db_messages d → visible (rtt_server_id t) r = true →
    (∀ at_, cutoff now (rp_message_metadata_days periods) = Some at_ → (at_ <= sg_created_at (stored r))%Z) ∧
    (∀ at_, cutoff now (rp_message_content_days periods) = Some at_ → (at_ <= sg_created_at (stored r))%Z ∨
       is_Some (row_content_purged_at r) ∨ is_queued (rtt_server_id t) d (row_id r) = true).

(** A row after some step was there before, as young, and what held its content
    back holds it still. *)
Definition ages (d d' : MailDb) : Prop := ∀ r', r' ∈ db_messages d' → ∃ r, r ∈ db_messages d ∧
  sg_server_id (stored r') = sg_server_id (stored r) ∧ sg_created_at (stored r') = sg_created_at (stored r) ∧
  (is_Some (row_content_purged_at r) → is_Some (row_content_purged_at r')) ∧
  (∀ tenant, visible tenant r' = true → is_queued tenant d (row_id r) = true → is_queued tenant d' (row_id r') = true).

Lemma ages_refl d : ages d d.
Proof. intros r Hr. by exists r. Qed.
Lemma ages_trans d1 d2 d3 : ages d1 d2 → ages d2 d3 → ages d1 d3.
Proof.
  intros H1 H2 r3 Hr3. destruct (H2 r3 Hr3) as (r2 & Hr2 & A1 & A2 & A3 & A4), (H1 r2 Hr2) as (r1 & Hr1 & B1 & B2 & B3 & B4).
  exists r1. split_and!; [done|congruence|congruence|auto|]. intros t Hv Hq. apply A4; [done|]. apply B4; [|done].
  unfold visible in *. by rewrite <- A1.
Qed.

Lemma retained_ages c now t d d' : ages d d' → retained c now t d → retained c now t d'.
Proof.
  intros Ha Hr r' Hin Hv. destruct (Ha r' Hin) as (r & Hr0 & E1 & E2 & E3 & E4).
  destruct (Hr r Hr0) as [R1 R2]; [unfold visible in *; by rewrite <- E1|]. rewrite E2. split; [exact R1|].
  intros at_ Hat. destruct (R2 at_ Hat) as [?|[?|?]]; [by left|right; left; by apply E3|right; right; by apply E4].
Qed.

Lemma purge_all_ages tenant cutoff d : ages d (purge_all tenant cutoff d).
Proof.
  intros r' (r & Hr & ->)%update_rows_elem. exists r. split; [done|]. destruct (purgeable _ _ _ _); by split_and!.
Qed.

Lemma prune_messages_ages tenant ids d : ages d (prune_messages_of tenant ids d).
Proof.
  intros r'. cbn. intros [(r & Hr & ->)%elem_of_map_list Hn]%elem_of_filter_list. exists r.
  destruct (clear_bounce_for_same tenant ids r) as (I1 & I2 & I3), (clear_bounce_for_frame tenant ids r) as (_ & _ & I4 & I5).
  rewrite I1, I2 in Hn. rewrite I1, I3, I4, I5. split_and!; [done..|]. intros t Hv (q & Hq & Hm)%List.existsb_exists.
  apply List.existsb_exists. exists q. split; [|done]. apply list_elem_of_In in Hq. apply list_elem_of_In. cbn.
  apply elem_of_filter_list. split; [done|]. unfold visible in Hv, Hn. rewrite I4 in Hv. apply N.eqb_eq in Hv.
  unfold of_message in Hm. apply andb_true_iff in Hm as [Hm1%Z.eqb_eq Hm2%N.eqb_eq].
  unfold keep_other. by rewrite Hm1, Hm2, <- Hv.
Qed.

Lemma retention_batch_positive c : 1 <= retention_batch c.
Proof. unfold retention_batch. lia. Qed.

Lemma prune_all_young tenant cutoff d r : r ∈ db_messages (rt_mail (prune_all tenant cutoff d)) → visible tenant r = true →
  (cutoff <= sg_created_at (stored r))%Z.
Proof.
  cbn. intros [(r0 & Hr & ->)%elem_of_map_list Hn]%elem_of_filter_list Hv.
  destruct (clear_bounce_for_same tenant (expired_ids tenant cutoff (rt_mail d)) r0) as (I1 & I2 & I3). rewrite I1, I2 in *. rewrite I3, Hv in *.
  destruct (Z.leb_spec cutoff (sg_created_at (stored r0))); [done|]. cbn [andb] in Hn. exfalso.
  assert (row_id r0 ∈ expired_ids tenant cutoff (rt_mail d)) as Hin%among_spec; [|by rewrite Hin in Hn].
  apply expired_ids_elem. exists r0. split_and!; [done| |done]. unfold expired. rewrite Hv. by apply Z.ltb_lt.
Qed.

Lemma purge_all_settled tenant cutoff d r : r ∈ db_messages (purge_all tenant cutoff d) → visible tenant r = true →
  (cutoff <= sg_created_at (stored r))%Z ∨ is_Some (row_content_purged_at r) ∨ is_queued tenant (purge_all tenant cutoff d) (row_id r) = true.
Proof.
  intros (r0 & Hr & ->)%update_rows_elem Hv. destruct (purgeable tenant cutoff d r0) eqn:E; [right; left; by eexists|].
  unfold purgeable in E. rewrite Hv in E. cbn [andb] in E.
  destruct (Z.ltb_spec (sg_created_at (stored r0)) cutoff); [|by left]. right. cbn [andb] in E.
  destruct (bool_decide (is_Some (row_content_purged_at r0))) eqn:Eb; [left; by apply bool_decide_eq_true in Eb|right].
  cbn in E. by apply negb_false_iff in E.
Qed.

(** The classes that leave the mail tables alone. *)
Lemma swept_mail_frame cutoff (run : datetime → Faulty RetentionDb → Swept * Faulty RetentionDb) add r d :
  (∀ at_, rt_mail (run at_ ([], d)).2.2 = rt_mail d ∧ (run at_ ([], d)).2.1 = []) →
  ∃ r' d', swept_class cutoff run add (r, ([], d)) = (r', ([], d')) ∧ rt_mail d' = rt_mail d.
Proof.
  intros H. unfold swept_class. destruct cutoff as [at_|]; [|by exists r, d]. cbn [fst snd].
  destruct (H at_) as [H1 H2]. destruct (run at_ ([], d)) as [[n| |] [faults d']]; cbn in *; subst; eauto.
Qed.

Lemma delete_rows_mail tenant cutoff batch d :
  rt_mail (webhook_log_batch tenant cutoff batch d).2 = rt_mail d ∧ rt_mail (dmarc_batch tenant cutoff batch d).2 = rt_mail d.
Proof. by split. Qed.

Section Pass.
Context (c : RetentionConfig) (now : datetime).

(** One server's classes without faults: its own debt is settled, the others' stays so. *)
Lemma retain_server_spec t r d : ids_ok (rt_mail d) →
  ∃ r' d', retain_server c now (r, ([], d)) t = (r', ([], d')) ∧ ids_ok (rt_mail d') ∧
    ages (rt_mail d) (rt_mail d') ∧ retained c now t (rt_mail d').
Proof.
  intros Hok. unfold retain_server. set (periods := with_overrides _ _). set (server := rtt_server_id t).
  set (batch := retention_batch c). assert (1 <= batch) as Hb by apply retention_batch_positive.
  set (meta := cutoff now (rp_message_metadata_days periods)). set (content := cutoff now (rp_message_content_days periods)).
  set (d1 := match meta with Some at_ => prune_all server at_ d | None => d end).
  set (d2 := match content with Some at_ => d1 <| rt_mail := purge_all server at_ (rt_mail d1) |> | None => d1 end).
  assert (ids_ok (rt_mail d1) ∧ ages (rt_mail d) (rt_mail d1)) as [Hok1 Ha1].
  { unfold d1. destruct meta; [|split; [done|apply ages_refl]]. split; [by apply prune_ids_ok|apply prune_messages_ages]. }
  assert (ids_ok (rt_mail d2) ∧ ages (rt_mail d1) (rt_mail d2)) as [Hok2 Ha2].
  { unfold d2. destruct content; [|split; [done|apply ages_refl]]. split; [by apply ids_ok_update|apply purge_all_ages]. }
  match goal with |- context [swept_class meta ?run ?add (r, ([], d))] =>
    assert (∃ r1, swept_class meta run add (r, ([], d)) = (r1, ([], d1))) as [r1 ->] end.
  { unfold d1. destruct meta as [at_|]; [|by exists r]. unfold swept_class. cbn [fst snd].
    destruct (retention_batches_cases server at_ batch d Hb Hok) as [_ ->]. by eexists. }
  match goal with |- context [swept_class content ?run ?add (r1, ([], d1))] =>
    assert (∃ r2, swept_class content run add (r1, ([], d1)) = (r2, ([], d2))) as [r2 ->] end.
  { unfold d2. destruct content as [at_|]; [|by exists r1]. unfold swept_class. cbn [fst snd].
    destruct (retention_batches_cases server at_ batch d1 Hb Hok1) as [-> _]. by eexists. }
  match goal with |- context [swept_class ?cut ?run ?add (r2, ([], d2))] =>
    destruct (swept_mail_frame cut run add r2 d2) as (r3 & d3 & -> & E3) end.
  { intros at_. split; [by apply (sweep_frame rt_mail)|apply sweep_faults]. }
  match goal with |- context [swept_class ?cut ?run ?add (r3, ([], d3))] =>
    destruct (swept_mail_frame cut run add r3 d3) as (r4 & d4 & -> & E4) end.
  { intros at_. split; [by apply (sweep_frame rt_mail)|apply sweep_faults]. }
  exists r4, d4. rewrite E4, E3. split_and!; [done|done|by eapply ages_trans|].
  intros x Hx Hv. split; intros at_ Hat.
  - destruct (Ha2 x Hx) as (x1 & Hx1 & E1 & -> & _). fold periods meta in Hat. unfold d1 in Hx1. rewrite Hat in Hx1.
    apply (prune_all_young server at_ d); [exact Hx1|]. unfold visible in *. by rewrite <- E1.
  - fold periods content in Hat. unfold d2 in Hx |- *. rewrite Hat in Hx |- *. by apply (purge_all_settled server at_ (rt_mail d1)).
Qed.

Lemma retain_servers_spec ts : ∀ r d, ids_ok (rt_mail d) →
  ∃ r' d', fold_left (retain_server c now) ts (r, ([], d)) = (r', ([], d')) ∧ ages (rt_mail d) (rt_mail d') ∧
    ∀ t, t ∈ ts → retained c now t (rt_mail d').
Proof.
  induction ts as [|t ts IH]; intros r d Hok; cbn [fold_left].
  - exists r, d. split_and!; [done|apply ages_refl|]. by intros t Ht%elem_of_nil.
  - destruct (retain_server_spec t r d Hok) as (r1 & d1 & -> & Hok1 & Ha1 & Ht1).
    destruct (IH r1 d1 Hok1) as (r2 & d2 & -> & Ha2 & Ht2). exists r2, d2.
    split_and!; [done|by eapply ages_trans|]. intros t' [->|Ht']%elem_of_cons; [by eapply retained_ages|by apply Ht2].
Qed.

Lemma table_mail table cutoff batch s : rt_mail (prune_global_table table cutoff batch s).2.2 = rt_mail s.2.
Proof.
  apply (sweep_frame rt_mail). intros d. unfold table_batch. destruct (global_batch _ _ _) as [[n m] l]. cbn. unfold set_rows.
  by destruct (_ =b _).
Qed.
Lemma tables_mail tables cutoff batch : ∀ total s, rt_mail (prune_tables tables cutoff batch total s).2.2 = rt_mail s.2.
Proof.
  induction tables as [|table tables IH]; intros total s; cbn [prune_tables]; [done|].
  pose proof (table_mail table cutoff batch s) as H. destruct (prune_global_table table cutoff batch s) as [[n| |] s']; [|exact H..].
  rewrite IH. exact H.
Qed.
Lemma swept_table_mail run set x : (∀ s, rt_mail (run s).2.2 = rt_mail s.2) → rt_mail (swept_table run set x).2.2 = rt_mail x.2.2.
Proof.
  intros H. destruct x as [[r|] s]; [|done]. unfold swept_table. specialize (H s). by destruct (run s) as [[n| |] s'].
Qed.

(** A pass of retention pays what it owes: afterwards no server has a message older
    than its metadata limit, nor the content of one older than its content limit,
    unless it waits in the delivery queue; the limits are those of its organization
    over the installation's. *)
Theorem retention_complete targets d t : ids_ok (rt_mail d) → t ∈ targets →
  retained c now t (rt_mail (apply_retention c now targets ([], d)).2.2).
Proof.
  intros Hok Ht. unfold apply_retention. destruct (retain_servers_spec targets report_default d Hok) as (r & d' & E & _ & H).
  unfold Faulty in *. rewrite E. clear E.
  specialize (H t Ht). rewrite swept_table_mail by (intros s; apply tables_mail).
  destruct (0 <? rc_api_request_days c)%N; [rewrite swept_table_mail by (intros s; apply table_mail)|];
    (destruct (0 <? rc_auth_event_days c)%N; [rewrite swept_table_mail by (intros s; apply table_mail)|]; exact H).
Qed.
End Pass.
End Retention.

(** ** An old installation *)

#[local] Existing Instance concrete_order.
#[local] Existing Instance concrete_crates.
#[local] Existing Instance concrete_case.
#[local] Existing Instance concrete_payloads.

Definition fx_retention : RetentionDb := mkRetentionDb fx_sent_db [(1%Z, 1%N, 1%Z, 5%Z)] [] [] [] ∅.
Definition fx_periods : RetentionConfig := mkRetentionConfig (from_days 1 2 0 0) 1 0 0.

Theorem retention_batches_witness :
  (prune_message_metadata 1 10 1 ([], fx_retention)).1 = Total 2 ∧
  db_messages (rt_mail (prune_message_metadata 1 10 1 ([], fx_retention)).2.2) = [].
Proof.
  destruct (retention_batches 1 10 1 fx_retention) as [_ ->]; [lia|apply fx_sent_ids|]. split; vm_compute; reflexivity.
Defined.

Theorem retention_complete_witness :
  let d := rt_mail (apply_retention fx_periods (days 3) [mkRetentionTarget 1 1 (mkRetentionOverrides None None None None)]
    ([], fx_retention)).2.2 in
  retained fx_periods (days 3) (mkRetentionTarget 1 1 (mkRetentionOverrides None None None None)) d ∧ db_messages d = [].
Proof.
  split; [apply retention_complete; [apply fx_sent_ids|left]|vm_compute; reflexivity].
Defined.
