(* ===== verification/WorkerFacts.v ===== *)
(** * WorkerFacts: what a worker step does to the database

    A small Hoare logic of worker computations; an attempt to deliver is recorded in
    one transaction or not at all; no step, whatever transaction of it fails,
    strands mail. *)

From S2P Require Import Prelude RustStr RustStrFacts Net Model SendLimit Message Bounce Mime Tracking Arf MemoryStore MemoryFacts.
From S2P Require Import Queue QueueFacts MailDb Ssrf Dkim SmtpClient Sender Worker PgSink MailDbFacts MailInvariant Retention.
From S2P Require Import RetentionFacts Concrete TrackingFacts Webhooks.

Section Logic.
Context `{WW : !WorkerWorld, CASE : !UnicodeCase, CRA : !Crates, B64 : !Base64, PAY : !Payloads, OUT : !Outbound,
  MX : !MxResolver, RES : !SmtpClient.Resolve} {K : Type} `{SIG : !Signer K}.

(** ** Triples *)

Definition hoare {A} (P : WState → Prop) (m : W A) (Q : Step A → WState → Prop) : Prop :=
  ∀ s, P s → Q (m s).1 (m s).2.
Definition keeps {A} (I : WState → Prop) (m : W A) : Prop := hoare I m (λ _, I).

(** A fact of the database alone, which holds whatever the script of faults is. *)
Definition of_db (I : MailDb → Prop) (s : WState) : Prop := I (ws_db s).

Lemma hoare_ret {A} (a : A) P : hoare P (mret a) (λ r s, r = Done a ∧ P s).
Proof. intros s Hs. by split. Qed.

Lemma hoare_bind {A B} P (m : W A) R (k : A → W B) (Q : Step B → WState → Prop) :
  hoare P m R → (∀ a, hoare (R (Done a)) (k a) Q) →
  (∀ s, R Failed s → Q Failed s) → (∀ s, R Panicked s → Q Panicked s) → hoare P (m ≫= k) Q.
Proof.
  intros Hm Hk Hf Hp s Hs. specialize (Hm s Hs). unfold mbind, W_bind.
  destruct (m s) as [[a| |] s']; cbn [fst snd] in *; [by apply Hk|by apply Hf|by apply Hp].
Qed.

Lemma hoare_weaken {A} (P P' : WState → Prop) (m : W A) (Q Q' : Step A → WState → Prop) :
  hoare P m Q → (∀ s, P' s → P s) → (∀ r s, Q r s → Q' r s) → hoare P' m Q'.
Proof. intros H HP HQ s Hs. by apply HQ, H, HP. Qed.

Lemma keeps_ret {A} (a : A) I : keeps I (mret a).
Proof. by intros s Hs. Qed.
Lemma keeps_fail {A} I : keeps I (fail (A := A)).
Proof. by intros s Hs. Qed.
Lemma keeps_or_panic {A} (o : option A) I : keeps I (or_panic o).
Proof. by intros s Hs. Qed.
Lemma keeps_bind {A B} (m : W A) (k : A → W B) I : keeps I m → (∀ a, keeps I (k a)) → keeps I (m ≫= k).
Proof. intros Hm Hk. by apply (hoare_bind I m (λ _, I)). Qed.
Lemma keeps_attempt {A} (m : W A) I : keeps I m → keeps I (attempt m).
Proof. intros Hm s Hs. specialize (Hm s Hs). unfold attempt. by destruct (m s) as [[a| |] s']. Qed.

Lemma hoare_transaction {A} (f : MailDb → A * MailDb) I (Q : A → MailDb → Prop) :
  (∀ d, I d → Q (f d).1 (f d).2) →
  hoare (of_db I) (transaction f)
    (λ r s, match r with Done a => Q a (ws_db s) | _ => I (ws_db s) end).
Proof.
  intros Hf s Hs. unfold transaction. specialize (Hf _ Hs). destruct (ws_faults s) as [|[|] rest]; [|exact Hs|];
    destruct (f (ws_db s)) as [a d]; exact Hf.
Qed.
Lemma keeps_transaction {A} (f : MailDb → A * MailDb) I : (∀ d, I d → I (f d).2) → keeps (of_db I) (transaction f).
Proof.
  intros Hf. eapply hoare_weaken; [apply (hoare_transaction f I (λ _, I) Hf)|done|]. by intros [a| |] s.
Qed.
Lemma keeps_execute f I : (∀ d, I d → I (f d)) → keeps (of_db I) (execute f).
Proof. intros Hf. by apply keeps_transaction. Qed.
Lemma keeps_query {A} (f : MailDb → A) I : keeps (of_db I) (query f).
Proof. by apply keeps_transaction. Qed.
Lemma keeps_http url json I : keeps (of_db I) (http_send url json).
Proof. intros s Hs. unfold http_send. by destruct (ws_http (s <| ws_posted := ws_posted s ++ [(url, json)] |>)). Qed.

(** ** Mail on its way out *)

(** Nothing but the tracking tables has changed, and nothing was sent. *)
Definition tracked_only (d : MailDb) (n : Network) (s : WState) : Prop :=
  (∃ a, ws_db s = d <| db_activity := a |>) ∧ ws_network s = n.

Lemma keeps_tracked_transaction {A} (f : MailDb → A * MailDb) d n :
  (∀ d0, ∃ a, (f d0).2 = d0 <| db_activity := a |>) → keeps (tracked_only d n) (transaction f).
Proof.
  intros Hf s [[a Ha] Hn]. unfold transaction. destruct (Hf (ws_db s)) as [a' Ha'].
  destruct (f (ws_db s)) as [x d'] eqn:E. cbn [snd] in Ha'. rewrite Ha in Ha'.
  destruct (ws_faults s) as [|[|] rest]; (split; [|exact Hn]); [exists a'|exists a|exists a']; [exact Ha'|exact Ha|exact Ha'].
Qed.

Lemma keeps_click_tokens server_id message_id urls d n : keeps (tracked_only d n) (create_click_tokens server_id message_id urls).
Proof.
  induction urls as [|url rest IH]; cbn [create_click_tokens]; [apply keeps_ret|].
  apply keeps_bind; [apply keeps_tracked_transaction; intros d0; by eexists|intros link].
  apply keeps_bind; [apply keeps_tracked_transaction; intros d0; by eexists|intros token].
  apply keeps_bind; [exact IH|intros tokens; apply keeps_ret].
Qed.

Lemma keeps_apply_tracking (w : Worker (K := K)) m d n : keeps (tracked_only d n) (apply_tracking w m).
Proof.
  unfold apply_tracking. destruct (is_signed _); [apply keeps_ret|]. destruct (html_of _); [|apply keeps_ret].
  apply keeps_bind; [apply keeps_or_panic|intros [[rewritten links] k]].
  apply keeps_bind; [apply keeps_click_tokens|intros tokens].
  apply keeps_bind; [apply keeps_tracked_transaction; intros d0; by eexists|intros token].
  apply keeps_bind; [apply keeps_or_panic|intros html]. apply keeps_ret.
Qed.

Lemma keeps_prepare (w : Worker (K := K)) m raw I : keeps I (prepare w m raw).
Proof.
  intros s Hs. unfold prepare. destruct (_ ≫= _) as [domain|]; [|done]. by destruct (signer_for_domain _ _).
Qed.
Lemma keeps_return_path (w : Worker (K := K)) m token I : keeps I (return_path w m token).
Proof. unfold return_path. destruct (wk_return_path_domain w); [destruct token|]; [apply keeps_ret|apply keeps_fail|apply keeps_ret]. Qed.

(** The outcomes an attempt may record, each with its place in the queue. *)
Inductive settlement (w : Worker (K := K)) (queued : QueuedMessageRow) : bytes → OutboundQueueAction → ProcessOutcome → Prop :=
| settled_held : settlement w queued !"Held" MailDb.Complete OutcomeHeld
| settled_sent response : settlement w queued !"Sent" MailDb.Complete (Delivered response)
| settled_failed response : settlement w queued !"HardFail" MailDb.Complete (OutcomeFailed response)
| settled_delayed response : (q_attempts queued + 1 < wk_max_attempts w)%Z →
    settlement w queued !"SoftFail" (MailDb.Retry (q_attempts queued)) (Delayed response).

(** What an attempt leaves behind, up to the tracking tables. *)
Inductive attempted (w : Worker (K := K)) (queued : QueuedMessageRow) (m : StoredMessage) (d : MailDb) :
    Step ProcessOutcome → MailDb → Prop :=
| interrupted (r : Step ProcessOutcome) d0 a : d0 = d <| db_activity := a |> → r = Failed ∨ r = Panicked →
    attempted w queued m d r d0
| already_bounced : sg_status m = !"Bounced" →
    attempted w queued m d (Done AlreadyBounced) (on_queue (Queue.complete (q_id queued)) d)
| recorded d0 a st action outcome de ou tls cat event payload : d0 = d <| db_activity := a |> →
    settlement w queued st action outcome → sg_status m ≠ !"Bounced" →
    let x := record_outbound_delivery (sg_server_id m) (sg_id m) (q_id queued) st de ou tls cat action event payload d0 in
    attempted w queued m d (Done match x.1 with Some _ => outcome | None => AlreadyBounced end) x.2.

Lemma record_spec (w : Worker (K := K)) queued m st de ou tls cat action event payload outcome d n :
  settlement w queued st action outcome → sg_status m ≠ !"Bounced" →
  hoare (tracked_only d n) (record queued m st de ou tls cat action event payload outcome)
    (λ r s, attempted w queued m d r (ws_db s) ∧ ws_network s = n).
Proof.
  intros Hset Hb s [[a Ha] Hn]. unfold record, mbind, W_bind, transaction.
  match goal with |- context [record_outbound_delivery ?t ?i ?q st de ou tls ?c action event ?p] =>
    pose proof (recorded w queued m d (ws_db s) a st action outcome de ou tls c event p Ha Hset Hb) as H;
    cbv zeta in H; cbn [fst snd] in H;
    destruct (record_outbound_delivery t i q st de ou tls c action event p (ws_db s)) as [x d'] end.
  destruct (ws_faults s) as [|[|] rest]; (split; [|exact Hn]); [exact H| |exact H].
  cbn. eapply interrupted; [exact Ha|by left].
Qed.

Lemma settle_spec (w : Worker (K := K)) queued m outcome d n : sg_status m ≠ !"Bounced" →
  hoare (tracked_only d n) (settle w queued m outcome) (λ r s, attempted w queued m d r (ws_db s) ∧ ws_network s = n).
Proof.
  intros Hb. unfold settle. destruct outcome as [response tls|response|response].
  - apply (record_spec w); [constructor|done].
  - destruct (Z.leb_spec (wk_max_attempts w) (q_attempts queued + 1)); (apply (record_spec w); [by constructor|done]).
  - apply (record_spec w); [constructor|done].
Qed.

Ltac interrupt :=
  let H := fresh in intros s H; repeat match type of H with tracked_only _ _ _ => fail 1 | _ => destruct H as [? H] end;
  destruct H as [[? H] _]; eapply interrupted; [exact H|by auto].

Lemma outgoing_attempt (w : Worker (K := K)) queued m token d n :
  hoare (λ s, ws_db s = d ∧ ws_network s = n) (process_outgoing w queued m token)
    (λ r s, attempted w queued m d r (ws_db s) ∧
            (address_suppressed (sg_server_id m) (sg_rcpt_to m) (sg_stream_id m) d = true → ws_network s = n)).
Proof.
  unfold process_outgoing. destruct (bytes_eqb_spec (sg_status m) !"Bounced") as [Hb|Hb].
  { intros s [Hd Hn]. unfold queue_complete, execute, mbind, W_bind, transaction.
    destruct (ws_faults s) as [|[|] rest]; cbn; (split; [|by intros _]); rewrite Hd;
      [by apply already_bounced| |by apply already_bounced].
    eapply (interrupted _ _ _ _ _ _ (db_activity d)); [by destruct d|by left]. }
  eapply (hoare_bind _ _ (λ r s, match r with
    | Done b => b = address_suppressed (sg_server_id m) (sg_rcpt_to m) (sg_stream_id m) d ∧ tracked_only d n s
    | Failed => tracked_only d n s | Panicked => False end)).
  { intros s [Hd Hn]. unfold query, transaction. assert (tracked_only d n s) as H.
    { split; [|done]. exists (db_activity d). rewrite Hd. by destruct d. }
    destruct (ws_faults s) as [|[|] rest]; cbn; [|exact H|]; (split; [by rewrite Hd|exact H]). }
  2:{ intros s [[a Ha] Hn]. split; [eapply interrupted; [exact Ha|by left]|by intros _]. }
  2:{ by intros s []. }
  intros suppressed s [Hsup Ht]. destruct suppressed.
  { destruct (record_spec w queued m !"Held" !"recipient is on the suppression list" [] false None MailDb.Complete !"MessageHeld"
      !"recipient is on the suppression list" OutcomeHeld d n (settled_held w queued) Hb s Ht) as [H Hn]. by split. }
  cbv beta. rewrite <- Hsup. split; [|done]. clear Hsup. revert s Ht.
  match goal with |- ∀ s, _ → attempted _ _ _ _ (?mm s).1 _ =>
    change (hoare (tracked_only d n) mm (λ r s, attempted w queued m d r (ws_db s))) end.
  apply (hoare_bind _ _ (λ _, tracked_only d n)); [apply keeps_apply_tracking|intros tracked|interrupt..].
  apply (hoare_bind _ _ (λ _, tracked_only d n)); [apply keeps_prepare|intros raw|interrupt..].
  apply (hoare_bind _ _ (λ _, tracked_only d n)); [apply keeps_return_path|intros from|interrupt..].
  apply (hoare_bind _ _ (λ _ s, ∃ n, tracked_only d n s)); [|intros outcome|interrupt..].
  { intros s [[a Ha] Hn]. unfold smtp_send. destruct (send _ _ _ _ _ _ _) as [n' o]. exists n'. split; [|done].
    by exists a. }
  intros s [n' Ht]. by destruct (settle_spec w queued m outcome d n' Hb s Ht) as [H _].
Qed.

(** ** The invariant *)

Section Invariant.
Context (max : Z) (queued : QueuedMessageRow).

(** The row a worker took is still its, as it read it. *)
Definition job (d : MailDb) : Prop := ∀ q, q ∈ queue_rows d → q_id q = q_id queued →
  q_message_id q = q_message_id queued ∧ q_server_id q = q_server_id queued ∧ q_attempts q = q_attempts queued.
Definition settled_job (d : MailDb) : Prop := settled_message (q_server_id queued) (q_message_id queued) d.

(** What holds while a worker handles a row of a message that is not outgoing and
    pending. *)
Definition inbound_inv (d : MailDb) : Prop := mail_inv max d ∧ job d ∧ settled_job d.

Lemma settled_touch tenant mid d d' : touch tame d d' → settled_message tenant mid d → settled_message tenant mid d'.
Proof.
  intros Ht Hs r' Hr' Hid. destruct (touch_row _ _ _ _ Ht Hr') as (r & Hr & [_ Hp] & I1 & I2 & _).
  apply has_id_spec in Hid. apply not_true_iff_false. intros H. apply Hp in H.
  rewrite (Hs r Hr) in H; [done|]. apply has_id_spec. by rewrite <- I1, <- I2.
Qed.

Lemma job_queue d d' : queue_rows d' = queue_rows d → job d → job d'.
Proof. unfold job. by intros ->. Qed.

Lemma inbound_touch d d' : touch tame d d' → db_queue d' = db_queue d → inbound_inv d → inbound_inv d'.
Proof.
  intros Ht Hq (H1 & H2 & H3). split_and!; [by eapply inv_touch| |by eapply settled_touch].
  apply (job_queue d); [|done]. unfold queue_rows. by rewrite Hq.
Qed.
Lemma inbound_same d d' : db_messages d' = db_messages d → db_next_message d' = db_next_message d → db_queue d' = db_queue d →
  inbound_inv d → inbound_inv d'.
Proof. intros H1 H2 H3. apply inbound_touch; [|done]. by apply touch_same; [apply _|..]. Qed.

Lemma inbound_filter P d : (∀ q, q ∈ queue_rows d → q_id q ≠ q_id queued → P q = true) →
  inbound_inv d → inbound_inv (on_queue (λ t, t <| qt_rows := List.filter P (qt_rows t) |>) d).
Proof.
  intros HP (H1 & H2 & H3). split_and!; [|intros q [Hq _]%elem_of_filter_list; by apply H2|exact H3].
  apply inv_queue_filter; [|done]. intros r q Hr Hp Hq [B1 B2]%backs_spec. apply HP; [done|]. intros E.
  destruct (H2 q Hq E) as (E1 & E2 & _). rewrite (H3 r Hr) in Hp; [done|]. apply has_id_spec. split; congruence.
Qed.

Lemma addressed_id id owner q : q_id q ≠ id → addressed id owner q = false.
Proof. intros H. unfold addressed. by apply Z.eqb_neq in H as ->. Qed.

Lemma inbound_complete owner d : inbound_inv d → inbound_inv (on_queue (complete_message (q_id queued) owner) d).
Proof. apply inbound_filter. intros q _ Hne. by rewrite addressed_id. Qed.

(** A row put back is no longer the worker's. *)
Lemma inbound_retry now attempts owner d : (q_attempts queued + 1 < max)%Z →
  inbound_inv d → mail_inv max (on_queue (retry_message now (q_id queued) attempts owner) d).
Proof.
  intros Ha (H1 & H2 & _). apply inv_retry; [|done]. intros q Hq E. by destruct (H2 q Hq E) as (_ & _ & ->).
Qed.

Lemma inbound_record_delivery tenant mid st de ou tls cat d : pending_status st = false →
  inbound_inv d → inbound_inv (record_delivery tenant mid st de ou tls cat d).2.
Proof.
  intros Hst. apply inbound_touch; [|apply record_delivery_queue]. apply touch_record_delivery; [apply _|].
  intros r _ Hb. apply tame_settled; [done|done|]. left. unfold bounced. by rewrite Hb, andb_false_r.
Qed.

Lemma inbound_unmatched mid cat de d :
  inbound_inv d → inbound_inv (record_unmatched_bounce (q_server_id queued) mid (q_id queued) cat de d).2.
Proof.
  intros Hi. unfold record_unmatched_bounce.
  match goal with |- context [update_rows ?P ?f d] => assert (inbound_inv (update_rows P f d).2) as H1 end.
  { apply (inbound_touch d); [|reflexivity|exact Hi]. apply touch_update; [apply _|identity|]. intros r _. unfold is_dsn.
    rewrite !andb_true_iff. intros [[_ H] _]. apply incoming_not_outgoing in H. by apply tame_not_outgoing. }
  cbn [update_rows] in *. destruct (_ =? 1)%nat; cbn [snd insert_delivery]; apply inbound_complete; [|exact H1].
  revert H1. by apply inbound_same.
Qed.
End Invariant.

(** ** Mail on its way in *)

Section Incoming.
Context (w : Worker (K := K)) (queued : QueuedMessageRow).
Let I := inbound_inv (wk_max_attempts w) queued.
Let ends {A} (m : W A) : Prop := hoare (of_db I) m (λ _ s, mail_inv (wk_max_attempts w) (ws_db s)).

Lemma ends_of_keeps {A} (m : W A) : keeps (of_db I) m → ends m.
Proof. intros H s Hs. apply (H s Hs). Qed.
Lemma ends_bind {A B} (m : W A) (k : A → W B) : keeps (of_db I) m → (∀ a, ends (k a)) → ends (m ≫= k).
Proof. intros Hm Hk. apply (hoare_bind _ _ (λ _, of_db I)); [done|done|by intros s [H _]..]. Qed.
Lemma ends_ret {A} (a : A) : ends (mret a).
Proof. apply ends_of_keeps, keeps_ret. Qed.

Lemma keeps_complete : keeps (of_db I) (queue_complete (q_id queued)).
Proof. apply keeps_execute. intros d. apply inbound_complete. Qed.
Lemma keeps_note m st de ou : pending_status st = false → keeps (of_db I) (note m st de ou).
Proof.
  intros Hst. apply keeps_bind; [|intros ?; apply keeps_ret]. apply keeps_transaction. intros d. by apply inbound_record_delivery.
Qed.
Create HintDb worker.
#[local] Hint Resolve keeps_complete ends_ret : worker.

Lemma ends_retry_or_fail response : ends (retry_or_fail w queued response).
Proof.
  unfold retry_or_fail. destruct (Z.leb_spec (wk_max_attempts w) (q_attempts queued + 1)).
  - apply ends_bind; auto with worker.
  - apply (hoare_bind _ _ (λ _ s, mail_inv (wk_max_attempts w) (ws_db s))); [|by intros a s Hs|done..].
    intros s Hs. unfold queue_retry, execute, transaction.
    assert (∀ d, I d → mail_inv (wk_max_attempts w) (on_queue (Queue.retry (db_now d) (q_id queued) (q_attempts queued)) d)) as H'
      by (intros d; by apply inbound_retry).
    destruct (ws_faults s) as [|[|] rest]; [by apply H'|apply Hs|by apply H'].
Qed.

Lemma keeps_inspect m : keeps (of_db I) (inspect w m).
Proof.
  unfold inspect. destruct (_ && _); [apply keeps_ret|]. destruct (sg_inspected m); [apply keeps_ret|].
  destruct (match (if wk_rspamd w then _ else _) with Some (inr score) => _ | _ => _ end) as [st sc].
  destruct (match (if wk_clamav w then _ else _) with Some (inr _) => _ | _ => _ end) as [th det].
  apply keeps_bind; [|intros ?; apply keeps_ret]. apply keeps_execute. intros d.
  apply inbound_touch; [apply touch_inspection|done].
Qed.

Lemma feedback_complaint_frame lower tenant c d : 
  let d' := (record_feedback_complaint lower tenant c d).2 in
  db_messages d' = db_messages d ∧ db_next_message d' = db_next_message d ∧ db_queue d' = db_queue d.
Proof.
  unfold record_feedback_complaint. cbv zeta. destruct (match _ with Some (_, _, address) => Some address | None => _ end) as [address|]; [|done].
  cbn [snd]. match goal with |- context [enqueue_webhook_requests ?t ?e ?p ?x] =>
    destruct (enqueue_webhook_requests_eq t e p x) as (rs & n & -> & _) end.
  unfold write_feedback_complaint, opt_out, insert_suppression.
  destruct (_ ≫= _) as [[[t [st|]] a]|]; [destruct (existsb _ _)..|]; by split_and!.
Qed.

Lemma ends_feedback m : ends (ingest_feedback_report w queued m).
Proof.
  unfold ingest_feedback_report. destruct (extract_feedback _) as [error|report].
  - apply ends_bind; [auto with worker|intros ?]. apply ends_bind; [by apply keeps_note|intros ?; auto with worker].
  - destruct (_ =b _).
    + apply ends_bind.
      * apply keeps_attempt, keeps_transaction. intros d. destruct (feedback_complaint_frame sql_lower (sg_server_id m) (complaint_of report) d)
          as (? & ? & ?). by apply inbound_same.
      * intros [outcome|]; [|apply ends_retry_or_fail].
        apply ends_bind; [auto with worker|intros ?]. apply ends_bind; [by apply keeps_note|intros ?; auto with worker].
    + apply ends_bind; [auto with worker|intros ?]. apply ends_bind; [by apply keeps_note|intros ?; auto with worker].
Qed.

Lemma ends_dmarc m : ends (ingest_dmarc_report w queued m).
Proof.
  unfold ingest_dmarc_report. destruct (extract_report _) as [error|report].
  - apply ends_bind; [auto with worker|intros ?]. apply ends_bind; [by apply keeps_note|intros ?; auto with worker].
  - apply ends_bind.
    + apply keeps_attempt. intros s Hs. unfold store_dmarc_report. by destruct (ws_faults s) as [|[|] rest].
    + intros [id|]; [|apply ends_retry_or_fail].
      apply ends_bind; [auto with worker|intros ?]. apply ends_bind; [by apply keeps_note|intros ?; auto with worker].
Qed.

Lemma keeps_correlate m : sg_server_id m = q_server_id queued → keeps (of_db I) (worker_correlate_bounce queued m).
Proof.
  intros Hm. unfold worker_correlate_bounce. destruct (_ || _); [apply keeps_ret|].
  apply keeps_bind; [apply keeps_or_panic|intros category]. apply keeps_bind.
  - apply keeps_transaction. intros d Hd. apply (inbound_touch _ _ d); [|apply correlate_queue|done].
    apply touch_correlate, Hd.
  - intros [o| |]; [apply keeps_bind; [auto with worker|intros ?; apply keeps_ret]..|].
    destruct (sg_route_id m); [apply keeps_ret|]. apply keeps_bind; [|intros ?; apply keeps_ret].
    apply keeps_transaction. intros d. rewrite Hm. apply inbound_unmatched.
Qed.

Lemma ends_endpoint m url : ends (deliver_to_endpoint w queued m url).
Proof.
  unfold deliver_to_endpoint. destruct (check_url _ _); [apply ends_retry_or_fail|].
  apply ends_bind; [apply keeps_http|]. intros [code st body|error]; [|apply ends_retry_or_fail].
  destruct (is_success code); [apply ends_bind; auto with worker|apply ends_retry_or_fail].
Qed.

Lemma inspect_message m : hoare (of_db I) (inspect w m)
  (λ r s, I (ws_db s) ∧ ∀ hold m', r = Done (hold, m') → sg_server_id m' = sg_server_id m).
Proof.
  intros s Hs. split; [by apply keeps_inspect|]. unfold inspect.
  destruct (_ && _); [by intros hold m' [= <- <-]|]. destruct (sg_inspected m); [by intros hold m' [= <- <-]|].
  destruct (match (if wk_rspamd w then _ else _) with Some (inr score) => _ | _ => _ end) as [st sc].
  destruct (match (if wk_clamav w then _ else _) with Some (inr _) => _ | _ => _ end) as [th det].
  unfold mbind, W_bind, execute, transaction.
  destruct (ws_faults s) as [|[|] rest]; cbn; [|done|]; intros hold m' [= <- <-]; reflexivity.
Qed.

Lemma ends_incoming m : sg_server_id m = q_server_id queued → ends (process_incoming w queued m).
Proof.
  intros Hm. unfold process_incoming. eapply hoare_bind; [apply inspect_message| |by intros s [[H _] _]..].
  intros [hold m'] s [Hs Hm']. specialize (Hm' hold m' eq_refl). rewrite <- Hm' in Hm. revert s Hs.
  match goal with |- ∀ s, _ → mail_inv _ (ws_db (?mm s).2) => change (ends mm) end. destruct hold.
  { apply ends_bind; [by apply keeps_note|intros ?]. apply ends_bind; auto with worker. }
  destruct (is_feedback_report _); [apply ends_feedback|].
  apply ends_bind; [by apply keeps_correlate|]. intros [outcome|]; [auto with worker|].
  destruct (endpoint_of m') as [url|]; [|apply ends_bind; auto with worker].
  destruct (url =b _); [apply ends_dmarc|apply ends_endpoint].
Qed.
End Incoming.

(** ** One step *)

Section ProcessNext.
Context (w : Worker (K := K)).

(** The row was taken from the queue and the message loaded for it. *)
Definition taken (queued : QueuedMessageRow) (d : MailDb) : Prop :=
  mail_inv (wk_max_attempts w) d ∧ job queued d ∧ ∃ q, q ∈ queue_rows d ∧ q_id q = q_id queued.

Lemma message_by_id_row d tenant mid m : message_by_id d tenant mid = Some m →
  ∃ r, r ∈ db_messages d ∧ stored r = m ∧ sg_server_id m = tenant ∧ sg_id m = mid.
Proof.
  unfold message_by_id. intros (r & Hf & ->)%fmap_Some. apply List.find_some in Hf as [Hin [H1 H2]%has_id_spec].
  apply list_elem_of_In in Hin. exists r. by split_and!.
Qed.

(** A loaded message tells about every row of its id. *)
Lemma loaded_settled queued d m : ids_ok d → message_by_id d (q_server_id queued) (q_message_id queued) = Some m →
  ((sg_scope m =b !"outgoing") = false ∨ sg_status m = !"Bounced") → settled_job queued d.
Proof.
  intros Hok (r & Hr & Hm & Hs & Hi)%message_by_id_row Hsc r' Hr' [H1 H2]%has_id_spec.
  assert (r' = r) as ->. { apply (ids_ok_inj d); [done..|]. unfold row_id at 2. rewrite Hm. congruence. }
  unfold pending, is_scope. rewrite Hm. destruct Hsc as [->| ->]; [done|by rewrite andb_false_r].
Qed.

Lemma attempted_inv queued m d r d' : taken queued d → message_by_id d (q_server_id queued) (q_message_id queued) = Some m →
  attempted w queued m d r d' → mail_inv (wk_max_attempts w) d'.
Proof.
  intros (Hi & Hj & q & Hq & Hqid) Hm [r0 d0 a -> _|Hb|d0 a st action o de ou tls cat event payload -> Hset Hb].
  - revert Hi. by apply inv_same.
  - apply (inbound_complete _ queued None). split_and!; [done..|]. eapply loaded_settled; [apply Hi|done|by right].
  - apply message_by_id_row in Hm as (r1 & _ & _ & Ht & Hid). cbv zeta.
    apply inv_record_outbound; [|revert Hi; by apply inv_same].
    destruct Hset as [| | |response Hmax]; [reflexivity..|]. rewrite Ht, Hid. split.
    + exists q. split; [exact Hq|]. unfold of_message. destruct (Hj q Hq Hqid) as (-> & -> & _). by rewrite Z.eqb_refl, N.eqb_refl.
    + intros q' Hq' E. by destruct (Hj q' Hq' E) as (_ & _ & ->).
Qed.

(** With a return path domain the message is loaded with the token of its server. *)
Definition tokens_known : Prop := wk_return_path_domain w = None ∨ ∀ server_id, is_Some (server_token_of server_id).

Lemma load_spec queued d : tokens_known →
  hoare (λ s, ws_db s = d) (load w queued) (λ r s, ws_db s = d ∧ r ≠ Panicked ∧
    (r = Done None → message_by_id d (q_server_id queued) (q_message_id queued) = None) ∧
    ∀ m token, r = Done (Some (m, token)) → message_by_id d (q_server_id queued) (q_message_id queued) = Some m).
Proof.
  intros Htok s Hd. unfold load, mbind, W_bind, query, transaction.
  assert (∀ o, (match wk_return_path_domain w, o with
       | None, Some m => Some (m, None)
       | Some _, Some m => match server_token_of (q_server_id queued) with Some token => Some (m, Some token) | None => None end
       | _, None => None end = None → o = None) ∧
     ∀ m token, match wk_return_path_domain w, o with
       | None, Some m => Some (m, None)
       | Some _, Some m => match server_token_of (q_server_id queued) with Some token => Some (m, Some token) | None => None end
       | _, None => None end = Some (m : StoredMessage, token : option bytes) → o = Some m) as Hl.
  { intros [m|]; (destruct (wk_return_path_domain w) eqn:E; [|split; [done|by intros m0 t [= <- <-] || done]]); [|done].
    destruct Htok as [?|Ht]; [congruence|]. destruct (Ht (q_server_id queued)) as [t ->].
    split; [done|]. by intros m0 t0 [= <- <-]. }
  destruct (ws_faults s) as [|[|] rest]; cbn; [|by split_and!|]; (split_and!; [done|done|..]); rewrite Hd;
    destruct (Hl (message_by_id d (q_server_id queued) (q_message_id queued))) as [Hn Hs];
    [intros H; apply Hn; by injection H|intros m t H; eapply Hs; by injection H
    |intros H; apply Hn; by injection H|intros m t H; eapply Hs; by injection H].
Qed.

Lemma process_queued_inv queued : tokens_known →
  hoare (of_db (taken queued)) (process_queued w queued) (λ _ s, mail_inv (wk_max_attempts w) (ws_db s)).
Proof.
  intros Htok s Hs. pose proof (load_spec queued (ws_db s) Htok s eq_refl) as Hl.
  unfold process_queued, mbind, W_bind. destruct (load w queued s) as [[[[m token]|]| |] s1]; cbn [fst snd] in *;
    destruct Hl as (Hd & Hp & Hn & Hm); [| |rewrite Hd; apply Hs|done].
  - specialize (Hm m token eq_refl). destruct (sg_scope m =b !"outgoing") eqn:Esc.
    + destruct (outgoing_attempt w queued m token (ws_db s) (ws_network s1) s1) as [H _]; [done|].
      by eapply attempted_inv.
    + apply ends_incoming; [by apply message_by_id_row in Hm as (? & _ & _ & ? & _)|]. unfold of_db. rewrite Hd.
      destruct Hs as (Hi & Hj & _). split_and!; [done..|]. eapply loaded_settled; [apply Hi|done|by left].
  - specialize (Hn eq_refl). apply (ends_bind w queued); [apply keeps_complete|intros ?; apply ends_ret|].
    unfold of_db. rewrite Hd. destruct Hs as (Hi & Hj & _). split_and!; [done..|]. intros r Hr Hid.
    unfold message_by_id in Hn. apply fmap_None in Hn. apply list_elem_of_In in Hr.
    by rewrite (List.find_none _ _ Hn r Hr) in Hid.
Qed.

(** A dequeued row is the worker's. *)
Lemma dequeue_taken p worker_id now busy d row p' t' : mail_inv (wk_max_attempts w) d →
  dequeue p worker_id now busy (db_queue d) = (row, p', t') →
  match row with
  | Some queued => taken queued (on_queue (λ _, t') d)
  | None => mail_inv (wk_max_attempts w) (on_queue (λ _, t') d)
  end.
Proof.
  intros Hi E. pose proof (inv_lock _ _ _ _ _ _ _ _ _ E Hi) as Hl. destruct row as [queued|]; [|exact Hl].
  pose proof (try_servers_spec p worker_id now busy
    (turn_order (candidates p now (db_queue d)) (last_served (pq_turns p))) (db_queue d)) as H.
  unfold dequeue in E. rewrite E in H. destruct H as (_ & s & _ & r & _ & _ & Hr & _ & -> & -> & _).
  split_and!; [exact Hl| |].
  - intros q (x & Hx & ->)%elem_of_map_list. cbv beta. destruct (Z.eqb_spec (q_id x) (q_id r)) as [Ex|Ex]; [|done].
    intros _. by rewrite (queue_row_inj _ d x r Hi Hx Hr Ex).
  - exists (lock_row worker_id now r). split; [|done]. apply elem_of_map_list. exists r. by rewrite Z.eqb_refl.
Qed.

Lemma process_next_inv busy s : tokens_known → mail_inv (wk_max_attempts w) (ws_db s) →
  mail_inv (wk_max_attempts w) (ws_db (process_next w busy s).2).
Proof.
  intros Htok Hi. unfold process_next, mbind, W_bind, dequeue_next.
  destruct (dequeue _ _ _ _ _) as [[row p'] t'] eqn:E. pose proof (dequeue_taken _ _ _ _ _ _ _ _ Hi E) as Ht.
  assert (∀ s1, ws_db s1 = on_queue (λ _, t') (ws_db s) → mail_inv (wk_max_attempts w) (ws_db
    (match row with Some queued => outcome ← process_queued w queued; mret (Some outcome) | None => mret None end s1).2)) as H.
  { intros s1 Hs1. destruct row as [queued|]; [|change (mail_inv (wk_max_attempts w) (ws_db s1)); by rewrite Hs1].
    pose proof (process_queued_inv queued Htok s1) as Hq. unfold of_db in Hq. rewrite Hs1 in Hq. specialize (Hq Ht).
    unfold mbind, W_bind. by destruct (process_queued w queued s1) as [[o| |] s2]. }
  destruct (ws_faults s) as [|[|] rest]; [by apply H|exact Hi|by apply H].
Qed.
End ProcessNext.

(** ** The system *)

Context `{ORD : !HashOrder}.

(** Everything that touches the mail tables: accepted messages, workers with any
    faults, requeueing, batches of retention, opt-outs, complaints, activity and
    time.  All workers have the limit [max] of attempts. *)
Inductive system_step (max : Z) (d : MailDb) : MailDb → Prop :=
| sys_accept m : system_step max d (insert_message_in_tx m d).2
| sys_worker (w : Worker (K := K)) busy s : wk_max_attempts w = max → tokens_known w → ws_db s = d →
    system_step max d (ws_db (process_next w busy s).2)
| sys_requeue_inbound tenant mid bypass : system_step max d (requeue_inbound tenant mid bypass d).2
| sys_requeue_outbound tenant mid : system_step max d (requeue_outbound tenant mid d).2
| sys_purge_content tenant cutoff batch : system_step max d (purge_batch tenant cutoff batch d).2
| sys_prune_messages tenant cutoff batch rd : rt_mail rd = d →
    system_step max d (rt_mail (prune_batch tenant cutoff batch rd).2)
| sys_opt_out kind reason tenant stream address : system_step max d (opt_out kind reason tenant stream address d)
| sys_webhooks tenant event payload : system_step max d (enqueue_webhook_requests tenant event payload d)
| sys_activity f : system_step max d (on_activity f d)
| sys_time now : system_step max d (d <| db_now := now |>).

Lemma system_inv max d d' : (0 < max)%Z → rtc (system_step max) d d' → mail_inv max d → mail_inv max d'.
Proof.
  intros Hmax H. induction H as [d|d1 d2 d3 H _ IH]; intros Hi; [done|]. apply IH. clear IH. destruct H.
  - by apply inv_insert.
  - subst. by apply process_next_inv.
  - by apply inv_requeue_inbound.
  - by apply inv_requeue_outbound.
  - by apply inv_purge.
  - subst. by apply inv_prune.
  - by apply inv_opt_out.
  - by apply inv_requests.
  - revert Hi. by apply inv_same.
  - revert Hi. by apply inv_same.
Qed.

(** C7: No mail is stranded: from a database that has no mail, whatever is accepted,
    delivered, requeued, cleaned up or interrupted, every outgoing message that is Pending or
    SoftFail has a row in the delivery queue. *)
Theorem no_stranded_mail max d d' : (0 < max)%Z → db_messages d = [] → qt_rows (db_queue d) = [] →
  rtc (system_step max) d d' →
  ∀ r, r ∈ db_messages d' → pending r = true →
    ∃ q, q ∈ qt_rows (db_queue d') ∧ q_message_id q = row_id r ∧ q_server_id q = sg_server_id (stored r).
Proof.
  intros Hmax Hm Hq Hs r Hr Hp. destruct (system_inv max d d' Hmax Hs (inv_empty max d Hm Hq)) as [_ _ _ _ H _].
  destruct (H r Hr Hp) as (q & Hin & Hb). exists q. split; [done|]. by apply backs_spec.
Qed.

(** A row is tried less often than the limit: a row whose next failure is the last
    allowed is never put back. *)
Theorem attempts_bounded max d d' : (0 < max)%Z → db_messages d = [] → qt_rows (db_queue d) = [] →
  rtc (system_step max) d d' → ∀ q, q ∈ qt_rows (db_queue d') → (0 <= q_attempts q < max)%Z.
Proof.
  intros Hmax Hm Hq Hs q Hin. by destruct (system_inv max d d' Hmax Hs (inv_empty max d Hm Hq)) as [_ _ _ H _ _]; apply H.
Qed.

(** C8: Retention never empties a message under the worker's hands: an outgoing
    message that has a row in the delivery queue has its content, whatever is
    accepted, delivered, requeued, cleaned up or interrupted, in any order of blocks: a
    batch of the clean-up, a requeueing, an acceptance, a worker's step (up to the
    transaction that fails).  That a batch is a block is an assumption: under READ
    COMMITTED its [NOT EXISTS] reads a snapshot, which a requeueing that commits while
    the batch waits for the row is not in. *)
Theorem queued_mail_keeps_content max d d' : (0 < max)%Z → db_messages d = [] → qt_rows (db_queue d) = [] →
  rtc (system_step max) d d' →
  ∀ r q, r ∈ db_messages d' → is_scope !"outgoing" r = true → q ∈ qt_rows (db_queue d') →
    q_message_id q = row_id r → q_server_id q = sg_server_id (stored r) → row_content_purged_at r = None.
Proof.
  intros Hmax Hm Hq Hs r q Hr Ho Hin H1 H2. destruct (system_inv max d d' Hmax Hs (inv_empty max d Hm Hq)) as [_ _ _ _ _ H].
  apply (H r q); [done..|]. by apply backs_spec.
Qed.

(** C29: An attempt to deliver is recorded once or not at all.  Interrupted (a failed
    transaction or a panic), it leaves the mail tables as they were, the queue row
    locked until it is stale.  Otherwise one transaction records the delivery with
    the status, the queue row completed or put back with its backoff, and the
    webhooks; the row is put back only below the limit of attempts.  Nothing goes
    out to a suppressed recipient. *)
Theorem attempt_recorded_once (w : Worker (K := K)) queued m token s :
  let r := process_outgoing w queued m token s in
  attempted w queued m (ws_db s) r.1 (ws_db r.2) ∧
  (address_suppressed (sg_server_id m) (sg_rcpt_to m) (sg_stream_id m) (ws_db s) = true →
   ws_network r.2 = ws_network s).
Proof. by apply (outgoing_attempt w queued m token (ws_db s) (ws_network s)). Qed.
End Logic.

(** ** A worker at work *)

#[local] Existing Instance hex_crates.
#[local] Existing Instance hex_base64.
#[local] Existing Instance concrete_case.
#[local] Existing Instance concrete_outbound.
#[local] Existing Instance concrete_mx.
#[local] Existing Instance concrete_resolve.
#[local] Existing Instance concrete_signer.
#[local] Existing Instance concrete_order.

#[local] Existing Instance concrete_payloads.
Definition concrete_worker_world : WorkerWorld :=
  {| domain_by_id _ := None; route_by_id _ _ := None; effective_track_domain _ := None; source_ip_for _ _ := None;
     server_token_of _ := Some !"token"; sql_lower := to_ascii_lowercase; rspamd_score _ := inl []; clamav_scan _ := inl [];
     f64_ge a b := (b <=? a)%N; AggregateReport := unit; extract_report _ := inl []; report_domain _ := [];
     report_record_count _ := 0%Z; error_text _ := [] |}.
#[local] Existing Instance concrete_worker_world.

Definition fx_worker : Worker (K := unit) :=
  mkWorker !"worker" (mkSmtpSender [] !"mx.example" 5 5 5) None !"sel" false false 0 0 !"https://t" !"https" (guard_new true []) 18 None.
(** Every connection is refused; the fifth transaction of the step fails. *)
Definition fx_state (faults : list bool) : WState :=
  mkWState (insert_message_in_tx fx_message fx_db).2 queue_new (mkNetwork [] [] [] [] []) [] [] [] faults.
Definition fx_after (faults : list bool) : Step (option ProcessOutcome) * WState := process_next fx_worker [] (fx_state faults).

Lemma fx_reached faults : rtc (system_step (K := unit) 18) fx_db (ws_db (fx_after faults).2).
Proof.
  unfold fx_after. apply (rtc_l _ _ (ws_db (fx_state faults))); [exact (sys_accept 18 fx_db fx_message)|]. apply rtc_once.
  exact (sys_worker 18 (ws_db (fx_state faults)) fx_worker [] (fx_state faults) eq_refl (or_introl eq_refl) eq_refl).
Qed.

Definition pending_backed (d : MailDb) : bool :=
  existsb pending (db_messages d) && forallb (λ r, negb (pending r) || existsb (of_message (sg_server_id (stored r)) (row_id r))
    (qt_rows (db_queue d))) (db_messages d).

Theorem no_stranded_mail_witness :
  let d := ws_db (fx_after [false; false; false; true]).2 in
  existsb pending (db_messages d) = true ∧
  ∀ r, r ∈ db_messages d → pending r = true →
    ∃ q, q ∈ qt_rows (db_queue d) ∧ q_message_id q = row_id r ∧ q_server_id q = sg_server_id (stored r).
Proof.
  split; [vm_compute; reflexivity|].
  apply (no_stranded_mail (K := unit) 18 fx_db); [lia|reflexivity|reflexivity|apply fx_reached].
Defined.

(** The recipient opts out, so that the worker completes the message undelivered; a
    second message is accepted, and both are old enough when the content is purged. *)
Definition fx_opted_out : MailDb := opt_out !"unsubscribe" !"reason" 1 None (qm_rcpt_to fx_message) (insert_message_in_tx fx_message fx_db).2.
Definition fx_opted_state : WState := mkWState fx_opted_out queue_new (mkNetwork [] [] [] [] []) [] [] [] [].
Definition fx_completed : WState :=
  (process_next fx_worker [] fx_opted_state).2.
Definition fx_second : MailDb := (insert_message_in_tx fx_message (ws_db fx_completed)).2.
Definition fx_purged : MailDb := (purge_batch 1 1 10 fx_second).2.

Lemma fx_purged_reached : rtc (system_step (K := unit) 18) fx_db fx_purged.
Proof.
  apply (rtc_l _ _ (insert_message_in_tx fx_message fx_db).2); [exact (sys_accept 18 fx_db fx_message)|].
  apply (rtc_l _ _ fx_opted_out); [exact (sys_opt_out 18 (insert_message_in_tx fx_message fx_db).2 !"unsubscribe" !"reason" 1 None (qm_rcpt_to fx_message))|].
  apply (rtc_l _ _ (ws_db fx_completed)).
  { exact (sys_worker 18 fx_opted_out fx_worker [] fx_opted_state eq_refl (or_introl eq_refl) eq_refl). }
  apply (rtc_l _ _ fx_second); [exact (sys_accept 18 (ws_db fx_completed) fx_message)|]. apply rtc_once.
  exact (sys_purge_content 18 fx_second 1 1 10).
Qed.

Theorem queued_mail_keeps_content_witness :
  map (λ r, (row_id r, row_content_purged_at r)) (db_messages fx_purged) = [(1%Z, Some 0%Z); (2%Z, None)] ∧
  map q_message_id (qt_rows (db_queue fx_purged)) = [2%Z] ∧
  ∀ r q, r ∈ db_messages fx_purged → is_scope !"outgoing" r = true → q ∈ qt_rows (db_queue fx_purged) →
    q_message_id q = row_id r → q_server_id q = sg_server_id (stored r) → row_content_purged_at r = None.
Proof.
  split; [vm_compute; reflexivity|]. split; [vm_compute; reflexivity|].
  apply (queued_mail_keeps_content (K := unit) 18 fx_db); [lia|reflexivity|reflexivity|apply fx_purged_reached].
Defined.

Theorem attempts_bounded_witness :
  let d := ws_db (fx_after []).2 in
  map q_attempts (qt_rows (db_queue d)) = [1%Z] ∧ ∀ q, q ∈ qt_rows (db_queue d) → (0 <= q_attempts q < 18)%Z.
Proof.
  split; [vm_compute; reflexivity|].
  apply (attempts_bounded (K := unit) 18 fx_db); [lia|reflexivity|reflexivity|apply fx_reached].
Defined.

(** ** Inbound failures *)

Definition endpoint_world : WorkerWorld :=
  {| domain_by_id _ := None; route_by_id server_id route_id :=
       Some (mkRoute route_id !"uuid" server_id None !"in" !"token" Model.Endpoint (Some !"hooks.example"));
     effective_track_domain _ := None; source_ip_for _ _ := None;
     server_token_of _ := Some !"token"; sql_lower := to_ascii_lowercase; rspamd_score _ := inl []; clamav_scan _ := inl [];
     f64_ge a b := (b <=? a)%N; AggregateReport := unit; extract_report _ := inl []; report_domain _ := [];
     report_record_count _ := 0%Z; error_text _ := [] |}.

(** An incoming message whose endpoint failed seventeen times. *)
Definition fx_inbound (attempts : Z) : MailDb :=
  on_queue (λ t, t <| qt_rows := map (λ q, q <| q_attempts := attempts |>) (qt_rows t) |>)
    (insert_message_in_tx (mkQueuedMessage 1 !"in@a.example" !"you@other.example" (!"Subject: hi" ++ CRLF ++ CRLF ++ !"hello")
       false Incoming false None None (Some 7%N) None None None) fx_db).2.
Definition fx_inbound_step (attempts : Z) (answers : list HttpAnswer) :
    Step (option ProcessOutcome) * list bytes * nat * nat :=
  let '(r, s) := process_next (WW := endpoint_world) fx_worker []
    (mkWState (WW := endpoint_world) (fx_inbound attempts) queue_new (mkNetwork [] [] [] [] []) answers [] [] []) in
  (r, map (λ r, sg_status (stored r)) (db_messages (ws_db (WW := endpoint_world) s)),
   length (db_deliveries (ws_db (WW := endpoint_world) s)), length (qt_rows (db_queue (ws_db (WW := endpoint_world) s)))).

(** The last failed attempt to hand an incoming message to its endpoint removes the
    queue row and records nothing: the message stays Pending, without a delivery
    and without a row that would ever try it again.  Every earlier failure keeps
    the row, and an answer of the endpoint leaves the message Pending as well. *)
Theorem inbound_failure_unrecorded :
  let failure := HttpResponse 500 !"500 Internal Server Error" [] in
  fx_inbound_step 17 [failure]
  = (Done (Some (OutcomeFailed !"endpoint returned 500 Internal Server Error")), [!"Pending"], 0, 0) ∧
  fx_inbound_step 16 [failure]
  = (Done (Some (Delayed !"endpoint returned 500 Internal Server Error")), [!"Pending"], 0, 1) ∧
  fx_inbound_step 0 [HttpResponse 200 !"200 OK" []] = (Done (Some Routed), [!"Pending"], 0, 0).
Proof. split_and!; vm_compute; reflexivity. Qed.

(** ** What one webhook attempt does *)


Section WebhookFacts.
Context `{WW : !WorkerWorld, CASE : !UnicodeCase, CRA : !Crates, OUT : !Outbound, HDR : !HttpHeaders} {K : Type}
  `{SIG : !Signer K}.

(** The place of a request in the queue after an attempt. *)
Definition request_settled (r : WebhookRequestRow) (o : WebhookOutcome) (d d' : MailDb) : Prop :=
  match o with
  | Retrying => (wr_attempts r + 1 < WEBHOOK_MAX_ATTEMPTS)%Z ∧ d' = webhook_retry (wr_id r) (wr_attempts r) d
  | GivenUp => (WEBHOOK_MAX_ATTEMPTS <= wr_attempts r + 1)%Z ∧ d' = webhook_complete (wr_id r) d
  | WebhookDelivered => d' = webhook_complete (wr_id r) d
  end.

Lemma after_failure_settled r s o s' : after_failure r s = (o, s') →
  o ≠ WebhookDelivered ∧ request_settled r o (hs_db s) (hs_db s') ∧ hs_log s' = hs_log s ∧ hs_posted s' = hs_posted s.
Proof.
  unfold after_failure. destruct (Z.leb_spec WEBHOOK_MAX_ATTEMPTS (wr_attempts r + 1));
    intros [= <- <-]; split_and!; try done; by split.
Qed.

Lemma log_attempt_spec r attempt status success body s :
  log_attempt r attempt status success body s = (λ logged, mkHookState (hs_db s) (hs_http s)
    (hs_log s ++ [mkWebhookLogEntry (wr_server_id r) (wr_webhook_id r) (wr_uuid r) (wr_event r) (wr_url r) attempt
                    status success logged]) (hs_posted s)) <$> log_body body.
Proof. unfold log_attempt. by destruct (log_body body). Qed.

(** One attempt: at most one request, posted to the URL of the row with its payload
    after the guard passed it; one log entry, numbered, which is a success exactly
    when the outcome is; the row leaves the queue when delivered or given up, and is
    put back only before the tenth attempt.  The attempt panics exactly when the
    text to log cannot be cut. *)
Theorem webhook_attempt_spec guard signer r s :
  match deliver_request guard signer r s with
  | Some (o, s') =>
      request_settled r o (hs_db s) (hs_db s') ∧
      (∃ e, hs_log s' = hs_log s ++ [e] ∧ we_attempt e = (wr_attempts r + 1)%Z ∧ we_uuid e = wr_uuid r ∧
         (we_success e = true ↔ o = WebhookDelivered)) ∧
      match check_url guard (wr_url r) with
      | inl _ => o ≠ WebhookDelivered ∧ hs_posted s' = hs_posted s
      | inr _ => hs_posted s' = hs_posted s ++ [mkPosted (wr_url r) (request_headers signer r) (wr_payload r)]
      end
  | None => ∃ text, log_body text = None
  end.
Proof.
  unfold deliver_request. destruct (check_url guard (wr_url r)) as [error|].
  - rewrite log_attempt_spec. destruct (log_body _) as [logged|] eqn:E; cbn; [|by eexists].
    match goal with |- context [after_failure r ?x] => destruct (after_failure r x) as [o s'] eqn:Ea end.
    apply after_failure_settled in Ea as (Ho & Hs & Hl & Hp). rewrite Hl, Hp. split_and!; try done.
    eexists. split_and!; [reflexivity|done|done|]. cbn. by split.
  - set (p := mkPosted _ _ _).
    assert (∃ a, http_post p s = (a, (http_post p s).2) ∧ hs_db (http_post p s).2 = hs_db s ∧
      hs_log (http_post p s).2 = hs_log s ∧ hs_posted (http_post p s).2 = hs_posted s ++ [p]) as (a & Ha & Hd & Hl & Hp).
    { unfold http_post. destruct (hs_http s); by eexists. }
    rewrite Ha. set (s1 := (http_post p s).2) in *.
    destruct (match a with HttpResponse _ _ _ => _ | HttpError _ => _ end) as [[st success] body].
    rewrite log_attempt_spec. destruct (log_body body) as [logged|] eqn:E; cbn; [|by eexists]. destruct success; cbn.
    + rewrite Hd, Hl, Hp. split_and!; [done| |done]. eexists. by split_and!.
    + match goal with |- context [after_failure r ?x] => destruct (after_failure r x) as [o s'] eqn:Ea end.
      apply after_failure_settled in Ea as (Ho & Hs & Hl' & Hp'). cbn in *. rewrite Hd in Hs. rewrite Hl', Hp', Hl, Hp.
      split_and!; [done| |done]. eexists. split_and!; [reflexivity|done|done|]. cbn. by split.
Qed.
End WebhookFacts.

(** ** A receiver that breaks the worker *)

#[local] Existing Instance concrete_case.

Definition any_header : HttpHeaders := {| header_valid _ _ := true |}.
Definition fx_request : WebhookRequestRow :=
  mkWebhookRequestRow 1 1 1 !"uuid" !"MessageSent" !"hooks.example" !"{}" false 0 [] None None None.
Definition fx_hooks (body : bytes) : HookState :=
  mkHookState (fx_db <| db_requests := [fx_request] |>) [HttpResponse 200 !"200 OK" body] [] [].
Definition fx_webhook (body : bytes) : option (option WebhookOutcome * nat) :=
  '(o, s) ← process_next_webhook (WW := concrete_worker_world) (CRA := hex_crates) (OUT := concrete_outbound)
    (HDR := any_header) (SIG := concrete_signer) (guard_new true []) None 1 !"worker" [] (fx_hooks body);
  Some (o, length (db_requests (hs_db s))).

(** The answer of the receiver is cut at 2048 bytes for the log.  When a character
    of it lies across that byte the cut panics, after the request was delivered and
    before anything was recorded: the row stays locked until the lock is stale, and
    is then delivered again, for ever if the receiver repeats its answer. *)
Theorem webhook_log_panics :
  let e_acute := [ascii_of_N 195; ascii_of_N 169] in
  fx_webhook (repeat "a"%char (N.to_nat 2047) ++ e_acute) = None ∧
  fx_webhook (repeat "a"%char (N.to_nat 2046) ++ e_acute) = Some (Some WebhookDelivered, 0) ∧
  fx_webhook (repeat "a"%char (N.to_nat 2048) ++ e_acute) = Some (Some WebhookDelivered, 0).
Proof. split_and!; vm_compute; reflexivity. Qed.
