(* ===== verification/Lifecycle.v ===== *)
(** * Lifecycle: installation events and their delivery

    [camelmailer-core/src/lifecycle.rs], [camelmailer-db/src/lifecycle_queue.rs] and
    [process_next_lifecycle_event] of [camelmailer-worker/src/worker.rs].  The outbox
    is its table of rows; [db_lifecycle_events] of [MailDb] are the events that
    transactions on mail insert into it.  A statement of the queue may fail (the
    script [ls_faults]); a request takes the time its answer says. *)

From S2P Require Import Prelude RustStr Net Model SendLimit MemoryStore Mime Queue MailDb Worker Webhooks.

(** HMAC-SHA256, a time as RFC 3339 text with seconds, and a fresh uuid. *)
Class LifecycleCrates := {
  hmac_sha256 : bytes → bytes → bytes;
  rfc3339_secs : datetime → bytes;
  event_uuid : Z → bytes;
}.

Definition ORGANIZATION_CREATED : bytes := !"organization.created".
Definition ORGANIZATION_DELETED : bytes := !"organization.deleted".
Definition USER_REGISTERED : bytes := !"user.registered".
Definition SIGNATURE_HEADER : bytes := !"X-Camelmailer-Signature".
Definition EVENT_HEADER : bytes := !"X-Camelmailer-Event".
Definition EVENT_ID_HEADER : bytes := !"X-Camelmailer-Event-Id".

(** ** [i64] *)

(** Arithmetic of [i64] wraps (release profile): [a - b] and [abs]. *)
Definition wrap_i64 (z : Z) : Z := ((z + 2 ^ 63) mod 2 ^ 64 - 2 ^ 63)%Z.
Definition sub_i64 (a b : Z) : Z := wrap_i64 (a - b).
Definition abs_i64 (z : Z) : Z := wrap_i64 (Z.abs z).

Section Lifecycle.
Context `{LCR : !LifecycleCrates}.

(** ** The signature *)

Definition mac_text (timestamp : Z) (body : bytes) : bytes := show_Z timestamp ++ !"." ++ body.
Definition mac (secret : bytes) (timestamp : Z) (body : bytes) : bytes := hmac_sha256 secret (mac_text timestamp body).

Definition signature_header (secret : bytes) (timestamp : Z) (body : bytes) : bytes :=
  !"t=" ++ show_Z timestamp ++ !",v1=" ++ to_hex (mac secret timestamp body).

(** A slice off a char boundary, where [get] is [None], has a byte that is no digit. *)
Fixpoint decode_hex (value : bytes) : option bytes :=
  match value with
  | [] => Some []
  | [_] => None
  | a :: b :: rest => byte ← hex_byte_value a b; decoded ← decode_hex rest; Some (byte :: decoded)
  end.

(** The fields of a header: the last timestamp, [None] when it is no number, and the
    signatures in order. *)
Definition signature_part (acc : option Z * list bytes) (part : bytes) : option Z * list bytes :=
  match split_once (is_byte "=") (trim part) with
  | Some (name, value) =>
      if name =b !"t" then (parse_i64 value, acc.2)
      else if name =b !"v1" then (acc.1, acc.2 ++ [value])
      else acc
  | None => acc
  end.

Definition signature_matches (secret : bytes) (timestamp : Z) (body signature : bytes) : bool :=
  match decode_hex signature with
  | Some digest => digest =b mac secret timestamp body
  | None => false
  end.

Definition verify_signature (secret header body : bytes) (now tolerance_seconds : Z) : bool :=
  match fold_left signature_part (split_on (is_byte ",") header) (None, []) with
  | (None, _) => false
  | (Some timestamp, signatures) =>
      if (tolerance_seconds <? abs_i64 (sub_i64 now timestamp))%Z then false
      else existsb (signature_matches secret timestamp body) signatures
  end.

(** ** The outbox *)

Record LifecycleRow := mkLifecycleRow {
  lr_id : Z;
  lr_uuid : bytes;
  lr_event : bytes;
  lr_payload : bytes;
  lr_attempts : Z;
  lr_locked_by : option bytes;
  lr_locked_at : option datetime;
  lr_retry_after : option datetime;
  lr_last_error : option bytes;
}.
#[export] Instance eta_LifecycleRow : Eta LifecycleRow := λ r,
  mkLifecycleRow (lr_id r) (lr_uuid r) (lr_event r) (lr_payload r) (lr_attempts r) (lr_locked_by r) (lr_locked_at r)
    (lr_retry_after r) (lr_last_error r).

Record Outbox := mkOutbox { ob_rows : list LifecycleRow; ob_next : Z }.
#[export] Instance eta_Outbox : Eta Outbox := λ o, mkOutbox (ob_rows o) (ob_next o).

Section Enqueue.
Context `{PAY : !Payloads}.

(** [LifecycleEvent::body]: serde_json's [Map] orders the keys. *)
Definition event_body (uuid : bytes) (e : LifecycleEvent) : bytes :=
  json_to_string (VObject [(!"created_at", VString (rfc3339_secs (le_created_at e))); (!"data", le_data e);
    (!"event", VString (le_event e)); (!"id", VString uuid)]).

Definition new_row (id : Z) (e : LifecycleEvent) : LifecycleRow :=
  let uuid := event_uuid id in mkLifecycleRow id uuid (le_event e) (event_body uuid e) 0 None None None None.
Definition enqueue_lifecycle_event (e : LifecycleEvent) (o : Outbox) : Outbox :=
  mkOutbox (ob_rows o ++ [new_row (ob_next o) e]) (ob_next o + 1).
End Enqueue.

Definition on_rows (f : list LifecycleRow → list LifecycleRow) (o : Outbox) : Outbox := o <| ob_rows := f (ob_rows o) |>.

Definition stale_lock (stale_lock_days : Z) (now : datetime) (r : LifecycleRow) : bool :=
  match lr_locked_at r with Some at_ => (at_ <? now - days stale_lock_days)%Z | None => false end.
Definition event_ready (stale_lock_days : Z) (now : datetime) (r : LifecycleRow) : bool :=
  (negb (bool_decide (is_Some (lr_locked_by r))) || stale_lock stale_lock_days now r)
  && match lr_retry_after r with Some at_ => (at_ <=? now)%Z | None => true end.
Definition lock_event (worker_id : bytes) (now : datetime) (r : LifecycleRow) : LifecycleRow :=
  r <| lr_locked_by := Some worker_id |> <| lr_locked_at := Some now |>.

(** [busy] are the rows other transactions hold, which [SKIP LOCKED] passes over. *)
Definition lifecycle_dequeue (stale_lock_days : Z) (now : datetime) (worker_id : bytes) (busy : list Z) (o : Outbox) :
    option LifecycleRow * Outbox :=
  let ready r := event_ready stale_lock_days now r && negb (existsb (Z.eqb (lr_id r)) busy) in
  match head (stable_sort (λ a b, (lr_id a <=? lr_id b)%Z) (List.filter ready (ob_rows o))) with
  | None => (None, o)
  | Some r =>
      (Some (lock_event worker_id now r),
       on_rows (map (λ x, if (lr_id x =? lr_id r)%Z then lock_event worker_id now x else x)) o)
  end.

Definition lifecycle_complete (id : Z) : Outbox → Outbox := on_rows (List.filter (λ r, negb (lr_id r =? id)%Z)).

Definition reschedule (now : datetime) (attempts : Z) (error : bytes) (r : LifecycleRow) : LifecycleRow :=
  r <| lr_locked_by := None |> <| lr_locked_at := None |> <| lr_attempts := (lr_attempts r + 1)%Z |>
    <| lr_retry_after := Some (now + minutes (retry_delay_minutes attempts))%Z |> <| lr_last_error := Some error |>.
Definition lifecycle_retry (now : datetime) (id attempts : Z) (error : bytes) : Outbox → Outbox :=
  on_rows (map (λ r, if (lr_id r =? id)%Z then reschedule now attempts error r else r)).

Definition discard_all (o : Outbox) : nat * Outbox := (length (ob_rows o), on_rows (λ _, []) o).

(** ** Delivery *)

Record LifecycleWebhooks := mkLifecycleWebhooks { lw_urls : list bytes; lw_secret : option bytes }.
Definition lifecycle_enabled (w : LifecycleWebhooks) : bool := match lw_urls w with [] => false | _ => true end.

(** The clock, the table, the answers to come with the time each takes, and every
    request sent. *)
Record LState := mkLState {
  ls_now : datetime;
  ls_outbox : Outbox;
  ls_http : list (Z * HttpAnswer);
  ls_posted : list Posted;
  ls_faults : list bool;
}.
#[export] Instance eta_LState : Eta LState := λ s,
  mkLState (ls_now s) (ls_outbox s) (ls_http s) (ls_posted s) (ls_faults s).

(** A statement commits, or fails and changes nothing. *)
Definition commit {A} (f : datetime → Outbox → A * Outbox) (s : LState) : option A * LState :=
  match ls_faults s with
  | true :: rest => (None, s <| ls_faults := rest |>)
  | faults => let '(a, o) := f (ls_now s) (ls_outbox s) in
              (Some a, s <| ls_outbox := o |> <| ls_faults := tail faults |>)
  end.

Definition event_headers (secret : bytes) (timestamp : Z) (e : LifecycleRow) : list (bytes * bytes) :=
  [(!"content-type", !"application/json"); (EVENT_HEADER, lr_event e); (EVENT_ID_HEADER, lr_uuid e);
   (SIGNATURE_HEADER, signature_header secret timestamp (lr_payload e))].

Definition unix_timestamp (t : datetime) : Z := (t / 1000000000)%Z.
Definition event_post (secret : bytes) (e : LifecycleRow) (now : datetime) (url : bytes) : Posted :=
  mkPosted url (event_headers secret (unix_timestamp now) e) (lr_payload e).

(** One URL: the failure, if it is one. *)
Definition post_event (secret : bytes) (e : LifecycleRow) (url : bytes) (s : LState) : option bytes * LState :=
  let '(elapsed, answer, rest) :=
    match ls_http s with
    | [] => (0%Z, HttpError !"request timed out", [])
    | (elapsed, answer) :: rest => (elapsed, answer, rest)
    end in
  (match answer with
   | HttpResponse code status _ => if is_success code then None else Some (url ++ !": HTTP " ++ status)
   | HttpError error => Some (url ++ !": " ++ error)
   end,
   s <| ls_posted := ls_posted s ++ [event_post secret e (ls_now s) url] |> <| ls_http := rest |>
     <| ls_now := (ls_now s + elapsed)%Z |>).

Fixpoint post_all (secret : bytes) (e : LifecycleRow) (urls : list bytes) (s : LState) : list bytes * LState :=
  match urls with
  | [] => ([], s)
  | url :: urls =>
      let '(failure, s) := post_event secret e url s in
      let '(failures, s) := post_all secret e urls s in
      (match failure with Some f => f :: failures | None => failures end, s)
  end.

(** What follows the requests: remove the row, or put it back. *)
Definition conclude (e : LifecycleRow) (failures : list bytes) : LState → option WebhookOutcome * LState :=
  match failures with
  | [] => commit (λ _ o, (WebhookDelivered, lifecycle_complete (lr_id e) o))
  | _ =>
      if (WEBHOOK_MAX_ATTEMPTS <=? lr_attempts e + 1)%Z
      then commit (λ _ o, (GivenUp, lifecycle_complete (lr_id e) o))
      else commit (λ now o, (Retrying, lifecycle_retry now (lr_id e) (lr_attempts e) (join !"; " failures) o))
  end.

(** [None] is a database error; [Some None] that no event was ready. *)
Definition process_next_lifecycle_event (w : LifecycleWebhooks) (stale_lock_days : Z) (worker_id : bytes) (busy : list Z)
    (s : LState) : option (option WebhookOutcome) * LState :=
  if negb (lifecycle_enabled w) then (Some None, s)
  else
    match commit (λ now, lifecycle_dequeue stale_lock_days now worker_id busy) s with
    | (None, s) => (None, s)
    | (Some None, s) => (Some None, s)
    | (Some (Some event), s) =>
        let '(failures, s) := post_all (from_option id [] (lw_secret w)) event (lw_urls w) s in
        let '(o, s) := conclude event failures s in
        (Some <$> o, s)
    end.
End Lifecycle.
