(* ===== verification/LifecycleFacts.v ===== *)
(** * LifecycleFacts: lifecycle events are signed, verified and not lost

    The text of a signature and its verification; the outbox under workers that
    interleave, statement by statement, with a log of the attempts that ended: an event
    leaves it only after an attempt that succeeded or ten that failed. *)

From S2P Require Import Prelude RustStr RustStrFacts Net Model SendLimit MemoryStore Mime Queue MailDb Worker Webhooks.
From S2P Require Import SendLimitFacts MemoryFacts QueueFacts MailDbFacts Concrete WorkerFacts Lifecycle.

(** ** Text without white space *)

Definition plain (c : ascii) : bool := is_ascii_byte c && negb (ws1 c).

Lemma ascii_no_ws2 a b : is_ascii_byte a = true → ws2 a b = false.
Proof. unfold is_ascii_byte, ws2. destruct (N.ltb_spec (byte_n a) 128); [|done]. intros _. destruct (N.eqb_spec (byte_n a) 194); [lia|done]. Qed.
Lemma ascii_no_ws3 a b c : is_ascii_byte a = true → ws3 a b c = false.
Proof.
  unfold is_ascii_byte, ws3. destruct (N.ltb_spec (byte_n a) 128); [|done]. intros _.
  repeat match goal with |- context [(byte_n a =? ?n)%N] => destruct (N.eqb_spec (byte_n a) n); [lia|] end. done.
Qed.

Lemma drop_ws_plain w2 w3 s : Forall (λ c, plain c = true) s →
  (∀ a b, plain a = true → plain b = true → w2 a b = false) →
  (∀ a b c, plain a = true → plain c = true → w3 a b c = false) → drop_ws ws1 w2 w3 s = s.
Proof.
  intros Hs H2 H3. destruct s as [|a [|b [|c s]]]; cbn; repeat match goal with H : Forall _ (_ :: _) |- _ => inversion H; clear H; subst end;
    [done|..]; assert (ws1 a = false) as -> by (unfold plain in *; by destruct (ws1 a), (is_ascii_byte a)); [done| |];
    rewrite H2 by done; [done|]; by rewrite H3.
Qed.

Lemma trim_plain s : Forall (λ c, plain c = true) s → trim s = s.
Proof.
  assert (∀ a, plain a = true → is_ascii_byte a = true) as Ha by (intros a; unfold plain; by destruct (is_ascii_byte a)).
  intros Hs. unfold trim, trim_start, trim_end.
  rewrite (drop_ws_plain ws2 ws3) by (eauto using ascii_no_ws2, ascii_no_ws3).
  rewrite drop_ws_plain; [apply rev_involutive|by apply Forall_rev| |]; eauto using ascii_no_ws2, ascii_no_ws3.
Qed.

(** ** The signature *)

Lemma wrap_i64_small z : is_i64 z → wrap_i64 z = z.
Proof. unfold is_i64, i64_min, i64_max, wrap_i64. intros H. rewrite Z.mod_small; lia. Qed.

Lemma show_Z_free P z : P "-"%char = false → (∀ c, is_ascii_digit c = true → P c = false) → Forall (λ c, P c = false) (show_Z z).
Proof.
  intros Hd HP. eapply Forall_impl; [apply show_Z_chars|]. intros c. cbv beta. intros [Hc|Hc]%orb_true_iff; [by apply HP|].
  by apply is_byte_eq in Hc as ->.
Qed.
Lemma digit_free (P : ascii → bool) : forallb (λ n, negb (P (ascii_of_N n))) [48; 49; 50; 51; 52; 53; 54; 55; 56; 57]%N = true →
  ∀ c, is_ascii_digit c = true → P c = false.
Proof.
  intros H c Hc. rewrite forallb_forall in H. unfold is_ascii_digit, b_in in Hc. apply andb_true_iff in Hc as [H1 H2].
  apply N.leb_le in H1, H2. apply negb_true_iff. rewrite <- (ascii_N_embedding c). apply H. fold (byte_n c).
  assert (∃ k, byte_n c = 48 + k ∧ k <= 9)%N as (k & -> & Hk) by (exists (byte_n c - 48)%N; lia).
  assert (In k (map N.of_nat (seq 0 10))) as Hin by (apply in_map_iff; exists (N.to_nat k); split; [lia|apply in_seq; lia]).
  cbn in Hin. by repeat (destruct Hin as [<-|Hin]; [cbn; tauto|]).
Qed.

Lemma to_hex_free (P : ascii → bool) s :
  forallb (λ n, negb (P (ascii_of_N n))) [48; 49; 50; 51; 52; 53; 54; 55; 56; 57; 97; 98; 99; 100; 101; 102]%N = true →
  Forall (λ c, P c = false) (to_hex s).
Proof.
  intros H. eapply Forall_impl; [apply to_hex_chars|]. intros c. cbv beta. intros [Hc|Hc]%orb_true_iff.
  - apply (digit_free P); [|done]. rewrite forallb_forall in *. intros x Hx. apply H. cbn in *. tauto.
  - rewrite forallb_forall in H. unfold b_in in Hc. apply andb_true_iff in Hc as [H1 H2]. apply N.leb_le in H1, H2.
    apply negb_true_iff. rewrite <- (ascii_N_embedding c). apply H. fold (byte_n c).
    assert (∃ k, byte_n c = 97 + k ∧ k <= 5)%N as (k & -> & Hk) by (exists (byte_n c - 97)%N; lia).
    assert (In k (map N.of_nat (seq 0 6))) as Hin by (apply in_map_iff; exists (N.to_nat k); split; [lia|apply in_seq; lia]).
    cbn in Hin. by repeat (destruct Hin as [<-|Hin]; [cbn; tauto|]).
Qed.

Lemma decode_to_hex s : decode_hex (to_hex s) = Some s.
Proof.
  induction s as [|c s IH]; [done|]. destruct (hex_byte_reads c) as (a & b & E & H).
  change (to_hex (c :: s)) with (hex_byte c ++ to_hex s). rewrite E. cbn. by rewrite H, IH.
Qed.

Section Signature.
Context `{LCR : !LifecycleCrates}.

Lemma header_parts secret timestamp body : is_i64 timestamp →
  fold_left signature_part (split_on (is_byte ",") (signature_header secret timestamp body)) (None, [])
  = (Some timestamp, [to_hex (mac secret timestamp body)]).
Proof.
  intros Ht. unfold signature_header. set (hex := to_hex _).
  change (!",v1=" ++ hex) with (","%char :: (!"v1=" ++ hex)). rewrite app_assoc.
  assert (∀ P, P "t"%char = false → P "="%char = false → P "-"%char = false → (∀ c, is_ascii_digit c = true → P c = false) →
    Forall (λ c, P c = false) (!"t=" ++ show_Z timestamp)) as Htext.
  { intros P H1 H2 H3 H4. constructor; [done|]. constructor; [done|]. by apply show_Z_free. }
  rewrite split_on_app; [|apply Htext; [done..|by apply digit_free]|done].
  rewrite split_on_none by (repeat (constructor; [done|]); by apply to_hex_free). cbn [fold_left].
  assert (∀ s, Forall (λ c, negb (plain c) = false) s → trim s = s) as Htrim.
  { intros s Hs. apply trim_plain. eapply Forall_impl; [exact Hs|]. intros c. cbv beta. by destruct (plain c). }
  unfold signature_part. rewrite !Htrim;
    [|apply (Htext (λ c, negb (plain c))); [done..|by apply (digit_free (λ c, negb (plain c)))]
     |by repeat (constructor; [done|]); apply (to_hex_free (λ c, negb (plain c)))].
  change (split_once (is_byte "=") (!"t=" ++ show_Z timestamp)) with (Some (!"t", show_Z timestamp)).
  change (split_once (is_byte "=") (!"v1=" ++ hex)) with (Some (!"v1", hex)).
  cbn [bytes_eqb fst snd]. change (!"t" =b !"t") with true. change (!"v1" =b !"t") with false. change (!"v1" =b !"v1") with true.
  cbv iota. unfold parse_i64. rewrite parse_int_show by (unfold is_i64, i64_min, i64_max in Ht; lia). done.
Qed.

(** A receiver accepts a request exactly when it comes within its tolerance and the
    digests agree: its own secret over the timestamp of the header and the body it
    received, against the sender's.  The bytes under the digest determine both the
    timestamp and the body, so neither can be changed without changing them. *)
Theorem signature_round_trip secret secret' timestamp body body' now tolerance : is_i64 timestamp →
  verify_signature secret' (signature_header secret timestamp body) body' now tolerance
  = negb (tolerance <? abs_i64 (sub_i64 now timestamp))%Z && (mac secret timestamp body =b mac secret' timestamp body') ∧
  ∀ t b, mac_text t b = mac_text timestamp body → t = timestamp ∧ b = body.
Proof.
  intros Ht. split.
  - unfold verify_signature. rewrite header_parts by done. destruct (_ <? _)%Z; [done|]. cbn.
    unfold signature_matches. by rewrite decode_to_hex, orb_false_r.
  - intros t b E. apply (f_equal (split_once (is_byte "."))) in E. unfold mac_text in E.
    assert (∀ z s, split_once (is_byte ".") (show_Z z ++ !"." ++ s) = Some (show_Z z, s)) as H.
    { intros z s. change (!"." ++ s) with ("."%char :: s). apply split_once_app; [|done]. apply show_Z_free; [done|by apply digit_free]. }
    rewrite !H in E. injection E as E ->. split; [|done]. unfold show_Z, lit in E.
    apply (f_equal string_of_list_ascii) in E. rewrite !string_of_list_ascii_of_string in E. by apply (inj pretty) in E.
Qed.

(** The age of a request is computed in [i64]: at the one distance whose absolute
    value does not fit it is negative, and inside every window. *)
Theorem signature_window_overflows secret body now tolerance : (0 <= now < 2 ^ 63)%Z → (0 <= tolerance)%Z →
  verify_signature secret (signature_header secret (now - 2 ^ 63) body) body now tolerance = true.
Proof.
  intros Hn Htol. unfold verify_signature. rewrite header_parts by (unfold is_i64, i64_min, i64_max; lia).
  assert (abs_i64 (sub_i64 now (now - 2 ^ 63)) = - 2 ^ 63)%Z as ->.
  { unfold sub_i64. replace (now - (now - 2 ^ 63))%Z with (2 ^ 63)%Z by lia. reflexivity. }
  destruct (Z.ltb_spec tolerance (- 2 ^ 63)); [lia|]. cbn. unfold signature_matches.
  by rewrite decode_to_hex, bytes_eqb_refl.
Qed.
End Signature.

(** ** Delivery *)

Section Delivery.
Context `{LCR : !LifecycleCrates}.

Lemma post_all_spec secret e urls : ∀ s, let s' := (post_all secret e urls s).2 in
  ls_outbox s' = ls_outbox s ∧ ls_faults s' = ls_faults s ∧
  ∃ ts, length ts = length urls ∧
    ls_posted s' = ls_posted s ++ zip_with (event_post secret e) ts urls.
Proof.
  induction urls as [|url urls IH]; intros s; cbn [post_all].
  - split_and!; [done..|]. exists []. by rewrite app_nil_r.
  - destruct (post_event secret e url s) as [failure s1] eqn:E. specialize (IH s1).
    destruct (post_all secret e urls s1) as [failures s2]. cbn [fst snd] in *.
    assert (s1 = s <| ls_posted := ls_posted s ++ [event_post secret e (ls_now s) url] |> <| ls_http := ls_http s1 |>
      <| ls_now := ls_now s1 |>) as Hs1.
    { unfold post_event in E. destruct (ls_http s) as [|[elapsed answer] rest]; by injection E as _ <-. }
    rewrite Hs1 in IH. cbn in IH. destruct IH as (H1 & H2 & ts & H3 & H4). split_and!; [done..|].
    exists (ls_now s :: ts). split; [cbn; lia|]. rewrite H4. cbn. by rewrite <- app_assoc.
Qed.

(** What a statement does, unless it fails and leaves everything. *)
Lemma commit_spec {A} (f : datetime → Outbox → A * Outbox) s :
  let s' := (commit f s).2 in
  ls_posted s' = ls_posted s ∧ ls_now s' = ls_now s ∧ ls_http s' = ls_http s ∧
  match (commit f s).1 with
  | Some a => (a, ls_outbox s') = f (ls_now s) (ls_outbox s)
  | None => ls_outbox s' = ls_outbox s
  end.
Proof.
  unfold commit. destruct (ls_faults s) as [|[|] rest]; cbn; [|done|]; by destruct (f _ _) as [a o].
Qed.

(** What a worker does to the outbox once its requests are answered: nothing, when
    the statement fails; or the row is removed, which after a failure takes the last
    attempt; or it is put back after a failure. *)
Definition concluded (e : LifecycleRow) (failed : bool) (o o' : Outbox) : Prop :=
  o' = o ∨ (o' = lifecycle_complete (lr_id e) o ∧ (failed = true → WEBHOOK_MAX_ATTEMPTS <= lr_attempts e + 1)%Z) ∨
  (failed = true ∧ ∃ now error, o' = lifecycle_retry now (lr_id e) (lr_attempts e) error o).

Lemma conclude_spec e failures s : let '(r, s') := conclude e failures s in
  ls_posted s' = ls_posted s ∧ concluded e (bool_decide (failures ≠ [])) (ls_outbox s) (ls_outbox s') ∧
  match r with
  | Some WebhookDelivered => failures = [] ∧ ls_outbox s' = lifecycle_complete (lr_id e) (ls_outbox s)
  | Some GivenUp => failures ≠ [] ∧ (WEBHOOK_MAX_ATTEMPTS <= lr_attempts e + 1)%Z ∧
      ls_outbox s' = lifecycle_complete (lr_id e) (ls_outbox s)
  | Some Retrying => failures ≠ [] ∧ (lr_attempts e + 1 < WEBHOOK_MAX_ATTEMPTS)%Z ∧
      ls_outbox s' = lifecycle_retry (ls_now s) (lr_id e) (lr_attempts e) (join !"; " failures) (ls_outbox s)
  | None => ls_outbox s' = ls_outbox s
  end.
Proof.
  unfold conclude, concluded. destruct failures as [|f failures]; [|destruct (Z.leb_spec WEBHOOK_MAX_ATTEMPTS (lr_attempts e + 1))];
    match goal with |- context [commit ?g s] => pose proof (commit_spec g s) as (H1 & H2 & _ & H3); destruct (commit g s) as [[r|] s'] end;
    cbn in *; simplify_eq; (split; [done|]); (split; [|try done]); auto; right.
  - left. by split.
  - right. split; [done|]. by eexists _, _.
Qed.

Lemma filter_none {A} (P : A → bool) l : (∀ x, In x l → P x = false) → List.filter P l = [].
Proof.
  induction l as [|x l IH]; intros H; [done|]. cbn. rewrite H by by left. apply IH. intros y Hy. apply H. by right.
Qed.

(** Each URL is a failure or a success, and only successes complete the event. *)
Definition failed_answer (x : option (Z * HttpAnswer)) : bool :=
  match x with Some (_, HttpResponse code _ _) => negb (is_success code) | _ => true end.
Lemma post_all_failures secret e urls : ∀ s,
  length (post_all secret e urls s).1 = length (List.filter (λ n, failed_answer (ls_http s !! n)) (seq 0 (length urls))).
Proof.
  induction urls as [|url urls IH]; intros s; [done|]. cbn [post_all length seq List.filter].
  destruct (post_event secret e url s) as [failure s1] eqn:E. specialize (IH s1).
  destruct (post_all secret e urls s1) as [failures s2]. cbn [fst] in *.
  assert (∀ n, ls_http s !! S n = ls_http s1 !! n) as Hn.
  { unfold post_event in E. destruct (ls_http s) as [|[elapsed answer] rest]; injection E as _ <-; done. }
  assert (failed_answer (ls_http s !! 0) = bool_decide (is_Some failure)) as ->.
  { unfold post_event in E. destruct (ls_http s) as [|[elapsed [code st b|err]] rest]; injection E as <- _; cbn; [done| |done].
    by destruct (is_success code). }
  rewrite <- seq_shift.
  assert (length (List.filter (λ n, failed_answer (ls_http s !! n)) (map S (seq 0 (length urls)))) = length failures) as Hl.
  { rewrite IH. generalize (seq 0 (length urls)). intros l. induction l as [|n l IHl]; [done|]. cbn [map List.filter].
    rewrite Hn. destruct (failed_answer _); cbn; by rewrite IHl. }
  destruct failure as [f|]; cbn [bool_decide]; [rewrite bool_decide_eq_true_2 by by eexists|rewrite bool_decide_eq_false_2 by (by intros [])];
    cbn [length]; by rewrite Hl.
Qed.

(** Whether every URL answers an attempt made now with success. *)
Definition answered_by_all (urls : list bytes) (s : LState) : bool :=
  forallb (λ n, negb (failed_answer (ls_http s !! n))) (seq 0 (length urls)).

Lemma filter_negb_nil {A} (P : A → bool) l : List.filter P l = [] ↔ forallb (λ x, negb (P x)) l = true.
Proof. induction l as [|x l IH]; [done|]. cbn. by destruct (P x). Qed.

Lemma post_all_answered secret e urls s : bool_decide ((post_all secret e urls s).1 ≠ []) = negb (answered_by_all urls s).
Proof.
  pose proof (post_all_failures secret e urls s) as Hl. pose proof (filter_negb_nil (λ n, failed_answer (ls_http s !! n)) (seq 0 (length urls))) as Hn.
  change (forallb _ _) with (answered_by_all urls s) in Hn. destruct (answered_by_all urls s); cbn.
  - rewrite (proj2 Hn eq_refl) in Hl. apply nil_length_inv in Hl. rewrite Hl. apply bool_decide_eq_false_2. by intros [].
  - apply bool_decide_eq_true_2. intros E. rewrite E in Hl. symmetry in Hl. by apply nil_length_inv, Hn in Hl.
Qed.

(** One attempt at a lifecycle event, against any script of answers and faults.  A
    request goes to every configured URL, in their order; the event is removed when
    all were answered with success, and after the tenth failed attempt; otherwise it
    is put back with one attempt more.  A failing statement changes nothing. *)
Theorem lifecycle_attempt_spec w stale worker busy s :
  match process_next_lifecycle_event w stale worker busy s with
  | (Some (Some o), s') =>
      ∃ e ob ts, lifecycle_dequeue stale (ls_now s) worker busy (ls_outbox s) = (Some e, ob) ∧ length ts = length (lw_urls w) ∧
        ls_posted s' = ls_posted s ++ zip_with (event_post (from_option id [] (lw_secret w)) e) ts (lw_urls w) ∧
        (o = WebhookDelivered ↔ ∀ n, n < length (lw_urls w) → failed_answer (ls_http s !! n) = false) ∧
        (o = GivenUp → (WEBHOOK_MAX_ATTEMPTS <= lr_attempts e + 1)%Z) ∧
        (o = Retrying → (lr_attempts e + 1 < WEBHOOK_MAX_ATTEMPTS)%Z) ∧
        match o with
        | Retrying => ∃ now error, ls_outbox s' = lifecycle_retry now (lr_id e) (lr_attempts e) error ob
        | _ => ls_outbox s' = lifecycle_complete (lr_id e) ob
        end
  | (Some None, s') => ls_posted s' = ls_posted s ∧ ls_outbox s' = ls_outbox s ∧
      (lifecycle_enabled w = false ∨ (lifecycle_dequeue stale (ls_now s) worker busy (ls_outbox s)).1 = None)
  | (None, s') => ls_outbox s' = ls_outbox s ∨ ls_outbox s' = (lifecycle_dequeue stale (ls_now s) worker busy (ls_outbox s)).2
  end.
Proof.
  unfold process_next_lifecycle_event. destruct (lifecycle_enabled w); cbn [negb]; [|by auto].
  match goal with |- context [commit ?g s] => pose proof (commit_spec g s) as (H1 & H2 & H3 & H4); destruct (commit g s) as [[[e|]|] s1] end;
    cbn [fst snd] in *; [| |by auto].
  - set (secret := from_option id [] (lw_secret w)). pose proof (post_all_spec secret e (lw_urls w) s1) as (P1 & P2 & ts & P3 & P4).
    pose proof (post_all_failures secret e (lw_urls w) s1) as Pf.
    destruct (post_all secret e (lw_urls w) s1) as [failures s2]. cbn [fst snd] in *.
    assert (failures = [] ↔ ∀ n, n < length (lw_urls w) → failed_answer (ls_http s !! n) = false) as Hf.
    { rewrite <- length_zero_iff_nil, Pf, length_zero_iff_nil, <- H3. split.
      - intros Hnil n Hn. apply not_true_is_false. intros Ht. eapply (@in_nil nat n). rewrite <- Hnil. apply filter_In.
        split; [apply in_seq; lia|done].
      - intros Hall. apply filter_none. intros n Hn%in_seq. apply Hall. lia. }
    pose proof (conclude_spec e failures s2) as Hc. destruct (conclude e failures s2) as [r s3]. destruct Hc as (C1 & _ & C2).
    rewrite <- H4. destruct r as [[| |]|]; cbn.
    + destruct C2 as [-> C2]. exists e, (ls_outbox s1), ts. rewrite C1, P4, H1, C2, P1. by split_and!; try naive_solver.
    + destruct C2 as (C2 & C3 & C4). exists e, (ls_outbox s1), ts. rewrite C1, P4, H1, C4, P1. split_and!; try naive_solver.
    + destruct C2 as (C2 & C3 & C4). exists e, (ls_outbox s1), ts. rewrite C1, P4, H1, C4, P1. split_and!; try naive_solver.
    + right. congruence.
  - rewrite <- H4. split_and!; [done| |by right]. unfold lifecycle_dequeue in H4. destruct (head _); congruence.
Qed.
End Delivery.

(** ** The system *)

(** The outbox between web servers and workers: the rows workers hold since they
    locked them, everything ever enqueued, and the attempts made to the end: the id of
    the event, and whether every URL answered with success.  Workers interleave, take
    over stale locks from each other and stop at any request or statement;
    housekeeping empties the outbox of an installation without URLs. *)
Record System := mkSystem {
  sy_state : LState;
  sy_held : list LifecycleRow;
  sy_events : list LifecycleEvent;
  sy_attempts : list (Z * bool);
}.

Section System.
Context `{LCR : !LifecycleCrates, PAY : !Payloads} (w : LifecycleWebhooks).

Definition the_secret : bytes := from_option id [] (lw_secret w).

Inductive lifecycle_step (s : System) : System → Prop :=
| lc_enqueue e : lifecycle_step s (mkSystem ((sy_state s) <| ls_outbox := enqueue_lifecycle_event e (ls_outbox (sy_state s)) |>)
    (sy_held s) (sy_events s ++ [e]) (sy_attempts s))
| lc_take stale worker busy e st : commit (λ now, lifecycle_dequeue stale now worker busy) (sy_state s) = (Some (Some e), st) →
    lifecycle_step s (mkSystem st (e :: sy_held s) (sy_events s) (sy_attempts s))
| lc_finish e l1 l2 : sy_held s = l1 ++ e :: l2 →
    let x := post_all the_secret e (lw_urls w) (sy_state s) in
    lifecycle_step s (mkSystem (conclude e x.1 x.2).2 (l1 ++ l2) (sy_events s)
      (sy_attempts s ++ [(lr_id e, answered_by_all (lw_urls w) (sy_state s))]))
| lc_crash e l1 l2 n : sy_held s = l1 ++ e :: l2 →
    lifecycle_step s (mkSystem (post_all the_secret e (take n (lw_urls w)) (sy_state s)).2 (l1 ++ l2) (sy_events s) (sy_attempts s))
| lc_discard : lifecycle_enabled w = false →
    lifecycle_step s (mkSystem ((sy_state s) <| ls_outbox := (discard_all (ls_outbox (sy_state s))).2 |>) (sy_held s) (sy_events s)
      (sy_attempts s))
| lc_world now http faults : lifecycle_step s
    (mkSystem ((sy_state s) <| ls_now := now |> <| ls_http := http |> <| ls_faults := faults |>) (sy_held s) (sy_events s) (sy_attempts s)).

(** The event with an id; its request to a URL at a time. *)
Definition enqueued (events : list LifecycleEvent) (id : Z) (e : LifecycleEvent) : Prop :=
  (1 <= id)%Z ∧ events !! Z.to_nat (id - 1) = Some e.
Definition request_of (id : Z) (e : LifecycleEvent) (now : datetime) (url : bytes) : Posted :=
  event_post the_secret (new_row id e) now url.

Definition genuine (events : list LifecycleEvent) (r : LifecycleRow) : Prop :=
  ∃ e, enqueued events (lr_id r) e ∧ ∀ now url, event_post the_secret r now url = request_of (lr_id r) e now url.

Definition reached_all (id : Z) (e : LifecycleEvent) (posted : list Posted) : Prop :=
  ∀ url, url ∈ lw_urls w → ∃ now, request_of id e now url ∈ posted.

(** How many attempts at the event failed. *)
Definition failed_attempts (id : Z) (attempts : list (Z * bool)) : Z :=
  Z.of_nat (length (List.filter (λ a, (a.1 =? id)%Z && negb a.2) attempts)).

(** Why an event may be gone: an attempt that every URL answered with success, ten
    attempts that failed, or nowhere to deliver it to. *)
Definition settled (id : Z) (attempts : list (Z * bool)) : Prop :=
  (id, true) ∈ attempts ∨ (WEBHOOK_MAX_ATTEMPTS <= failed_attempts id attempts)%Z ∨ lw_urls w = [].
Definition gone (s : System) (id : Z) (e : LifecycleEvent) : Prop :=
  settled id (sy_attempts s) ∧ reached_all id e (ls_posted (sy_state s)).

(** A row is of an event, and counts no more attempts than failed. *)
Definition sound (events : list LifecycleEvent) (attempts : list (Z * bool)) (r : LifecycleRow) : Prop :=
  genuine events r ∧ (lr_attempts r <= failed_attempts (lr_id r) attempts)%Z.

Record outbox_inv (s : System) : Prop := {
  oi_next : ob_next (ls_outbox (sy_state s)) = (1 + Z.of_nat (length (sy_events s)))%Z;
  oi_rows : ∀ r, r ∈ ob_rows (ls_outbox (sy_state s)) ∨ r ∈ sy_held s → sound (sy_events s) (sy_attempts s) r;
  oi_sent : ∀ p, p ∈ ls_posted (sy_state s) → ∃ id e now url, enqueued (sy_events s) id e ∧ url ∈ lw_urls w ∧
    p = request_of id e now url;
  oi_kept : ∀ id e, enqueued (sy_events s) id e →
    (∃ r, r ∈ ob_rows (ls_outbox (sy_state s)) ∧ lr_id r = id) ∨ gone s id e;
}.

Lemma failed_app id l l' : failed_attempts id (l ++ l') = (failed_attempts id l + failed_attempts id l')%Z.
Proof. unfold failed_attempts. rewrite List.filter_app, length_app. lia. Qed.
Lemma failed_nonneg id l : (0 <= failed_attempts id l)%Z.
Proof. unfold failed_attempts. lia. Qed.
Lemma settled_app id l l' : settled id l → settled id (l ++ l').
Proof.
  intros [H|[H|H]]; [left; apply elem_of_app; by left|right; left|by right; right]. rewrite failed_app. pose proof (failed_nonneg id l'). lia.
Qed.

Lemma enqueued_app events e' id e : enqueued events id e → enqueued (events ++ [e']) id e.
Proof. intros [H1 H2]. split; [done|]. by apply lookup_app_l_Some. Qed.

Lemma outbox_enqueue e s : outbox_inv s →
  outbox_inv (mkSystem ((sy_state s) <| ls_outbox := enqueue_lifecycle_event e (ls_outbox (sy_state s)) |>) (sy_held s) (sy_events s ++ [e])
    (sy_attempts s)).
Proof.
  intros [Hn Hr Hs Hk]. assert (enqueued (sy_events s ++ [e]) (ob_next (ls_outbox (sy_state s))) e) as He.
  { split; [lia|]. rewrite Hn. apply list_lookup_middle. lia. }
  split; cbn.
  - rewrite Hn, length_app. cbn. lia.
  - intros r [[H|H]%elem_of_app|H].
    + destruct (Hr r (or_introl H)) as [(e' & H1 & H2) H3]. split; [|done]. exists e'. split; [by apply enqueued_app|done].
    + apply list_elem_of_singleton in H as ->. split; [by exists e|]. apply failed_nonneg.
    + destruct (Hr r (or_intror H)) as [(e' & H1 & H2) H3]. split; [|done]. exists e'. split; [by apply enqueued_app|done].
  - intros p H. destruct (Hs p H) as (id & e' & now & url & H1 & H2). exists id, e', now, url. split; [by apply enqueued_app|done].
  - intros id e' [H1 H2]. apply lookup_app_Some in H2 as [H2|[H2 H3]].
    + destruct (Hk id e' (conj H1 H2)) as [(r & H & <-)|H]; [|by right]. left. exists r. split; [|done]. apply elem_of_app. by left.
    + apply list_lookup_singleton_Some in H3 as [H3 <-]. left. exists (new_row (ob_next (ls_outbox (sy_state s))) e).
      split; [apply elem_of_app; right; by left|]. cbn. lia.
Qed.

(** Rows are only rewritten in place, or removed once the event is settled; requests
    sent are requests of held rows; the attempts made only grow. *)
Lemma inv_change (s s' : System) (more : list (Z * bool)) : outbox_inv s → sy_events s' = sy_events s →
  sy_attempts s' = sy_attempts s ++ more →
  ob_next (ls_outbox (sy_state s')) = ob_next (ls_outbox (sy_state s)) →
  (∀ r, r ∈ ob_rows (ls_outbox (sy_state s')) ∨ r ∈ sy_held s' → sound (sy_events s) (sy_attempts s') r) →
  (∀ p, p ∈ ls_posted (sy_state s') → p ∈ ls_posted (sy_state s) ∨
     ∃ r now url, r ∈ sy_held s ∧ url ∈ lw_urls w ∧ p = event_post the_secret r now url) →
  (∀ p, p ∈ ls_posted (sy_state s) → p ∈ ls_posted (sy_state s')) →
  (∀ r e, r ∈ ob_rows (ls_outbox (sy_state s)) → enqueued (sy_events s) (lr_id r) e →
     (∃ r', r' ∈ ob_rows (ls_outbox (sy_state s')) ∧ lr_id r' = lr_id r) ∨ gone s' (lr_id r) e) →
  outbox_inv s'.
Proof.
  intros [Hn Hr Hs Hk] He Ha Hn' Hr' Hp Hm Hk'. split; rewrite ?He, ?Hn'; [done|done| |].
  - intros p [H|(r & now & url & H & Hu & ->)]%Hp; [by apply Hs|].
    destruct (Hr r (or_intror H)) as [(e & H1 & H2) _]. by exists (lr_id r), e, now, url.
  - intros id e H. destruct (Hk id e H) as [(r & H1 & <-)|[H1 H2]]; [by apply Hk'|]. right. split.
    { rewrite Ha. by apply settled_app. }
    intros url Hu. destruct (H2 url Hu) as [now Hx]. exists now. by apply Hm.
Qed.

Lemma sound_more events attempts more r : sound events attempts r → sound events (attempts ++ more) r.
Proof. intros [H1 H2]. split; [done|]. rewrite failed_app. pose proof (failed_nonneg (lr_id r) more). lia. Qed.

Lemma genuine_same events r r' : genuine events r → lr_id r' = lr_id r → lr_uuid r' = lr_uuid r → lr_event r' = lr_event r →
  lr_payload r' = lr_payload r → genuine events r'.
Proof.
  intros (e & H1 & H2) Hi Hu He Hp. exists e. rewrite Hi. split; [done|]. intros now url. rewrite <- H2.
  unfold event_post, event_headers. by rewrite Hu, He, Hp.
Qed.

Lemma inv_take stale worker busy e st s : commit (λ now, lifecycle_dequeue stale now worker busy) (sy_state s) = (Some (Some e), st) →
  outbox_inv s → outbox_inv (mkSystem st (e :: sy_held s) (sy_events s) (sy_attempts s)).
Proof.
  intros E Hi. match type of E with commit ?f ?x = _ => pose proof (commit_spec f x) as (H1 & _ & _ & H2) end.
  rewrite E in *. cbn in *. unfold lifecycle_dequeue in H2.
  destruct (head _) as [r|] eqn:Eh; [|done]. injection H2 as -> Ho.
  assert (r ∈ ob_rows (ls_outbox (sy_state s))) as Hr.
  { apply head_Some in Eh as [l Eh]. assert (In r (r :: l)) as Hin by by left. rewrite <- Eh in Hin.
    apply (Permutation_in _ (stable_sort_perm _ _)) in Hin.
    apply filter_In in Hin as [Hin _]. by apply list_elem_of_In. }
  set (lock := lock_event worker (ls_now (sy_state s))) in *.
  assert (∀ x, sound (sy_events s) (sy_attempts s) x → sound (sy_events s) (sy_attempts s) (lock x)) as Hg.
  { intros x [Hx Ha]. split; [by eapply genuine_same|exact Ha]. }
  apply (inv_change s _ []); cbn; rewrite ?H1; [done|done|by rewrite app_nil_r| | |by left|done|].
  - by rewrite Ho.
  - intros x [Hx|[->|Hx]%elem_of_cons].
    + rewrite Ho in Hx. cbn in Hx. apply elem_of_map_list in Hx as (y & Hy & ->).
      destruct (_ =? _)%Z; [apply Hg|]; apply (oi_rows s Hi); by left.
    + apply Hg, (oi_rows s Hi). by left.
    + apply (oi_rows s Hi). by right.
  - intros x ev Hx _. left. exists (if (lr_id x =? lr_id r)%Z then lock x else x). split; [|by destruct (_ =? _)%Z].
    rewrite Ho. cbn. apply elem_of_map_list. by exists x.
Qed.
Lemma held_split (l1 l2 : list LifecycleRow) e r : r ∈ l1 ++ l2 → r ∈ l1 ++ e :: l2.
Proof. rewrite !elem_of_app, elem_of_cons. tauto. Qed.

Lemma posted_requests e (l1 l2 : list LifecycleRow) ts urls p : (∀ url, url ∈ urls → url ∈ lw_urls w) →
  p ∈ zip_with (event_post the_secret e) ts urls →
  ∃ r now url, r ∈ l1 ++ e :: l2 ∧ url ∈ lw_urls w ∧ p = event_post the_secret r now url.
Proof.
  intros Hu Hp. apply elem_of_lookup_zip_with in Hp as (i & now & url & -> & _ & H).
  exists e, now, url. split_and!; [apply elem_of_app; right; by left|by eapply Hu, list_elem_of_lookup_2|done].
Qed.

Lemma concluded_rows e failed o o' : concluded e failed o o' → ob_next o' = ob_next o ∧
  (∀ r', r' ∈ ob_rows o' → ∃ r, r ∈ ob_rows o ∧ lr_id r' = lr_id r ∧ lr_uuid r' = lr_uuid r ∧ lr_event r' = lr_event r ∧
     lr_payload r' = lr_payload r ∧
     (lr_attempts r' = lr_attempts r ∨ (failed = true ∧ lr_id r = lr_id e ∧ lr_attempts r' = lr_attempts r + 1))%Z) ∧
  (∀ r, r ∈ ob_rows o → (lr_id r = lr_id e ∧ (failed = true → WEBHOOK_MAX_ATTEMPTS <= lr_attempts e + 1)%Z) ∨
     ∃ r', r' ∈ ob_rows o' ∧ lr_id r' = lr_id r).
Proof.
  intros [->|[[-> Hf]|(Hf & now & error & ->)]]; (split; [done|]); split; cbn.
  - intros r Hr. exists r. split_and!; auto.
  - intros r Hr. right. by exists r.
  - intros r Hr. apply list_elem_of_In, filter_In in Hr as [Hr _]. exists r. split_and!; [by apply list_elem_of_In|by auto..].
  - intros r Hr. destruct (Z.eqb_spec (lr_id r) (lr_id e)) as [|H]; [by left|]. right. exists r. split; [|done].
    apply list_elem_of_In, filter_In. split; [by apply list_elem_of_In|]. by apply negb_true_iff, Z.eqb_neq.
  - intros r' (r & Hr & ->)%elem_of_map_list. exists r. destruct (Z.eqb_spec (lr_id r) (lr_id e)); split_and!; auto.
  - intros r Hr. right. eexists. split; [apply elem_of_map_list; by exists r|]. by destruct (_ =? _)%Z.
Qed.

(** The rows a finished attempt leaves. *)
Lemma finish_sound e ok s o' : outbox_inv s → concluded e (negb ok) (ls_outbox (sy_state s)) o' →
  ∀ r', r' ∈ ob_rows o' → sound (sy_events s) (sy_attempts s ++ [(lr_id e, ok)]) r'.
Proof.
  intros Hi C r' Hr'. destruct (concluded_rows e _ _ _ C) as (_ & R & _).
  destruct (R r' Hr') as (r0 & H0 & Hs1 & Hs2 & Hs3 & Hs4 & Ha). destruct (oi_rows s Hi r0 (or_introl H0)) as [G1 G2].
  split; [by apply (genuine_same (sy_events s) r0)|]. rewrite Hs1, failed_app.
  destruct Ha as [->|(Hf & Hid & ->)]; [pose proof (failed_nonneg (lr_id r0) [(lr_id e, ok)]); lia|].
  assert (failed_attempts (lr_id r0) [(lr_id e, ok)] = 1%Z) as ->; [|lia].
  unfold failed_attempts. cbn. by rewrite Hid, Z.eqb_refl, Hf.
Qed.

(** An event whose row is removed is settled. *)
Lemma finish_settled e ok attempts : (lr_attempts e <= failed_attempts (lr_id e) attempts)%Z →
  (negb ok = true → WEBHOOK_MAX_ATTEMPTS <= lr_attempts e + 1)%Z → settled (lr_id e) (attempts ++ [(lr_id e, ok)]).
Proof.
  intros Ha Hf. destruct ok; [left; apply elem_of_app; right; by left|]. right. left. specialize (Hf eq_refl).
  rewrite failed_app. assert (failed_attempts (lr_id e) [(lr_id e, false)] = 1%Z) as ->; [|lia].
  unfold failed_attempts. cbn. by rewrite Z.eqb_refl.
Qed.

Lemma inv_finish e l1 l2 s : sy_held s = l1 ++ e :: l2 → outbox_inv s →
  let x := post_all the_secret e (lw_urls w) (sy_state s) in
  outbox_inv (mkSystem (conclude e x.1 x.2).2 (l1 ++ l2) (sy_events s)
    (sy_attempts s ++ [(lr_id e, answered_by_all (lw_urls w) (sy_state s))])).
Proof.
  intros Hh Hi x. pose proof (post_all_spec the_secret e (lw_urls w) (sy_state s)) as (P1 & _ & ts & P2 & P3). fold x in P1, P3.
  pose proof (post_all_answered the_secret e (lw_urls w) (sy_state s)) as Po. fold x in Po.
  set (ok := answered_by_all (lw_urls w) (sy_state s)) in *.
  pose proof (conclude_spec e x.1 x.2) as Hc. destruct (conclude e x.1 x.2) as [r st]. destruct Hc as (C1 & C2 & _). cbn [snd].
  rewrite P1, Po in C2. destruct (concluded_rows e _ _ _ C2) as (N & _ & R2).
  assert (e ∈ sy_held s) as Hheld by (rewrite Hh; apply elem_of_app; right; by left).
  destruct (oi_rows s Hi e (or_intror Hheld)) as [(e1 & E1 & E2) E3].
  apply (inv_change s _ [(lr_id e, ok)]); cbn; [done|done|done|done| | | |].
  - intros r' [Hr'|Hr']; [by eapply finish_sound|]. apply sound_more, (oi_rows s Hi). right. rewrite Hh. by apply held_split.
  - intros p Hp. rewrite C1, P3 in Hp. apply elem_of_app in Hp as [Hp|Hp]; [by left|right]. rewrite Hh. by eapply posted_requests.
  - intros p Hp. rewrite C1, P3. apply elem_of_app. by left.
  - intros r0 ev Hr0 Hev. destruct (R2 r0 Hr0) as [[Hid Hf]|H]; [|by left]. right. rewrite Hid in *. split; [by apply finish_settled|].
    intros url Hu. assert (e1 = ev) as -> by (destruct E1 as [_ E1], Hev as [_ Hev]; congruence).
    apply list_elem_of_lookup in Hu as [i Hu]. destruct (lookup_lt_is_Some_2 ts i) as [now Hnow].
    { rewrite P2. by eapply lookup_lt_Some. }
    exists now. cbn. rewrite <- E2, C1, P3. apply elem_of_app. right. apply elem_of_lookup_zip_with.
    by exists i, now, url.
Qed.

Lemma inv_crash e l1 l2 n s : sy_held s = l1 ++ e :: l2 → outbox_inv s →
  outbox_inv (mkSystem (post_all the_secret e (take n (lw_urls w)) (sy_state s)).2 (l1 ++ l2) (sy_events s) (sy_attempts s)).
Proof.
  intros Hh Hi. pose proof (post_all_spec the_secret e (take n (lw_urls w)) (sy_state s)) as (P1 & _ & ts & P2 & P3).
  apply (inv_change s _ []); cbn; rewrite ?P1; [done|done|by rewrite app_nil_r|done| | | |].
  - intros r [Hr|Hr]; apply (oi_rows s Hi); [by left|]. right. rewrite Hh. by apply held_split.
  - intros p Hp. rewrite P3 in Hp. apply elem_of_app in Hp as [Hp|Hp]; [by left|right]. rewrite Hh.
    eapply posted_requests; [|done]. intros url Hu. rewrite <- (take_drop n (lw_urls w)). apply elem_of_app. by left.
  - intros p Hp. rewrite P3. apply elem_of_app. by left.
  - intros r0 ev Hr0 _. left. by exists r0.
Qed.

Lemma inv_discard s : lifecycle_enabled w = false → outbox_inv s →
  outbox_inv (mkSystem ((sy_state s) <| ls_outbox := (discard_all (ls_outbox (sy_state s))).2 |>) (sy_held s) (sy_events s) (sy_attempts s)).
Proof.
  intros Hw Hi. assert (lw_urls w = []) as Hu by (unfold lifecycle_enabled in Hw; by destruct (lw_urls w)).
  apply (inv_change s _ []); cbn; [done|done|by rewrite app_nil_r|done| |by left|done|].
  - intros r [Hr|Hr]; [by apply not_elem_of_nil in Hr|]. apply (oi_rows s Hi). by right.
  - intros r e _ _. right. split; [by right; right|]. intros url Hurl. rewrite Hu in Hurl. by apply not_elem_of_nil in Hurl.
Qed.

Lemma system_outbox_inv s s' : rtc lifecycle_step s s' → outbox_inv s → outbox_inv s'.
Proof.
  induction 1 as [s|s1 s2 s3 H _ IH]; [done|]. intros Hi. apply IH. destruct H.
  - by apply outbox_enqueue.
  - by eapply inv_take.
  - by apply inv_finish.
  - by apply inv_crash.
  - by apply inv_discard.
  - destruct Hi as [H1 H2 H3 H4]. by split.
Qed.

(** An attempt that nothing interrupts is a step or two of the system. *)
Lemma process_steps stale worker busy st held events attempts : ∃ more,
  rtc lifecycle_step (mkSystem st held events attempts)
    (mkSystem (process_next_lifecycle_event w stale worker busy st).2 held events (attempts ++ more)).
Proof.
  unfold process_next_lifecycle_event. destruct (lifecycle_enabled w); cbn [negb]; [|exists []; rewrite app_nil_r; constructor].
  destruct (commit _ st) as [[[e|]|] st1] eqn:E.
  - eexists. eapply rtc_l; [by eapply lc_take|]. apply rtc_once. cbn [sy_state sy_held sy_events sy_attempts].
    assert (∃ x, x = post_all the_secret e (lw_urls w) st1) as [x Hx] by by eexists.
    pose proof (lc_finish (mkSystem st1 (e :: held) events attempts) e [] held eq_refl) as H. cbn in H. rewrite <- Hx in H.
    fold the_secret. rewrite <- Hx. destruct x as [failures st2]. cbn in H. destruct (conclude e failures st2). exact H.
  - exists []. rewrite app_nil_r. apply rtc_once.
    pose proof (lc_world (mkSystem st held events attempts) (ls_now st) (ls_http st) (ls_faults st1)) as H. cbn in *.
    replace st1 with (st <| ls_faults := ls_faults st1 |>); [done|]. unfold commit in E.
    destruct (ls_faults st) as [|[|] rest]; [|done|]; unfold lifecycle_dequeue in E; destruct (head _); cbn in E; simplify_eq; by destruct st as [? []].
  - exists []. rewrite app_nil_r. apply rtc_once.
    pose proof (lc_world (mkSystem st held events attempts) (ls_now st) (ls_http st) (ls_faults st1)) as H. cbn in *.
    replace st1 with (st <| ls_faults := ls_faults st1 |>); [done|]. unfold commit in E.
    destruct (ls_faults st) as [|[|] rest]; [|injection E as <-; by destruct st|]; destruct (lifecycle_dequeue _ _ _ _ _); done.
Qed.

(** What the receiver does with a request, at time [now]. *)
Definition receiver_accepts (tolerance now : Z) (p : Posted) : bool :=
  match List.find (λ h, h.1 =b SIGNATURE_HEADER) (post_headers p) with
  | Some (_, header) => verify_signature the_secret header (post_body p) now tolerance
  | None => false
  end.

Lemma request_accepted id e now url tolerance : is_i64 (unix_timestamp now) → (0 <= tolerance)%Z →
  receiver_accepts tolerance (unix_timestamp now) (request_of id e now url) = true.
Proof.
  intros Hn Ht. unfold receiver_accepts, request_of, event_post. cbn [post_headers post_body].
  change (List.find _ _) with (Some (SIGNATURE_HEADER, signature_header the_secret (unix_timestamp now) (lr_payload (new_row id e)))).
  cbv iota. unfold verify_signature. rewrite header_parts by done. unfold abs_i64, sub_i64. rewrite Z.sub_diag.
  change (wrap_i64 (Z.abs (wrap_i64 0))) with 0%Z. destruct (Z.ltb_spec tolerance 0) as [H|H]; [lia|]. cbn. unfold signature_matches.
  by rewrite decode_to_hex, bytes_eqb_refl.
Qed.

(** C11: No lifecycle event is lost.  Whatever web servers enqueue and however workers
    interleave, take over stale locks, fail or stop, an event stays in the outbox
    until a worker has made an attempt at it that every configured URL answered with
    success, or ten attempts at it have failed, or there is no URL; and then a request
    for it has gone to every URL.  Every request is one for an event that was
    enqueued, the same bytes each time, with a signature the receiver accepts. *)
Theorem lifecycle_at_least_once st s : ob_rows (ls_outbox st) = [] → ob_next (ls_outbox st) = 1%Z → ls_posted st = [] →
  rtc lifecycle_step (mkSystem st [] [] []) s →
  (∀ id e, enqueued (sy_events s) id e →
     (∃ r, r ∈ ob_rows (ls_outbox (sy_state s)) ∧ lr_id r = id) ∨
     (settled id (sy_attempts s) ∧ reached_all id e (ls_posted (sy_state s)))) ∧
  (∀ p, p ∈ ls_posted (sy_state s) → ∃ id e now url, enqueued (sy_events s) id e ∧ url ∈ lw_urls w ∧ p = request_of id e now url ∧
     ∀ tolerance, is_i64 (unix_timestamp now) → (0 <= tolerance)%Z → receiver_accepts tolerance (unix_timestamp now) p = true).
Proof.
  intros Hr Hn Hp H. apply system_outbox_inv in H as [_ _ Hs Hk].
  - split; [exact Hk|]. intros p Hin. destruct (Hs p Hin) as (id & e & now & url & H1 & H2 & ->). exists id, e, now, url.
    split_and!; [done..|]. intros tolerance. apply request_accepted.
  - split; cbn; [done| | |].
    + intros r [H1|H1]; [rewrite Hr in H1|]; by apply not_elem_of_nil in H1.
    + intros p H1. rewrite Hp in H1. by apply not_elem_of_nil in H1.
    + intros id e [_ H1]. by rewrite lookup_nil in H1.
Qed.
End System.

(** ** A receiver that fails once *)

#[local] Existing Instance concrete_payloads.

Definition concrete_lifecycle : LifecycleCrates :=
  {| hmac_sha256 secret text := secret ++ text; rfc3339_secs := show_Z; event_uuid := show_Z |}.
#[local] Existing Instance concrete_lifecycle.

Definition fx_hook : LifecycleWebhooks := mkLifecycleWebhooks [!"https://a.example/"; !"https://b.example/"] (Some !"s3cret").
Definition fx_event : LifecycleEvent := mkLifecycleEvent USER_REGISTERED 0 VNull.
Definition fx_outbox (http : list (Z * HttpAnswer)) : LState := mkLState 0 (mkOutbox [] 1) http [] [].
Definition ok : Z * HttpAnswer := (1%Z, HttpResponse 204 !"204 No Content" []).
Definition fx_outbox_run : LState :=
  let s := fx_outbox [ok; (1%Z, HttpResponse 503 !"503 Service Unavailable" [])] in
  (process_next_lifecycle_event fx_hook 1 !"worker" [] (s <| ls_outbox := enqueue_lifecycle_event fx_event (ls_outbox s) |>)).2.

Theorem signature_round_trip_witness :
  is_i64 1700000000 ∧
  verify_signature !"s3cret" (signature_header !"s3cret" 1700000000 !"{}") !"{}" 1700000100 300 = true ∧
  verify_signature !"s3cret" (signature_header !"other!" 1700000000 !"{}") !"{}" 1700000100 300 = false.
Proof.
  assert (is_i64 1700000000) as H by (unfold is_i64, i64_min, i64_max; lia). split; [done|].
  split; [rewrite (proj1 (signature_round_trip !"s3cret" !"s3cret" 1700000000 !"{}" !"{}" 1700000100 300 H))
         |rewrite (proj1 (signature_round_trip !"other!" !"s3cret" 1700000000 !"{}" !"{}" 1700000100 300 H))];
    vm_compute; reflexivity.
Defined.

(** The event whose second URL answered 503 has reached both and is kept: it is not
    settled yet. *)
Theorem lifecycle_at_least_once_witness :
  map lr_attempts (ob_rows (ls_outbox fx_outbox_run)) = [1%Z] ∧ length (ls_posted fx_outbox_run) = 2 ∧
  (∃ attempts, ¬ settled fx_hook 1 attempts ∧
     rtc (lifecycle_step fx_hook) (mkSystem (fx_outbox [ok; (1%Z, HttpResponse 503 !"503 Service Unavailable" [])]) [] [] [])
       (mkSystem fx_outbox_run [] [fx_event] attempts)) ∧
  ∀ p, p ∈ ls_posted fx_outbox_run → ∃ id e now url, enqueued [fx_event] id e ∧ url ∈ lw_urls fx_hook ∧
    p = request_of fx_hook id e now url ∧
    ∀ tolerance, is_i64 (unix_timestamp now) → (0 <= tolerance)%Z → receiver_accepts fx_hook tolerance (unix_timestamp now) p = true.
Proof.
  split; [vm_compute; reflexivity|]. split; [vm_compute; reflexivity|].
  set (s0 := fx_outbox [ok; (1%Z, HttpResponse 503 !"503 Service Unavailable" [])]).
  set (st := s0 <| ls_outbox := enqueue_lifecycle_event fx_event (ls_outbox s0) |>).
  assert (rtc (lifecycle_step fx_hook) (mkSystem s0 [] [] []) (mkSystem fx_outbox_run [] [fx_event] [(1%Z, false)])) as H.
  { set (e := lock_event !"worker" 0 (new_row 1 fx_event)).
    set (st1 := (commit (λ now, lifecycle_dequeue 1 now !"worker" []) st).2).
    apply (rtc_l _ _ (mkSystem st [] [fx_event] [])); [apply (lc_enqueue fx_hook (mkSystem s0 [] [] []) fx_event)|].
    apply (rtc_l _ _ (mkSystem st1 [e] [fx_event] [])).
    { apply (lc_take fx_hook (mkSystem st [] [fx_event] []) 1 !"worker" [] e st1). vm_compute. reflexivity. }
    apply rtc_once. pose proof (lc_finish fx_hook (mkSystem st1 [e] [fx_event] []) e [] [] eq_refl) as H.
    cbv zeta in H. match type of H with lifecycle_step _ _ ?x => replace (mkSystem fx_outbox_run _ _ _) with x by (vm_compute; reflexivity) end. exact H. }
  split; [exists [(1%Z, false)]; split; [|exact H]|].
  - intros [Hin|[Hc|Hn]]; [by apply list_elem_of_singleton in Hin|vm_compute in Hc; by apply Hc|discriminate].
  - exact (proj2 (lifecycle_at_least_once fx_hook s0 _ eq_refl eq_refl eq_refl H)).
Defined.
