(* ===== verification/Housekeeping.v ===== *)
(** * Housekeeping: what a worker cleans up every hour

    [housekeep] of [camelmailer-worker/src/worker.rs], with the statements of
    [camelmailer-db/src/pg_store.rs] and [retention.rs] that only it uses, and the
    send usage whose counters it prunes.  The script of faults of [Retention] says
    which statements fail. *)

From S2P Require Import Prelude RustStr Net Model SendLimit MemoryStore Queue MailDb Retention Lifecycle.

(** ** Retention targets *)

(** The columns of [RETENTION_COLUMNS], [INTEGER]s that may be null. *)
Record RetentionColumns := mkRetentionColumns {
  col_message_content_days : option Z;
  col_message_metadata_days : option Z;
  col_webhook_log_days : option Z;
  col_dmarc_report_days : option Z;
}.

Definition retention_overrides_from_row (row : RetentionColumns) : RetentionOverrides :=
  let days c := (λ d, Z.to_N (Z.max d 0)) <$> c in
  mkRetentionOverrides (days (col_message_content_days row)) (days (col_message_metadata_days row))
    (days (col_webhook_log_days row)) (days (col_dmarc_report_days row)).

Definition by_server (a b : Id * Id) : bool := (a.1 <=? b.1)%N.
(** The servers of the installation, in the order of their ids. *)
Definition all_servers (d : MailDb) : list (Id * Id) := stable_sort by_server (map_to_list (db_server_organizations d)).

(** [columns] are the retention columns of each organization. *)
Definition retention_targets (columns : Id → RetentionColumns) (d : MailDb) : list RetentionTarget :=
  omap (λ so, match db_organizations d !! so.2 with
              | Some _ => Some (mkRetentionTarget so.1 so.2 (retention_overrides_from_row (columns so.2)))
              | None => None
              end) (all_servers d).

(** ** Send usage *)

Definition pg_send_usage (server_id : Id) (d : MailDb) : Z :=
  map_fold (λ key sent total, ((if in_window server_id (date_naive (db_now d)) key then sent else 0) + total)%Z) 0%Z
    (db_send_counters d).

(** [day < today - 40] *)
Definition stale_counter (now : datetime) (x : Id * Z * Z) : Prop := (x.1.2 < date_naive now - 40)%Z.
#[export] Instance stale_counter_decision now x : Decision (stale_counter now x) :=
  ltac:(unfold stale_counter; exact _).
Definition prune_send_counters (d : MailDb) : nat * MailDb :=
  (size (filter (stale_counter (db_now d)) (db_send_counters d)),
   d <| db_send_counters := filter (λ x, ¬ stale_counter (db_now d) x) (db_send_counters d) |>).

(** ** Idempotency requests *)

Definition stale_request (tenant : Id) (now : datetime) (x : Id * bytes * MemoryIdempotencyRecord) : Prop :=
  x.1.1 = tenant ∧ (mir_expires_at x.2 <= now)%Z.
#[export] Instance stale_request_decision tenant now x : Decision (stale_request tenant now x) :=
  ltac:(unfold stale_request; exact _).

Definition prune_idempotency_of (now : datetime) (tenant : Id) (d : MailDb) : nat * MailDb :=
  (size (filter (stale_request tenant now) (db_idempotency_requests d)),
   d <| db_idempotency_requests := filter (λ x, ¬ stale_request tenant now x) (db_idempotency_requests d) |>).

(** ** The pass *)

Record HouseState := mkHouseState { hk_db : RetentionDb; hk_outbox : Outbox }.

Section Housekeeping.
Context `{ORD : !HashOrder, LCR : !LifecycleCrates}.

(** A statement on the mail tables; [None] when it fails. *)
Definition statement {A} (f : MailDb → A * MailDb) (s : Faulty RetentionDb) : option A * Faulty RetentionDb :=
  match s with
  | (true :: faults, d) => (None, (faults, d))
  | (faults, d) => let '(a, m) := f (rt_mail d) in (Some a, (tail faults, d <| rt_mail := m |>))
  end.

(** One transaction per server; an error ends the loop. *)
Fixpoint prune_idempotency_loop (servers : list Id) (now : datetime) (removed : nat) (s : Faulty RetentionDb) :
    option nat * Faulty RetentionDb :=
  match servers with
  | [] => (Some removed, s)
  | server_id :: servers =>
      match statement (prune_idempotency_of now server_id) s with
      | (Some n, s) => prune_idempotency_loop servers now (removed + n) s
      | failed => failed
      end
  end.
Definition prune_idempotency_requests (now : datetime) (s : Faulty RetentionDb) : option nat * Faulty RetentionDb :=
  match statement (λ d, (map fst (all_servers d), d)) s with
  | (Some servers, s) => prune_idempotency_loop servers now 0 s
  | (None, s) => (None, s)
  end.

(** [apply_retention] from its first statement on. *)
Definition retention_pass (c : RetentionConfig) (columns : Id → RetentionColumns) (now : datetime) (s : Faulty RetentionDb) :
    option RetentionReport * Faulty RetentionDb :=
  match statement (λ d, (retention_targets columns d, d)) s with
  | (Some targets, s) => apply_retention c now targets s
  | (None, s) => (None, s)
  end.

(** The outbox is emptied when nothing can deliver it. *)
Definition discard_undeliverable (w : LifecycleWebhooks) (faults : list bool) (o : Outbox) : Outbox :=
  if lifecycle_enabled w then o
  else match faults with true :: _ => o | _ => (discard_all o).2 end.

(** [None] is the error of the first step; every later error is logged. *)
Definition housekeep (c : RetentionConfig) (columns : Id → RetentionColumns) (w : LifecycleWebhooks) (now retention_now : datetime)
    (faults : list bool) (s : HouseState) : option nat * HouseState :=
  match prune_idempotency_requests now (faults, hk_db s) with
  | (None, (_, d)) => (None, mkHouseState d (hk_outbox s))
  | (Some _, x) =>
      let '(report, x) := retention_pass c columns retention_now x in
      let removed := match report with Some r => rr_api_requests_deleted r | None => 0 end in
      let '(_, (faults, d)) := statement prune_send_counters x in
      (Some removed, mkHouseState d (discard_undeliverable w faults (hk_outbox s)))
  end.
End Housekeeping.
