(* ===== verification/HousekeepingFacts.v ===== *)
(** * HousekeepingFacts: the hourly pass cannot be noticed *)

From S2P Require Import Prelude RustStr RustStrFacts Net Model SendLimit Message MemoryStore Queue MailDb PgSink Retention.
From S2P Require Import RetentionFacts Lifecycle MailDbFacts Concrete LifecycleFacts Housekeeping SendLimitFacts Store.
From S2P Require Import Session.

(** ** Pruned maps *)

Section Sums.
Context `{Countable K} (weigh : K → Z → Z).


Definition sum_of (m : gmap K Z) : Z := map_fold (λ k z total, (weigh k z + total)%Z) 0%Z m.

Lemma sum_insert k z m : m !! k = None → sum_of (<[k := z]> m) = (weigh k z + sum_of m)%Z.
Proof. intros Hk. unfold sum_of. rewrite map_fold_insert_L; [done| |done]. intros. lia. Qed.

(** Entries that weigh nothing may go. *)
Lemma sum_filter (P : K * Z → Prop) `{!∀ x, Decision (P x)} m :
  (∀ k z, m !! k = Some z → ¬ P (k, z) → weigh k z = 0%Z) → sum_of (filter P m) = sum_of m.
Proof.
  induction m as [|k z m Hk IH] using map_ind; intros Hw.
  - by rewrite map_filter_empty.
  - assert (sum_of (filter P m) = sum_of m) as E.
    { apply IH. intros k' z' Hk' HP. apply Hw; [|done]. rewrite lookup_insert_ne; [done|congruence]. }
    destruct (decide (P (k, z))) as [HP|HP].
    + rewrite map_filter_insert_True by done. rewrite !sum_insert; [by rewrite E|done|]. apply map_lookup_filter_None. by left.
    + rewrite map_filter_insert_not' by (done || congruence). rewrite sum_insert, E by done. rewrite Hw; [done| |done]. apply lookup_insert_eq.
Qed.
End Sums.

(** ** What nobody notices *)

Section Housekeeping.
Context `{ORD : !HashOrder, LCR : !LifecycleCrates}.

Definition usage_weight (server_id : Id) (today : Z) (key : Id * Z) (sent : Z) : Z :=
  if in_window server_id today key then sent else 0%Z.
Lemma pg_send_usage_sum server_id d :
  pg_send_usage server_id d = sum_of (usage_weight server_id (date_naive (db_now d))) (db_send_counters d).
Proof. reflexivity. Qed.

(** From [t] on: the same send usage and the same answers to repeated requests. *)
Definition unnoticed (t : datetime) (d d' : MailDb) : Prop :=
  ∀ now, (t <= now)%Z →
    (∀ server_id, pg_send_usage server_id (d' <| db_now := now |>) = pg_send_usage server_id (d <| db_now := now |>)) ∧
    ∀ tenant r, idempotency_lookup tenant r (d' <| db_now := now |>) = idempotency_lookup tenant r (d <| db_now := now |>).

Lemma unnoticed_refl t d : unnoticed t d d.
Proof. done. Qed.
Lemma unnoticed_trans t d1 d2 d3 : unnoticed t d1 d2 → unnoticed t d2 d3 → unnoticed t d1 d3.
Proof.
  intros H1 H2 now Hn. destruct (H1 now Hn) as [A1 B1], (H2 now Hn) as [A2 B2].
  split; intros; [by rewrite A2, A1|by rewrite B2, B1].
Qed.

Lemma unnoticed_counters t d : (db_now d <= t)%Z → unnoticed t d (prune_send_counters d).2.
Proof.
  intros Ht now Hn. split; [|done]. intros server_id. rewrite !pg_send_usage_sum. cbn. apply sum_filter.
  intros k z _ Hk. unfold usage_weight, in_window. destruct (decide (stale_counter (db_now d) (k, z))) as [Hs|]; [|done].
  unfold stale_counter in Hs. cbn in Hs.
  assert (date_naive (db_now d) <= date_naive now)%Z by (apply Z.div_le_mono; [done|lia]).
  destruct (Z.leb_spec (date_naive now - 29) k.2); [lia|]. by rewrite andb_false_r.
Qed.

Lemma unnoticed_requests t tenant now d : (now <= t)%Z → unnoticed t d (prune_idempotency_of now tenant d).2.
Proof.
  intros Ht later Hl. split; [done|]. intros tenant' r. unfold idempotency_lookup. cbn.
  destruct (db_idempotency_requests d !! (tenant', ir_key_hash r)) as [rec|] eqn:E.
  - destruct (decide (stale_request tenant now ((tenant', ir_key_hash r), rec))) as [Hs|Hs].
    + rewrite (proj2 (map_lookup_filter_None _ _ _)); [|right; intros x Hx; rewrite E in Hx; injection Hx as <-; tauto].
      destruct Hs as [_ Hs]. cbn in Hs. destruct (Z.leb_spec (mir_expires_at rec) later); [done|lia].
    + by rewrite (proj2 (map_lookup_filter_Some _ _ _ _) (conj E Hs)).
  - by rewrite (proj2 (map_lookup_filter_None _ _ _) (or_introl E)).
Qed.

(** *** Retention leaves both tables alone *)

Definition unpruned (d : RetentionDb) := (db_send_counters (rt_mail d), db_idempotency_requests (rt_mail d), db_now (rt_mail d)).

Lemma unnoticed_unpruned t d d' : unpruned d' = unpruned d → unnoticed t (rt_mail d) (rt_mail d').
Proof.
  unfold unpruned. intros [= H1 H2 H3] now _. split; intros; [by unfold pg_send_usage; cbn; rewrite H1|].
  unfold idempotency_lookup. cbn. by rewrite H2.
Qed.

Lemma swept_class_unpruned cut run add x : (∀ at_ s, unpruned (run at_ s).2.2 = unpruned s.2) →
  unpruned (swept_class cut run add x).2.2 = unpruned x.2.2.
Proof.
  intros H. unfold swept_class. destruct cut as [at_|]; [|done]. specialize (H at_ x.2). by destruct (run at_ x.2) as [[n| |] s'].
Qed.

Lemma retain_server_unpruned c now x t : unpruned (retain_server c now x t).2.2 = unpruned x.2.2.
Proof.
  unfold retain_server. rewrite !swept_class_unpruned; [done|..]; intros at_ s;
    apply (sweep_frame unpruned); intros d; [done| | |done].
  - unfold on_mail, purge_batch. destruct (update_rows _ _ _) as [n m] eqn:E. apply (f_equal snd) in E. cbn in E. subst m. done.
  - done.
Qed.

Lemma sweep_table_unpruned table cutoff batch s : unpruned (prune_global_table table cutoff batch s).2.2 = unpruned s.2.
Proof. unfold unpruned. by rewrite (table_mail table cutoff batch s). Qed.

Lemma swept_table_unpruned run set x : (∀ s, unpruned (run s).2.2 = unpruned s.2) → unpruned (swept_table run set x).2.2 = unpruned x.2.2.
Proof.
  intros H. destruct x as [[r|] s]; [|done]. unfold swept_table. specialize (H s). by destruct (run s) as [[n| |] s'].
Qed.

Lemma apply_retention_unpruned c now targets s : unpruned (apply_retention c now targets s).2.2 = unpruned s.2.
Proof.
  unfold apply_retention.
  assert (∀ x, unpruned (fold_left (retain_server c now) targets x).2.2 = unpruned x.2.2) as Hs.
  { induction targets as [|t ts IH]; intros x; cbn [fold_left]; [done|]. by rewrite IH, retain_server_unpruned. }
  specialize (Hs (report_default, s)). destruct (fold_left _ _ _) as [r s1]. cbn [snd] in Hs.
  rewrite swept_table_unpruned by (intros x; unfold unpruned, prune_expired_auth_tokens; by rewrite tables_mail).
  destruct (0 <? rc_api_request_days c)%N; [rewrite swept_table_unpruned by (intros x; apply sweep_table_unpruned)|];
    (destruct (0 <? rc_auth_event_days c)%N; [rewrite swept_table_unpruned by (intros x; apply sweep_table_unpruned)|]; exact Hs).
Qed.

(** *** The pass *)

Lemma statement_ok {A} (Q : MailDb → MailDb → Prop) (f : MailDb → A * MailDb) s : (∀ d, Q d d) →
  Q (rt_mail s.2) (f (rt_mail s.2)).2 → Q (rt_mail s.2) (rt_mail (statement f s).2.2).
Proof.
  intros Hr Hf. destruct s as [[|[|] faults] d]; cbn in *; [|apply Hr|]; by destruct (f (rt_mail d)).
Qed.

Lemma loop_unnoticed t now servers : (now <= t)%Z → ∀ removed s,
  unnoticed t (rt_mail s.2) (rt_mail (prune_idempotency_loop servers now removed s).2.2) ∧
  db_now (rt_mail (prune_idempotency_loop servers now removed s).2.2) = db_now (rt_mail s.2).
Proof.
  intros Ht. induction servers as [|id servers IH]; intros removed s; cbn [prune_idempotency_loop]; [by split|].
  pose proof (statement_ok (λ d d', unnoticed t d d' ∧ db_now d' = db_now d) (prune_idempotency_of now id) s) as H.
  destruct (statement _ s) as [[n|] s1]; cbn [snd] in H; destruct H as [H1 H2]; try (by split);
    try (by split; [apply unnoticed_requests|]).
  destruct (IH (removed + n) s1) as [H3 H4]. split; [by eapply unnoticed_trans|]. by rewrite H4.
Qed.

Lemma requests_unnoticed t now s : (now <= t)%Z →
  unnoticed t (rt_mail s.2) (rt_mail (prune_idempotency_requests now s).2.2) ∧
  db_now (rt_mail (prune_idempotency_requests now s).2.2) = db_now (rt_mail s.2).
Proof.
  intros Ht. unfold prune_idempotency_requests.
  pose proof (statement_ok eq (λ d, (map fst (all_servers d), d)) s (λ _, eq_refl) eq_refl) as H.
  destruct (statement _ s) as [[servers|] s1]; cbn [snd] in H; [|by cbn; rewrite H].
  rewrite H. by apply loop_unnoticed.
Qed.

Lemma retention_unnoticed c columns now s :
  unpruned (retention_pass c columns now s).2.2 = unpruned s.2.
Proof.
  unfold retention_pass. destruct s as [[|[|] faults] d]; cbn; [|done|]; rewrite apply_retention_unpruned; done.
Qed.

(** C10: Housekeeping cannot be noticed by senders, whichever of its statements fail: from
    the time of the pass on every server has the same send usage as if no counter had
    been pruned, so the same allowance, and every repeated request the same answer as
    if no expired one had been; and no lifecycle event is dropped while a URL is
    configured. *)
Theorem housekeeping_unnoticed c columns w now retention_now faults s t : (now <= t)%Z → (db_now (rt_mail (hk_db s)) <= t)%Z →
  let s' := (housekeep c columns w now retention_now faults s).2 in
  unnoticed t (rt_mail (hk_db s)) (rt_mail (hk_db s')) ∧ (lifecycle_enabled w = true → hk_outbox s' = hk_outbox s).
Proof.
  intros Ht Hd. unfold housekeep. destruct (requests_unnoticed t now (faults, hk_db s) Ht) as [H1 H2]. cbn [snd] in H1, H2.
  destruct (prune_idempotency_requests now (faults, hk_db s)) as [[n|] [faults1 d1]]; cbn [snd] in *; [|by split].
  pose proof (retention_unnoticed c columns retention_now (faults1, d1)) as H3. cbn [snd] in H3.
  destruct (retention_pass _ _ _ _) as [report x2]. cbn [snd] in H3.
  pose proof (statement_ok (unnoticed t) prune_send_counters x2 (unnoticed_refl t)) as H4.
  destruct (statement prune_send_counters x2) as [o [faults3 d3]]. cbn [snd hk_db hk_outbox] in *. split.
  - eapply unnoticed_trans; [exact H1|]. eapply unnoticed_trans; [by apply unnoticed_unpruned|]. apply H4, unnoticed_counters.
    unfold unpruned in H3. injection H3 as _ _ H3. by rewrite H3, H2.
  - intros Hw. unfold discard_undeliverable. by rewrite Hw.
Qed.
End Housekeeping.

(** ** An hour on an old installation *)

#[local] Existing Instance concrete_order.
#[local] Existing Instance concrete_lifecycle.

Definition fx_columns : RetentionColumns := mkRetentionColumns None None None None.
(** A counter of 41 days ago, one of today, and an expired request, on day 100. *)
Definition fx_house : HouseState :=
  mkHouseState
    (mkRetentionDb (fx_sent_db <| db_now := days 100 |> <| db_server_organizations := {[ 1%N := 1%N ]} |>
       <| db_organizations := {[ 1%N := (mkOrganization 1 !"uuid" !"A" !"orga" false, None) ]} |>
       <| db_send_counters := {[ (1%N, 59%Z) := 7%Z; (1%N, 100%Z) := 3%Z ]} |>
       <| db_idempotency_requests := {[ (1%N, !"key") := mkMemoryIdempotencyRecord !"hash" !"smtp" [] (days 99) ]} |>)
      [] [] [] [] ∅)
    (mkOutbox [] 1).
Definition fx_housekept : HouseState :=
  (housekeep fx_periods (λ _, fx_columns) fx_hook (days 100) (days 100) [] fx_house).2.

Theorem housekeeping_unnoticed_witness :
  size (db_send_counters (rt_mail (hk_db fx_housekept))) = 1 ∧
  size (db_idempotency_requests (rt_mail (hk_db fx_housekept))) = 0 ∧
  db_messages (rt_mail (hk_db fx_housekept)) = [] ∧
  unnoticed (days 100) (rt_mail (hk_db fx_house)) (rt_mail (hk_db fx_housekept)).
Proof.
  split; [vm_compute; reflexivity|]. split; [vm_compute; reflexivity|]. split; [vm_compute; reflexivity|].
  unfold fx_housekept.
  exact (proj1 (housekeeping_unnoticed fx_periods (λ _, fx_columns) fx_hook (days 100) (days 100) [] fx_house (days 100)
    (Z.le_refl _) (Z.le_refl _))).
Defined.

(** ** The send counters count what is stored

    Every transaction that stores messages moves the counters of [server_send_counters]
    and [organization_send_counters] by the outgoing messages among them, so that a
    check of the allowance bounds the usage that follows. *)


Section Count.
Context `{CASE : !UnicodeCase, CRA : !Crates, PAY : !Payloads}.

(** The outgoing messages of the servers in [P]. *)
Definition sent_by (P : Id → bool) (q : list QueuedMessage) : Z :=
  Z.of_nat (length (List.filter (λ m, bool_decide (qm_scope m = Outgoing) && P (qm_server_id m)) q)).
Definition month_usage (org : Id) (d : MailDb) : Z :=
  from_option id 0%Z (db_organization_send_counters d !! (org, usage_month_of (db_now d))).
Definition in_organization (org : Id) (d : MailDb) (server : Id) : bool :=
  bool_decide (db_server_organizations d !! server = Some org).

(** From [d] to [d'] the messages [q] were counted, and nothing else. *)
Record counted (q : list QueuedMessage) (d d' : MailDb) : Prop := {
  ct_now : db_now d' = db_now d;
  ct_organizations : db_server_organizations d' = db_server_organizations d;
  ct_server id : pg_send_usage id d' = (pg_send_usage id d + sent_by (N.eqb id) q)%Z;
  ct_organization org : month_usage org d' = (month_usage org d + sent_by (in_organization org d) q)%Z;
}.

Lemma sent_by_app P q1 q2 : sent_by P (q1 ++ q2) = (sent_by P q1 + sent_by P q2)%Z.
Proof. unfold sent_by. rewrite List.filter_app, length_app. lia. Qed.

Lemma sent_by_bound P q : (0 <= sent_by P q <= outgoing_count q)%Z.
Proof.
  unfold sent_by, outgoing_count. induction q as [|m q IH]; cbn; [lia|].
  destruct (bool_decide _); cbn; [destruct (P _)|]; cbn [length]; lia.
Qed.

Lemma counted_refl d : counted [] d d.
Proof. split; [done|done| |]; intros; unfold sent_by; cbn; lia. Qed.

Lemma counted_trans q1 q2 d1 d2 d3 : counted q1 d1 d2 → counted q2 d2 d3 → counted (q1 ++ q2) d1 d3.
Proof.
  intros [N1 O1 S1 M1] [N2 O2 S2 M2]. split; [congruence|congruence| |]; intros x; rewrite sent_by_app.
  - rewrite S2, S1. lia.
  - rewrite M2, M1. unfold in_organization. rewrite O1. lia.
Qed.

(** Tables that are not counters do not matter. *)
Definition counters (d : MailDb) :=
  (db_now d, db_send_counters d, db_organization_send_counters d, db_server_organizations d).
Lemma counted_same q d d1 d' : counters d1 = counters d → counted q d1 d' → counted q d d'.
Proof.
  intros [= H1 H2 H3 H4] [N O S M]. split; [congruence|congruence| |].
  - intros x. rewrite S. f_equal. unfold pg_send_usage. by rewrite H1, H2.
  - intros x. rewrite M. unfold month_usage, in_organization. by rewrite H1, H3, H4.
Qed.
Lemma counted_same' q d d' d1 : counters d1 = counters d' → counted q d d' → counted q d d1.
Proof.
  intros [= H1 H2 H3 H4] [N O S M]. split; [congruence|congruence| |].
  - intros x. rewrite <- S. unfold pg_send_usage. by rewrite H1, H2.
  - intros x. rewrite <- M. unfold month_usage. by rewrite H1, H3.
Qed.

Lemma sum_bump (server_id : Id) (today : Z) (c : gmap (Id * Z) Z) (k : Id * Z) :
  sum_of (usage_weight server_id today) (<[k := (from_option id 0 (c !! k) + 1)%Z]> c)
  = (sum_of (usage_weight server_id today) c + if in_window server_id today k then 1 else 0)%Z.
Proof.
  rewrite <- insert_delete_eq, sum_insert by apply lookup_delete_eq. destruct (c !! k) as [z|] eqn:E; cbn.
  - assert (sum_of (usage_weight server_id today) c = (usage_weight server_id today k z + sum_of (usage_weight server_id today) (delete k c))%Z) as ->.
    { rewrite <- sum_insert by apply lookup_delete_eq. f_equal. by rewrite insert_delete_id. }
    unfold usage_weight. destruct (in_window _ _ k); lia.
  - rewrite delete_id by done. unfold usage_weight. destruct (in_window _ _ k); lia.
Qed.

Lemma count_server_usage id server d :
  pg_send_usage id (count_server_send server d) = (pg_send_usage id d + if (id =? server)%N then 1 else 0)%Z.
Proof.
  rewrite !pg_send_usage_sum. cbn. rewrite sum_bump. f_equal. unfold in_window. cbn. rewrite (N.eqb_sym server id).
  destruct (Z.leb_spec (date_naive (db_now d) - 29) (date_naive (db_now d))); [|lia]. rewrite Z.leb_refl.
  by destruct (id =? server)%N.
Qed.

Lemma alert_counters o month sent limit l d :
  counters (fold_left (alert_threshold o month sent limit) l d) = counters d.
Proof. apply (fold_left_frame counters). intros a b. unfold alert_threshold. by destruct (decide _). Qed.

Lemma count_organization_counters server d :
  let d' := count_organization_send server d in
  db_now d' = db_now d ∧ db_send_counters d' = db_send_counters d ∧ db_server_organizations d' = db_server_organizations d ∧
  db_organization_send_counters d' =
    match db_server_organizations d !! server with
    | Some org => let key := (org, usage_month_of (db_now d)) in
        <[key := (from_option id 0 (db_organization_send_counters d !! key) + 1)%Z]> (db_organization_send_counters d)
    | None => db_organization_send_counters d
    end.
Proof.
  unfold count_organization_send. destruct (db_server_organizations d !! server) as [org|] eqn:E; [|done]. cbv zeta.
  match goal with |- context [fold_left (alert_threshold _ _ _ _) _ ?x] => set (d1 := x) end.
  assert (db_organizations d1 = db_organizations d) as -> by done.
  destruct (db_organizations d !! org) as [[o limit]|]; [|done].
  match goal with |- context [fold_left (alert_threshold _ ?m ?n _) ?l d1] => pose proof (alert_counters o m n limit l d1) as H end.
  injection H as -> -> -> ->. done.
Qed.

Lemma insert_counted m d : counted [m] d (insert_message_in_tx m d).2.
Proof.
  unfold insert_message_in_tx. cbn [snd]. match goal with |- context [on_queue ?f ?x] => set (d1 := on_queue f x) end.
  apply (counted_same _ d d1); [done|]. destruct (bool_decide (qm_scope m = Outgoing)) eqn:Eo.
  - destruct (count_organization_counters (qm_server_id m) (count_server_send (qm_server_id m) d1)) as (H1 & H2 & H3 & H4).
    split; [done|done| |].
    + intros x. unfold pg_send_usage at 1. rewrite H1, H2. fold (pg_send_usage x (count_server_send (qm_server_id m) d1)).
      rewrite count_server_usage. unfold sent_by. cbn. rewrite Eo. cbn. by destruct (x =? _)%N.
    + intros org. unfold month_usage. rewrite H1, H4. cbn. unfold sent_by, in_organization. cbn. rewrite Eo. cbn.
      destruct (db_server_organizations d !! qm_server_id m) as [o|] eqn:E; cbn.
      * destruct (decide (o = org)) as [->|Hne].
        -- rewrite lookup_insert_eq. rewrite bool_decide_eq_true_2 by done. cbn. lia.
        -- rewrite lookup_insert_ne by congruence. rewrite bool_decide_eq_false_2 by congruence. cbn. lia.
      * rewrite bool_decide_eq_false_2 by congruence. cbn. lia.
  - split; [done|done| |]; intros x; unfold sent_by; cbn; rewrite Eo; cbn; lia.
Qed.

Lemma register_planned_counters tenant p d d' : register_planned tenant p d = inr d' → counters d' = counters d.
Proof.
  unfold register_planned, register_token. destruct (spm_unsubscribe_token p) as [t|]; [|by intros [= <-]].
  destruct (decide _); [done|by intros [= <-]].
Qed.

Lemma planned_counted tenant messages : ∀ d sents d', send_planned tenant messages d = inr (sents, d') →
  counted (map spm_message messages) d d'.
Proof.
  induction messages as [|p rest IH]; intros d sents d'; cbn [send_planned map].
  - intros [= <- <-]. apply counted_refl.
  - destruct (negb _); [done|]. intros (d0 & H0%register_planned_counters & H)%and_then_inr.
    pose proof (insert_counted (spm_message p) d0) as H1. destruct (insert_message_in_tx (spm_message p) d0) as [sent d1].
    apply and_then_inr in H as ([sents1 d2] & E & [= _ <-]).
    apply (counted_trans [_] _ d d1); [by eapply counted_same|by eapply IH].
Qed.

Definition planned_messages (plan : list SendPlanItem) : list QueuedMessage :=
  concat (map (λ i, match i with PlanMessages ms => map spm_message ms | PlanError _ _ => [] end) plan).

Lemma plan_counted tenant plan : ∀ d items d', send_plan tenant plan d = inr (items, d') → counted (planned_messages plan) d d'.
Proof.
  induction plan as [|[messages|code text] rest IH]; intros d items d'; cbn [send_plan].
  - intros [= <- <-]. apply counted_refl.
  - intros ([sents d1] & E1 & ([items1 d2] & E2 & [= _ <-])%and_then_inr)%and_then_inr.
    unfold planned_messages. cbn. apply (counted_trans _ _ _ d1); [by eapply planned_counted|by eapply IH].
  - intros ([items1 d2] & E2 & [= _ <-])%and_then_inr. by eapply IH.
Qed.

(** A send operation counts its plan when it stores it, and otherwise changes nothing. *)
Lemma operation_counted failing tenant plan idem d :
  match store_send_operation failing tenant plan idem d with
  | (inr (SendStored _), d') => counted (planned_messages plan) d d'
  | (_, d') => d' = d
  end.
Proof.
  unfold store_send_operation. destruct failing; [done|].
  assert (∀ d1, counters d1 = counters d →
    match (match send_plan tenant plan d1 with
           | inl error => (inl error, d)
           | inr (response, d2) => (inr (SendStored response),
               match idem with
               | Some r => d2 <| db_idempotency_requests := <[(tenant, ir_key_hash r) := mkMemoryIdempotencyRecord (ir_request_hash r)
                   (ir_operation r) response (ir_expires_at r)]> (db_idempotency_requests d2) |>
               | None => d2
               end)
           end : (bytes + StoreSendOutcome) * MailDb) with
    | (inr (SendStored _), d') => counted (planned_messages plan) d d'
    | (_, d') => d' = d
    end) as H.
  { intros d1 Hd. destruct (send_plan tenant plan d1) as [e|[response d2]] eqn:E; [done|]. apply plan_counted in E.
    eapply counted_same'; [|by eapply counted_same]. by destruct idem. }
  destruct idem as [r|]; [|by apply H]. destruct (idempotency_lookup tenant r d); [by apply H|done|done].
Qed.

(** An allowance that lets [n] messages pass keeps the usage within its limit. *)
Lemma allowance_bounds limit used scope n used' : allows (mkSendAllowance (Some limit) used scope) n = true →
  (used' <= used + n)%Z → (used' <= Z.max limit used)%Z.
Proof.
  unfold allows, remaining. cbn. intros [H|H]%orb_true_iff Hu; apply Z.leb_le in H; lia.
Qed.
End Count.
