(* ===== verification/PgStore.v ===== *)
(** * PgStore: the lookups of the production store

    [camelmailer-db/src/pg_store.rs]: [Store for PgStore], what the SMTP session asks
    of PostgreSQL, and the reads of the HTTP send path.  A table is the list of its
    rows in the order a query without [ORDER BY] meets them.  [ps_failing] are the
    queries that fail now; a failed one is reported as the source reports it. *)

From S2P Require Import Prelude RustStr Net Model SendLimit Store MemoryStore Queue MailDb Housekeeping.

Record MessageStream := mkMessageStream {
  str_id : Id;
  str_uuid : bytes;
  str_server_id : Id;
  str_name : bytes;
  str_permalink : bytes;
  str_stream_type : bytes;
  str_archived : bool;
  str_ip_pool_id : option Id;
}.

Record TrackDomain := mkTrackDomain {
  td_id : Id;
  td_uuid : bytes;
  td_server_id : Id;
  td_name : bytes;
  td_verified : bool;
}.

Record PgTables := mkPgTables {
  pt_organizations : list Organization;
  pt_policies : gmap Id OrganizationPolicy;
  pt_servers : list Server;
  pt_domains : list Domain;
  pt_routes : list Route;
  pt_credentials : list Credential;
  pt_sender_addresses : list SenderAddress;
  pt_streams : list MessageStream;
  pt_track_domains : list TrackDomain;
}.
#[export] Instance eta_PgTables : Eta PgTables := λ t,
  mkPgTables (pt_organizations t) (pt_policies t) (pt_servers t) (pt_domains t) (pt_routes t) (pt_credentials t)
    (pt_sender_addresses t) (pt_streams t) (pt_track_domains t).

Inductive Query :=
| QOrganization | QServer | QSmtpCredentialByKey | QServerByToken | QRouteByToken | QRouteByName | QIpCredentials
| QSmtpCredentials | QServerByPermalinks | QDomain | QPolicy | QMonthUsage | QSendUsage | QReturnPath | QCredentialUse
| QSenderAddress | QApiToken | QStream | QSubscription | QTrackDomains | QStoreSend | QIdempotency.
#[export] Instance Query_eq_dec : EqDecision Query.
Proof. solve_decision. Defined.

Record PgStore := mkPgStore {
  ps_tables : PgTables;
  ps_mail : MailDb;
  ps_failing : Query → bool;
}.
#[export] Instance eta_PgStore : Eta PgStore := λ s, mkPgStore (ps_tables s) (ps_mail s) (ps_failing s).

(** A query and its result; [None] is the database error. *)
Definition fetch {A} (s : PgStore) (q : Query) (rows : A) : option A := if ps_failing s q then None else Some rows.
(** [.ok().flatten()] *)
Definition fetch_ok {A} (s : PgStore) (q : Query) (row : option A) : option A := r ← fetch s q row; r.

Section PgStore.
Context `{ORD : !HashOrder, CRA : !Crates, IPN : !IpNetCrate} (sql_lower : bytes → bytes).

(** ** Rows *)

Definition server_row (t : PgTables) (id : Id) : option Server := List.find (λ s, (srv_id s =? id)%N) (pt_servers t).
Definition organization_row (t : PgTables) (id : Id) : option Organization :=
  List.find (λ o, (org_id o =? id)%N) (pt_organizations t).
Definition domain_row (t : PgTables) (id : Id) : option Domain := List.find (λ d, (dom_id d =? id)%N) (pt_domains t).

(** [ROUTE_WITH_SERVER] with a condition on the route and its domain: the inner join
    with the server, the left join with the domain. *)
Definition route_with_server (t : PgTables) (P : Route → option Domain → bool) (r : Route) : option ResolvedRoute :=
  let domain := rt_domain_id r ≫= domain_row t in
  server ← server_row t (rt_server_id r);
  if P r domain then Some (mkResolvedRoute r server (from_option dom_name [] domain)) else None.
Definition first_route (t : PgTables) (P : Route → option Domain → bool) : option ResolvedRoute :=
  head (omap (route_with_server t P) (pt_routes t)).

(** ** The [Store] *)

Definition pg_organization (s : PgStore) (id : Id) : option Organization :=
  fetch_ok s QOrganization (organization_row (ps_tables s) id).
Definition pg_server (s : PgStore) (id : Id) : option Server := fetch_ok s QServer (server_row (ps_tables s) id).

Definition pg_find_smtp_credential_by_key (s : PgStore) (key : bytes) : option Credential :=
  fetch_ok s QSmtpCredentialByKey
    (List.find (λ c, bool_decide (cred_credential_type c = CtSmtp) && (cred_key c =b key)) (pt_credentials (ps_tables s))).

Definition pg_find_server_by_token (s : PgStore) (token : bytes) : option Server :=
  fetch_ok s QServerByToken (List.find (λ r, srv_token r =b token) (pt_servers (ps_tables s))).

Definition pg_find_route_by_token (s : PgStore) (token : bytes) : option ResolvedRoute :=
  fetch_ok s QRouteByToken (first_route (ps_tables s) (λ r _, rt_token r =b token)).

Definition pg_find_route_by_name_and_domain (s : PgStore) (name domain : bytes) : option ResolvedRoute :=
  fetch_ok s QRouteByName
    (first_route (ps_tables s) (λ r d, (rt_name r =b name) && match d with Some d => dom_name d =b domain | None => false end)).

Definition pg_find_ip_credential (s : PgStore) (ip : IpAddr) : option Credential :=
  credentials ← fetch s QIpCredentials
    (List.filter (λ c, bool_decide (cred_credential_type c = CtSmtpIp)) (pt_credentials (ps_tables s)));
  match_ip_credential credentials ip.

Definition pg_smtp_credentials_for_server (s : PgStore) (server_id : Id) : list Credential :=
  from_option id [] (fetch s QSmtpCredentials
    (stable_sort (λ a b, cred_id a <=? cred_id b)%N
       (List.filter (λ c, (cred_server_id c =? server_id)%N && bool_decide (cred_credential_type c = CtSmtp))
          (pt_credentials (ps_tables s))))).

Definition pg_find_server_by_permalinks (s : PgStore) (org_permalink_ server_permalink : bytes) : option Server :=
  let t := ps_tables s in
  fetch_ok s QServerByPermalinks
    (List.find (λ r, (srv_permalink r =b server_permalink)
        && match organization_row t (srv_organization_id r) with Some o => org_permalink o =b org_permalink_ | None => false end)
       (pt_servers t)).

(** [ORDER BY owner_type DESC]: ['Server'] before ['Organization']. *)
Definition server_owned_first (a b : Domain) : bool :=
  match dom_owner a, dom_owner b with OwnerOrganization _, OwnerServer _ => false | _, _ => true end.

Definition pg_domain_for_address (s : PgStore) (server : Server) (address : bytes) : option Id :=
  let address := strip_name_from_address address in
  '(uname, domain_name) ← split_once (is_byte "@") address;
  if bool_decide (uname = []) then None
  else dom_id <$> fetch_ok s QDomain
    (head (stable_sort server_owned_first
       (List.filter (λ d, dom_verified d && (dom_name d =b domain_name) && owner_is server d) (pt_domains (ps_tables s))))).

Definition pg_find_authenticated_domain (s : PgStore) (server_id : Id) (header_values : list bytes) : option Id :=
  server ← pg_server s server_id;
  match map (pg_domain_for_address s server) header_values with
  | [] => None
  | d :: rest => if forallb (λ o, bool_decide (is_Some o)) (d :: rest) then d else None
  end.

Definition organization_policy (s : PgStore) (id : Id) : option OrganizationPolicy :=
  fetch s QPolicy (from_option (λ p, p) policy_default (pt_policies (ps_tables s) !! id)).
Definition pg_send_policy_for_organization (s : PgStore) (id : Id) : OrganizationPolicy :=
  from_option (λ p, p) policy_default (organization_policy s id).

Definition organization_send_usage (s : PgStore) (id : Id) (month : UsageMonth) : option Z :=
  fetch s QMonthUsage (from_option (λ z, z) 0%Z (db_organization_send_counters (ps_mail s) !! (id, month))).
Definition pg_organization_month_usage (now : datetime) (s : PgStore) (id : Id) : Z :=
  from_option (λ z, z) i64_max (organization_send_usage s id (usage_month_of now)).

Definition server_send_usage (s : PgStore) (id : Id) : option Z := fetch s QSendUsage (pg_send_usage id (ps_mail s)).
Definition pg_store_send_usage (s : PgStore) (id : Id) : Z := from_option (λ z, z) i64_max (server_send_usage s id).

Definition pg_return_path_route_for_server (s : PgStore) (server_id : Id) : option ResolvedRoute :=
  fetch_ok s QReturnPath
    (first_route (ps_tables s) (λ r _, (rt_server_id r =? server_id)%N && (rt_name r =b !"__returnpath__"))).

Definition pg_record_credential_use (s : PgStore) (credential_id : Id) : PgStore :=
  if ps_failing s QCredentialUse then s
  else s <| ps_tables := (ps_tables s) <| pt_credentials :=
         map (λ c, if (cred_id c =? credential_id)%N then c <| cred_last_used_at := Some (db_now (ps_mail s)) |> else c)
           (pt_credentials (ps_tables s)) |> |>.

(** [AdminStore::confirmed_sender_address] *)
Definition confirmed_sender_address (s : PgStore) (server_id : Id) (email : bytes) : option bool :=
  fetch s QSenderAddress
    (existsb (λ a, (sa_server_id a =? server_id)%N && sa_verified a && (sql_lower (sa_email_address a) =b sql_lower email))
       (pt_sender_addresses (ps_tables s))).

Definition pg_find_confirmed_sender_address (s : PgStore) (server_id : Id) (header_values : list bytes) : bool :=
  match header_values with
  | [] => false
  | _ => forallb (λ value, from_option id false (confirmed_sender_address s server_id (strip_name_from_address value)))
           header_values
  end.

#[export] Instance PgStore_store : Store PgStore := {|
  st_organization := pg_organization;
  st_server := pg_server;
  find_smtp_credential_by_key := pg_find_smtp_credential_by_key;
  find_server_by_token := pg_find_server_by_token;
  find_route_by_token := pg_find_route_by_token;
  find_route_by_name_and_domain := pg_find_route_by_name_and_domain;
  find_ip_credential := pg_find_ip_credential;
  smtp_credentials_for_server := pg_smtp_credentials_for_server;
  find_server_by_permalinks := pg_find_server_by_permalinks;
  st_find_authenticated_domain := pg_find_authenticated_domain;
  send_usage _ := pg_store_send_usage;
  send_policy_for_organization := pg_send_policy_for_organization;
  organization_month_usage := pg_organization_month_usage;
  return_path_route_for_server := pg_return_path_route_for_server;
  record_credential_use _ := pg_record_credential_use;
  find_confirmed_sender_address := pg_find_confirmed_sender_address;
|}.

(** ** Reads of the HTTP send path *)

(** [AdminStore::authenticated_domain] *)
Definition authenticated_domain (s : PgStore) (server_id : Id) (domain_name : bytes) : option (option Id) :=
  fetch s QDomain
    (server ← server_row (ps_tables s) server_id;
     dom_id <$> List.find (λ d, dom_verified d && (dom_name d =b domain_name) && owner_is server d) (pt_domains (ps_tables s))).

(** A credential in use stamps every credential with its key, errors aside. *)
Definition server_for_api_token (s : PgStore) (key : bytes) : option (option Server) * PgStore :=
  let t := ps_tables s in
  let row c := if bool_decide (cred_credential_type c = CtApi) && (cred_key c =b key) && negb (cred_hold c)
               then server_row t (cred_server_id c) else None in
  match fetch s QApiToken (head (omap row (pt_credentials t))) with
  | Some (Some server) =>
      (Some (Some server),
       if ps_failing s QCredentialUse then s
       else s <| ps_tables := t <| pt_credentials :=
              map (λ c, if cred_key c =b key then c <| cred_last_used_at := Some (db_now (ps_mail s)) |> else c)
                (pt_credentials t) |> |>)
  | result => (result, s)
  end.

Definition stream_by_permalink (s : PgStore) (server_id : Id) (permalink : bytes) : option (option MessageStream) :=
  fetch s QStream (List.find (λ m, (str_server_id m =? server_id)%N && (str_permalink m =b permalink)) (pt_streams (ps_tables s))).
Definition list_streams (s : PgStore) (server_id : Id) : option (list MessageStream) :=
  fetch s QStream (stable_sort (λ a b, (str_id a <=? str_id b)%N)
    (List.filter (λ m, (str_server_id m =? server_id)%N) (pt_streams (ps_tables s)))).

Definition is_subscribed (s : PgStore) (server_id stream_id : Id) (address : bytes) : option bool :=
  fetch s QSubscription (bool_decide (db_subscriptions (ps_mail s) !! (server_id, stream_id, address) = Some !"subscribed")).

Definition effective_track_domain (s : PgStore) (server_id : Id) : option (option bytes) :=
  domains ← fetch s QTrackDomains (stable_sort (λ a b, (td_id a <=? td_id b)%N)
              (List.filter (λ d, (td_server_id d =? server_id)%N) (pt_track_domains (ps_tables s))));
  Some (td_name <$> List.find td_verified domains).
End PgStore.
