(* ===== verification/PgStoreFacts.v ===== *)
(** * PgStoreFacts: the production store answers like the in-memory one, and limits hold on it

    A submission to the sink is stored whole or not at all, or message by message when
    it has no key, whichever transactions fail; the laws of [MessageSink] where none
    does; on tables that represent the in-memory store, the lookups of [Store] agree. *)

From stdpp Require Import sorting.
From S2P Require Import Prelude RustStr RustStrFacts Net Model SendLimit SendLimitFacts Message Store Session MemoryStore.
From S2P Require Import MemoryFacts Queue MailDb PgSink Housekeeping HousekeepingFacts PgStore Concrete SessionFacts SessionAuth.
From S2P Require Import SessionProps QueueFacts MailDbFacts.

(** ** What one submission does to the database *)


Section PgSinkFacts.
Context `{CASE : !UnicodeCase, CRA : !Crates, PAY : !Payloads}.

(** The rows of a batch: consecutive ids, one queue row for each message. *)
Fixpoint batch_rows (now : datetime) (id : Z) (ms : list QueuedMessage) : list MessageRow :=
  match ms with [] => [] | m :: rest => message_row now id m :: batch_rows now (id + 1) rest end.
Fixpoint batch_queue (bulk : option Id → bool) (qid id : Z) (ms : list QueuedMessage) : list QueuedMessageRow :=
  match ms with
  | [] => []
  | m :: rest =>
      mkQueuedMessageRow qid id (qm_server_id m) (domain_after_at (qm_rcpt_to m)) 0 (bulk (qm_stream_id m)) None None None
      :: batch_queue bulk (qid + 1) (id + 1) rest
  end.

(** The mail tables after a batch.  The send counters, usage alerts and the
    idempotency table change besides. *)
Definition batch_stored (ms : list QueuedMessage) (d d' : MailDb) : Prop :=
  db_messages d' = db_messages d ++ batch_rows (db_now d) (db_next_message d) ms ∧
  qt_rows (db_queue d') = qt_rows (db_queue d) ++
    batch_queue (is_broadcast d) (qt_next (db_queue d)) (db_next_message d) ms ∧
  db_next_message d' = (db_next_message d + Z.of_nat (length ms))%Z ∧
  qt_next (db_queue d') = (qt_next (db_queue d) + Z.of_nat (length ms))%Z ∧
  db_deliveries d' = db_deliveries d ∧ db_requests d' = db_requests d ∧ db_suppressions d' = db_suppressions d ∧
  db_stream_types d' = db_stream_types d ∧ db_now d' = db_now d ∧ db_activity d' = db_activity d.

Lemma batch_stored_nil d : batch_stored [] d d.
Proof. unfold batch_stored. cbn. rewrite !app_nil_r. split_and!; try done; lia. Qed.

Lemma batch_stored_cons m ms d d' : batch_stored ms (insert_message_in_tx m d).2 d' → batch_stored (m :: ms) d d'.
Proof.
  pose proof (insert_message_tables m d) as H. unfold mail_tables in H.
  set (d1 := (insert_message_in_tx m d).2) in *. injection H as H1 H2 H3 H4 H5 H6 H7 H8 H9 H10 H11 H12 H13.
  unfold batch_stored. intros (B1 & B2 & B3 & B4 & B5 & B6 & B7 & B8 & B9 & B10).
  assert (is_broadcast d1 = is_broadcast d) as Hb by (unfold is_broadcast; by rewrite H8).
  rewrite H1, H2, H9 in B1. rewrite H2, H4, Hb in B2. rewrite H2 in B3. rewrite H4 in B4. cbn [enqueue_with_kind snd qt_rows qt_next] in *.
  cbn [batch_rows batch_queue length].
  split_and!; try congruence; try lia.
  - rewrite B1. by rewrite <- (assoc_L app).
  - rewrite B2. by rewrite <- (assoc_L app).
Qed.

Definition plain (ms : list QueuedMessage) : list SendPlanMessage := map (λ m, mkSendPlanMessage m None) ms.

Lemma send_planned_plain tenant ms d :
  match send_planned tenant (plain ms) d with
  | inr (sents, d') => Forall (λ m, qm_server_id m = tenant) ms ∧ batch_stored ms d d' ∧
      db_idempotency_requests d' = db_idempotency_requests d ∧ length sents = length ms
  | inl _ => ¬ Forall (λ m, qm_server_id m = tenant) ms
  end.
Proof.
  revert d. induction ms as [|m ms IH]; intros d; cbn [plain map send_planned spm_message].
  - split_and!; [done|apply batch_stored_nil|done|done].
  - destruct (N.eqb_spec (qm_server_id m) tenant) as [Hs|Hs]; cbn [negb].
    + pose proof (insert_message_tables m d) as Ht. pose proof (batch_stored_cons m ms d) as Hc. cbn [register_planned spm_unsubscribe_token and_then].
      destruct (insert_message_in_tx m d) as [sent d1]. cbn [snd] in *. specialize (IH d1). unfold plain in IH.
      destruct (send_planned tenant _ d1) as [e|[sents d']]; cbn [and_then].
      * intros [_ H]%Forall_cons. done.
      * destruct IH as (H1 & H2 & H3 & H4). split_and!; [by constructor|by apply Hc| |cbn; lia].
        unfold mail_tables in Ht. congruence.
    + by intros [H _]%Forall_cons.
Qed.

Definition one_server (ms : list QueuedMessage) : Prop :=
  ∀ m m', head ms = Some m → m' ∈ ms → qm_server_id m' = qm_server_id m.

(** The key is new, and then it answers a repetition. *)
Definition remembered_as_stored (ms : list QueuedMessage) (r : IdempotencyRequest) (d d' : MailDb) : Prop :=
  ∀ m, head ms = Some m → idempotency_lookup (qm_server_id m) r d = LookupNew ∧
    ((db_now d < ir_expires_at r)%Z → ∃ response, idempotency_lookup (qm_server_id m) r d' = LookupReplay response).

Lemma plain_plan first rest d d1 : let ms := first :: rest in (∀ d0, batch_stored ms d1 d0 → batch_stored ms d d0) →
  match send_plan (qm_server_id first) [PlanMessages (plain ms)] d1 with
  | inl _ => ¬ one_server ms
  | inr (_, d2) => batch_stored ms d d2 ∧ one_server ms
  end.
Proof.
  intros ms Hd. pose proof (send_planned_plain (qm_server_id first) ms d1) as Hp. cbn [send_plan].
  destruct (send_planned _ (plain ms) d1) as [e|[sents d2]]; cbn [and_then].
  - intros H. apply Hp, Forall_forall. intros m Hm. by apply (H first).
  - destruct Hp as (H1 & H2 & _). split; [by apply Hd|]. intros m m' [= <-] Hm. by apply (proj1 (Forall_forall _ _) H1).
Qed.

Lemma operation_plain first rest idem d : let ms := first :: rest in
  match store_send_operation false (qm_server_id first) [PlanMessages (plain ms)] idem d with
  | (inr (SendStored _), d') => batch_stored ms d d' ∧ one_server ms ∧ (∀ r, idem = Some r → remembered_as_stored ms r d d')
  | (inl _, d') => d' = d ∧ ¬ one_server ms
  | (inr _, d') => d' = d
  end.
Proof.
  intros ms. unfold store_send_operation. cbv zeta. destruct idem as [r|].
  - destruct (idempotency_lookup (qm_server_id first) r d) eqn:El; [|done|done].
    match goal with |- context [send_plan _ _ ?x] => pose proof (plain_plan first rest d x ltac:(done)) as Hp end.
    fold ms in Hp. destruct (send_plan _ _ _) as [e|[response d2]]; [done|]. destruct Hp as [H1 H2].
    split_and!; [exact H1|done|]. intros r' [= <-] m [= <-]. split; [done|]. intros Hexp.
    eexists. unfold idempotency_lookup. cbn [db_idempotency_requests db_now field_upd].
    assert (db_now d2 = db_now d) as Hn2 by (destruct H1 as (_ & _ & _ & _ & _ & _ & _ & _ & -> & _); done).
    cbn. rewrite lookup_insert_eq. cbn. rewrite Hn2.
    destruct (Z.leb_spec (ir_expires_at r) (db_now d)); [lia|]. by rewrite !bytes_eqb_refl.
  - pose proof (plain_plan first rest d d ltac:(done)) as Hp. fold ms in Hp.
    destruct (send_plan _ _ _) as [e|[response d2]]; [done|]. by destruct Hp.
Qed.

(** A batch is stored whole or no table changes; it fails only when its transaction
    does or its messages are of several servers. *)
Lemma pg_submission_cases failing d ms idem a :
  match pg_queue_messages failing d ms idem a with
  | (d', Stored) => batch_stored ms d d' ∧ allows a (outgoing_count ms) = true ∧ one_server ms ∧
      (∀ r, idem = Some r → remembered_as_stored ms r d d')
  | (d', SinkFailed _) => d' = d ∧ (failing = true ∨ ¬ one_server ms)
  | (d', _) => d' = d
  end.
Proof.
  unfold pg_queue_messages. destruct ms as [|first rest].
  { split_and!; [apply batch_stored_nil|unfold allows; by destruct (remaining a)|done|done]. }
  set (ms := first :: rest). destruct (allows a (outgoing_count ms)) eqn:Ea; cbn [negb].
  2:{ destruct idem as [r|]; [|done]. destruct failing; [by split; [|left]|]. by destruct (idempotency_lookup _ r d). }
  fold (plain ms). destruct failing; [split; [done|by left]|].
  pose proof (operation_plain first rest idem d) as H. cbv zeta in H. fold ms in H.
  destruct (store_send_operation _ _ _ _ _) as [[e|[]] d']; [|by destruct H|done|done].
  destruct H as [-> H]. split; [done|by right].
Qed.

(** The messages of a submission without a key whose transactions do not fail. *)
Fixpoint surviving (faults : list bool) (ms : list QueuedMessage) : list QueuedMessage :=
  match ms with
  | [] => []
  | m :: rest => (if from_option id false (head faults) then [] else [m]) ++ surviving (tail faults) rest
  end.

Lemma surviving_all faults ms : Forall (eq false) faults → surviving faults ms = ms.
Proof.
  revert faults. induction ms as [|m ms IH]; intros faults Hf; [done|]. cbn.
  destruct faults as [|f faults]; cbn; [by rewrite IH|]. apply Forall_cons in Hf as [<- Hf]. by rewrite IH.
Qed.

Lemma queue_each ms : ∀ k, batch_stored (surviving (sk_faults k) ms) (sk_db k) (sk_db (fold_left queue_message ms k)).
Proof.
  induction ms as [|m ms IH]; intros [d faults]; [apply batch_stored_nil|]. cbn [fold_left].
  specialize (IH (queue_message (mkPgMessageSink d faults) m)). revert IH. destruct faults as [|[|] faults]; cbn; [|done|];
    intros H; by apply batch_stored_cons.
Qed.

(** C32: A submission to the production sink, whichever transactions fail.  With an
    idempotency key it is all or nothing: stored, the batch is of one server and
    within the allowance, every message has a row and one queue row (the domain
    after the last [@], bulk exactly on a broadcast stream, ready at once), and the
    key answers a repetition; any other answer leaves every table as it was, and
    a temporary failure means that the transaction failed or the messages are of
    several servers.  Without a key it is all or nothing message by message: what
    is stored are the messages whose own transaction did not fail, in order, all of
    them when none fails, and the answer is the same. *)
Theorem pg_submission_atomic {St} t (w : World St PgMessageSink) ms idem a :
  let '(w', answer) := submit t w ms idem a in
  let d := sk_db (w_sink w) in
  let d' := sk_db (w_sink w') in
  match idem with
  | Some r =>
      match answer with
      | Stored =>
          batch_stored ms d d' ∧ allows a (outgoing_count ms) = true ∧ one_server ms ∧ remembered_as_stored ms r d d'
      | SinkFailed _ => d' = d ∧ (next_fault (w_sink w) = true ∨ ¬ one_server ms)
      | _ => d' = d
      end
  | None =>
      if allows a (outgoing_count ms) then
        answer = Stored ∧ batch_stored (surviving (sk_faults (w_sink w)) ms) d d' ∧
        (Forall (eq false) (sk_faults (w_sink w)) → batch_stored ms d d')
      else answer = LimitExceeded (rejection_message a) ∧ w' = w
  end.
Proof.
  unfold submit. destruct idem as [r|].
  - pose proof (pg_submission_cases (next_fault (w_sink w)) (sk_db (w_sink w)) ms (Some r) a) as H. cbn.
    destruct (pg_queue_messages _ _ _ _ _) as [d' []]; try exact H. destruct H as (H1 & H2 & H3 & H4). auto.
  - destruct (allows a (outgoing_count ms)); cbn [negb]; [|done]. cbn [w_sink].
    pose proof (queue_each ms (w_sink w)) as H. split_and!; [done|exact H|].
    intros Hf. by rewrite (surviving_all _ ms Hf) in H.
Qed.

Lemma batch_accepted ms d d' : batch_stored ms d d' → pg_accepted d' = pg_accepted d ++ ms.
Proof.
  intros (H & _). unfold pg_accepted. rewrite H, map_app. f_equal.
  clear H. generalize (db_next_message d). induction ms as [|m ms IH]; intros id; [done|]. cbn [batch_rows map].
  f_equal; [apply queued_of_message_row|apply IH].
Qed.

(** The production sink keeps the laws of the interface: the session's theorems hold
    of the SMTP server on PostgreSQL. *)
#[export] Program Instance PgSink_laws : MessageSinkLaws MailDb := {| accepted := pg_accepted |}.
Next Obligation.
  intros d m. apply (batch_accepted [m] d (pg_queue_message false d m)). apply batch_stored_cons, batch_stored_nil.
Qed.
Next Obligation.
  intros now d ms idem a. cbn. pose proof (pg_submission_cases false d ms idem a) as H.
  destruct (pg_queue_messages false d ms idem a) as [d' []]; cbn in *; try done. intros _.
  destruct H as (Hb & Ha & _). split; [by apply batch_accepted|done].
Qed.
Next Obligation.
  intros now d ms idem a. cbn. pose proof (pg_submission_cases false d ms idem a) as H.
  destruct (pg_queue_messages false d ms idem a) as [d' []]; cbn in *; try done; [by subst..|by destruct H as [-> _]].
Qed.
End PgSinkFacts.

(** ** A database that is down *)

#[local] Existing Instance concrete_crates.
#[local] Existing Instance concrete_case.
#[local] Existing Instance concrete_order.
#[local] Existing Instance concrete_ipnet.

(** [queue_message] logs the error of its transaction and returns nothing;
    [queue_messages] reports it. *)
Definition down_sink : MessageSink MemorySink :=
  {| queue_message k _ := k; queue_messages _ k _ _ _ := (k, SinkFailed !"connection refused") |}.

Definition submission (extra : list bytes) : list bytes :=
  [!"EHLO client"; !"AUTH LOGIN"; !"user"; !"keya"; !"MAIL FROM:<me@a.example>"; !"RCPT TO:<you@other.example>";
   !"DATA"; !"From: me@a.example"] ++ extra ++ [!""; !"."].
Definition submit_to (sink : MessageSink MemorySink) (lines : list bytes) : option (option Reply * list QueuedMessage) :=
  '(w, _, rs) ← run_lines (SNK := sink) fx_tick lines fx_world
    (fx_session fx_config_plain);
  Some (last rs, ms_messages (w_sink w)).

(** Without an idempotency key the final dot is answered 250 OK whatever became of
    the transaction: a message lost to a storage failure is acknowledged.  With a
    key the client gets a temporary error. *)
Theorem storage_failure_acknowledged :
  submit_to down_sink (submission []) = Some (Some (Line !"250 OK"), []) ∧
  submit_to down_sink (submission [!"CamelMailer-Idempotency-Key: k1"])
  = Some (Some (Line !"451 Temporary storage failure"), []).
Proof. split; vm_compute; reflexivity. Qed.

(** ** Lookups *)

Definition unique {A} (P : A → bool) (l : list A) : Prop := ∀ a b, a ∈ l → b ∈ l → P a = true → P b = true → a = b.

(** Where at most one row matches, the order of the rows does not matter. *)
Lemma find_agree {A} (P : A → bool) l1 l2 : (∀ x, x ∈ l1 ↔ x ∈ l2) → unique P l1 → List.find P l1 = List.find P l2.
Proof.
  intros Hl Hu. destruct (List.find P l1) as [a|] eqn:E1, (List.find P l2) as [b|] eqn:E2; try done.
  - apply find_some in E1 as [H1 P1], E2 as [H2 P2]. apply list_elem_of_In in H1, H2. f_equal. apply Hu; try done. by apply Hl.
  - apply find_some in E1 as [H1 P1]. apply list_elem_of_In, Hl, list_elem_of_In in H1. pose proof (List.find_none _ _ E2 a H1). congruence.
  - apply find_some in E2 as [H2 P2]. apply list_elem_of_In, Hl, list_elem_of_In in H2. pose proof (List.find_none _ _ E1 b H2). congruence.
Qed.

Lemma sorted_filter_elem {A} (le : A → A → bool) P l x : x ∈ stable_sort le (List.filter P l) ↔ x ∈ l ∧ P x = true.
Proof. by rewrite stable_sort_perm, list_elem_of_In, filter_In, list_elem_of_In. Qed.

Lemma find_ext {A} (P Q : A → bool) l : (∀ x, P x = Q x) → List.find P l = List.find Q l.
Proof. intros H. induction l as [|x l IH]; [done|]. cbn. by rewrite H, IH. Qed.

(** The rows of a table with primary key [key], as a map of the in-memory store. *)
Definition table_rows {A} (key : A → Id) (rows : list A) (table : gmap Id A) : Prop :=
  ∀ i r, table !! i = Some r ↔ r ∈ rows ∧ key r = i.

Lemma table_find {A} (key : A → Id) rows table i : table_rows key rows table →
  List.find (λ r, (key r =? i)%N) rows = table !! i.
Proof.
  intros H. destruct (List.find _ rows) as [r|] eqn:E.
  - apply find_some in E as [H1 H2%N.eqb_eq]. symmetry. apply H. split; [by apply list_elem_of_In|done].
  - destruct (table !! i) as [r|] eqn:E'; [|done]. apply H in E' as [H1 H2].
    pose proof (List.find_none _ _ E r (proj1 (list_elem_of_In _ _) H1)) as H3. cbn in H3. by apply N.eqb_neq in H3.
Qed.

Section Lookups.
Context `{ORD : !HashOrder, CRA : !Crates, IPN : !IpNetCrate} (sql_lower : bytes → bytes).

Lemma table_values {A} (key : A → Id) rows table r : table_rows key rows table → r ∈ rows ↔ r ∈ values table.
Proof.
  intros H. rewrite values_elem. split.
  - intros Hr. exists (key r). by apply H.
  - intros [i Hi]. by apply H in Hi as [? _].
Qed.

Lemma table_first {A} (key : A → Id) P rows table : table_rows key rows table → unique P rows →
  List.find P rows = List.find P (values table).
Proof. intros H. apply find_agree. intros r. by apply (table_values key). Qed.

(** The rows of the database are those of the in-memory store. *)
Record represents (s : PgStore) (m : MemoryStore) : Prop := {
  re_organizations : table_rows org_id (pt_organizations (ps_tables s)) (mem_organizations m);
  re_servers : table_rows srv_id (pt_servers (ps_tables s)) (mem_servers m);
  re_domains : table_rows dom_id (pt_domains (ps_tables s)) (mem_domains m);
  re_routes : table_rows rt_id (pt_routes (ps_tables s)) (mem_routes m);
  re_credentials : table_rows cred_id (pt_credentials (ps_tables s)) (mem_credentials m);
  re_senders : table_rows sa_id (pt_sender_addresses (ps_tables s)) (mem_sender_addresses m);
  re_policies : pt_policies (ps_tables s) = mem_organization_policies m;
  re_counters : db_send_counters (ps_mail s) = mem_send_counters m;
  re_months : db_organization_send_counters (ps_mail s) = mem_organization_send_counters m;
}.

Definition route_domain (t : PgTables) (r : Route) : option Domain := rt_domain_id r ≫= domain_row t.
Definition route_named (t : PgTables) (name domain : bytes) (r : Route) : bool :=
  (rt_name r =b name) && match route_domain t r with Some d => dom_name d =b domain | None => false end.

(** What rows are looked up by is unique: tokens, keys and permalinks, the name of a
    route on a domain, and the owner of a domain name a server may use. *)
Record keys_unique (t : PgTables) : Prop := {
  ku_smtp_key key : unique (λ c, bool_decide (cred_credential_type c = CtSmtp) && (cred_key c =b key)) (pt_credentials t);
  ku_credentials : NoDup (map cred_id (pt_credentials t));
  ku_server_token token : unique (λ r, srv_token r =b token) (pt_servers t);
  ku_route_token token : unique (λ r, rt_token r =b token) (pt_routes t);
  ku_route_name name domain : unique (route_named t name domain) (pt_routes t);
  ku_return_path id : unique (λ r, (rt_server_id r =? id)%N && (rt_name r =b !"__returnpath__")) (pt_routes t);
  ku_organization permalink : unique (λ o, org_permalink o =b permalink) (pt_organizations t);
  ku_server org permalink : unique (λ r, (srv_organization_id r =? org)%N && (srv_permalink r =b permalink)) (pt_servers t);
  ku_domain server name : unique (λ d, dom_verified d && (dom_name d =b name) && owner_is server d) (pt_domains t);
}.

Lemma first_route_find t P : unique (λ r, P r (route_domain t r)) (pt_routes t) →
  first_route t P = r ← List.find (λ r, P r (route_domain t r)) (pt_routes t);
                    server ← server_row t (rt_server_id r);
                    Some (mkResolvedRoute r server (from_option dom_name [] (route_domain t r))).
Proof.
  unfold first_route, route_with_server. fold (route_domain t). generalize (pt_routes t) as l. induction l as [|r l IH]; intros Hu; [done|].
  assert (unique (λ r, P r (route_domain t r)) l) as Hl by (intros a b Ha Hb; apply Hu; by right).
  cbn [omap list_omap List.find]. unfold route_domain in *. destruct (server_row t (rt_server_id r)) as [server|] eqn:Es;
    destruct (P r (rt_domain_id r ≫= domain_row t)) eqn:EP; cbn; rewrite ?EP, ?Es; [done|exact (IH Hl)| |exact (IH Hl)].
  assert (∀ x, x ∈ l → P x (rt_domain_id x ≫= domain_row t) = true → x = r) as Hx.
  { intros x Hin HP. apply Hu; [by right|by left|done|done]. }
  clear IH Hu Hl. induction l as [|x l IHl]; [done|]. cbn.
  destruct (P x (rt_domain_id x ≫= domain_row t)) eqn:EPx.
  - rewrite (Hx x) by (done || by left). rewrite Es. apply IHl. intros y Hy. apply Hx. by right.
  - destruct (server_row t (rt_server_id x)); cbn; apply IHl; intros y Hy; apply Hx; by right.
Qed.

Section Agree.
Context (s : PgStore) (m : MemoryStore) (R : represents s m) (U : keys_unique (ps_tables s)).

Lemma server_agrees id : server_row (ps_tables s) id = mem_servers m !! id.
Proof. apply table_find, R. Qed.
Lemma domain_agrees r : route_domain (ps_tables s) r = rt_domain_id r ≫= λ id, mem_domains m !! id.
Proof. unfold route_domain. destruct (rt_domain_id r) as [id|]; [|done]. cbn. apply table_find, R. Qed.

Lemma route_agrees P (Q : Route → bool) : (∀ r, P r (route_domain (ps_tables s) r) = Q r) → unique Q (pt_routes (ps_tables s)) →
  first_route (ps_tables s) P = r ← List.find Q (values (mem_routes m)); resolve_route m r.
Proof.
  intros HQ Hu. rewrite first_route_find by (intros a b; rewrite !HQ; apply Hu).
  rewrite (find_ext _ Q) by (intros; apply HQ). rewrite (table_first _ _ _ _ (re_routes s m R) Hu).
  destruct (List.find Q _) as [r|]; [|done]. cbn. unfold resolve_route. by rewrite server_agrees, domain_agrees.
Qed.

Lemma find_by_permalinks org srv_pl :
  pg_find_server_by_permalinks s org srv_pl = fetch_ok s QServerByPermalinks (mem_find_server_by_permalinks m org srv_pl).
Proof.
  unfold pg_find_server_by_permalinks, mem_find_server_by_permalinks. f_equal.
  rewrite <- (table_first _ _ _ _ (re_organizations s m R) (ku_organization _ U org)).
  assert (∀ id, organization_row (ps_tables s) id = mem_organizations m !! id) as Ho by (intros id; apply table_find, R).
  destruct (List.find _ (pt_organizations (ps_tables s))) as [o|] eqn:Eo; cbn.
  - apply find_some in Eo as [Ho1 Ho2]. apply list_elem_of_In in Ho1.
    rewrite <- (table_first _ _ _ _ (re_servers s m R) (ku_server _ U (org_id o) srv_pl)). apply find_ext. intros r.
    rewrite (andb_comm (srv_permalink r =b srv_pl)). f_equal. rewrite Ho.
    destruct (N.eqb_spec (srv_organization_id r) (org_id o)) as [->|Hne].
    + by rewrite (proj2 (re_organizations s m R (org_id o) o) (conj Ho1 eq_refl)).
    + destruct (mem_organizations m !! srv_organization_id r) as [o'|] eqn:E; [|done]. apply (re_organizations s m R) in E as [E1 E2].
      destruct (bytes_eqb_spec (org_permalink o') org) as [Hp|]; [|done]. exfalso. apply Hne. rewrite <- E2. f_equal.
      apply (ku_organization _ U org); [done..|by apply bytes_eqb_eq|done].
  - destruct (List.find _ (pt_servers (ps_tables s))) as [r|] eqn:Er; [|done]. apply find_some in Er as [_ Er].
    apply andb_true_iff in Er as [_ Er]. rewrite Ho in Er. destruct (mem_organizations m !! _) as [o|] eqn:E; [|done].
    apply (re_organizations s m R) in E as [E _]. pose proof (List.find_none _ _ Eo o (proj1 (list_elem_of_In _ _) E)). cbn in *. congruence.
Qed.

Lemma values_nodup {A} (key : A → Id) rows (table : gmap Id A) : table_rows key rows table → NoDup (values table).
Proof.
  intros H. unfold values. rewrite hash_order_perm. apply NoDup_fmap_2_strong; [|apply NoDup_map_to_list].
  intros [i r] [j r'] Hi Hj E. cbn in E. subst r'. apply elem_of_map_to_list, H in Hi as [_ <-]. apply elem_of_map_to_list, H in Hj as [_ <-]. done.
Qed.

(** Two answers to an address: neither, or two credentials that authorise it by networks
    of the same prefix length. *)
Definition equally_specific (ip : IpAddr) (a b : option Credential) : Prop :=
  match a, b with
  | Some c, Some c' => ∃ net net', authorises c net ip ∧ authorises c' net' ip ∧ net_prefix_len net = net_prefix_len net'
  | None, None => True
  | _, _ => False
  end.

Lemma match_ip_agree l l' ip : (∀ c, cred_credential_type c = CtSmtpIp → c ∈ l ↔ c ∈ l') →
  equally_specific ip (match_ip_credential l ip) (match_ip_credential l' ip).
Proof.
  intros Hl. pose proof (match_ip_credential_spec l ip) as H1. pose proof (match_ip_credential_spec l' ip) as H2. unfold equally_specific.
  destruct (match_ip_credential l ip) as [c|], (match_ip_credential l' ip) as [c'|]; [| | |done].
  - destruct H1 as (net & Hc & Ha & Hbest), H2 as (net' & Hc' & Ha' & Hbest'). exists net, net'. split_and!; [done..|].
    assert (c ∈ l' ∧ c' ∈ l) as [G G'] by (split; [by apply (Hl c (proj1 Ha))|by apply (Hl c' (proj1 Ha'))]).
    pose proof (Hbest c' net' G' Ha'). pose proof (Hbest' c net G Ha). lia.
  - destruct H1 as (net & Hc & Ha & _). apply (H2 c net); [|done]. by apply (Hl c (proj1 Ha)).
  - destruct H2 as (net & Hc & Ha & _). apply (H1 c' net); [|done]. by apply (Hl c' (proj1 Ha)).
Qed.

Lemma credentials_agree id : ps_failing s QSmtpCredentials = false →
  pg_smtp_credentials_for_server s id = mem_smtp_credentials_for_server m id.
Proof.
  intros Hf. unfold pg_smtp_credentials_for_server, mem_smtp_credentials_for_server, fetch. rewrite Hf. cbn [from_option].
  set (le := λ a b : Credential, (cred_id a <=? cred_id b)%N). set (P := λ c : Credential, _ && _).
  assert (pt_credentials (ps_tables s) ≡ₚ values (mem_credentials m)) as Hp.
  { apply NoDup_Permutation; [by apply (NoDup_fmap_1 cred_id), (ku_credentials _ U)|by eapply values_nodup, R|].
    intros c. by apply (table_values cred_id), R. }
  assert (∀ a b, le a b = false → le b a = true) as Htot by (intros a b; unfold le; rewrite N.leb_gt, N.leb_le; lia).
  assert (∀ a b c, le a b = true → le b c = true → le a c = true) as Htr by (intros a b c; unfold le; rewrite !N.leb_le; lia).
  assert (∀ l l' : list Credential, l ≡ₚ l' → List.filter P l ≡ₚ List.filter P l') as Hfp.
  { induction 1 as [|x l l' _ IH|x y l|l1 l2 l3 _ IH1 _ IH2]; cbn; [done| | |by etrans].
    - destruct (P x); [by f_equiv|done].
    - destruct (P x), (P y); try done. constructor. }
  apply (StronglySorted_unique_strong (λ a b, le a b = true)); [|by apply stable_sort_sorted..|by rewrite !stable_sort_perm; apply Hfp].
  intros a b Ha Hb H1 H2. apply sorted_filter_elem in Ha, Hb.
  unfold le in H1, H2. apply N.leb_le in H1, H2. assert (cred_id a = cred_id b) as Hid by lia.
  assert (b ∈ pt_credentials (ps_tables s)) as Hb' by (rewrite Hp; apply Hb).
  pose proof (proj2 (re_credentials s m R (cred_id a) a) (conj (proj1 Ha) eq_refl)) as E1.
  pose proof (proj2 (re_credentials s m R (cred_id a) b) (conj Hb' (eq_sym Hid))) as E2. congruence.
Qed.

Lemma head_sorted_find {A} (le : A → A → bool) P l : unique P l → head (stable_sort le (List.filter P l)) = List.find P l.
Proof.
  intros Hu. pose proof (sorted_filter_elem le P l) as Hx.
  destruct (stable_sort le (List.filter P l)) as [|a r] eqn:E, (List.find P l) as [b|] eqn:Eb; cbn; try done.
  - apply find_some in Eb as [H1 H2]. exfalso. apply (not_elem_of_nil b), Hx. split; [by apply list_elem_of_In|done].
  - apply find_some in Eb as [H1 H2]. f_equal. destruct (proj1 (Hx a)) as [Ha Pa]; [by left|]. apply Hu; try done. by apply list_elem_of_In.
  - destruct (proj1 (Hx a)) as [Ha Pa]; [by left|]. pose proof (List.find_none _ _ Eb a (proj1 (list_elem_of_In _ _) Ha)). congruence.
Qed.

Lemma find_filter {A} (P Q : A → bool) l : List.find P (List.filter Q l) = List.find (λ x, Q x && P x) l.
Proof. induction l as [|x l IH]; [done|]. cbn. destruct (Q x); cbn; [|exact IH]. destruct (P x); [done|exact IH]. Qed.

Lemma sender_domain_agrees server address : ps_failing s QDomain = false →
  pg_domain_for_address s server address = domain_for_address m server address.
Proof.
  intros Hf. unfold pg_domain_for_address, domain_for_address. cbv zeta.
  destruct (split_once _ _) as [[uname name]|]; [|done]. cbn. destruct (bool_decide _); [done|]. f_equal.
  unfold fetch_ok, fetch. rewrite Hf. cbn. rewrite head_sorted_find by apply (ku_domain _ U). rewrite find_filter.
  by apply (table_first dom_id); [apply R|apply (ku_domain _ U)].
Qed.

Lemma senders_agree id values_ : ps_failing s QSenderAddress = false →
  (∀ a b, sql_lower a = sql_lower b ↔ to_ascii_lowercase a = to_ascii_lowercase b) →
  pg_find_confirmed_sender_address sql_lower s id values_ = mem_find_confirmed_sender_address m id values_.
Proof.
  intros Hf Hl. unfold pg_find_confirmed_sender_address, mem_find_confirmed_sender_address. destruct values_ as [|v vs]; [done|].
  rewrite bool_decide_eq_false_2 by done. cbn [negb andb].
  assert (∀ v, from_option (λ b, b) false (confirmed_sender_address sql_lower s id (strip_name_from_address v)) =
    existsb (λ a, (sa_server_id a =? id)%N && sa_verified a && eq_ignore_ascii_case (sa_email_address a) (strip_name_from_address v))
      (values (mem_sender_addresses m))) as E.
  { intros x. unfold confirmed_sender_address, fetch. rewrite Hf. cbn [from_option].
    apply eq_true_iff_eq. rewrite !existsb_exists. unfold eq_ignore_ascii_case.
    assert (∀ a b, (sql_lower a =b sql_lower b) = (to_ascii_lowercase a =b to_ascii_lowercase b)) as Hb.
    { intros a b. apply eq_true_iff_eq. by rewrite !bytes_eqb_eq, Hl. }
    split; intros (a & Ha & Hc); exists a; (split; [apply list_elem_of_In; apply list_elem_of_In in Ha; by apply (table_values sa_id _ _ a (re_senders s m R))|]).
    - by rewrite <- Hb.
    - by rewrite Hb. }
  cbn [forallb]. rewrite E. f_equal. induction vs as [|x vs IH]; [done|]. cbn. by rewrite E, IH.
Qed.

(** Recording the use of a credential keeps the tables in step. *)
Lemma use_represents now id : ps_failing s QCredentialUse = false → db_now (ps_mail s) = now →
  represents (pg_record_credential_use s id) (mem_record_credential_use now m id).
Proof.
  intros Hf Hn. unfold pg_record_credential_use, mem_record_credential_use. rewrite Hf, Hn. destruct R as [R1 R2 R3 R4 R5 R6 R7 R8 R9].
  split; cbn; try assumption. intros i c. set (f := λ c, c <| cred_last_used_at := Some now |>).
  rewrite elem_of_map_list. destruct (N.eq_dec i id) as [->|Hne].
  - rewrite lookup_alter_eq, fmap_Some. split.
    + intros (x & Hx & ->). apply R5 in Hx as [Hx Hi]. split; [|done]. exists x. by rewrite Hi, N.eqb_refl.
    + intros [(x & Hx & ->) E]. destruct (N.eqb_spec (cred_id x) id) as [Ex|Ex]; [|done]. exists x. split; [by apply R5|done].
  - rewrite lookup_alter_ne by done. etrans; [apply (R5 i)|]. split.
    + intros [Hc Hi]. split; [|done]. exists c. split; [done|]. destruct (N.eqb_spec (cred_id c) id); [congruence|done].
    + intros [(x & Hx & ->) E]. destruct (N.eqb_spec (cred_id x) id) as [Ex|Ex]; [cbn in E; congruence|done].
Qed.
End Agree.

(** C28: The in-memory store, on which the program is tested, answers every lookup of a
    session like the production one, whatever the order of rows, provided that they
    hold the same rows, keys are unique, no query fails, and the database's [lower()]
    identifies the texts that ASCII lower case identifies.  The credential of an IP
    address is the same up to the choice between equally specific ones, which the
    order of rows decides.  Recording a use keeps the two in step. *)
Theorem pg_store_answers_like_memory s m now : represents s m → keys_unique (ps_tables s) →
  (∀ q, ps_failing s q = false) → db_now (ps_mail s) = now →
  (∀ a b, sql_lower a = sql_lower b ↔ to_ascii_lowercase a = to_ascii_lowercase b) →
  let pg := PgStore_store sql_lower in
  (∀ id, @st_organization _ pg s id = st_organization m id) ∧
  (∀ id, @st_server _ pg s id = st_server m id) ∧
  (∀ key, @find_smtp_credential_by_key _ pg s key = find_smtp_credential_by_key m key) ∧
  (∀ token, @find_server_by_token _ pg s token = find_server_by_token m token) ∧
  (∀ token, @find_route_by_token _ pg s token = find_route_by_token m token) ∧
  (∀ name domain, @find_route_by_name_and_domain _ pg s name domain = find_route_by_name_and_domain m name domain) ∧
  (∀ id, @smtp_credentials_for_server _ pg s id = smtp_credentials_for_server m id) ∧
  (∀ org server, @find_server_by_permalinks _ pg s org server = find_server_by_permalinks m org server) ∧
  (∀ id values_, @st_find_authenticated_domain _ pg s id values_ = st_find_authenticated_domain m id values_) ∧
  (∀ id, @send_usage _ pg now s id = send_usage now m id) ∧
  (∀ id, @send_policy_for_organization _ pg s id = send_policy_for_organization m id) ∧
  (∀ id, @organization_month_usage _ pg now s id = organization_month_usage now m id) ∧
  (∀ id, @return_path_route_for_server _ pg s id = return_path_route_for_server m id) ∧
  (∀ id values_, @find_confirmed_sender_address _ pg s id values_ = find_confirmed_sender_address m id values_) ∧
  (∀ ip, equally_specific ip (@find_ip_credential _ pg s ip) (find_ip_credential m ip)) ∧
  (∀ id, represents (@record_credential_use _ pg now s id) (record_credential_use now m id)).
Proof.
  intros R U Hf Hn Hl pg. cbn. unfold pg_organization, pg_server, pg_find_smtp_credential_by_key, pg_find_server_by_token,
    pg_find_route_by_token, pg_find_route_by_name_and_domain, pg_return_path_route_for_server, pg_send_policy_for_organization,
    organization_policy, pg_organization_month_usage, organization_send_usage, pg_store_send_usage, server_send_usage, fetch_ok, fetch.
  rewrite !Hf. cbn. repeat apply conj.
  - intros id. by apply table_find, R.
  - intros id. by apply table_find, R.
  - intros key. apply (table_first cred_id); [apply R|apply (ku_smtp_key _ U)].
  - intros token. apply (table_first srv_id); [apply R|apply (ku_server_token _ U)].
  - intros token. rewrite (route_agrees s m R _ (λ r, rt_token r =b token)); [done|done|apply (ku_route_token _ U)].
  - intros name domain. unfold mem_find_route_by_name_and_domain.
    rewrite (route_agrees s m R _ (route_named (ps_tables s) name domain)); [|done|apply (ku_route_name _ U)].
    rewrite (find_ext _ (λ r, (rt_name r =b name) && match rt_domain_id r ≫= λ id, mem_domains m !! id with
               | Some d => dom_name d =b domain | None => false end)); [done|].
    intros r. unfold route_named. by rewrite (domain_agrees s m R).
  - intros id. by apply credentials_agree.
  - intros org server. rewrite (find_by_permalinks s m R U). unfold fetch_ok, fetch. by rewrite Hf.
  - intros id values_. unfold pg_find_authenticated_domain, mem_find_authenticated_domain, pg_server, fetch_ok, fetch. rewrite Hf. cbn.
    rewrite (server_agrees s m R). destruct (mem_servers m !! id) as [server|]; [|done]. cbn.
    rewrite (map_ext _ _ (λ v, sender_domain_agrees s m R U server v (Hf QDomain))).
    destruct (map _ values_) as [|d rest]; [done|]. assert (∀ l : list (option Id), forallb (λ o, bool_decide (is_Some o)) l = forallb (λ o, match o with Some _ => true | None => false end) l) as H.
    { induction l as [|[x|] l IH]; [done|exact IH|done]. }
    specialize (H (d :: rest)). cbn [forallb] in *. by rewrite H.
  - intros id. unfold pg_send_usage, mem_send_usage. rewrite Hn, (re_counters s m R).
    rewrite !map_fold_foldr. apply foldr_ext; [|done..]. intros [key sent] total. cbn. destruct (in_window _ _ _); lia.
  - intros id. by rewrite (re_policies s m R).
  - intros id. by rewrite (re_months s m R).
  - intros id. by apply (route_agrees s m R _ (λ r, (rt_server_id r =? id)%N && (rt_name r =b !"__returnpath__"))); [|apply (ku_return_path _ U)].
  - intros id values_. by apply senders_agree.
  - intros ip. unfold pg_find_ip_credential, mem_find_ip_credential, fetch. rewrite Hf. cbn. apply match_ip_agree.
    intros c Hc. rewrite <- (table_values cred_id _ _ c (re_credentials s m R)), list_elem_of_In, filter_In, <- list_elem_of_In.
    rewrite bool_decide_eq_true_2 by done. tauto.
  - intros id. by apply use_represents.
Qed.
End Lookups.

(** ** Limits of a session on PostgreSQL *)

Section Submits.
Context {St Sk : Type} `{!Store St, !MessageSink Sk, !Crates, !UnicodeCase}.

(** Only a submission touches the sink, with the session's allowance. *)
Lemma finish_data_submits t (w : World St Sk) s w' s' r : finish_data t w s = Some (w', s', r) →
  w' = w ∨ ∃ q idem, w' = (submit t w q idem (session_allowance t w s)).1.
Proof.
  unfold finish_data, refuse.
  destruct (_ <? _)%N; [intros [= <- _ _]; by left|]. destruct (_ <? _)%nat; [intros [= <- _ _]; by left|].
  destruct (from_check _ _ _); [|intros [= <- _ _]; by left]. destruct (idempotency_key _ _); [intros [= <- _ _]; by left|].
  destruct (mapM _ _) as [q|]; cbn [mbind option_bind]; [|done]. destruct (submit t w q _ _) as [w1 oc] eqn:E. intros [= <- _ _].
  right. eexists q, _. by rewrite E.
Qed.

Lemma handle_submits t line (w : World St Sk) s w' s' r : handle t line w s = Some (w', s', r) →
  w_sink w' = w_sink w ∨ ∃ q idem, w' = (submit t w q idem (session_allowance t w s)).1.
Proof.
  unfold handle. destruct (match strip_suffix [CR] line with Some l => (l, true) | None => (line, false) end) as [l cr].
  destruct (dispatch t l w (s <| cr_present := cr |>)) as [[[w1 s1] r1]|] eqn:E; cbn [mbind option_bind]; [|done].
  intros Heq. injection Heq as <- _ _. set (s0 := s <| cr_present := cr |>) in *.
  destruct (decide (state s0 = Preauth ∨ input_mode s0 ≠ ModeData)) as [Hd|Hd]; [left; by eapply dispatch_sink|].
  apply Decidable.not_or in Hd as [Hs Hm]. apply dec_stable in Hm. unfold dispatch in E. rewrite decide_False, Hm in E by done.
  unfold data_line in E. destruct (_ && _).
  - apply finish_data_submits in E as [->|(q & idem & ->)]; [by left|right]. by exists q, idem.
  - destruct (store_line l s0) as [[s2 r2]|]; cbn [mbind option_bind] in E; [|done]. injection E as <- _ _. by left.
Qed.
End Submits.

Section Limits.
Context `{ORD : !HashOrder, CRA : !Crates, IPN : !IpNetCrate, CASE : !UnicodeCase, PAY : !Payloads} (sql_lower : bytes → bytes).
#[local] Instance the_store : Store PgStore := PgStore_store sql_lower.

Lemma submit_counted t (w : World PgStore MailDb) q idem a :
  w_sink (submit t w q idem a).1 = w_sink w ∨
  (counted q (w_sink w) (w_sink (submit t w q idem a).1) ∧ allows a (outgoing_count q) = true).
Proof.
  unfold submit. destruct idem as [i|].
  - cbn. unfold pg_queue_messages. destruct q as [|m q']; [by left|]. set (q := m :: q') in *.
    destruct (allows a (outgoing_count q)) eqn:Ha; cbn [negb].
    + pose proof (operation_counted false (qm_server_id m) [PlanMessages (map (λ m, mkSendPlanMessage m None) q)] (Some i) (w_sink w)) as H.
      assert (planned_messages [PlanMessages (map (λ m, mkSendPlanMessage m None) q)] = q) as Hq.
      { unfold planned_messages. cbn. f_equal. rewrite map_map. cbn. by rewrite map_id, app_nil_r. }
      rewrite Hq in H. destruct (store_send_operation _ _ _ _ _) as [[e|[]] d']; cbn in *; subst; auto.
    + left. destruct (idempotency_lookup _ _ _); done.
  - destruct (allows a (outgoing_count q)) eqn:Ha; cbn [negb]; [right|by left]. split; [|done]. cbn. clear Ha.
    generalize (w_sink w) as d. induction q as [|m q IH]; intros d; [apply counted_refl|].
    cbn. apply (counted_trans [m] q _ (pg_queue_message false d m)); [apply insert_counted|apply IH].
Qed.

Lemma session_allowance_bounds t (w : World PgStore MailDb) s c server n used' :
  (∀ q, ps_failing (w_store w) q = false) → credential s = Some c →
  server_row (ps_tables (w_store w)) (cred_server_id c) = Some server →
  allows (session_allowance t w s) n = true →
  (∀ limit, srv_send_limit server = Some limit → (used' <= pg_send_usage (srv_id server) (ps_mail (w_store w)) + n)%Z →
     (used' <= Z.max limit (pg_send_usage (srv_id server) (ps_mail (w_store w))))%Z) ∧
  (∀ limit used, pol_monthly_send_limit (from_option (λ p, p) policy_default
        (pt_policies (ps_tables (w_store w)) !! srv_organization_id server)) = Some limit →
     used = from_option (λ z, z) 0%Z (db_organization_send_counters (ps_mail (w_store w)) !!
              (srv_organization_id server, usage_month_of (t_now t))) →
     (used' <= used + n)%Z → (used' <= Z.max limit used)%Z).
Proof.
  intros Hf Hc Hs. unfold session_allowance. rewrite Hc. cbn [mbind option_bind]. cbn [st_server the_store PgStore_store].
  unfold pg_server, fetch_ok, fetch. rewrite Hf. cbn [mbind option_bind]. rewrite Hs.
  rewrite (proj1 (stricter_allows _ _ _)). intros [H1 H2]%andb_true_iff. split.
  - intros limit Hl Hu. rewrite Hl in H1.
    assert (send_usage (t_now t) (w_store w) (srv_id server) = pg_send_usage (srv_id server) (ps_mail (w_store w))) as E.
    { cbn. unfold pg_store_send_usage, server_send_usage, fetch. by rewrite Hf. }
    rewrite E in H1. by apply (allowance_bounds limit _ _ n _ H1).
  - intros limit used Hl -> Hu.
    assert (send_policy_for_organization (w_store w) (srv_organization_id server) = from_option (λ p, p) policy_default
      (pt_policies (ps_tables (w_store w)) !! srv_organization_id server)) as Ep.
    { cbn. unfold pg_send_policy_for_organization, organization_policy, fetch. by rewrite Hf. }
    rewrite Ep, Hl in H2.
    assert (organization_month_usage (t_now t) (w_store w) (srv_organization_id server) = from_option (λ z, z) 0%Z
      (db_organization_send_counters (ps_mail (w_store w)) !! (srv_organization_id server, usage_month_of (t_now t)))) as E.
    { cbn. unfold pg_organization_month_usage, organization_send_usage, fetch. by rewrite Hf. }
    rewrite E in H2. by apply (allowance_bounds limit _ _ n _ H2).
Qed.

(** On PostgreSQL a session never takes a server over its send limit or an
    organization over its monthly limit: whatever line it handles, the usage
    afterwards, counted from the counters the same transactions moved, is within the
    limit or what it was.  The store and the sink are the same database, no query
    fails, and nothing else is stored in between. *)
Theorem pg_session_within_limits t line (w : World PgStore MailDb) s w' s' r c server :
  handle t line w s = Some (w', s', r) → w_sink w = ps_mail (w_store w) → (∀ q, ps_failing (w_store w) q = false) →
  credential s = Some c → server_row (ps_tables (w_store w)) (cred_server_id c) = Some server →
  (∀ limit, srv_send_limit server = Some limit →
     (pg_send_usage (srv_id server) (w_sink w') <= Z.max limit (pg_send_usage (srv_id server) (w_sink w)))%Z) ∧
  (∀ limit, pol_monthly_send_limit (from_option (λ p, p) policy_default
        (pt_policies (ps_tables (w_store w)) !! srv_organization_id server)) = Some limit →
     usage_month_of (t_now t) = usage_month_of (db_now (w_sink w)) →
     (month_usage (srv_organization_id server) (w_sink w') <= Z.max limit (month_usage (srv_organization_id server) (w_sink w)))%Z).
Proof.
  intros Hh Hw Hf Hc Hs. apply handle_submits in Hh as [E|(q & idem & E)]; [rewrite E; split; lia|].
  destruct (submit_counted t w q idem (session_allowance t w s)) as [Es|[Hct Ha]]; subst w'; [rewrite Es; split; lia|].
  destruct Hct as [Hn Ho Hu Hm]. split.
  - intros limit Hl. rewrite Hw in Hu |- *.
    apply (proj1 (session_allowance_bounds t w s c server _ _ Hf Hc Hs Ha) limit Hl). rewrite Hu.
    pose proof (sent_by_bound (N.eqb (srv_id server)) q). lia.
  - intros limit Hl Hmonth. apply (proj2 (session_allowance_bounds t w s c server _ _ Hf Hc Hs Ha) limit _ Hl).
    + unfold month_usage. by rewrite <- Hw, Hmonth.
    + rewrite Hm. pose proof (sent_by_bound (in_organization (srv_organization_id server) (w_sink w)) q). lia.
Qed.

(** When the policy of an organization cannot be read its gate is open: a suspended
    organization is not suspended, and one that used up its month may send any number,
    since without a limit the usage is not read.  A failed read of the usage closes
    the gate. *)
Theorem policy_failure_opens_gate t (w : World PgStore MailDb) s c server n : ps_failing (w_store w) QPolicy = true →
  credential s = Some c → pg_server (w_store w) (cred_server_id c) = Some server → srv_send_limit server = None →
  pol_suspended (send_policy_for_organization (w_store w) (srv_organization_id server)) = false ∧
  allows (session_allowance t w s) n = true.
Proof.
  intros Hf Hc Hs Hl. cbn. unfold pg_send_policy_for_organization, organization_policy, fetch. rewrite Hf. split; [done|].
  unfold session_allowance. rewrite Hc. cbn. rewrite Hs, Hl. cbn.
  unfold pg_send_policy_for_organization, organization_policy, fetch. by rewrite Hf.
Qed.
End Limits.

(** ** A server with a limit of one message *)

#[local] Existing Instance concrete_crates.
#[local] Existing Instance concrete_case.
#[local] Existing Instance concrete_order.
#[local] Existing Instance concrete_ipnet.
#[local] Existing Instance concrete_payloads.

Definition fx_limited : Server :=
  mkServer 1 !"uuid" 1 !"name" !"a" !"token-a" Live false None false false false None false false (Some 1%Z)
    None None None None None None None None.
Definition fx_org : Organization := mkOrganization 1 !"uuid" !"A" !"orga" false.
Definition fx_memory : MemoryStore :=
  insert_domain (fx_domain 11 1 !"a.example") (insert_credential (fx_credential 100 1 !"keya")
  (insert_server fx_limited (insert_organization fx_org memory_store_new))).
Definition fx_pg : PgStore :=
  mkPgStore (mkPgTables [fx_org] ∅ [fx_limited] [fx_domain 11 1 !"a.example"] [] [fx_credential 100 1 !"keya"] [] [] [])
    fx_db (λ _, false).

Lemma table_one {A} (key : A → Id) r : table_rows key [r] (<[key r := r]> ∅).
Proof.
  intros i x. rewrite list_elem_of_singleton. destruct (N.eq_dec i (key r)) as [->|Hne].
  - rewrite lookup_insert_eq. split; [intros [= <-]; done|by intros [-> _]].
  - rewrite lookup_insert_ne, lookup_empty by done. split; [done|]. intros [-> E]. congruence.
Qed.
Lemma table_none {A} (key : A → Id) : table_rows key [] ∅.
Proof. intros i x. rewrite lookup_empty. split; [done|]. by intros [H%not_elem_of_nil _]. Qed.

Lemma fx_represents : represents fx_pg fx_memory.
Proof.
  split; [apply (table_one org_id fx_org)|apply (table_one srv_id fx_limited)|apply (table_one dom_id (fx_domain 11 1 !"a.example"))
    |apply table_none|apply (table_one cred_id (fx_credential 100 1 !"keya"))|apply table_none|done..].
Qed.
Lemma fx_unique : keys_unique (ps_tables fx_pg).
Proof.
  assert (∀ (A : Type) (P : A → bool) x, unique P [x]) as H1.
  { intros A P x a b Ha Hb _ _. apply list_elem_of_singleton in Ha as ->. by apply list_elem_of_singleton in Hb as ->. }
  assert (∀ (A : Type) (P : A → bool), unique P []) as H0 by (intros A P a b Ha; by apply not_elem_of_nil in Ha).
  split; intros; cbn; first [apply H1|apply H0|apply NoDup_singleton].
Qed.

Theorem pg_store_answers_like_memory_witness :
  let pg := PgStore_store to_ascii_lowercase in
  @find_smtp_credential_by_key _ pg fx_pg !"keya" = Some (fx_credential 100 1 !"keya") ∧
  @find_smtp_credential_by_key _ pg fx_pg !"keya" = find_smtp_credential_by_key fx_memory !"keya" ∧
  @st_find_authenticated_domain _ pg fx_pg 1 [!"Me <me@a.example>"] = Some 11%N ∧
  @st_find_authenticated_domain _ pg fx_pg 1 [!"Me <me@a.example>"] = st_find_authenticated_domain fx_memory 1 [!"Me <me@a.example>"].
Proof.
  pose proof (pg_store_answers_like_memory to_ascii_lowercase fx_pg fx_memory 0 fx_represents fx_unique (λ _, eq_refl) eq_refl
    (λ a b, iff_refl _)) as H.
  cbv zeta in *. destruct H as (_ & _ & H3 & _ & _ & _ & _ & _ & H9 & _).
  split; [vm_compute; reflexivity|]. split; [apply H3|]. split; [vm_compute; reflexivity|apply H9].
Defined.

#[local] Instance fx_pg_store : Store PgStore := PgStore_store to_ascii_lowercase.
Definition pg_after (lines : list bytes) : option (World PgStore MailDb * Session * list Reply) :=
  run_lines fx_tick lines (mkWorld fx_pg fx_db) (fx_session fx_config_plain).
Definition pg_world : World PgStore MailDb := match pg_after fx_dialogue with Some (w, _, _) => w | None => mkWorld fx_pg fx_db end.
Definition pg_session : Session := match pg_after fx_dialogue with Some (_, s, _) => s | None => fx_session fx_config_plain end.

Theorem pg_session_within_limits_witness : ∃ w' s' r,
  handle fx_tick (!"." ++ [CR]) pg_world pg_session = Some (w', s', r) ∧
  length (db_messages (w_sink w')) = 1 ∧ (pg_send_usage 1 (w_sink w') <= 1)%Z.
Proof.
  destruct (handle fx_tick (!"." ++ [CR]) pg_world pg_session) as [[[w' s'] r]|] eqn:E; [|vm_compute in E; discriminate].
  exists w', s', r. split; [done|]. split; [vm_compute in E; injection E as <- _ _; reflexivity|].
  apply (proj1 (pg_session_within_limits to_ascii_lowercase fx_tick (!"." ++ [CR]) pg_world pg_session w' s' r (fx_credential 100 1 !"keya") fx_limited
    E ltac:(vm_compute; reflexivity) ltac:(vm_compute; reflexivity) ltac:(vm_compute; reflexivity) ltac:(vm_compute; reflexivity)) 1%Z).
  vm_compute; reflexivity.
Defined.
