(* ===== verification/Compose.v ===== *)
(** * Compose: the messages of the HTTP send path

    The building half of [camelmailer-core/src/mime.rs].  What is handed to the
    [mail-builder] crate is a value, and writing it to bytes is a parameter. *)

From S2P Require Import Prelude RustStr Net.
#[local] Set Warnings "-register-all".

Record Address := mkAddress { ad_name : option bytes; ad_email : bytes }.
Definition address_new (email : bytes) : Address := mkAddress None email.

Record Attachment := mkAttachment {
  at_filename : bytes;
  at_content_type : bytes;
  at_data : bytes;
  at_content_id : option bytes;
}.

Record BuildParams := mkBuildParams {
  bp_from : Address;
  bp_to : list Address;
  bp_cc : list Address;
  bp_bcc : list Address;
  bp_reply_to : list Address;
  bp_subject : bytes;
  bp_html_body : option bytes;
  bp_text_body : option bytes;
  bp_headers : list (bytes * bytes);
  bp_attachments : list Attachment;
  bp_message_id : option bytes;
}.
#[export] Instance eta_BuildParams : Eta BuildParams := λ p,
  mkBuildParams (bp_from p) (bp_to p) (bp_cc p) (bp_bcc p) (bp_reply_to p) (bp_subject p) (bp_html_body p)
    (bp_text_body p) (bp_headers p) (bp_attachments p) (bp_message_id p).

(** ** What the builder is told *)

Inductive MimePart :=
| Leaf (content_type content : bytes)
| InlineLeaf (content_type content cid : bytes)
| AttachedLeaf (content_type content filename : bytes)
| Multipart (content_type : bytes) (parts : list MimePart).

(** The calls of [MessageBuilder], in their order; names and addresses are pairs. *)
Record MessageBuilder := mkMessageBuilder {
  mb_from : bytes * bytes;
  mb_to : list (bytes * bytes);
  mb_cc : list (bytes * bytes);
  mb_bcc : list (bytes * bytes);
  mb_reply_to : list (bytes * bytes);
  mb_subject : bytes;
  mb_message_id : option bytes;
  mb_headers : list (bytes * bytes);
  mb_body : MimePart;
}.

(** The crate's writer, whose text of a builder may depend on the time and on random
    boundaries ([nonce]), and a fresh uuid. *)
Class MailBuilder := {
  write_to_vec : Z → MessageBuilder → option bytes;
  message_uuid : Z → bytes;
}.

Section Compose.
Context `{MB : !MailBuilder}.

Definition synthesized_message_id (nonce : Z) (from_email : bytes) : option bytes :=
  '(_, domain) ← rsplit_once (is_byte "@") from_email;
  let domain := trim domain in
  match domain with
  | [] => None
  | _ => Some (message_uuid nonce ++ !"@" ++ to_ascii_lowercase domain)
  end.

Definition to_mail_addresses : list Address → list (bytes * bytes) := map (λ a, (from_option id [] (ad_name a), ad_email a)).

Definition RESERVED_HEADERS : list bytes :=
  [!"from"; !"to"; !"cc"; !"bcc"; !"reply-to"; !"subject"; !"date"; !"message-id"; !"content-type";
   !"content-transfer-encoding"; !"mime-version"].
Definition is_reserved_header (name : bytes) : bool := existsb (bytes_eqb (to_ascii_lowercase name)) RESERVED_HEADERS.

Definition inline_part (a : Attachment) : MimePart := InlineLeaf (at_content_type a) (at_data a) (from_option id [] (at_content_id a)).
Definition attached_part (a : Attachment) : MimePart := AttachedLeaf (at_content_type a) (at_data a) (at_filename a).

Definition body_part (p : BuildParams) (inline attached : list Attachment) : MimePart :=
  let html := (λ html, let html_part := Leaf !"text/html" html in
                       match inline with
                       | [] => html_part
                       | _ => Multipart !"multipart/related" (html_part :: map inline_part inline)
                       end) <$> bp_html_body p in
  let text := Leaf !"text/plain" <$> bp_text_body p in
  let content :=
    match text, html with
    | Some text, Some html => Multipart !"multipart/alternative" [text; html]
    | None, Some html => html
    | Some text, None => text
    | None, None => Leaf !"text/plain" []
    end in
  match attached with
  | [] => content
  | _ => Multipart !"multipart/mixed" (content :: map attached_part attached)
  end.

(** An attachment with a content id is inline, when there is an HTML body. *)
Definition is_inline (p : BuildParams) (a : Attachment) : bool :=
  bool_decide (is_Some (at_content_id a)) && bool_decide (is_Some (bp_html_body p)).

Definition message_builder (nonce : Z) (p : BuildParams) : MessageBuilder :=
  mkMessageBuilder (from_option id [] (ad_name (bp_from p)), ad_email (bp_from p)) (to_mail_addresses (bp_to p))
    (to_mail_addresses (bp_cc p)) (to_mail_addresses (bp_bcc p)) (to_mail_addresses (bp_reply_to p)) (bp_subject p)
    (match bp_message_id p with Some id => Some id | None => synthesized_message_id nonce (ad_email (bp_from p)) end)
    (List.filter (λ h, negb (is_reserved_header h.1)) (bp_headers p))
    (body_part p (List.filter (is_inline p) (bp_attachments p)) (List.filter (λ a, negb (is_inline p a)) (bp_attachments p))).

Definition build_message (nonce : Z) (p : BuildParams) : bytes := from_option id [] (write_to_vec nonce (message_builder nonce p)).
End Compose.
