(* ===== verification/ApiSend.v ===== *)
(** * ApiSend: sending over HTTP

    The send half of [camelmailer-api/src/server_api.rs], with the allowance of
    [camelmailer-api/src/quota.rs], on the production store.  A handler returns the
    rendered error or the status and data of the response; the envelope around them
    and serde's parsing of the request are not modelled.  Random tokens are functions
    of a number. *)

From S2P Require Import Prelude RustStr Net Model SendLimit Message MemoryStore Queue MailDb PgSink Housekeeping PgStore Compose.

(** A rendered error: status, code and message. *)
Definition ApiError : Type := N * bytes * bytes.
Abbreviation Api := (sum ApiError).
#[export] Instance api_ret : MRet Api := λ A, inr.
#[export] Instance api_bind : MBind Api := λ A B f m, match m with inl e => inl e | inr a => f a end.

Definition internal_error : ApiError := (500%N, !"InternalServerError", !"An internal error occurred").
Definition validation_error (message : bytes) : ApiError := (422%N, !"ValidationError", message).
Definition ok_or {A} (e : ApiError) (o : option A) : Api A := match o with Some a => inr a | None => inl e end.
Definition guard_error (refuse : bool) (e : ApiError) : Api unit := if refuse then inl e else inr tt.

(** Fresh unsubscribe tokens, [{:?}] of a string, strict base64, and the normalised
    JSON of a request. *)
Class ApiCrates (Body : Type) := {
  unsubscribe_token : Z → bytes;
  debug_str : bytes → bytes;
  b64_decode_strict : bytes → option bytes;
  normalized_json : Body → bytes;
}.

(** ** Requests *)

Inductive AddressOrString := AString (email : bytes) | AObject (email : bytes) (name : option bytes).
Definition to_address (a : AddressOrString) : Address :=
  match a with AString email => mkAddress None email | AObject email name => mkAddress name email end.

Record AttachmentInput := mkAttachmentInput {
  ai_name : bytes;
  ai_content_type : bytes;
  ai_data_base64 : bytes;
  ai_content_id : option bytes;
}.

(** [headers] in the order its [HashMap] is read. *)
Record SendMessage := mkSendMessage {
  sm_from : option AddressOrString;
  sm_to : list AddressOrString;
  sm_cc : list AddressOrString;
  sm_bcc : list AddressOrString;
  sm_reply_to : list AddressOrString;
  sm_subject : option bytes;
  sm_html_body : option bytes;
  sm_text_body : option bytes;
  sm_headers : list (bytes * bytes);
  sm_attachments : list AttachmentInput;
  sm_tag : option bytes;
  sm_metadata : option Value;
  sm_stream : option bytes;
}.

Record ApiConfig := mkApiConfig { ac_track_domain : bytes; ac_web_protocol : bytes }.

Section ApiSend.
Context `{ORD : !HashOrder, CASE : !UnicodeCase, CRA : !Crates, PAY : !Payloads, MB : !MailBuilder, API : !ApiCrates SendMessage}
  (sql_lower : bytes → bytes) (config : ApiConfig).

(** ** Parts of a request *)

Definition content_id_char (c : ascii) : bool :=
  is_ascii_alphanumeric c || existsb (Ascii.eqb c) !".-_@+$".
Definition content_id (raw : option bytes) (name : bytes) : Api (option bytes) :=
  match raw with
  | None => inr None
  | Some raw =>
      let cid := trim_end_matches (is_byte ">") (trim_start_matches (is_byte "<") (trim raw)) in
      if bool_decide (cid = []) || (250 <? length cid)%nat || negb (forallb content_id_char cid)
      then inl (validation_error (!"attachment " ++ debug_str name ++ !" has an invalid content_id"))
      else inr (Some cid)
  end.

Definition attachment (a : AttachmentInput) : Api Attachment :=
  data ← ok_or (validation_error (!"attachment " ++ debug_str (ai_name a) ++ !" has invalid base64 data"))
           (b64_decode_strict (ai_data_base64 a));
  cid ← content_id (ai_content_id a) (ai_name a);
  inr (mkAttachment (ai_name a) (ai_content_type a) data cid).
Fixpoint attachments (l : list AttachmentInput) : Api (list Attachment) :=
  match l with
  | [] => inr []
  | a :: l => a ← attachment a; l ← attachments l; inr (a :: l)
  end.

(** ** Idempotency *)

Definition IDEMPOTENCY_KEY_MAX_CHARS : nat := 256.
Definition IDEMPOTENCY_RETENTION_HOURS : Z := 24.
Definition invalid_key (message : bytes) : ApiError := (400%N, !"InvalidIdempotencyKey", message).

(** [values] are the values of the [Idempotency-Key] headers of the request; the
    payload is given as its normalised text. *)
Definition idempotency_request (now : datetime) (values : list bytes) (operation payload : bytes) : Api (option IdempotencyRequest) :=
  match values with
  | [] => inr None
  | _ :: _ :: _ => inl (invalid_key !"Idempotency-Key must be provided only once")
  | [key] =>
      if negb (forallb (b_in 32 126) key)
      then inl (invalid_key !"Idempotency-Key must contain visible ASCII characters")
      else if bool_decide (key = []) || (IDEMPOTENCY_KEY_MAX_CHARS <? length key)%nat
      then inl (invalid_key (!"Idempotency-Key must be between 1 and 256 characters"))
      else inr (Some (mkIdempotencyRequest (to_hex (sha256 key)) (to_hex (sha256 payload)) operation
                        (now + hours IDEMPOTENCY_RETENTION_HOURS)))
  end.

Definition idempotency_conflict : ApiError :=
  (409%N, !"InvalidIdempotentRequest", !"The same idempotency key was used with a different request").

Definition cached_send_operation (s : PgStore) (server_id : Id) (request : option IdempotencyRequest) :
    Api (option SendOperationResult) :=
  match request with
  | None => inr None
  | Some request =>
      lookup ← ok_or internal_error (fetch s QIdempotency (idempotency_lookup server_id request (ps_mail s)));
      match lookup with
      | LookupNew => inr None
      | LookupReplay response => inr (Some response)
      | LookupConflict => inl idempotency_conflict
      end
  end.

(** ** Preparing *)

Definition domain_of (address : bytes) : option bytes := snd <$> rsplit_once (is_byte "@") address.
Definition saturating_add_i64 (a b : Z) : Z := Z.max i64_min (Z.min i64_max (a + b)).

(** [quota::organization_allowance] *)
Definition organization_allowance (s : PgStore) (now : datetime) (organization_id : Id) : option (OrganizationPolicy * SendAllowance) :=
  policy ← organization_policy s organization_id;
  used ← match pol_monthly_send_limit policy with
         | Some _ => organization_send_usage s organization_id (usage_month_of now)
         | None => Some 0%Z
         end;
  Some (policy, allowance_organization (pol_monthly_send_limit policy) used).

(** The organization gate and the stricter of the two allowances. *)
Definition check_allowance (s : PgStore) (now : datetime) (server : Server) (pending recipients : Z) : Api unit :=
  '(policy, org_allowance) ← ok_or internal_error (organization_allowance s now (srv_organization_id server));
  _ ← guard_error (pol_suspended policy)
        (403%N, !"OrganizationSuspended",
         match pol_suspension_reason policy with
         | Some reason => !"This organization has been suspended: " ++ reason
         | None => !"This organization has been suspended"
         end);
  server_allowance ←
    match srv_send_limit server with
    | Some limit =>
        used ← ok_or internal_error (server_send_usage s (srv_id server));
        inr (allowance_server (Some limit) (saturating_add_i64 used pending))
    | None => inr unlimited
    end;
  let org_allowance := allowance_organization (sl_limit org_allowance) (saturating_add_i64 (sl_used org_allowance) pending) in
  let allowance := stricter server_allowance org_allowance in
  guard_error (negb (allows allowance recipients)) (429%N, error_code allowance, rejection_message allowance).

(** The authenticated domain of the sender, or none for a confirmed address. *)
Definition authorize_from (s : PgStore) (server : Server) (from : Address) : Api (option Id) :=
  from_domain ← ok_or (validation_error !"From address is not a valid email") (domain_of (ad_email from));
  domain ← ok_or internal_error (authenticated_domain s (srv_id server) from_domain);
  match domain with
  | Some domain_id => inr (Some domain_id)
  | None =>
      confirmed ← ok_or internal_error (confirmed_sender_address sql_lower s (srv_id server) (ad_email from));
      if confirmed : bool then inr None
      else inl (validation_error (!"From domain " ++ debug_str from_domain ++ !" is not a verified sender for this server"))
  end.

Definition is_broadcast_stream (m : MessageStream) : bool := str_stream_type m =b !"broadcast".
(** The stream's id, whether it is broadcast, and its name for messages. *)
Definition target_stream (s : PgStore) (server : Server) (stream : option bytes) : Api (option Id * bool * bytes) :=
  match stream with
  | Some permalink =>
      stream ← ok_or internal_error (stream_by_permalink s (srv_id server) permalink);
      match stream with
      | Some stream =>
          if str_archived stream then inl (validation_error (!"Message stream " ++ debug_str permalink ++ !" is archived"))
          else inr (Some (str_id stream), is_broadcast_stream stream, str_permalink stream)
      | None => inl (validation_error (!"Message stream " ++ debug_str permalink ++ !" does not exist"))
      end
  | None =>
      match srv_default_stream_id server with
      | Some id =>
          streams ← ok_or internal_error (list_streams s (srv_id server));
          match List.find (λ m, (str_id m =? id)%N) streams with
          | Some stream => inr (Some id, is_broadcast_stream stream, str_permalink stream)
          | None => inr (Some id, false, [])
          end
      | None => inr (None, false, [])
      end
  end.

(** Consent: the first recipient who has not opted in refuses the request. *)
Fixpoint check_consent (s : PgStore) (server_id stream_id : Id) (label : bytes) (recipients : list Address) : Api unit :=
  match recipients with
  | [] => inr tt
  | r :: recipients =>
      subscribed ← ok_or internal_error (is_subscribed s server_id stream_id (ad_email r));
      if subscribed : bool then check_consent s server_id stream_id label recipients
      else inl (validation_error (ad_email r ++ !" has not opted in to the " ++ label ++ !" stream"))
  end.

(** *** Broadcast messages *)

(** Sequential [replace]s; none introduces a character a later one replaces, apart
    from [&], which is first. *)
Definition footer_escape : bytes → bytes :=
  flat_map (λ c, if Ascii.eqb c "&" then !"&amp;" else if Ascii.eqb c "<" then !"&lt;" else if Ascii.eqb c ">" then !"&gt;"
                 else if Ascii.eqb c DQ then !"&quot;" else [c]).
Definition html_footer (unsubscribe_url : bytes) (address : option bytes) : bytes :=
  !"<div style=" ++ [DQ] ++ !"margin-top:24px;padding-top:16px;border-top:1px solid #e5e5e5;font-family:Arial,sans-serif;"
  ++ !"font-size:12px;color:#8a8a8a;" ++ [DQ] ++ !">You are receiving this because you subscribed. <a href=" ++ [DQ]
  ++ unsubscribe_url ++ [DQ] ++ !" style=" ++ [DQ] ++ !"color:#8a8a8a;" ++ [DQ] ++ !">Unsubscribe</a>."
  ++ match address with Some a => !"<br>" ++ footer_escape a | None => [] end ++ !"</div>".
Definition text_footer (unsubscribe_url : bytes) (address : option bytes) : bytes :=
  [LF; LF] ++ !"--" ++ [LF] ++ !"Unsubscribe: " ++ unsubscribe_url
  ++ match address with Some a => LF :: a | None => [] end.

Definition track_host (s : PgStore) (server_id : Id) : bytes :=
  match effective_track_domain s server_id with Some (Some name) => name | _ => ac_track_domain config end.

Definition broadcast_params (s : PgStore) (server : Server) (token : bytes) (p : BuildParams) : BuildParams :=
  let host := track_host s (srv_id server) in
  let unsubscribe_url := ac_web_protocol config ++ !"://" ++ host ++ !"/track/u/" ++ token in
  let address := srv_broadcast_physical_address server in
  p <| bp_headers := bp_headers p ++
         [(!"List-Unsubscribe", !"<" ++ unsubscribe_url ++ !">, <mailto:unsubscribe@" ++ host ++ !">");
          (!"List-Unsubscribe-Post", !"List-Unsubscribe=One-Click")] |>
    <| bp_html_body := Some (from_option id [] (bp_html_body p) ++ html_footer unsubscribe_url address) |>
    <| bp_text_body := Some (match bp_text_body p with
                             | Some body => body ++ text_footer unsubscribe_url address
                             | None => trim_start (text_footer unsubscribe_url address)
                             end) |>.

(** *** One stored message per recipient *)

Definition queued (server : Server) (from : Address) (domain_id stream_id : option Id) (body : SendMessage) (raw : bytes)
    (recipient : Address) : QueuedMessage :=
  mkQueuedMessage (srv_id server) (ad_email recipient) (ad_email from) raw false Outgoing false domain_id None None (sm_tag body)
    (sm_metadata body) stream_id.

Fixpoint plan_messages (s : PgStore) (server : Server) (from : Address) (domain_id stream_id : option Id) (broadcast : bool)
    (body : SendMessage) (p : BuildParams) (raw : bytes) (nonce : Z) (recipients : list Address) : list SendPlanMessage :=
  match recipients with
  | [] => []
  | r :: recipients =>
      (if broadcast then
         let token := unsubscribe_token nonce in
         mkSendPlanMessage (queued server from domain_id stream_id body (build_message nonce (broadcast_params s server token p)) r)
           (Some (mkPendingUnsubscribeToken token stream_id (ad_email r)))
       else mkSendPlanMessage (queued server from domain_id stream_id body raw r) None)
      :: plan_messages s server from domain_id stream_id broadcast body p raw (nonce + 1) recipients
  end.

Definition recipients_of (body : SendMessage) : list Address :=
  map to_address (sm_to body) ++ map to_address (sm_cc body) ++ map to_address (sm_bcc body).

Definition build_params (from : Address) (body : SendMessage) (attachments : list Attachment) : BuildParams :=
  mkBuildParams from (map to_address (sm_to body)) (map to_address (sm_cc body)) (map to_address (sm_bcc body))
    (map to_address (sm_reply_to body)) (from_option id [] (sm_subject body)) (sm_html_body body) (sm_text_body body)
    (sm_headers body) attachments None.

Definition missing (param : bytes) : ApiError :=
  (400%N, !"ParameterMissing", !"param is missing or the value is empty: " ++ param).

Definition prepare_send (s : PgStore) (now : datetime) (nonce : Z) (server : Server) (body : SendMessage) (pending_recipients : Z) :
    Api (list SendPlanMessage) :=
  from ← ok_or (missing !"from")
           (from ← to_address <$> sm_from body; if bool_decide (ad_email from = []) then None else Some from);
  let recipients := recipients_of body in
  _ ← guard_error (bool_decide (recipients = [])) (missing !"to");
  _ ← check_allowance s now server pending_recipients (Z.of_nat (length recipients));
  domain_id ← authorize_from s server from;
  '(stream_id, broadcast, label) ← target_stream s server (sm_stream body);
  attachments ← attachments (sm_attachments body);
  let p := build_params from body attachments in
  _ ← match stream_id with
      | Some stream_id => if broadcast : bool then check_consent s (srv_id server) stream_id label recipients else inr tt
      | None => inr tt
      end;
  inr (plan_messages s server from domain_id stream_id broadcast body p (build_message nonce p) (nonce + 1) recipients).

(** ** Storing and answering *)

(** The transaction and its answer. *)
Definition store_send_plan (s : PgStore) (server_id : Id) (plan : list SendPlanItem) (idempotency : option IdempotencyRequest) :
    Api SendOperationResult * PgStore :=
  let '(outcome, d) := store_send_operation (ps_failing s QStoreSend) server_id plan idempotency (ps_mail s) in
  (match outcome with
   | inr (SendStored response) | inr (SendReplayed response) => inr response
   | inr SendConflict => inl idempotency_conflict
   | inl error => inl (500%N, !"InternalServerError", error)
   end, s <| ps_mail := d |>).

Definition stored_send_json (send : StoredSendResult) : Value :=
  VObject [(!"message_id", match ssr_message_id send with Some id => VNumber (show_Z id) | None => VNull end);
    (!"recipients", VArray (map (λ sent, VObject [(!"message_id", VNumber (show_Z (sm_id sent))); (!"rcpt_to", VString (sm_rcpt_to sent));
       (!"status", VString !"queued"); (!"token", VString (sm_token sent))]) (ssr_recipients send)))].

Definition single_send_json (response : SendOperationResult) : Api Value :=
  match response with
  | [ItemSuccess send] => inr (stored_send_json send)
  | _ => inl (500%N, !"InternalServerError", !"invalid stored send response")
  end.
Definition batch_send_json (response : SendOperationResult) : Value :=
  VObject [(!"messages", VArray (map (λ item,
    match item with
    | ItemSuccess send => VObject [(!"data", stored_send_json send); (!"status", VString !"success")]
    | ItemError code message =>
        VObject [(!"error", VObject [(!"code", VString code); (!"message", VString message)]); (!"status", VString !"error")]
    end) response))].

Definition reconcile_single_send_error (s : PgStore) (server_id : Id) (idempotency : option IdempotencyRequest) (error : ApiError) :
    Api Value :=
  cached ← cached_send_operation s server_id idempotency;
  match cached with Some response => single_send_json response | None => inl error end.

(** [enqueue_send], for platform mail and campaigns. *)
Definition enqueue_send (s : PgStore) (now : datetime) (nonce : Z) (server : Server) (body : SendMessage) : Api Value * PgStore :=
  match prepare_send s now nonce server body 0 with
  | inl error => (inl error, s)
  | inr messages =>
      let '(response, s) := store_send_plan s (srv_id server) [PlanMessages messages] None in
      (response ← response; single_send_json response, s)
  end.

(** A handler awaits the database between its steps; [others n] is what other requests
    do to it before the [n]-th of them. *)
Definition messages_send (others : nat → PgStore → PgStore) (s : PgStore) (now : datetime) (nonce : Z) (server : Server)
    (keys : list bytes) (body : SendMessage) : Api Value * PgStore :=
  match idempotency_request now keys !"messages.send" (normalized_json body) with
  | inl error => (inl error, s)
  | inr idempotency =>
      let s := others 0 s in
      match cached_send_operation s (srv_id server) idempotency with
      | inl error => (inl error, s)
      | inr (Some response) => (single_send_json response, s)
      | inr None =>
          let s := others 1 s in
          match prepare_send s now nonce server body 0 with
          | inr messages =>
              let '(response, s) := store_send_plan (others 2 s) (srv_id server) [PlanMessages messages] idempotency in
              (response ← response; single_send_json response, s)
          | inl error =>
              let s := others 2 s in (reconcile_single_send_error s (srv_id server) idempotency error, s)
          end
      end
  end.

(** The entries of a batch, each counted against what the ones before it reserve. *)
Fixpoint batch_plan (s : PgStore) (now : datetime) (nonce : Z) (server : Server) (bodies : list SendMessage) (pending : Z) :
    list SendPlanItem :=
  match bodies with
  | [] => []
  | body :: bodies =>
      match prepare_send s now nonce server body pending with
      | inr messages =>
          let n := Z.of_nat (length messages) in
          PlanMessages messages :: batch_plan s now (nonce + n + 1) server bodies (pending + n)
      | inl (_, code, message) => PlanError code message :: batch_plan s now (nonce + 1) server bodies pending
      end
  end.

Definition messages_send_batch (others : nat → PgStore → PgStore) (s : PgStore) (now : datetime) (nonce : Z) (server : Server)
    (keys : list bytes) (payload : bytes) (bodies : list SendMessage) : Api Value * PgStore :=
  match idempotency_request now keys !"messages.send_batch" payload with
  | inl error => (inl error, s)
  | inr idempotency =>
      let s := others 0 s in
      match cached_send_operation s (srv_id server) idempotency with
      | inl error => (inl error, s)
      | inr (Some response) => (inr (batch_send_json response), s)
      | inr None =>
          let s := others 1 s in
          let plan := batch_plan s now nonce server bodies 0 in
          let '(response, s) := store_send_plan (others 2 s) (srv_id server) plan idempotency in
          (response ← response; inr (batch_send_json response), s)
      end
  end.

(** ** Authentication *)

(** [server_auth_middleware] around a handler. *)
Definition server_auth {A} (s : PgStore) (key : bytes) (next : Server → PgStore → Api A * PgStore) : Api A * PgStore :=
  let unauthorized message : Api A * PgStore := (inl (401%N, !"Unauthorized", message), s) in
  match key with
  | [] => unauthorized !"Missing X-Server-API-Key header"
  | _ =>
      match server_for_api_token s key with
      | (Some (Some server), s) =>
          if srv_suspended server then (inl (401%N, !"Unauthorized", !"This server has been suspended"), s)
          else next server s
      | (Some None, s) => (inl (401%N, !"Unauthorized", !"Invalid server API token"), s)
      | (None, s) => (inl internal_error, s)
      end
  end.
End ApiSend.
