(* ===== verification/ApiSendFacts.v ===== *)
(** * ApiSendFacts: what the HTTP send path stores

    Who may send what to whom, replays of a request, limits under concurrent requests,
    and opting out. *)

From S2P Require Import Prelude RustStr RustStrFacts Net Model SendLimit SendLimitFacts Message MemoryStore Queue.
From S2P Require Import MailDb PgSink Housekeeping HousekeepingFacts PgStore Concrete PgStoreFacts Compose.
From S2P Require Import ApiSend SessionFacts SessionAuth SessionProps QueueFacts MailDbFacts.

(** ** The error monad *)

Lemma api_bind_inr {A B} (m : Api A) (f : A → Api B) v : (m ≫= f) = inr v ↔ ∃ a, m = inr a ∧ f a = inr v.
Proof. destruct m as [e|a]; cbn; split; [done|by intros (? & ? & _)|by exists a|by intros (? & [= ->] & ?)]. Qed.
Lemma ok_or_inr {A} e (o : option A) a : ok_or e o = inr a ↔ o = Some a.
Proof. destruct o; cbn; split; congruence. Qed.
Lemma guard_inr b e u : guard_error b e = inr u ↔ b = false.
Proof. destruct b, u; cbn; split; congruence. Qed.

Ltac api_inv :=
  repeat match goal with
  | H : (_ ≫= _) = inr _ |- _ => apply api_bind_inr in H as (? & ? & H)
  | H : ok_or _ _ = inr _ |- _ => apply ok_or_inr in H
  | H : guard_error _ _ = inr _ |- _ => apply guard_inr in H
  | H : inr _ = inr _ |- _ => injection H as H
  | H : inl _ = inr _ |- _ => discriminate
  end; simplify_eq.

Section Facts.
Context `{ORD : !HashOrder, CASE : !UnicodeCase, CRA : !Crates, PAY : !Payloads, MB : !MailBuilder, API : !ApiCrates SendMessage}
  (sql_lower : bytes → bytes) (config : ApiConfig).
Abbreviation prepare_send := (prepare_send sql_lower config).
Abbreviation messages_send := (messages_send sql_lower config).
Abbreviation batch_plan := (batch_plan sql_lower config).
Abbreviation plan_messages := (plan_messages config).

(** ** Preparing *)

Lemma prepare_send_inv s now nonce server body pending msgs : prepare_send s now nonce server body pending = inr msgs →
  ∃ from domain_id stream broadcast label atts,
    to_address <$> sm_from body = Some from ∧ ad_email from ≠ [] ∧ recipients_of body ≠ [] ∧
    check_allowance s now server pending (Z.of_nat (length (recipients_of body))) = inr tt ∧
    authorize_from sql_lower s server from = inr domain_id ∧
    target_stream s server (sm_stream body) = inr (stream, broadcast, label) ∧
    attachments (sm_attachments body) = inr atts ∧
    (∀ id, stream = Some id → broadcast = true → check_consent s (srv_id server) id label (recipients_of body) = inr tt) ∧
    msgs = plan_messages s server from domain_id stream broadcast body (build_params from body atts)
             (build_message nonce (build_params from body atts)) (nonce + 1) (recipients_of body).
Proof.
  unfold ApiSend.prepare_send. intros H. apply api_bind_inr in H as (from & Hf & H). apply ok_or_inr in Hf.
  apply api_bind_inr in H as ([] & Hr & H). apply guard_inr, bool_decide_eq_false in Hr.
  apply api_bind_inr in H as ([] & Ha & H). apply api_bind_inr in H as (domain_id & Hd & H).
  apply api_bind_inr in H as ([[stream broadcast] label] & Ht & H). apply api_bind_inr in H as (atts & Hat & H).
  apply api_bind_inr in H as (u & Hc & H). injection H as <-.
  destruct (to_address <$> sm_from body) as [f|] eqn:Ef; cbn in Hf; [|done].
  destruct (bool_decide_reflect (ad_email f = [])) as [|Hne]; [done|]. injection Hf as ->.
  exists from, domain_id, stream, broadcast, label, atts. split_and!; try done.
  intros id -> ->. destruct u. exact Hc.
Qed.

Lemma organization_allowance_inv s now org policy a : organization_allowance s now org = Some (policy, a) →
  organization_policy s org = Some policy ∧
  match pol_monthly_send_limit policy with
  | Some limit => ∃ used, organization_send_usage s org (usage_month_of now) = Some used ∧ a = allowance_organization (Some limit) used
  | None => a = allowance_organization None 0
  end.
Proof.
  unfold organization_allowance. destruct (organization_policy s org) as [p|]; cbn [mbind option_bind]; [|done].
  destruct (pol_monthly_send_limit p) eqn:E; [destruct (organization_send_usage s org _) as [used|]; cbn; [|done]|cbn];
    intros [= <- <-]; rewrite ?E; eauto.
Qed.

(** What passing the gate means. *)
Lemma check_allowance_inv s now server pending n : check_allowance s now server pending n = inr tt →
  ∃ policy, organization_policy s (srv_organization_id server) = Some policy ∧ pol_suspended policy = false ∧
  (∀ limit, srv_send_limit server = Some limit → ∃ used, server_send_usage s (srv_id server) = Some used ∧
     allows (allowance_server (Some limit) (saturating_add_i64 used pending)) n = true) ∧
  (∀ limit, pol_monthly_send_limit policy = Some limit → ∃ used,
     organization_send_usage s (srv_organization_id server) (usage_month_of now) = Some used ∧
     allows (allowance_organization (Some limit) (saturating_add_i64 used pending)) n = true).
Proof.
  unfold check_allowance. intros H. apply api_bind_inr in H as ([policy oa] & Ho & H). apply ok_or_inr in Ho.
  apply organization_allowance_inv in Ho as [Hp Hoa]. apply api_bind_inr in H as (u & Hs & H). apply guard_inr in Hs.
  apply api_bind_inr in H as (sa & Hsa & H). apply guard_inr, negb_false_iff in H.
  rewrite (proj1 (stricter_allows _ _ _)) in H. apply andb_true_iff in H as [H1 H2].
  exists policy. split_and!; [done|done| |].
  - intros limit Hl. rewrite Hl in Hsa. apply api_bind_inr in Hsa as (used & Hu & Hsa). apply ok_or_inr in Hu.
    injection Hsa as <-. by exists used.
  - intros limit Hl. rewrite Hl in Hoa. destruct Hoa as (used & Hu & ->). by exists used.
Qed.

Lemma authorize_from_inv s server from domain_id : authorize_from sql_lower s server from = inr domain_id →
  (∃ d row, domain_id = Some (dom_id d) ∧ d ∈ pt_domains (ps_tables s) ∧ dom_verified d = true ∧
     domain_of (ad_email from) = Some (dom_name d) ∧ server_row (ps_tables s) (srv_id server) = Some row ∧ owner_is row d = true) ∨
  (domain_id = None ∧ ∃ a, a ∈ pt_sender_addresses (ps_tables s) ∧ sa_server_id a = srv_id server ∧ sa_verified a = true ∧
     sql_lower (sa_email_address a) = sql_lower (ad_email from)).
Proof.
  unfold authorize_from. intros H. apply api_bind_inr in H as (name & Hn & H). apply ok_or_inr in Hn.
  apply api_bind_inr in H as (domain & Hd & H). apply ok_or_inr in Hd. destruct domain as [i|].
  - injection H as <-. left. unfold authenticated_domain, fetch in Hd. destruct (ps_failing s QDomain); [done|].
    destruct (server_row _ _) as [row|] eqn:Er; [|done]. cbn in Hd. destruct (List.find _ _) as [d|] eqn:Ef; [|done].
    injection Hd as <-. apply find_some in Ef as [H1 H2]. apply list_elem_of_In in H1.
    apply andb_true_iff in H2 as [[H2 H3]%andb_true_iff H4]. apply bytes_eqb_eq in H3 as <-. by exists d, row.
  - apply api_bind_inr in H as (confirmed & Hc & H). apply ok_or_inr in Hc. destruct confirmed; [|done].
    injection H as <-. right. split; [done|]. unfold confirmed_sender_address, fetch in Hc.
    destruct (ps_failing _ _); [done|]. injection Hc as Hc. apply existsb_exists in Hc as (a & H1 & H2). apply list_elem_of_In in H1.
    apply andb_true_iff in H2 as [[H2 H3]%andb_true_iff H4]. apply N.eqb_eq in H2. apply bytes_eqb_eq in H4. by exists a.
Qed.

Definition subscribed (s : PgStore) (server_id stream_id : Id) (address : bytes) : Prop :=
  db_subscriptions (ps_mail s) !! (server_id, stream_id, address) = Some !"subscribed".

Lemma check_consent_inv s server_id stream_id label recipients : check_consent s server_id stream_id label recipients = inr tt →
  Forall (λ r, subscribed s server_id stream_id (ad_email r)) recipients.
Proof.
  induction recipients as [|r l IH]; [by constructor|]. cbn [check_consent]. intros H.
  apply api_bind_inr in H as (b & Hb & H). apply ok_or_inr in Hb. destruct b; [|done]. constructor; [|by apply IH].
  unfold is_subscribed, fetch in Hb. destruct (ps_failing _ _); [done|]. injection Hb as Hb. by apply bool_decide_eq_true in Hb.
Qed.

(** The planned messages, one per recipient in order. *)
Lemma plan_messages_rcpts s server from dom stream bc body p raw nonce recipients :
  map (λ m, qm_rcpt_to (spm_message m)) (plan_messages s server from dom stream bc body p raw nonce recipients) = map ad_email recipients.
Proof. revert nonce. induction recipients as [|r l IH]; intros k; [done|]. cbn. destruct bc; cbn; by rewrite IH. Qed.

Definition planned_for (s : PgStore) (server : Server) (from : Address) (dom stream : option Id) (bc : bool) (body : SendMessage)
    (p : BuildParams) (raw : bytes) (m : SendPlanMessage) : Prop :=
  ∃ r, r ∈ recipients_of body ∧
  if bc then ∃ k, spm_message m = queued server from dom stream body
                    (build_message k (broadcast_params config s server (unsubscribe_token k) p)) r ∧
                  spm_unsubscribe_token m = Some (mkPendingUnsubscribeToken (unsubscribe_token k) stream (ad_email r))
  else spm_message m = queued server from dom stream body raw r ∧ spm_unsubscribe_token m = None.

Lemma plan_messages_all s server from dom stream bc body p raw nonce recipients : recipients ⊆ recipients_of body →
  Forall (planned_for s server from dom stream bc body p raw) (plan_messages s server from dom stream bc body p raw nonce recipients).
Proof.
  revert nonce. induction recipients as [|r l IH]; intros k Hr; [by constructor|]. cbn [ApiSend.plan_messages]. constructor.
  - exists r. split; [apply Hr; by left|]. destruct bc; [by exists k|done].
  - apply IH. intros x Hx. apply Hr. by right.
Qed.

Lemma prepared_length s now nonce server body pending msgs : prepare_send s now nonce server body pending = inr msgs →
  length msgs = length (recipients_of body).
Proof.
  intros (from & dom & st & bc & lb & atts & _ & _ & _ & _ & _ & _ & _ & _ & ->)%prepare_send_inv.
  by rewrite <- (length_map (λ m, qm_rcpt_to (spm_message m))), plan_messages_rcpts, length_map.
Qed.

(** C12: What a prepared request may contain.  The organization is not suspended; the
    sender's domain is a verified domain of the server or its organization, or the
    sender is a confirmed address; there is one outgoing message per recipient of To,
    Cc and Bcc, in that order, from that sender and of that server.  On a broadcast
    stream every recipient has opted in and has a token of its own; otherwise all the
    recipients get the same bytes, those of a builder that is told the Bcc recipients
    too. *)
Theorem prepared_messages s now nonce server body pending msgs : prepare_send s now nonce server body pending = inr msgs →
  ∃ from domain_id stream broadcast label atts policy, let p := build_params from body atts in
    to_address <$> sm_from body = Some from ∧
    organization_policy s (srv_organization_id server) = Some policy ∧ pol_suspended policy = false ∧
    target_stream s server (sm_stream body) = inr (stream, broadcast, label) ∧
    ((∃ d row, domain_id = Some (dom_id d) ∧ d ∈ pt_domains (ps_tables s) ∧ dom_verified d = true ∧
        domain_of (ad_email from) = Some (dom_name d) ∧ server_row (ps_tables s) (srv_id server) = Some row ∧ owner_is row d = true) ∨
     (domain_id = None ∧ ∃ a, a ∈ pt_sender_addresses (ps_tables s) ∧ sa_server_id a = srv_id server ∧ sa_verified a = true ∧
        sql_lower (sa_email_address a) = sql_lower (ad_email from))) ∧
    msgs ≠ [] ∧ map (λ m, qm_rcpt_to (spm_message m)) msgs = map ad_email (recipients_of body) ∧
    Forall (λ m, qm_server_id (spm_message m) = srv_id server ∧ qm_scope (spm_message m) = Outgoing ∧
      qm_mail_from (spm_message m) = ad_email from ∧ qm_stream_id (spm_message m) = stream) msgs ∧
    (∀ id, stream = Some id → broadcast = true →
       Forall (λ r, subscribed s (srv_id server) id (ad_email r)) (recipients_of body) ∧
       Forall (λ m, ∃ token, spm_unsubscribe_token m = Some (mkPendingUnsubscribeToken token (Some id) (qm_rcpt_to (spm_message m)))) msgs) ∧
    (broadcast = false →
       Forall (λ m, qm_raw_message (spm_message m) = from_option id [] (write_to_vec nonce (message_builder nonce p)) ∧
                    spm_unsubscribe_token m = None) msgs ∧
       mb_bcc (message_builder nonce p) = to_mail_addresses (map to_address (sm_bcc body))).
Proof.
  intros (from & dom & st & bc & lb & atts & Hf & Hne & Hr & Ha & Hd & Ht & Hat & Hc & ->)%prepare_send_inv.
  apply check_allowance_inv in Ha as (policy & Hp & Hs & _). apply authorize_from_inv in Hd.
  exists from, dom, st, bc, lb, atts, policy. cbv zeta.
  pose proof (plan_messages_all s server from dom st bc body (build_params from body atts)
    (build_message nonce (build_params from body atts)) (nonce + 1) (recipients_of body) (reflexivity _)) as Hall.
  split_and!; [done|done|done|done|done| |apply plan_messages_rcpts| | |].
  - destruct (recipients_of body); [done|]. by cbn.
  - eapply Forall_impl; [exact Hall|]. intros m (r & _ & Hm). destruct bc.
    + destruct Hm as (k & -> & _). done.
    + by destruct Hm as [-> _].
  - intros id -> ->. split; [by eapply check_consent_inv, Hc|]. eapply Forall_impl; [exact Hall|].
    intros m (r & _ & k & Hm & ->). exists (unsubscribe_token k). by rewrite Hm.
  - intros ->. split; [|done]. eapply Forall_impl; [exact Hall|]. intros m (r & _ & -> & ->). done.
Qed.

(** ** Limits *)

Lemma saturating_allows limit used pending n scope : (limit <= i64_max)%Z → (0 < n)%Z →
  allows (mkSendAllowance (Some limit) (saturating_add_i64 used pending) scope) n = true → (used + pending + n <= limit)%Z.
Proof.
  intros Hl Hn. unfold allows, remaining, saturating_add_i64. cbn. intros [H|H]%orb_true_iff; apply Z.leb_le in H; [lia|].
  unfold i64_min, i64_max in *. lia.
Qed.

(** Room for [q] under a limit. *)
Definition fits (limit used pending : Z) (q : list QueuedMessage) : Prop :=
  q = [] ∨ (used + pending + Z.of_nat (length q) <= limit)%Z.
Definition limits_allow (s : PgStore) (now : datetime) (server : Server) (pending : Z) (q : list QueuedMessage) : Prop :=
  (∀ limit, srv_send_limit server = Some limit → (limit <= i64_max)%Z →
     fits limit (pg_send_usage (srv_id server) (ps_mail s)) pending q) ∧
  (∀ policy limit, organization_policy s (srv_organization_id server) = Some policy → pol_monthly_send_limit policy = Some limit →
     (limit <= i64_max)%Z →
     fits limit (from_option id 0%Z (db_organization_send_counters (ps_mail s) !! (srv_organization_id server, usage_month_of now))) pending q).

Lemma prepared_fits s now nonce server body pending msgs : prepare_send s now nonce server body pending = inr msgs →
  limits_allow s now server pending (map spm_message msgs).
Proof.
  intros H. pose proof (prepared_length _ _ _ _ _ _ _ H) as Hlen.
  apply prepare_send_inv in H as (from & dom & st & bc & lb & atts & _ & _ & Hr & Ha & _).
  apply check_allowance_inv in Ha as (policy & Hp & _ & H1 & H2).
  assert (0 < Z.of_nat (length (recipients_of body)))%Z as Hpos by (destruct (recipients_of body); [done|cbn; lia]).
  split.
  - intros limit Hl Hmax. destruct (H1 limit Hl) as (used & Hu & Hok). right. rewrite length_map, Hlen.
    apply saturating_allows in Hok; [|done|done]. unfold server_send_usage, fetch in Hu. destruct (ps_failing _ _); congruence.
  - intros policy' limit Hp' Hl Hmax. rewrite Hp in Hp'. injection Hp' as <-. destruct (H2 limit Hl) as (used & Hu & Hok). right.
    rewrite length_map, Hlen. apply saturating_allows in Hok; [|done|done]. unfold organization_send_usage, fetch in Hu.
    destruct (ps_failing _ _); [done|]. injection Hu as <-. exact Hok.
Qed.

Lemma fits_app limit used pending q1 q2 : q1 ≠ [] → fits limit used pending q1 →
  fits limit used (pending + Z.of_nat (length q1)) q2 → fits limit used pending (q1 ++ q2).
Proof. intros Hne [|H1] [->|H2]; [done|done|right; rewrite app_nil_r; lia|right; rewrite length_app; lia]. Qed.

(** The entries of a batch count what the entries before them reserve. *)
Lemma batch_fits s now server bodies : ∀ nonce pending,
  limits_allow s now server pending (planned_messages (batch_plan s now nonce server bodies pending)).
Proof.
  induction bodies as [|body bodies IH]; intros nonce pending; [split; intros; by left|]. cbn [ApiSend.batch_plan].
  destruct (prepare_send s now nonce server body pending) as [[[st code] message]|msgs] eqn:E.
  - exact (IH _ _).
  - pose proof (prepared_fits _ _ _ _ _ _ _ E) as [F1 F2]. pose proof (prepared_length _ _ _ _ _ _ _ E) as Hlen.
    apply prepare_send_inv in E as (from & dom & st & bc & lb & atts & _ & _ & Hr & _).
    assert (map spm_message msgs ≠ []) as Hne by (intros ?%map_eq_nil; subst; destruct (recipients_of body); [done|discriminate]).
    destruct (IH (nonce + Z.of_nat (length msgs) + 1)%Z (pending + Z.of_nat (length msgs))%Z) as [G1 G2].
    unfold planned_messages in *. cbn. rewrite <- (length_map spm_message) in *.
    split; intros; apply fits_app; eauto.
Qed.

Lemma store_send_plan_counted s server_id plan idem r s' : store_send_plan s server_id plan idem = (r, s') →
  ps_mail s' = ps_mail s ∨ counted (planned_messages plan) (ps_mail s) (ps_mail s').
Proof.
  unfold store_send_plan. pose proof (operation_counted (ps_failing s QStoreSend) server_id plan idem (ps_mail s)) as H.
  destruct (store_send_operation _ server_id plan idem (ps_mail s)) as [outcome d]. intros [= _ <-].
  cbn. destruct outcome as [e|[]]; auto.
Qed.

(** *** Usage after a request *)

Definition server_usage (server : Server) (s : PgStore) : Z := pg_send_usage (srv_id server) (ps_mail s).
Definition organization_usage (server : Server) (s : PgStore) : Z := month_usage (srv_organization_id server) (ps_mail s).

(** The database as the last statement of a request meets it. *)
Definition moments (others : nat → PgStore → PgStore) (s : PgStore) : list PgStore :=
  [s; others 0 s; others 2 (others 1 (others 0 s))].
(** [after] stores what [check] had room for, on top of [before]. *)
Definition within (limit check before after : Z) : Prop := (after <= Z.max before (limit + (before - check)))%Z.

Lemma stored_within s_check s_store s' now server plan idem r :
  limits_allow s_check now server 0 (planned_messages plan) → store_send_plan s_store (srv_id server) plan idem = (r, s') →
  (∀ limit, srv_send_limit server = Some limit → (limit <= i64_max)%Z →
     within limit (server_usage server s_check) (server_usage server s_store) (server_usage server s')) ∧
  (∀ policy limit, organization_policy s_check (srv_organization_id server) = Some policy →
     pol_monthly_send_limit policy = Some limit → (limit <= i64_max)%Z → usage_month_of (db_now (ps_mail s_check)) = usage_month_of now →
     within limit (organization_usage server s_check) (organization_usage server s_store) (organization_usage server s')).
Proof.
  intros [F1 F2] [E|[_ _ Hs Ho]]%store_send_plan_counted; unfold within, server_usage, organization_usage.
  - split; intros; rewrite E; lia.
  - set (q := planned_messages plan) in *. assert (∀ P, sent_by P q <= Z.of_nat (length q))%Z as Hq.
    { intros P. unfold sent_by. pose proof (List.filter_length_le (λ m, bool_decide (qm_scope m = Outgoing) && P (qm_server_id m)) q). lia. }
    assert (∀ P, q = [] → sent_by P q = 0%Z) as Hn by (by intros P ->).
    split.
    + intros limit Hl Hmax. rewrite Hs. specialize (Hq (N.eqb (srv_id server))). specialize (Hn (N.eqb (srv_id server))).
      destruct (F1 limit Hl Hmax) as [?|?]; [rewrite Hn by done|]; lia.
    + intros policy limit Hp Hl Hmax Hm. rewrite Ho. set (P := in_organization _ _). specialize (Hq P). specialize (Hn P).
      destruct (F2 policy limit Hp Hl Hmax) as [Hf|Hf]; [rewrite Hn by done; lia|].
      unfold month_usage at 2 4. rewrite Hm. lia.
Qed.

(** Whichever way a request ends, it left the database as it met it, or it stored a
    plan that fitted the limits when they were read. *)
Lemma messages_send_stores others s now nonce server keys body r s' : messages_send others s now nonce server keys body = (r, s') →
  s' = s ∨ s' = others 0 s ∨ s' = others 2 (others 1 (others 0 s)) ∨
  ∃ plan idem r', limits_allow (others 1 (others 0 s)) now server 0 (planned_messages plan) ∧
    store_send_plan (others 2 (others 1 (others 0 s))) (srv_id server) plan idem = (r', s').
Proof.
  unfold ApiSend.messages_send. destruct (idempotency_request _ _ _ _) as [e|idem]; [intros [= _ <-]; auto|].
  destruct (cached_send_operation _ _ idem) as [e|[response|]]; [intros [= _ <-]; auto..|].
  destruct (prepare_send _ _ _ _ _ _) as [e|msgs] eqn:E; [intros [= _ <-]; auto|].
  destruct (store_send_plan _ _ _ _) as [r' s1] eqn:Es. intros [= _ <-]. right; right; right. eexists _, _, _. split; [|exact Es].
  apply prepared_fits in E. unfold planned_messages. cbn. by rewrite app_nil_r.
Qed.
Lemma batch_send_stores others s now nonce server keys payload bodies r s' :
  messages_send_batch sql_lower config others s now nonce server keys payload bodies = (r, s') →
  s' = s ∨ s' = others 0 s ∨ s' = others 2 (others 1 (others 0 s)) ∨
  ∃ plan idem r', limits_allow (others 1 (others 0 s)) now server 0 (planned_messages plan) ∧
    store_send_plan (others 2 (others 1 (others 0 s))) (srv_id server) plan idem = (r', s').
Proof.
  unfold messages_send_batch. destruct (idempotency_request _ _ _ _) as [e|idem]; [intros [= _ <-]; auto|].
  destruct (cached_send_operation _ _ idem) as [e|[response|]]; [intros [= _ <-]; auto..|].
  destruct (store_send_plan _ _ _ _) as [r' s1] eqn:Es. intros [= _ <-]. right; right; right. eexists _, _, _. split; [|exact Es].
  apply batch_fits.
Qed.

(** C13: A request to send one message or a batch, to any number of recipients, takes
    neither the server over its limit nor its organization over the monthly one by more
    than what other requests stored between the reading of the usage and the
    transaction: what it adds fits under the limit as it was read.  Without such
    requests the limits hold. *)
Theorem http_sends_within_limits others s now nonce server keys body payload bodies r s' :
  messages_send others s now nonce server keys body = (r, s') ∨
  messages_send_batch sql_lower config others s now nonce server keys payload bodies = (r, s') →
  let check := others 1 (others 0 s) in
  ∃ before, before ∈ moments others s ∧
    (∀ limit, srv_send_limit server = Some limit → (limit <= i64_max)%Z →
       within limit (server_usage server check) (server_usage server before) (server_usage server s')) ∧
    (∀ policy limit, organization_policy check (srv_organization_id server) = Some policy →
       pol_monthly_send_limit policy = Some limit → (limit <= i64_max)%Z → usage_month_of (db_now (ps_mail check)) = usage_month_of now →
       within limit (organization_usage server check) (organization_usage server before) (organization_usage server s')).
Proof.
  intros H. cbv zeta. unfold moments.
  assert (∀ x, s' = x → ∀ limit check f, within limit check (f x) (f s')) as Hsame by (intros x ->; unfold within; lia).
  destruct H as [H%messages_send_stores|H%batch_send_stores];
    destruct H as [E|[E|[E|(plan & idem & r' & F & E)]]];
    try (eexists; split; [|split; intros; apply (Hsame _ E)]; set_solver);
    (eexists; split; [|by eapply stored_within]); set_solver.
Qed.

(** ** Repeated requests *)

Definition SEND : bytes := !"messages.send".
Definition remembered (server : Server) (key : bytes) (s : PgStore) : option MemoryIdempotencyRecord :=
  db_idempotency_requests (ps_mail s) !! (srv_id server, to_hex (sha256 key)).

Lemma idempotency_request_inv now key operation payload idem : idempotency_request now [key] operation payload = inr idem →
  ∃ expires, idem = Some (mkIdempotencyRequest (to_hex (sha256 key)) (to_hex (sha256 payload)) operation expires).
Proof.
  unfold idempotency_request. destruct (negb _); [done|]. destruct (_ || _); [done|]. intros [= <-]. by eexists.
Qed.
Lemma idempotency_request_key now now' key operation payload payload' idem :
  idempotency_request now [key] operation payload = inr idem → ∃ expires,
  idempotency_request now' [key] operation payload' =
    inr (Some (mkIdempotencyRequest (to_hex (sha256 key)) (to_hex (sha256 payload')) operation expires)).
Proof. unfold idempotency_request. destruct (negb _); [done|]. destruct (_ || _); [done|]. intros _. by eexists. Qed.

Lemma cached_send_inv s server_id request response : cached_send_operation s server_id (Some request) = inr (Some response) →
  ∃ rec, db_idempotency_requests (ps_mail s) !! (server_id, ir_key_hash request) = Some rec ∧
    mir_request_hash rec = ir_request_hash request ∧ mir_operation rec = ir_operation request ∧ mir_response rec = response.
Proof.
  unfold cached_send_operation. intros H. apply api_bind_inr in H as (l & Hl & H). apply ok_or_inr in Hl.
  unfold fetch in Hl. destruct (ps_failing _ _); [done|]. injection Hl as <-. unfold idempotency_lookup in H.
  destruct (db_idempotency_requests _ !! _) as [rec|] eqn:E; [|done]. destruct (_ <=? _)%Z; [done|].
  destruct (bytes_eqb_spec (mir_request_hash rec) (ir_request_hash request)), (bytes_eqb_spec (mir_operation rec) (ir_operation request));
    cbn in H; try done. injection H as <-. by exists rec.
Qed.

Lemma cached_send_again s server_id request rec : ps_failing s QIdempotency = false →
  db_idempotency_requests (ps_mail s) !! (server_id, ir_key_hash request) = Some rec → (db_now (ps_mail s) < mir_expires_at rec)%Z →
  mir_operation rec = ir_operation request →
  cached_send_operation s server_id (Some request) =
    if mir_request_hash rec =b ir_request_hash request then inr (Some (mir_response rec)) else inl idempotency_conflict.
Proof.
  intros Hf E He Ho. unfold cached_send_operation, fetch, idempotency_lookup. rewrite Hf. cbn. rewrite E.
  destruct (Z.leb_spec (mir_expires_at rec) (db_now (ps_mail s))); [lia|]. rewrite Ho.
  assert ((ir_operation request =b ir_operation request) = true) as -> by by apply bytes_eqb_eq.
  by destruct (_ =b _).
Qed.

(** What an operation stored under a key is what the key is remembered by. *)
Lemma store_send_remembers s server_id plan request response s' :
  store_send_plan s server_id plan (Some request) = (inr response, s') →
  ∃ rec, db_idempotency_requests (ps_mail s') !! (server_id, ir_key_hash request) = Some rec ∧
    mir_request_hash rec = ir_request_hash request ∧ mir_operation rec = ir_operation request ∧ mir_response rec = response.
Proof.
  unfold store_send_plan, store_send_operation. destruct (ps_failing _ _); [done|].
  destruct (idempotency_lookup server_id request (ps_mail s)) as [|response'|] eqn:El.
  - destruct (send_plan _ _ _) as [e|[response' d]]; [done|]. intros [= <- <-]. cbn.
    rewrite lookup_insert_eq. by eexists.
  - intros [= <- <-]. cbn. unfold idempotency_lookup in El.
    destruct (db_idempotency_requests _ !! _) as [rec|]; [|done]. destruct (_ <=? _)%Z; [done|].
    destruct (bytes_eqb_spec (mir_request_hash rec) (ir_request_hash request)), (bytes_eqb_spec (mir_operation rec) (ir_operation request));
      cbn in El; try done. injection El as <-. by exists rec.
  - done.
Qed.

Lemma send_remembers others s now nonce server key body v s' : messages_send others s now nonce server [key] body = (inr v, s') →
  ∃ rec, remembered server key s' = Some rec ∧ mir_request_hash rec = to_hex (sha256 (normalized_json body)) ∧
    mir_operation rec = SEND ∧ single_send_json (mir_response rec) = inr v.
Proof.
  unfold ApiSend.messages_send, remembered. destruct (idempotency_request _ _ _ _) as [e|idem] eqn:Ei; [done|].
  apply idempotency_request_inv in Ei as (expires & ->).
  destruct (cached_send_operation _ _ _) as [e|[response|]] eqn:Ec; [done| |].
  - intros [= Hv <-]. apply cached_send_inv in Ec as (rec & H1 & H2 & H3 & <-). by exists rec.
  - destruct (prepare_send _ _ _ _ _ _) as [e|msgs].
    + intros [= Hv <-]. unfold reconcile_single_send_error in Hv. apply api_bind_inr in Hv as ([response|] & Hr & Hv); [|done].
      apply cached_send_inv in Hr as (rec & H1 & H2 & H3 & <-). by exists rec.
    + destruct (store_send_plan _ _ _ _) as [[e|response] s1] eqn:Es; [done|]. intros [= Hv <-].
      apply store_send_remembers in Es as (rec & H1 & H2 & H3 & <-). by exists rec.
Qed.

Lemma store_send_again s server_id plan request rec : ps_failing s QStoreSend = false →
  db_idempotency_requests (ps_mail s) !! (server_id, ir_key_hash request) = Some rec → (db_now (ps_mail s) < mir_expires_at rec)%Z →
  mir_operation rec = ir_operation request →
  store_send_plan s server_id plan (Some request) =
    (if mir_request_hash rec =b ir_request_hash request then inr (mir_response rec) else inl idempotency_conflict, s).
Proof.
  intros Hf E He Ho. unfold store_send_plan, store_send_operation, idempotency_lookup. rewrite Hf, E.
  destruct (Z.leb_spec (mir_expires_at rec) (db_now (ps_mail s))); [lia|]. rewrite Ho, bytes_eqb_refl, orb_false_r.
  destruct (_ =b _), s; reflexivity.
Qed.

Lemma cached_send_new s server_id request : ps_failing s QIdempotency = false →
  (∀ rec, db_idempotency_requests (ps_mail s) !! (server_id, ir_key_hash request) = Some rec → mir_expires_at rec <= db_now (ps_mail s))%Z →
  cached_send_operation s server_id (Some request) = inr None.
Proof.
  intros Hf H. unfold cached_send_operation, fetch, idempotency_lookup. rewrite Hf. cbn.
  destruct (db_idempotency_requests _ !! _) as [rec|]; [|done]. specialize (H rec eq_refl).
  destruct (Z.leb_spec (mir_expires_at rec) (db_now (ps_mail s))); [done|lia].
Qed.

(** The row of the key is what it was in [s'], and has not expired. *)
Definition still_remembered (server : Server) (key : bytes) (s' s : PgStore) : Prop :=
  remembered server key s = remembered server key s' ∧
  (∀ rec, remembered server key s = Some rec → db_now (ps_mail s) < mir_expires_at rec)%Z.
(** There is no row of the key, or none that has not expired. *)
Definition not_remembered (server : Server) (key : bytes) (s : PgStore) : Prop :=
  (∀ rec, remembered server key s = Some rec → mir_expires_at rec <= db_now (ps_mail s))%Z.

(** C14: A request that was answered under an idempotency key is answered the same way
    when it is repeated, and the repetition stores nothing; another request under the
    key is refused with a conflict and stores nothing either.  Any other requests may
    run meanwhile.  The row of the key must be there, unexpired, when the second
    request looks for it; or else it must not be there then and be there, unexpired,
    at the transaction of the second request: the first request was still in flight.
    The statements that read the row must not fail. *)
Theorem http_send_idempotent others s now nonce server key body v s' others' s1 now' nonce' body' :
  messages_send others s now nonce server [key] body = (inr v, s') →
  let looked := others' 0 s1 in
  let stored := others' 2 (others' 1 looked) in
  let answer := if to_hex (sha256 (normalized_json body)) =b to_hex (sha256 (normalized_json body')) then inr v
                else inl idempotency_conflict in
  ps_failing looked QIdempotency = false →
  (still_remembered server key s' looked →
   messages_send others' s1 now' nonce' server [key] body' = (answer, looked)) ∧
  (not_remembered server key looked → still_remembered server key s' stored →
   ps_failing stored QIdempotency = false → ps_failing stored QStoreSend = false →
   messages_send others' s1 now' nonce' server [key] body' = (answer, stored)).
Proof.
  intros H looked stored answer Hf. pose proof (send_remembers _ _ _ _ _ _ _ _ _ H) as (rec & Hrec & Hh & Hop & Hv).
  unfold ApiSend.messages_send in H |- *. destruct (idempotency_request now _ _ _) as [e|idem] eqn:Ei; [done|]. clear H.
  destruct (idempotency_request_key now now' key _ _ (normalized_json body') _ Ei) as (expires & ->). fold looked stored.
  set (request := mkIdempotencyRequest _ _ _ expires).
  assert (∀ x : Api SendOperationResult, x = (if mir_request_hash rec =b ir_request_hash request then inr (mir_response rec)
    else inl idempotency_conflict) → (response ← x; single_send_json response) = answer) as Ha.
  { intros x ->. cbn [ir_request_hash request]. rewrite Hh. unfold answer. by destruct (_ =b _). }
  split.
  - intros [Hb He]. rewrite Hrec in Hb. rewrite (cached_send_again _ _ _ rec); [|done|done|by apply He|done].
    cbn [ir_request_hash request]. rewrite Hh. unfold answer. destruct (_ =b _); [|done]. by rewrite Hv.
  - intros Hnew [Hb He] Hf2 Hf3. rewrite Hrec in Hb. rewrite cached_send_new by done.
    destruct (prepare_send _ _ _ _ _ _) as [e|msgs].
    + f_equal. unfold reconcile_single_send_error. fold stored.
      rewrite (cached_send_again _ _ _ rec); [|done|done|by apply He|done]. cbn [ir_request_hash request]. rewrite Hh.
      unfold answer. destruct (_ =b _); [|done]. cbn. by rewrite Hv.
    + fold stored. rewrite (store_send_again stored _ _ _ rec); [|done|done|by apply He|done]. f_equal. by apply Ha.
Qed.

(** ** Opting out *)

(** The tokens of the stored messages: registered as planned, none of them twice. *)
Definition registers (tenant : Id) (messages : list SendPlanMessage) (d d' : MailDb) : Prop :=
  db_unsubscribe_tokens d' = db_unsubscribe_tokens d ++
    omap (λ m, t ← spm_unsubscribe_token m; Some (put_token t, (tenant, put_stream_id t, put_address t))) messages ∧
  (NoDup (map fst (db_unsubscribe_tokens d)) → NoDup (map fst (db_unsubscribe_tokens d'))).

Lemma insert_message_tokens m d : db_unsubscribe_tokens (insert_message_in_tx m d).2 = db_unsubscribe_tokens d.
Proof. pose proof (insert_message_tables m d) as H. unfold mail_tables in H. by injection H. Qed.

Lemma register_planned_tokens tenant p d d' : register_planned tenant p d = inr d' → registers tenant [p] d d'.
Proof.
  unfold register_planned, register_token, registers. cbn. destruct (spm_unsubscribe_token p) as [t|]; cbn.
  - destruct (decide _) as [|Hn]; [done|]. intros [= <-]. cbn. split; [done|]. intros Hd. rewrite map_app. cbn.
    apply NoDup_app. split_and!; [done| |apply NoDup_singleton]. intros x Hx ->%list_elem_of_singleton. done.
  - intros [= <-]. by rewrite app_nil_r.
Qed.

Lemma send_planned_tokens tenant messages : ∀ d sents d', send_planned tenant messages d = inr (sents, d') →
  registers tenant messages d d'.
Proof.
  induction messages as [|m rest IH]; intros d sents d'; cbn [send_planned].
  - intros [= _ <-]. unfold registers. cbn. by rewrite app_nil_r.
  - destruct (negb _); [done|]. intros (d0 & [H1 H2]%register_planned_tokens & H)%and_then_inr.
    pose proof (insert_message_tokens (spm_message m) d0) as Ht. destruct (insert_message_in_tx (spm_message m) d0) as [sent d1].
    apply and_then_inr in H as ([sents' d2] & [H3 H4]%IH & [= _ <-]). cbn [snd] in Ht. unfold registers.
    split; [|intros Hd; apply H4; rewrite Ht; by apply H2].
    rewrite H3, Ht, H1, <- app_assoc. f_equal. cbn. by destruct (spm_unsubscribe_token m).
Qed.

Lemma store_send_tokens s server_id msgs idem response s' :
  store_send_plan s server_id [PlanMessages msgs] idem = (inr response, s') → ps_mail s' ≠ ps_mail s →
  registers server_id msgs (ps_mail s) (ps_mail s').
Proof.
  unfold store_send_plan, store_send_operation. destruct (ps_failing _ _); [done|].
  assert (∀ d1 r d2, db_unsubscribe_tokens d1 = db_unsubscribe_tokens (ps_mail s) →
    send_plan server_id [PlanMessages msgs] d1 = inr (r, d2) → registers server_id msgs (ps_mail s) d2) as H.
  { intros d1 r d2 E. cbn [send_plan]. intros ([sents d3] & Hs%send_planned_tokens & [= _ <-])%and_then_inr.
    unfold registers in *. by rewrite <- E. }
  destruct idem as [r|].
  - destruct (idempotency_lookup _ _ _); [|by intros [= _ <-]|by intros [= _ <-]].
    destruct (send_plan _ _ _) as [e|[resp d2]] eqn:E; [done|]. intros [= _ <-] _. by eapply H in E.
  - destruct (send_plan _ _ _) as [e|[resp d2]] eqn:E; [done|]. intros [= _ <-] _. by eapply H in E.
Qed.

Lemma find_unique (l : list (bytes * (Id * option Id * bytes))) token x : NoDup (map fst l) → (token, x) ∈ l →
  snd <$> List.find (λ t, t.1 =b token) l = Some x.
Proof.
  induction l as [|[k y] l IH]; [by intros _ ?%not_elem_of_nil|]. cbn. intros [Hn Hd]%NoDup_cons [E|Hin]%elem_of_cons.
  - injection E as -> ->. assert ((k =b k) = true) as -> by by apply bytes_eqb_eq. done.
  - destruct (bytes_eqb_spec k token) as [->|]; [|by apply IH]. exfalso. apply Hn, list_elem_of_fmap. by exists (token, x).
Qed.

Lemma opt_out_suppresses kind reason tenant stream address d :
  address_suppressed tenant address (Some stream) (opt_out kind reason tenant (Some stream) address d) = true.
Proof.
  unfold address_suppressed, opt_out. cbn [set_subscription]. cbn. unfold insert_suppression. cbn [sp_server_id sp_address sp_stream_id].
  destruct (existsb _ (db_suppressions d)) eqn:E.
  - cbn. apply existsb_exists in E as (x & Hx & H). apply existsb_exists. exists x. split; [done|].
    apply andb_true_iff in H as [H Hc]. rewrite H. cbn in *. destruct (sp_stream_id x); [done|reflexivity].
  - cbn. rewrite existsb_app. apply orb_true_iff. right. cbn. rewrite !N.eqb_refl, bytes_eqb_refl. done.
Qed.

Lemma broadcast_has_stream s server permalink stream label : target_stream s server permalink = inr (stream, true, label) →
  is_Some stream.
Proof.
  unfold target_stream. destruct permalink as [pl|].
  - intros H. apply api_bind_inr in H as ([m|] & _ & H); [|done]. destruct (str_archived m); [done|]. by injection H as <- _ _.
  - destruct (srv_default_stream_id server) as [i|]; [|done]. intros H. apply api_bind_inr in H as (ms & _ & H).
    destruct (List.find _ ms); by injection H as <- _ _.
Qed.

(** The one-click link of a token, and the headers a broadcast message ends with. *)
Definition unsubscribe_link (s : PgStore) (server : Server) (token : bytes) : bytes :=
  ac_web_protocol config ++ !"://" ++ track_host config s (srv_id server) ++ !"/track/u/" ++ token.
Definition one_click_headers (s : PgStore) (server : Server) (token : bytes) : list (bytes * bytes) :=
  [(!"List-Unsubscribe", !"<" ++ unsubscribe_link s server token ++ !">, <mailto:unsubscribe@" ++ track_host config s (srv_id server) ++ !">");
   (!"List-Unsubscribe-Post", !"List-Unsubscribe=One-Click")].

Lemma broadcast_headers s server from body atts k token :
  mb_headers (message_builder k (broadcast_params config s server token (build_params from body atts))) =
    List.filter (λ h, negb (is_reserved_header h.1)) (sm_headers body) ++ one_click_headers s server token.
Proof. cbn [message_builder mb_headers broadcast_params field_upd bp_headers build_params]. cbn. by rewrite List.filter_app. Qed.

(** C15: Opting out is respected.  The bytes of a stored broadcast message are those of
    a message whose headers end with the one-click headers of the token registered
    with it, the link of that token among them.  The token names the message's
    server, stream and recipient; following it suppresses the address for what is
    still queued of the stream; and as long as the address is not subscribed again no
    request that resolves to the stream and names the address among its recipients is
    accepted.  The operation stored something (it was not a replay), and the table of
    tokens, whose column is UNIQUE, had no token twice. *)
Theorem opt_out_respected s now nonce server body pending msgs s0 idem response s1 m t :
  prepare_send s now nonce server body pending = inr msgs →
  store_send_plan s0 (srv_id server) [PlanMessages msgs] idem = (inr response, s1) → ps_mail s1 ≠ ps_mail s0 →
  NoDup (map fst (db_unsubscribe_tokens (ps_mail s0))) → m ∈ msgs → spm_unsubscribe_token m = Some t →
  ∃ stream, qm_stream_id (spm_message m) = Some stream ∧
    (∃ k mb, qm_raw_message (spm_message m) = from_option id [] (write_to_vec k mb) ∧
       mb_headers mb = List.filter (λ h, negb (is_reserved_header h.1)) (sm_headers body) ++ one_click_headers s server (put_token t)) ∧
    let address := qm_rcpt_to (spm_message m) in
    resolve_unsubscribe_token (put_token t) (ps_mail s1) = Some (srv_id server, Some stream, address) ∧
    let d := (record_unsubscribe (put_token t) (ps_mail s1)).2 in
    (record_unsubscribe (put_token t) (ps_mail s1)).1 = true ∧ address_suppressed (srv_id server) address (Some stream) d = true ∧
    ∀ s2 now' nonce' body' pending' label, ¬ subscribed s2 (srv_id server) stream address ∨ ps_mail s2 = d →
      target_stream s2 server (sm_stream body') = inr (Some stream, true, label) → address ∈ map ad_email (recipients_of body') →
      ∃ error, prepare_send s2 now' nonce' server body' pending' = inl error.
Proof.
  intros (from & dom & st & bc & lb & atts & _ & _ & _ & _ & _ & Ht & _ & _ & ->)%prepare_send_inv Hs Hne Hnd Hm Hmt.
  pose proof (plan_messages_all s server from dom st bc body (build_params from body atts)
    (build_message nonce (build_params from body atts)) (nonce + 1) (recipients_of body) (reflexivity _)) as Hall.
  pose proof (proj1 (Forall_forall _ _) Hall m Hm) as (r & _ & Hr). destruct bc; [|by destruct Hr as [_ Hr]; rewrite Hr in Hmt].
  destruct Hr as (k & Hr & Hk). rewrite Hk in Hmt. injection Hmt as <-. apply broadcast_has_stream in Ht as [stream ->].
  exists stream. rewrite Hr. cbn [qm_stream_id qm_rcpt_to qm_raw_message queued]. split; [done|].
  split; [eexists k, _; split; [reflexivity|apply broadcast_headers]|]. cbv zeta. cbn [put_token] in *.
  apply store_send_tokens in Hs as [Htok Hdup]; [|done]. specialize (Hdup Hnd).
  assert (resolve_unsubscribe_token (unsubscribe_token k) (ps_mail s1) = Some (srv_id server, Some stream, ad_email r)) as Hres.
  { unfold resolve_unsubscribe_token. apply find_unique; [done|]. rewrite Htok. apply elem_of_app. right.
    apply list_elem_of_omap. eexists. split; [exact Hm|]. by rewrite Hk. }
  split; [done|]. unfold record_unsubscribe. rewrite Hres. split; [done|]. split; [apply opt_out_suppresses|].
  intros s2 now' nonce' body' pending' label' Hsub Ht2 Hin.
  assert (¬ subscribed s2 (srv_id server) stream (ad_email r)) as Hno.
  { destruct Hsub as [|Hd]; [done|]. unfold subscribed, opt_out, set_subscription. rewrite Hd. cbn. by rewrite lookup_insert_eq. }
  destruct (prepare_send s2 now' nonce' server body' pending') as [e|msgs2] eqn:E; [by exists e|]. exfalso.
  apply prepare_send_inv in E as (from2 & dom2 & st2 & bc2 & lb2 & atts2 & _ & _ & _ & _ & _ & Ht3 & _ & Hc & _).
  rewrite Ht2 in Ht3. injection Ht3 as <- <- <-. pose proof (check_consent_inv _ _ _ _ _ (Hc _ eq_refl eq_refl)) as Hsubs.
  apply list_elem_of_fmap in Hin as (r2 & Hr2 & Hin). apply (proj1 (Forall_forall _ _) Hsubs) in Hin. by rewrite <- Hr2 in Hin.
Qed.

End Facts.

(** ** A server with a limit of one message and a newsletter *)

#[local] Existing Instance concrete_crates.
#[local] Existing Instance concrete_case.
#[local] Existing Instance concrete_order.
#[local] Existing Instance concrete_payloads.

Definition fx_mail_builder : MailBuilder :=
  {| write_to_vec nonce b := Some (show_Z nonce ++ !" " ++ mb_subject b ++ concat (map snd (mb_headers b)));
     message_uuid nonce := show_Z nonce |}.
Definition fx_api : ApiCrates SendMessage :=
  {| unsubscribe_token := show_Z; debug_str s := s; b64_decode_strict := Some;
     normalized_json body := from_option id [] (sm_subject body) |}.
#[local] Existing Instance fx_mail_builder.
#[local] Existing Instance fx_api.
Definition fx_stream : MessageStream := mkMessageStream 7 !"uuid" 1 !"News" !"news" !"broadcast" false None.
Definition fx_api_pg : PgStore :=
  mkPgStore (mkPgTables [fx_org] ∅ [fx_limited] [fx_domain 11 1 !"a.example"] [] [fx_credential 100 1 !"keya"] [] [fx_stream] [])
    (set_subscription 1 7 !"r@x.example" !"subscribed" fx_db) (λ _, false).
Definition fx_api_config : ApiConfig := mkApiConfig !"track.example" !"https".
Definition fx_body (subject : bytes) (stream : option bytes) : SendMessage :=
  mkSendMessage (Some (AString !"me@a.example")) [AString !"r@x.example"] [] [] [] (Some subject) None (Some !"hi") [] [] None None stream.
Definition fx_send (others : nat → PgStore → PgStore) (s : PgStore) (keys : list bytes) (body : SendMessage) :=
  messages_send to_ascii_lowercase fx_api_config others s 0 0 fx_limited keys body.
Definition alone (_ : nat) (s : PgStore) : PgStore := s.
(** Another request is served between the check and the transaction. *)
Definition overtaken (n : nat) (s : PgStore) : PgStore :=
  if bool_decide (n = 2) then (fx_send alone s [] (fx_body !"other" None)).2 else s.

Definition fx_news : SendMessage := fx_body !"news" (Some !"news").
Definition fx_prepared : list SendPlanMessage :=
  match prepare_send to_ascii_lowercase fx_api_config fx_api_pg 0 0 fx_limited fx_news 0 with inr msgs => msgs | inl _ => [] end.
Lemma fx_prepares : prepare_send to_ascii_lowercase fx_api_config fx_api_pg 0 0 fx_limited fx_news 0 = inr fx_prepared.
Proof. vm_compute. reflexivity. Qed.

Theorem prepared_messages_witness : length fx_prepared = 1 ∧ map (λ m, qm_rcpt_to (spm_message m)) fx_prepared = [!"r@x.example"] ∧
  ∃ policy, organization_policy fx_api_pg 1 = Some policy ∧ pol_suspended policy = false.
Proof.
  destruct (prepared_messages _ _ _ _ _ _ _ _ _ fx_prepares) as (from & dom & st & bc & lb & atts & policy & _ & H1 & H2 & _ & _ & _ & H3 & _).
  split; [vm_compute; reflexivity|]. split; [exact H3|]. by exists policy.
Defined.

(** Alone a request keeps the limit of one message; overtaken by another it leaves the
    server with two. *)
Theorem http_sends_within_limits_witness :
  (server_usage fx_limited (fx_send alone fx_api_pg [] fx_news).2 <= 1)%Z ∧
  server_usage fx_limited (fx_send overtaken fx_api_pg [] fx_news).2 = 2%Z.
Proof.
  split; [|vm_compute; reflexivity].
  destruct (fx_send alone fx_api_pg [] fx_news) as [r s'] eqn:E.
  destruct (http_sends_within_limits to_ascii_lowercase fx_api_config alone fx_api_pg 0 0 fx_limited [] fx_news [] [] r s'
    (or_introl E)) as (before & Hb & H & _).
  specialize (H 1%Z eq_refl ltac:(unfold i64_max; lia)). unfold within in H. cbn [snd].
  assert (server_usage fx_limited before = 0%Z) as Hz.
  { repeat (apply elem_of_cons in Hb as [->|Hb]; [vm_compute; reflexivity|]). by apply not_elem_of_nil in Hb. }
  assert (server_usage fx_limited (alone 1 (alone 0 fx_api_pg)) = 0%Z) as Hc by (vm_compute; reflexivity). lia.
Defined.

Definition fx_answer : Value := match (fx_send alone fx_api_pg [!"k"] fx_news).1 with inr v => v | inl _ => VNull end.
Lemma fx_answered : fx_send alone fx_api_pg [!"k"] fx_news = (inr fx_answer, (fx_send alone fx_api_pg [!"k"] fx_news).2).
Proof. vm_compute. reflexivity. Qed.

(** The first request, in flight while the second one is prepared. *)
Definition finishing (n : nat) (s : PgStore) : PgStore :=
  if bool_decide (n = 2) then (fx_send alone fx_api_pg [!"k"] fx_news).2 else s.

(** Repeated after it was answered, and repeated while it was in flight. *)
Theorem http_send_idempotent_witness :
  let s := (fx_send alone fx_api_pg [!"k"] fx_news).2 in
  length (db_messages (ps_mail s)) = 1 ∧ fx_send alone s [!"k"] fx_news = (inr fx_answer, s) ∧
  fx_send alone s [!"k"] (fx_body !"other" None) = (inl idempotency_conflict, s) ∧
  fx_send finishing fx_api_pg [!"k"] fx_news = (inr fx_answer, s) ∧
  fx_send finishing fx_api_pg [!"k"] (fx_body !"other" None) = (inl idempotency_conflict, s).
Proof.
  assert (still_remembered fx_limited !"k" (fx_send alone fx_api_pg [!"k"] fx_news).2 (fx_send alone fx_api_pg [!"k"] fx_news).2) as He.
  { split; [done|]. intros rec H. vm_compute in H. injection H as <-. vm_compute. reflexivity. }
  assert (not_remembered fx_limited !"k" fx_api_pg) as Hn by (intros rec H; vm_compute in H; discriminate).
  pose proof (λ others' s1 body', http_send_idempotent to_ascii_lowercase fx_api_config alone fx_api_pg 0 0 fx_limited !"k" fx_news fx_answer _
    others' s1 0 0 body' fx_answered) as H.
  split; [vm_compute; reflexivity|].
  split; [exact (proj1 (H alone (fx_send alone fx_api_pg [!"k"] fx_news).2 fx_news eq_refl) He)|]. split; [exact (proj1 (H alone (fx_send alone fx_api_pg [!"k"] fx_news).2 (fx_body !"other" None) eq_refl) He)|].
  split; [exact (proj2 (H finishing fx_api_pg fx_news eq_refl) Hn He eq_refl eq_refl)|].
  exact (proj2 (H finishing fx_api_pg (fx_body !"other" None) eq_refl) Hn He eq_refl eq_refl).
Defined.

Definition fx_open_send (s : PgStore) : Api (list SendPlanMessage) :=
  prepare_send to_ascii_lowercase fx_api_config s 0 0 server_a fx_news 0.
Definition fx_planned : list SendPlanMessage := match fx_open_send fx_api_pg with inr msgs => msgs | inl _ => [] end.
Lemma fx_plans : fx_open_send fx_api_pg = inr fx_planned.
Proof. vm_compute. reflexivity. Qed.
Definition fx_stored : Api SendOperationResult * PgStore := store_send_plan fx_api_pg 1 [PlanMessages fx_planned] None.
Definition fx_response : SendOperationResult := match fx_stored.1 with inr r => r | inl _ => [] end.
Lemma fx_stores : store_send_plan fx_api_pg 1 [PlanMessages fx_planned] None = (inr fx_response, fx_stored.2).
Proof. vm_compute. reflexivity. Qed.
Definition fx_link : PendingUnsubscribeToken := mkPendingUnsubscribeToken !"1" (Some 7%N) !"r@x.example".
Definition fx_opted_out : PgStore := fx_stored.2 <| ps_mail := (record_unsubscribe !"1" (ps_mail fx_stored.2)).2 |>.

Theorem opt_out_respected_witness :
  address_suppressed 1 !"r@x.example" (Some 7%N) (ps_mail fx_opted_out) = true ∧
  (∃ error, fx_open_send fx_opted_out = inl error) ∧
  fx_open_send fx_opted_out = inl (validation_error !"r@x.example has not opted in to the news stream").
Proof.
  destruct fx_planned as [|m [|? ?]] eqn:E; [vm_compute in E; discriminate| |vm_compute in E; discriminate].
  assert (m ∈ fx_planned) as Hm by (rewrite E; by left).
  assert (spm_unsubscribe_token m = Some fx_link) as Hl by (vm_compute in E; injection E as <-; vm_compute; reflexivity).
  assert (qm_rcpt_to (spm_message m) = !"r@x.example" ∧ qm_stream_id (spm_message m) = Some 7%N) as [Hr Hst]
    by (vm_compute in E; injection E as <-; split; vm_compute; reflexivity).
  destruct (opt_out_respected to_ascii_lowercase fx_api_config fx_api_pg 0 0 server_a fx_news 0 fx_planned fx_api_pg None fx_response fx_stored.2
    m fx_link fx_plans fx_stores ltac:(intros H; apply (f_equal (λ d, length (db_messages d))) in H; vm_compute in H; discriminate)
    ltac:(vm_compute; constructor) Hm Hl) as (stream & Hs & _ & _ & H).
  rewrite Hst in Hs. injection Hs as <-. rewrite Hr in H.
  cbv zeta in H. destruct H as (_ & H1 & H2). split; [exact H1|]. split; [|vm_compute; reflexivity].
  unfold fx_open_send. apply (H2 fx_opted_out 0%Z 0%Z fx_news 0%Z !"news"); [right; reflexivity|vm_compute; reflexivity|].
  vm_compute. by left.
Defined.
