(* ===== verification/Auth.v ===== *)
(** * Auth: the primitives of account authentication

    [camelmailer-core/src/auth.rs]: base32, TOTP codes, the provisioning URI, roles,
    and the records of accounts.  Argon2, HMAC-SHA1 and random values are
    parameters. *)

From S2P Require Import Prelude RustStr Net Model.

(** [hash] and [verify] of Argon2 (the salt is numbered), the bytes of HMAC-SHA1,
    random tokens and
    the uuid of a new row. *)
Class AuthCrates := {
  argon2_hash : Z → bytes → option bytes;
  argon2_verify : bytes → bytes → bool;
  hmac_sha1 : bytes → bytes → list N;
  auth_token : Z → bytes;
  random_bytes : Z → bytes;
  account_uuid : Id → bytes;
  argon2_hash_verifies n p d : argon2_hash n p = Some d → argon2_verify p d = true;
  hmac_sha1_bytes k m : length (hmac_sha1 k m) = 20 ∧ Forall (λ b, b < 256)%N (hmac_sha1 k m);
}.

(** ** Base32 *)

Definition BASE32_ALPHABET : bytes := !"ABCDEFGHIJKLMNOPQRSTUVWXYZ234567".
Definition alphabet_char (i : N) : ascii := nth (N.to_nat i) BASE32_ALPHABET NUL.
(** [u64 << n]: the bits shifted out are lost. *)
Definition shl_u64 (a n : N) : N := (N.shiftl a n mod 2 ^ 64)%N.

(** [while bits >= 5]; at most twelve bits are pending. *)
Fixpoint emit_groups (fuel : nat) (buffer bits : N) : bytes * N :=
  match fuel with
  | O => ([], bits)
  | S fuel =>
      if (5 <=? bits)%N then
        let bits := (bits - 5)%N in
        let '(out, bits') := emit_groups fuel buffer bits in
        (alphabet_char (N.land (N.shiftr buffer bits) 31) :: out, bits')
      else ([], bits)
  end.

Fixpoint base32_encode_loop (data : bytes) (buffer bits : N) : bytes :=
  match data with
  | [] => if (0 <? bits)%N then [alphabet_char (N.land (shl_u64 buffer (5 - bits)) 31)] else []
  | byte :: data =>
      let buffer := N.lor (shl_u64 buffer 8) (byte_n byte) in
      let '(out, bits) := emit_groups 3 buffer (bits + 8) in
      out ++ base32_encode_loop data buffer bits
  end.
Definition base32_encode (data : bytes) : bytes := base32_encode_loop data 0 0.

Fixpoint position (P : ascii → bool) (s : bytes) : option N :=
  match s with
  | [] => None
  | c :: s => if P c then Some 0%N else N.succ <$> position P s
  end.

Fixpoint base32_decode_loop (encoded : bytes) (buffer bits : N) : option bytes :=
  match encoded with
  | [] => Some []
  | ch :: encoded =>
      if is_byte "=" ch || is_byte " " ch then base32_decode_loop encoded buffer bits
      else
        value ← position (Ascii.eqb (byte_to_upper ch)) BASE32_ALPHABET;
        let buffer := N.lor (shl_u64 buffer 5) value in
        let bits := (bits + 5)%N in
        if (8 <=? bits)%N
        then
          let bits := (bits - 8)%N in
          rest ← base32_decode_loop encoded buffer bits;
          Some (ascii_of_N (N.land (N.shiftr buffer bits) 255) :: rest)
        else base32_decode_loop encoded buffer bits
  end.
Definition base32_decode (encoded : bytes) : option bytes := base32_decode_loop encoded 0 0.

(** ** TOTP *)

Definition TOTP_STEP_SECONDS : N := 30.
Definition TOTP_DIGITS : nat := 6.
Definition u64_max : N := 18446744073709551615.

(** [counter.to_be_bytes()] *)
Definition to_be_bytes (counter : N) : bytes :=
  map (λ i, ascii_of_N (N.land (N.shiftr counter (8 * N.of_nat i)) 255)) [7; 6; 5; 4; 3; 2; 1; 0].
(** [format!("{:01$}", n, width)] *)
Definition show_padded (width : nat) (n : N) : bytes := replicate (width - length (show_N n)) "0"%char ++ show_N n.

Section Totp.
Context `{AUTH : !AuthCrates}.

Definition generate_totp_secret (nonce : Z) : bytes := base32_encode (random_bytes nonce).

Definition truncated (digest : list N) : N :=
  let at_ i := nth i digest 0%N in
  let offset := N.to_nat (N.land (at_ 19) 15) in
  N.lor (N.lor (N.lor (N.shiftl (N.land (at_ offset) 127) 24) (N.shiftl (at_ (offset + 1)) 16)) (N.shiftl (at_ (offset + 2)) 8))
    (at_ (offset + 3)).

Definition totp_code (secret_base32 : bytes) (unix_time : N) : option bytes :=
  secret ← base32_decode secret_base32;
  let counter := (unix_time / TOTP_STEP_SECONDS)%N in
  Some (show_padded TOTP_DIGITS (truncated (hmac_sha1 secret (to_be_bytes counter)) mod 10 ^ N.of_nat TOTP_DIGITS)).

(** [u64::saturating_add_signed] *)
Definition saturating_add_signed (a : N) (d : Z) : N := Z.to_N (Z.max 0 (Z.min (Z.of_N u64_max) (Z.of_N a + d))).

Definition verify_totp (secret_base32 code : bytes) (unix_time : N) : bool :=
  if negb (length code =? TOTP_DIGITS)%nat then false
  else existsb (λ drift, bool_decide (totp_code secret_base32 (saturating_add_signed unix_time (drift * Z.of_N TOTP_STEP_SECONDS)) = Some code))
         [-1; 0; 1]%Z.

Definition hash_password (nonce : Z) (password : bytes) : option bytes := argon2_hash nonce password.
Definition verify_password (password digest : bytes) : bool := argon2_verify password digest.
Definition generate_auth_token (nonce : Z) : bytes := auth_token nonce.
End Totp.

Definition hash_token `{!Crates} (token : bytes) : bytes := to_hex (sha256 token).

(** ** The provisioning URI *)

Definition unreserved (c : ascii) : bool := is_ascii_alphanumeric c || existsb (Ascii.eqb c) !"-._~".
(** [{other:02X}] *)
Definition hex_digit_upper (n : N) : ascii := ascii_of_N (if (n <? 10)%N then n + 48 else n + 55)%N.
Definition percent_encoded (c : ascii) : bytes :=
  if unreserved c then [c] else ["%"%char; hex_digit_upper (N.shiftr (byte_n c) 4); hex_digit_upper (N.land (byte_n c) 15)].
Definition encode (value : bytes) : bytes := flat_map percent_encoded value.
Definition otpauth_url (secret_base32 account issuer : bytes) : bytes :=
  let issuer := encode issuer in
  let account := encode account in
  !"otpauth://totp/" ++ issuer ++ !":" ++ account ++ !"?secret=" ++ secret_base32 ++ !"&issuer=" ++ issuer
  ++ !"&algorithm=SHA1&digits=6&period=30".

(** ** Roles *)

Inductive Role := Viewer | Member | Admin | Owner.
#[export] Instance Role_eq_dec : EqDecision Role.
Proof. solve_decision. Defined.
(** The derived order: that of the constructors. *)
Definition role_rank (r : Role) : nat := match r with Viewer => 0 | Member => 1 | Admin => 2 | Owner => 3 end.
Definition role_at_least (r min : Role) : bool := (role_rank min <=? role_rank r)%nat.
Definition role_str (r : Role) : bytes :=
  match r with Viewer => !"viewer" | Member => !"member" | Admin => !"admin" | Owner => !"owner" end.
Definition role_parse (value : bytes) : option Role :=
  if value =b !"viewer" then Some Viewer
  else if value =b !"member" then Some Member
  else if value =b !"admin" then Some Admin
  else if value =b !"owner" then Some Owner
  else None.

(** ** Records *)

Record User := mkUser {
  us_id : Id;
  us_uuid : bytes;
  us_email_address : bytes;
  us_first_name : bytes;
  us_last_name : bytes;
  us_admin : bool;
}.
#[export] Instance eta_User : Eta User := λ u,
  mkUser (us_id u) (us_uuid u) (us_email_address u) (us_first_name u) (us_last_name u) (us_admin u).

#[export] Instance User_eq_dec : EqDecision User.
Proof. solve_decision. Defined.

Record NewUser := mkNewUser { nu_email_address : bytes; nu_first_name : bytes; nu_last_name : bytes; nu_admin : bool }.

Record UserAuth := mkUserAuth {
  ua_user_id : Id;
  ua_password_digest : option bytes;
  ua_totp_secret : option bytes;
  ua_totp_enabled : bool;
  ua_failed_login_attempts : Z;
  ua_locked_until : option datetime;
  ua_last_login_at : option datetime;
  ua_oidc_sub : option bytes;
  ua_disabled : bool;
}.
#[export] Instance eta_UserAuth : Eta UserAuth := λ a,
  mkUserAuth (ua_user_id a) (ua_password_digest a) (ua_totp_secret a) (ua_totp_enabled a) (ua_failed_login_attempts a)
    (ua_locked_until a) (ua_last_login_at a) (ua_oidc_sub a) (ua_disabled a).
Definition user_auth_default (user_id : Id) : UserAuth := mkUserAuth user_id None None false 0 None None None false.

Record OidcLogout := mkOidcLogout { ol_id_token : bytes; ol_end_session_endpoint : bytes }.

Record AuthSession := mkAuthSession {
  as_id : Id;
  as_user_id : Id;
  as_token_hash : bytes;
  as_created_at : datetime;
  as_expires_at : datetime;
  as_last_used_at : datetime;
  as_ip_address : option bytes;
  as_user_agent : option bytes;
  as_oidc_logout : option OidcLogout;
}.
#[export] Instance eta_AuthSession : Eta AuthSession := λ s,
  mkAuthSession (as_id s) (as_user_id s) (as_token_hash s) (as_created_at s) (as_expires_at s) (as_last_used_at s)
    (as_ip_address s) (as_user_agent s) (as_oidc_logout s).

Record NewAuthSession := mkNewAuthSession {
  ns_user_id : Id;
  ns_token_hash : bytes;
  ns_expires_at : datetime;
  ns_ip_address : option bytes;
  ns_user_agent : option bytes;
  ns_oidc_logout : option OidcLogout;
}.

Record OrganizationMembership := mkMembership {
  om_id : Id;
  om_organization_id : Id;
  om_user_id : Id;
  om_role : Role;
  om_created_at : datetime;
}.
#[export] Instance eta_Membership : Eta OrganizationMembership := λ m,
  mkMembership (om_id m) (om_organization_id m) (om_user_id m) (om_role m) (om_created_at m).

Record Invitation := mkInvitation {
  in_id : Id;
  in_uuid : bytes;
  in_organization_id : Id;
  in_email_address : bytes;
  in_role : Role;
  in_token_hash : bytes;
  in_invited_by_user_id : Id;
  in_expires_at : datetime;
  in_accepted_at : option datetime;
}.
#[export] Instance eta_Invitation : Eta Invitation := λ i,
  mkInvitation (in_id i) (in_uuid i) (in_organization_id i) (in_email_address i) (in_role i) (in_token_hash i)
    (in_invited_by_user_id i) (in_expires_at i) (in_accepted_at i).

Record NewInvitation := mkNewInvitation {
  ni_organization_id : Id;
  ni_email_address : bytes;
  ni_role : Role;
  ni_token_hash : bytes;
  ni_invited_by_user_id : Id;
  ni_expires_at : datetime;
}.

Record WebAuthnCredential := mkWebAuthnCredential {
  wc_id : Id;
  wc_user_id : Id;
  wc_name : bytes;
  wc_credential_id : bytes;
  wc_credential_json : bytes;
  wc_created_at : datetime;
  wc_last_used_at : option datetime;
}.
#[export] Instance eta_WebAuthnCredential : Eta WebAuthnCredential := λ c,
  mkWebAuthnCredential (wc_id c) (wc_user_id c) (wc_name c) (wc_credential_id c) (wc_credential_json c) (wc_created_at c)
    (wc_last_used_at c).
Record NewWebAuthnCredential := mkNewWebAuthnCredential {
  nw_user_id : Id; nw_name : bytes; nw_credential_id : bytes; nw_credential_json : bytes }.

Record AuthEvent := mkAuthEvent {
  ae_id : Id;
  ae_user_id : option Id;
  ae_email_address : option bytes;
  ae_event : bytes;
  ae_ip_address : option bytes;
  ae_user_agent : option bytes;
  ae_created_at : datetime;
}.
#[export] Instance eta_AuthEvent : Eta AuthEvent := λ e,
  mkAuthEvent (ae_id e) (ae_user_id e) (ae_email_address e) (ae_event e) (ae_ip_address e) (ae_user_agent e) (ae_created_at e).
Record NewAuthEvent := mkNewAuthEvent {
  ne_user_id : option Id; ne_email_address : option bytes; ne_event : bytes; ne_ip_address : option bytes; ne_user_agent : option bytes }.

Example base32_vectors : base32_encode !"foobar" = !"MZXW6YTBOI" ∧ base32_decode !"mzxw6ytboi======" = Some !"foobar" ∧
  base32_decode !"1nvalid!" = None.
Proof. vm_compute. done. Qed.
Example otpauth_vector : otpauth_url !"SECRET32" !"ada@example.com" !"Camelmailer Test" =
  !"otpauth://totp/Camelmailer%20Test:ada%40example.com?secret=SECRET32&issuer=Camelmailer%20Test&algorithm=SHA1&digits=6&period=30".
Proof. vm_compute. done. Qed.
