(* ===== verification/AuthStore.v ===== *)
(** * AuthStore: accounts, sessions, memberships, invitations

    [camelmailer-core/src/auth_store.rs]: the trait [AuthStore] as a class, with the
    user operations of [admin_store.rs] the account handlers call, and the in-memory
    implementation.  A writing operation returns its result and the store. *)

From S2P Require Import Prelude RustStr Net Model MemoryStore Auth.

Inductive StoreError := Conflict (message : bytes) | OtherError.
Abbreviation SRes := (sum StoreError).
#[export] Instance sres_ret : MRet SRes := λ A, inr.
#[export] Instance sres_bind : MBind SRes := λ A B f m, match m with inl e => inl e | inr a => f a end.

(** The tables both implementations keep. *)
Record Accounts := mkAccounts {
  ac_users : gmap Id User;
  ac_user_auth : gmap Id UserAuth;
  ac_organizations : gmap Id Organization;
  ac_sessions : gmap Id AuthSession;
  ac_memberships : gmap Id OrganizationMembership;
  ac_invitations : gmap Id Invitation;
  ac_password_resets : list (Id * bytes * datetime);
  ac_sso_identities : gmap (bytes * bytes) Id;
  ac_oidc_states : gmap bytes (bytes * bytes * datetime);
  ac_webauthn_credentials : gmap Id WebAuthnCredential;
  ac_webauthn_states : gmap bytes (option Id * bytes * datetime);
  ac_saml_requests : gmap bytes datetime;
  ac_saml_assertions : gmap bytes datetime;
  ac_events : list AuthEvent;
}.
#[export] Instance eta_Accounts : Eta Accounts := λ a,
  mkAccounts (ac_users a) (ac_user_auth a) (ac_organizations a) (ac_sessions a) (ac_memberships a) (ac_invitations a)
    (ac_password_resets a) (ac_sso_identities a) (ac_oidc_states a) (ac_webauthn_credentials a) (ac_webauthn_states a)
    (ac_saml_requests a) (ac_saml_assertions a) (ac_events a).
Definition accounts_empty : Accounts := mkAccounts ∅ ∅ ∅ ∅ ∅ ∅ [] ∅ ∅ ∅ ∅ ∅ ∅ [].

(** The trait: an operation is a step on the store, a query too.  [now] is the clock of
    the implementation. *)
Class AuthStore (S : Type) := {
  user_by_email : bytes → S → SRes (option User) * S;
  user_auth : Id → S → SRes (option UserAuth) * S;
  set_password_digest : Id → bytes → S → SRes unit * S;
  set_totp : Id → option bytes → bool → S → SRes unit * S;
  set_login_state : Id → Z → option datetime → option datetime → S → SRes unit * S;
  user_has_two_factor : Id → S → SRes bool * S;
  create_session : datetime → NewAuthSession → S → SRes AuthSession * S;
  session_with_user : bytes → S → SRes (option (AuthSession * User)) * S;
  touch_session : Id → datetime → datetime → S → SRes unit * S;
  delete_session : bytes → S → SRes bool * S;
  delete_sessions_for_user : Id → S → SRes nat * S;
  memberships_for_user : Id → S → SRes (list (OrganizationMembership * Organization)) * S;
  membership : Id → Id → S → SRes (option OrganizationMembership) * S;
  memberships_for_organization : Id → S → SRes (list (OrganizationMembership * User)) * S;
  upsert_membership : datetime → Id → Id → Role → S → SRes OrganizationMembership * S;
  delete_membership : Id → Id → S → SRes bool * S;
  create_invitation : NewInvitation → S → SRes Invitation * S;
  list_invitations : Id → S → SRes (list Invitation) * S;
  invitation_by_token_hash : bytes → S → SRes (option Invitation) * S;
  mark_invitation_accepted : datetime → Id → S → SRes unit * S;
  delete_invitation : Id → Id → S → SRes bool * S;
  create_password_reset : Id → bytes → datetime → S → SRes unit * S;
  consume_password_reset : bytes → datetime → S → SRes (option Id) * S;
  user_by_oidc_sub : bytes → S → SRes (option User) * S;
  set_oidc_sub : Id → bytes → S → SRes unit * S;
  user_by_sso_identity : bytes → bytes → S → SRes (option User) * S;
  link_sso_identity : Id → bytes → bytes → S → SRes unit * S;
  create_oidc_state : bytes → bytes → bytes → datetime → S → SRes unit * S;
  consume_oidc_state : bytes → datetime → S → SRes (option (bytes * bytes)) * S;
  add_webauthn_credential : datetime → NewWebAuthnCredential → S → SRes WebAuthnCredential * S;
  list_webauthn_credentials : Id → S → SRes (list WebAuthnCredential) * S;
  webauthn_credential_by_credential_id : bytes → S → SRes (option WebAuthnCredential) * S;
  update_webauthn_credential : Id → bytes → datetime → S → SRes unit * S;
  delete_webauthn_credential : Id → Id → S → SRes bool * S;
  create_webauthn_state : bytes → option Id → bytes → datetime → S → SRes unit * S;
  consume_webauthn_state : bytes → datetime → S → SRes (option (option Id * bytes)) * S;
  create_saml_request : bytes → datetime → S → SRes unit * S;
  consume_saml_request : bytes → datetime → S → SRes bool * S;
  register_saml_assertion : bytes → datetime → datetime → S → SRes bool * S;
  set_user_disabled : Id → bool → S → SRes unit * S;
  record_auth_event : datetime → NewAuthEvent → S → SRes unit * S;
  list_auth_events : nat → S → SRes (list AuthEvent) * S;
  (** [AdminStore] *)
  create_user : NewUser → S → SRes User * S;
  update_user : User → S → SRes User * S;
  delete_user : Id → S → SRes bool * S;
  organization_by_permalink : bytes → S → SRes (option Organization) * S;
  list_organizations : S → SRes (list Organization) * S;
}.

(** A query that leaves the store as it is. *)
Definition reading {A S} (f : S → SRes A) (s : S) : SRes A * S := (f s, s).

(** ** The in-memory implementation *)

Record MemAuth := mkMemAuth { ma_accounts : Accounts; ma_next_id : Id }.
#[export] Instance eta_MemAuth : Eta MemAuth := λ m, mkMemAuth (ma_accounts m) (ma_next_id m).
Definition on_accounts (f : Accounts → Accounts) (m : MemAuth) : MemAuth := m <| ma_accounts := f (ma_accounts m) |>.

Section Memory.
Context `{ORD : !HashOrder, AUTH : !AuthCrates}.

Definition next_id (m : MemAuth) : Id * MemAuth := (ma_next_id m, m <| ma_next_id := (ma_next_id m + 1)%N |>).
(** [retain] of a [HashMap]. *)
Definition retain {K A} `{Countable K} (P : K → A → bool) (m : gmap K A) : gmap K A := filter (λ kv, P kv.1 kv.2 = true) m.
(** [entry(user_id).or_insert_with(default)], then [f]. *)
Definition with_user_auth (user_id : Id) (f : UserAuth → UserAuth) (a : Accounts) : Accounts :=
  a <| ac_user_auth := <[user_id := f (from_option id (user_auth_default user_id) (ac_user_auth a !! user_id))]> (ac_user_auth a) |>.
Definition ok {A S} (a : A) (s : S) : SRes A * S := (inr a, s).

Definition mem_user_by_email (m : MemAuth) (email : bytes) : SRes (option User) :=
  inr (List.find (λ u, eq_ignore_ascii_case (us_email_address u) email) (values (ac_users (ma_accounts m)))).

Definition mem_user_auth (m : MemAuth) (user_id : Id) : SRes (option UserAuth) :=
  inr (_ ← ac_users (ma_accounts m) !! user_id;
       Some (from_option id (user_auth_default user_id) (ac_user_auth (ma_accounts m) !! user_id))).

Definition mem_set_password_digest (user_id : Id) (digest : bytes) (m : MemAuth) : SRes unit * MemAuth :=
  ok tt (on_accounts (with_user_auth user_id (λ a, a <| ua_password_digest := Some digest |>)) m).
Definition mem_set_totp (user_id : Id) (secret : option bytes) (enabled : bool) (m : MemAuth) : SRes unit * MemAuth :=
  ok tt (on_accounts (with_user_auth user_id (λ a, a <| ua_totp_secret := secret |> <| ua_totp_enabled := enabled |>)) m).
Definition login_state (failed_attempts : Z) (locked_until last_login_at : option datetime) (a : UserAuth) : UserAuth :=
  let a := a <| ua_failed_login_attempts := failed_attempts |> <| ua_locked_until := locked_until |> in
  match last_login_at with Some _ => a <| ua_last_login_at := last_login_at |> | None => a end.
Definition mem_set_login_state (user_id : Id) (failed_attempts : Z) (locked_until last_login_at : option datetime) (m : MemAuth) :
    SRes unit * MemAuth :=
  ok tt (on_accounts (with_user_auth user_id (login_state failed_attempts locked_until last_login_at)) m).

Definition mem_user_has_two_factor (m : MemAuth) (user_id : Id) : SRes bool :=
  let a := ma_accounts m in
  inr (from_option ua_totp_enabled false (ac_user_auth a !! user_id)
       || existsb (λ c, (wc_user_id c =? user_id)%N) (values (ac_webauthn_credentials a))).

Definition mem_create_session (now : datetime) (new : NewAuthSession) (m : MemAuth) : SRes AuthSession * MemAuth :=
  let '(id, m) := next_id m in
  let session := mkAuthSession id (ns_user_id new) (ns_token_hash new) now (ns_expires_at new) now (ns_ip_address new)
                   (ns_user_agent new) (ns_oidc_logout new) in
  ok session (on_accounts (λ a, a <| ac_sessions := <[id := session]> (ac_sessions a) |>) m).

Definition mem_session_with_user (m : MemAuth) (token_hash : bytes) : SRes (option (AuthSession * User)) :=
  inr (session ← List.find (λ s, as_token_hash s =b token_hash) (values (ac_sessions (ma_accounts m)));
       user ← ac_users (ma_accounts m) !! as_user_id session;
       Some (session, user)).

Definition mem_touch_session (session_id : Id) (last_used_at expires_at : datetime) (m : MemAuth) : SRes unit * MemAuth :=
  ok tt (on_accounts (λ a, a <| ac_sessions :=
    alter (λ s, s <| as_last_used_at := last_used_at |> <| as_expires_at := expires_at |>) session_id (ac_sessions a) |>) m).

Definition mem_delete_session (token_hash : bytes) (m : MemAuth) : SRes bool * MemAuth :=
  match List.find (λ s, as_token_hash s.2 =b token_hash) (hash_order (map_to_list (ac_sessions (ma_accounts m)))) with
  | Some (id, _) => ok true (on_accounts (λ a, a <| ac_sessions := delete id (ac_sessions a) |>) m)
  | None => ok false m
  end.

Definition mem_delete_sessions_for_user (user_id : Id) (m : MemAuth) : SRes nat * MemAuth :=
  let m' := on_accounts (λ a, a <| ac_sessions := retain (λ _ s, negb (as_user_id s =? user_id)%N) (ac_sessions a) |>) m in
  ok (size (ac_sessions (ma_accounts m)) - size (ac_sessions (ma_accounts m'))) m'.

(** *** Memberships *)

Definition bytes_le (a b : bytes) : bool := match List.list_compare (λ x y, N.compare (byte_n x) (byte_n y)) a b with Gt => false | _ => true end.

Definition mem_memberships_for_user (m : MemAuth) (user_id : Id) : SRes (list (OrganizationMembership * Organization)) :=
  let a := ma_accounts m in
  inr (stable_sort (λ x y, bytes_le (org_name x.2) (org_name y.2))
    (omap (λ ms, o ← ac_organizations a !! om_organization_id ms; Some (ms, o))
       (List.filter (λ ms, (om_user_id ms =? user_id)%N) (values (ac_memberships a))))).

Definition is_membership (organization_id user_id : Id) (ms : OrganizationMembership) : bool :=
  (om_organization_id ms =? organization_id)%N && (om_user_id ms =? user_id)%N.
Definition mem_membership (m : MemAuth) (organization_id user_id : Id) : SRes (option OrganizationMembership) :=
  inr (List.find (is_membership organization_id user_id) (values (ac_memberships (ma_accounts m)))).

Definition mem_memberships_for_organization (m : MemAuth) (organization_id : Id) : SRes (list (OrganizationMembership * User)) :=
  let a := ma_accounts m in
  inr (stable_sort (λ x y, bytes_le (us_email_address x.2) (us_email_address y.2))
    (omap (λ ms, u ← ac_users a !! om_user_id ms; Some (ms, u))
       (List.filter (λ ms, (om_organization_id ms =? organization_id)%N) (values (ac_memberships a))))).

Definition mem_upsert_membership (now : datetime) (organization_id user_id : Id) (role : Role) (m : MemAuth) :
    SRes OrganizationMembership * MemAuth :=
  match List.find (λ kv, is_membership organization_id user_id kv.2) (hash_order (map_to_list (ac_memberships (ma_accounts m)))) with
  | Some (key, existing) =>
      let existing := existing <| om_role := role |> in
      ok existing (on_accounts (λ a, a <| ac_memberships := <[key := existing]> (ac_memberships a) |>) m)
  | None =>
      let '(id, m) := next_id m in
      let new := mkMembership id organization_id user_id role now in
      ok new (on_accounts (λ a, a <| ac_memberships := <[id := new]> (ac_memberships a) |>) m)
  end.

Definition mem_delete_membership (organization_id user_id : Id) (m : MemAuth) : SRes bool * MemAuth :=
  let m' := on_accounts (λ a, a <| ac_memberships := retain (λ _ ms, negb (is_membership organization_id user_id ms)) (ac_memberships a) |>) m in
  ok (size (ac_memberships (ma_accounts m')) <? size (ac_memberships (ma_accounts m)))%nat m'.

(** *** Invitations *)

Definition PENDING_INVITATION : bytes := !"An invitation for this email address is already pending".
Definition mem_create_invitation (new : NewInvitation) (m : MemAuth) : SRes Invitation * MemAuth :=
  if existsb (λ i, (in_organization_id i =? ni_organization_id new)%N && eq_ignore_ascii_case (in_email_address i) (ni_email_address new)
                   && bool_decide (in_accepted_at i = None)) (values (ac_invitations (ma_accounts m)))
  then (inl (Conflict PENDING_INVITATION), m)
  else
    let '(id, m) := next_id m in
    let invitation := mkInvitation id (account_uuid id) (ni_organization_id new) (ni_email_address new) (ni_role new) (ni_token_hash new)
                        (ni_invited_by_user_id new) (ni_expires_at new) None in
    ok invitation (on_accounts (λ a, a <| ac_invitations := <[id := invitation]> (ac_invitations a) |>) m).

Definition mem_list_invitations (m : MemAuth) (organization_id : Id) : SRes (list Invitation) :=
  inr (stable_sort (λ x y, in_id x <=? in_id y)%N
    (List.filter (λ i, (in_organization_id i =? organization_id)%N) (values (ac_invitations (ma_accounts m))))).
Definition mem_invitation_by_token_hash (m : MemAuth) (token_hash : bytes) : SRes (option Invitation) :=
  inr (List.find (λ i, in_token_hash i =b token_hash) (values (ac_invitations (ma_accounts m)))).
Definition mem_mark_invitation_accepted (now : datetime) (invitation_id : Id) (m : MemAuth) : SRes unit * MemAuth :=
  ok tt (on_accounts (λ a, a <| ac_invitations := alter (λ i, i <| in_accepted_at := Some now |>) invitation_id (ac_invitations a) |>) m).
Definition mem_delete_invitation (organization_id invitation_id : Id) (m : MemAuth) : SRes bool * MemAuth :=
  match ac_invitations (ma_accounts m) !! invitation_id with
  | Some i =>
      if (in_organization_id i =? organization_id)%N
      then ok true (on_accounts (λ a, a <| ac_invitations := delete invitation_id (ac_invitations a) |>) m)
      else ok false m
  | None => ok false m
  end.

(** *** Password resets *)

Definition mem_create_password_reset (user_id : Id) (token_hash : bytes) (expires_at : datetime) (m : MemAuth) : SRes unit * MemAuth :=
  ok tt (on_accounts (λ a, a <| ac_password_resets := ac_password_resets a ++ [(user_id, token_hash, expires_at)] |>) m).

(** The first entry with the token and the list without it. *)
Fixpoint take_reset (token_hash : bytes) (l : list (Id * bytes * datetime)) : option (Id * datetime * list (Id * bytes * datetime)) :=
  match l with
  | [] => None
  | (user_id, hash, expires_at) :: l =>
      if hash =b token_hash then Some (user_id, expires_at, l)
      else '(found, rest) ← take_reset token_hash l; Some (found, (user_id, hash, expires_at) :: rest)
  end.
Definition mem_consume_password_reset (token_hash : bytes) (now : datetime) (m : MemAuth) : SRes (option Id) * MemAuth :=
  match take_reset token_hash (ac_password_resets (ma_accounts m)) with
  | None => ok None m
  | Some (user_id, expires_at, rest) =>
      ok (if (expires_at <? now)%Z then None else Some user_id) (on_accounts (λ a, a <| ac_password_resets := rest |>) m)
  end.

(** *** Sign-on *)

Definition mem_user_by_oidc_sub (m : MemAuth) (sub : bytes) : SRes (option User) :=
  let a := ma_accounts m in
  inr (auth ← List.find (λ x, bool_decide (ua_oidc_sub x = Some sub)) (values (ac_user_auth a)); ac_users a !! ua_user_id auth).
Definition mem_set_oidc_sub (user_id : Id) (sub : bytes) (m : MemAuth) : SRes unit * MemAuth :=
  ok tt (on_accounts (with_user_auth user_id (λ a, a <| ua_oidc_sub := Some sub |>)) m).

Definition mem_user_by_sso_identity (m : MemAuth) (provider subject : bytes) : SRes (option User) :=
  let a := ma_accounts m in
  inr (user_id ← ac_sso_identities a !! (provider, subject); ac_users a !! user_id).
Definition IDENTITY_LINKED : bytes := !"This SSO identity is already linked to another user".
Definition mem_link_sso_identity (user_id : Id) (provider subject : bytes) (m : MemAuth) : SRes unit * MemAuth :=
  let identities := ac_sso_identities (ma_accounts m) in
  if match identities !! (provider, subject) with Some other => negb (other =? user_id)%N | None => false end
  then (inl (Conflict IDENTITY_LINKED), m)
  else
    let kept := retain (λ key user, negb ((user =? user_id)%N && (key.1 =b provider))) identities in
    ok tt (on_accounts (λ a, a <| ac_sso_identities := <[(provider, subject) := user_id]> kept |>) m).

(** A state is removed when it is asked for, also when it has expired. *)
Definition redeem {A} (entry : option (A * datetime)) (now : datetime) : option A :=
  '(a, expires_at) ← entry; if (expires_at <? now)%Z then None else Some a.

Definition mem_create_oidc_state (state pkce_verifier nonce : bytes) (expires_at : datetime) (m : MemAuth) : SRes unit * MemAuth :=
  ok tt (on_accounts (λ a, a <| ac_oidc_states := <[state := (pkce_verifier, nonce, expires_at)]> (ac_oidc_states a) |>) m).
Definition mem_consume_oidc_state (state : bytes) (now : datetime) (m : MemAuth) : SRes (option (bytes * bytes)) * MemAuth :=
  ok (redeem (ac_oidc_states (ma_accounts m) !! state) now) (on_accounts (λ a, a <| ac_oidc_states := delete state (ac_oidc_states a) |>) m).

(** *** Passkeys *)

Definition PASSKEY_REGISTERED : bytes := !"This passkey is already registered".
Definition mem_add_webauthn_credential (now : datetime) (new : NewWebAuthnCredential) (m : MemAuth) : SRes WebAuthnCredential * MemAuth :=
  if existsb (λ c, wc_credential_id c =b nw_credential_id new) (values (ac_webauthn_credentials (ma_accounts m)))
  then (inl (Conflict PASSKEY_REGISTERED), m)
  else
    let '(id, m) := next_id m in
    let credential := mkWebAuthnCredential id (nw_user_id new) (nw_name new) (nw_credential_id new) (nw_credential_json new) now None in
    ok credential (on_accounts (λ a, a <| ac_webauthn_credentials := <[id := credential]> (ac_webauthn_credentials a) |>) m).
Definition mem_list_webauthn_credentials (m : MemAuth) (user_id : Id) : SRes (list WebAuthnCredential) :=
  inr (stable_sort (λ x y, wc_id x <=? wc_id y)%N
    (List.filter (λ c, (wc_user_id c =? user_id)%N) (values (ac_webauthn_credentials (ma_accounts m))))).
Definition mem_webauthn_credential_by_credential_id (m : MemAuth) (credential_id : bytes) : SRes (option WebAuthnCredential) :=
  inr (List.find (λ c, wc_credential_id c =b credential_id) (values (ac_webauthn_credentials (ma_accounts m)))).
Definition mem_update_webauthn_credential (id : Id) (credential_json : bytes) (last_used_at : datetime) (m : MemAuth) : SRes unit * MemAuth :=
  ok tt (on_accounts (λ a, a <| ac_webauthn_credentials :=
    alter (λ c, c <| wc_credential_json := credential_json |> <| wc_last_used_at := Some last_used_at |>) id (ac_webauthn_credentials a) |>) m).
Definition mem_delete_webauthn_credential (user_id id : Id) (m : MemAuth) : SRes bool * MemAuth :=
  match ac_webauthn_credentials (ma_accounts m) !! id with
  | Some c =>
      if (wc_user_id c =? user_id)%N
      then ok true (on_accounts (λ a, a <| ac_webauthn_credentials := delete id (ac_webauthn_credentials a) |>) m)
      else ok false m
  | None => ok false m
  end.
Definition mem_create_webauthn_state (key : bytes) (user_id : option Id) (state_json : bytes) (expires_at : datetime) (m : MemAuth) :
    SRes unit * MemAuth :=
  ok tt (on_accounts (λ a, a <| ac_webauthn_states := <[key := (user_id, state_json, expires_at)]> (ac_webauthn_states a) |>) m).
Definition mem_consume_webauthn_state (key : bytes) (now : datetime) (m : MemAuth) : SRes (option (option Id * bytes)) * MemAuth :=
  ok (redeem (ac_webauthn_states (ma_accounts m) !! key) now)
    (on_accounts (λ a, a <| ac_webauthn_states := delete key (ac_webauthn_states a) |>) m).

(** *** SAML *)

Definition mem_create_saml_request (request_id : bytes) (expires_at : datetime) (m : MemAuth) : SRes unit * MemAuth :=
  ok tt (on_accounts (λ a, a <| ac_saml_requests := <[request_id := expires_at]> (ac_saml_requests a) |>) m).
Definition mem_consume_saml_request (request_id : bytes) (now : datetime) (m : MemAuth) : SRes bool * MemAuth :=
  ok (match ac_saml_requests (ma_accounts m) !! request_id with Some expires_at => (now <=? expires_at)%Z | None => false end)
    (on_accounts (λ a, a <| ac_saml_requests := delete request_id (ac_saml_requests a) |>) m).
Definition mem_register_saml_assertion (assertion_id : bytes) (expires_at now : datetime) (m : MemAuth) : SRes bool * MemAuth :=
  let live := retain (λ _ expiry, now <=? expiry)%Z (ac_saml_assertions (ma_accounts m)) in
  match live !! assertion_id with
  | Some _ => ok false (on_accounts (λ a, a <| ac_saml_assertions := live |>) m)
  | None => ok true (on_accounts (λ a, a <| ac_saml_assertions := <[assertion_id := expires_at]> live |>) m)
  end.

(** *** Account state, audit log, users *)

Definition mem_set_user_disabled (user_id : Id) (disabled : bool) (m : MemAuth) : SRes unit * MemAuth :=
  ok tt (on_accounts (with_user_auth user_id (λ a, a <| ua_disabled := disabled |>)) m).

Definition new_event (id : Id) (now : datetime) (e : NewAuthEvent) : AuthEvent :=
  mkAuthEvent id (ne_user_id e) (ne_email_address e) (ne_event e) (ne_ip_address e) (ne_user_agent e) now.
Definition mem_record_auth_event (now : datetime) (e : NewAuthEvent) (m : MemAuth) : SRes unit * MemAuth :=
  let '(id, m) := next_id m in
  ok tt (on_accounts (λ a, a <| ac_events := ac_events a ++ [new_event id now e] |>) m).
Definition mem_list_auth_events (m : MemAuth) (limit : nat) : SRes (list AuthEvent) :=
  inr (take limit (rev (ac_events (ma_accounts m)))).

Definition EMAIL_TAKEN : bytes := !"Email address has already been taken".
Definition new_user (id : Id) (new : NewUser) : User :=
  mkUser id (account_uuid id) (nu_email_address new) (nu_first_name new) (nu_last_name new) (nu_admin new).
Definition mem_create_user (new : NewUser) (m : MemAuth) : SRes User * MemAuth :=
  if existsb (λ u, us_email_address u =b nu_email_address new) (values (ac_users (ma_accounts m)))
  then (inl (Conflict EMAIL_TAKEN), m)
  else
    let '(id, m) := next_id m in
    ok (new_user id new) (on_accounts (λ a, a <| ac_users := <[id := new_user id new]> (ac_users a) |>) m).
Definition mem_update_user (user : User) (m : MemAuth) : SRes User * MemAuth :=
  ok user (on_accounts (λ a, a <| ac_users := <[us_id user := user]> (ac_users a) |>) m).
Definition anonymised (user_id : Id) (e : AuthEvent) : AuthEvent :=
  if bool_decide (ae_user_id e = Some user_id) then e <| ae_email_address := None |> <| ae_user_id := None |> else e.
Definition mem_delete_user (user_id : Id) (m : MemAuth) : SRes bool * MemAuth :=
  ok (bool_decide (is_Some (ac_users (ma_accounts m) !! user_id)))
    (on_accounts (λ a, a <| ac_events := map (anonymised user_id) (ac_events a) |> <| ac_users := delete user_id (ac_users a) |>) m).

Definition mem_list_organizations (m : MemAuth) : SRes (list Organization) :=
  inr (stable_sort (λ x y, org_id x <=? org_id y)%N (values (ac_organizations (ma_accounts m)))).
Definition mem_organization_by_permalink (m : MemAuth) (permalink : bytes) : SRes (option Organization) :=
  organizations ← mem_list_organizations m;
  inr (List.find (λ o, org_permalink o =b permalink) organizations).

#[export] Instance MemAuth_store : AuthStore MemAuth := {|
  user_by_email a := reading (λ s, mem_user_by_email s a); user_auth a := reading (λ s, mem_user_auth s a); set_password_digest := mem_set_password_digest;
  set_totp := mem_set_totp; set_login_state := mem_set_login_state; user_has_two_factor a := reading (λ s, mem_user_has_two_factor s a);
  create_session := mem_create_session; session_with_user a := reading (λ s, mem_session_with_user s a); touch_session := mem_touch_session;
  delete_session := mem_delete_session; delete_sessions_for_user := mem_delete_sessions_for_user;
  memberships_for_user a := reading (λ s, mem_memberships_for_user s a); membership a b := reading (λ s, mem_membership s a b);
  memberships_for_organization a := reading (λ s, mem_memberships_for_organization s a); upsert_membership := mem_upsert_membership;
  delete_membership := mem_delete_membership; create_invitation := mem_create_invitation; list_invitations a := reading (λ s, mem_list_invitations s a);
  invitation_by_token_hash a := reading (λ s, mem_invitation_by_token_hash s a); mark_invitation_accepted := mem_mark_invitation_accepted;
  delete_invitation := mem_delete_invitation; create_password_reset := mem_create_password_reset;
  consume_password_reset := mem_consume_password_reset; user_by_oidc_sub a := reading (λ s, mem_user_by_oidc_sub s a); set_oidc_sub := mem_set_oidc_sub;
  user_by_sso_identity a b := reading (λ s, mem_user_by_sso_identity s a b); link_sso_identity := mem_link_sso_identity;
  create_oidc_state := mem_create_oidc_state; consume_oidc_state := mem_consume_oidc_state;
  add_webauthn_credential := mem_add_webauthn_credential; list_webauthn_credentials a := reading (λ s, mem_list_webauthn_credentials s a);
  webauthn_credential_by_credential_id a := reading (λ s, mem_webauthn_credential_by_credential_id s a);
  update_webauthn_credential := mem_update_webauthn_credential; delete_webauthn_credential := mem_delete_webauthn_credential;
  create_webauthn_state := mem_create_webauthn_state; consume_webauthn_state := mem_consume_webauthn_state;
  create_saml_request := mem_create_saml_request; consume_saml_request := mem_consume_saml_request;
  register_saml_assertion := mem_register_saml_assertion; set_user_disabled := mem_set_user_disabled;
  record_auth_event := mem_record_auth_event; list_auth_events a := reading (λ s, mem_list_auth_events s a); create_user := mem_create_user;
  update_user := mem_update_user; delete_user := mem_delete_user; organization_by_permalink a := reading (λ s, mem_organization_by_permalink s a);
  list_organizations := reading (λ s, mem_list_organizations s) |}.
End Memory.
