(* ===== verification/AuthPg.v ===== *)
(** * AuthPg: accounts in PostgreSQL

    [camelmailer-db/src/auth_pg.rs], with the user statements of [pg_store.rs]: every
    statement as a function of the tables, with the constraints of the migrations
    (primary, unique and foreign keys, cascades).  [pa_failing] are the statements that
    fail now; one that fails changes nothing.  Uuids do not repeat. *)

From S2P Require Import Prelude RustStr Net Model MemoryStore Auth AuthStore.

Inductive AuthTable := TUsers | TSessions | TMemberships | TInvitations | TPasskeys | TEvents.
#[export] Instance AuthTable_eq_dec : EqDecision AuthTable.
Proof. solve_decision. Defined.

Inductive AuthQuery :=
| QUserByEmail | QUserExists | QUserAuth | QSetPassword | QSetTotp | QSetLoginState | QTwoFactor | QCreateSession | QSession
| QTouchSession | QDeleteSession | QDeleteSessions | QMembershipsOfUser | QMembership | QMembershipsOfOrganization
| QUpsertMembership | QDeleteMembership | QCreateInvitation | QListInvitations | QInvitation | QAcceptInvitation
| QDeleteInvitation | QCreateReset | QConsumeReset | QUserBySub | QSetSub | QUserByIdentity | QLinkIdentity | QCreateOidcState
| QConsumeOidcState | QAddPasskey | QListPasskeys | QPasskey | QUpdatePasskey | QDeletePasskey | QCreatePasskeyState
| QConsumePasskeyState | QCreateSaml | QConsumeSaml | QSweepAssertions | QInsertAssertion | QSetDisabled | QRecordEvent
| QListEvents | QCreateUser | QUpdateUser | QDeleteUser | QOrganizationByPermalink | QListOrganizations.
#[export] Instance AuthQuery_eq_dec : EqDecision AuthQuery.
Proof. solve_decision. Defined.

Record PgAuth := mkPgAuth {
  pa_accounts : Accounts;
  pa_sequence : AuthTable → Id;
  pa_failing : AuthQuery → bool;
}.
#[export] Instance eta_PgAuth : Eta PgAuth := λ s, mkPgAuth (pa_accounts s) (pa_sequence s) (pa_failing s).

Section Pg.
Context `{ORD : !HashOrder, AUTH : !AuthCrates} (sql_lower : bytes → bytes) (collate_le : bytes → bytes → bool).

(** A query that reads, and a statement that writes. *)
Definition select {A} (s : PgAuth) (q : AuthQuery) (rows : Accounts → A) : SRes A :=
  if pa_failing s q then inl OtherError else inr (rows (pa_accounts s)).
Definition execute {A} (q : AuthQuery) (f : Accounts → SRes A * Accounts) (s : PgAuth) : SRes A * PgAuth :=
  if pa_failing s q then (inl OtherError, s) else let '(r, a) := f (pa_accounts s) in (r, s <| pa_accounts := a |>).
(** An insertion draws its id from the sequence of the table, also when it fails on a
    constraint. *)
Definition insert_into {A} (q : AuthQuery) (table : AuthTable) (f : Id → Accounts → SRes A * Accounts) (s : PgAuth) : SRes A * PgAuth :=
  if pa_failing s q then (inl OtherError, s)
  else
    let id := pa_sequence s table in
    let '(r, a) := f id (pa_accounts s) in
    (r, s <| pa_accounts := a |> <| pa_sequence := λ t, if decide (t = table) then (id + 1)%N else pa_sequence s t |>).

Definition user_row (a : Accounts) (id : Id) : bool := bool_decide (is_Some (ac_users a !! id)).
Definition organization_exists (a : Accounts) (id : Id) : bool := bool_decide (is_Some (ac_organizations a !! id)).
Definition refuse {A} (e : StoreError) (a : Accounts) : SRes A * Accounts := (inl e, a).
Definition NOT_UNIQUE : StoreError := Conflict !"Record is not unique".

(** [INSERT INTO user_auth ... ON CONFLICT (user_id) DO UPDATE]. *)
Definition upsert_user_auth (user_id : Id) (f : UserAuth → UserAuth) (a : Accounts) : SRes unit * Accounts :=
  if user_row a user_id then ok tt (with_user_auth user_id f a) else refuse OtherError a.

Definition pg_user_by_email (s : PgAuth) (email : bytes) : SRes (option User) :=
  select s QUserByEmail (λ a, List.find (λ u, sql_lower (us_email_address u) =b sql_lower email) (values (ac_users a))).
Definition pg_user_auth (s : PgAuth) (user_id : Id) : SRes (option UserAuth) :=
  exists_ ← select s QUserExists (λ a, user_row a user_id);
  if exists_ : bool
  then select s QUserAuth (λ a, Some (match ac_user_auth a !! user_id with Some row => row | None => user_auth_default user_id end))
  else inr None.
Definition pg_set_password_digest (user_id : Id) (digest : bytes) : PgAuth → SRes unit * PgAuth :=
  execute QSetPassword (upsert_user_auth user_id (λ a, a <| ua_password_digest := Some digest |>)).
Definition pg_set_totp (user_id : Id) (secret : option bytes) (enabled : bool) : PgAuth → SRes unit * PgAuth :=
  execute QSetTotp (upsert_user_auth user_id (λ a, a <| ua_totp_secret := secret |> <| ua_totp_enabled := enabled |>)).
(** [COALESCE($4, user_auth.last_login_at)] *)
Definition pg_set_login_state (user_id : Id) (failed_attempts : Z) (locked_until last_login_at : option datetime) : PgAuth → SRes unit * PgAuth :=
  execute QSetLoginState (upsert_user_auth user_id (λ a, a <| ua_failed_login_attempts := failed_attempts |> <| ua_locked_until := locked_until |>
    <| ua_last_login_at := match last_login_at with Some t => Some t | None => ua_last_login_at a end |>)).
Definition pg_user_has_two_factor (s : PgAuth) (user_id : Id) : SRes bool :=
  select s QTwoFactor (λ a, match ac_user_auth a !! user_id with Some row => ua_totp_enabled row | None => false end
    || existsb (λ c, (wc_user_id c =? user_id)%N) (values (ac_webauthn_credentials a))).

(** *** Sessions *)

Definition pg_create_session (now : datetime) (new : NewAuthSession) : PgAuth → SRes AuthSession * PgAuth :=
  insert_into QCreateSession TSessions (λ id a,
    if negb (user_row a (ns_user_id new)) then refuse OtherError a
    else if existsb (λ s, as_token_hash s =b ns_token_hash new) (values (ac_sessions a)) then refuse NOT_UNIQUE a
    else
      let row := mkAuthSession id (ns_user_id new) (ns_token_hash new) now (ns_expires_at new) now (ns_ip_address new)
                   (ns_user_agent new) (ns_oidc_logout new) in
      ok row (a <| ac_sessions := <[id := row]> (ac_sessions a) |>)).
Definition pg_session_with_user (s : PgAuth) (token_hash : bytes) : SRes (option (AuthSession * User)) :=
  select s QSession (λ a, head (omap (λ row, if as_token_hash row =b token_hash
                                            then u ← ac_users a !! as_user_id row; Some (row, u) else None) (values (ac_sessions a)))).
Definition pg_touch_session (session_id : Id) (last_used_at expires_at : datetime) : PgAuth → SRes unit * PgAuth :=
  execute QTouchSession (λ a, ok tt (a <| ac_sessions :=
    alter (λ s, s <| as_last_used_at := last_used_at |> <| as_expires_at := expires_at |>) session_id (ac_sessions a) |>)).
Definition pg_delete_session (token_hash : bytes) : PgAuth → SRes bool * PgAuth :=
  execute QDeleteSession (λ a,
    let kept := retain (λ _ s, negb (as_token_hash s =b token_hash)) (ac_sessions a) in
    ok (0 <? size (ac_sessions a) - size kept)%nat (a <| ac_sessions := kept |>)).
Definition pg_delete_sessions_for_user (user_id : Id) : PgAuth → SRes nat * PgAuth :=
  execute QDeleteSessions (λ a,
    let kept := retain (λ _ s, negb (as_user_id s =? user_id)%N) (ac_sessions a) in
    ok (size (ac_sessions a) - size kept) (a <| ac_sessions := kept |>)).

(** *** Memberships *)

Definition pg_memberships_for_user (s : PgAuth) (user_id : Id) : SRes (list (OrganizationMembership * Organization)) :=
  select s QMembershipsOfUser (λ a,
    stable_sort (λ x y, collate_le (org_name x.2) (org_name y.2))
      (omap (λ ms, if (om_user_id ms =? user_id)%N then o ← ac_organizations a !! om_organization_id ms; Some (ms, o) else None)
         (values (ac_memberships a)))).
Definition pg_membership (s : PgAuth) (organization_id user_id : Id) : SRes (option OrganizationMembership) :=
  select s QMembership (λ a, List.find (is_membership organization_id user_id) (values (ac_memberships a))).
Definition pg_memberships_for_organization (s : PgAuth) (organization_id : Id) : SRes (list (OrganizationMembership * User)) :=
  select s QMembershipsOfOrganization (λ a,
    stable_sort (λ x y, collate_le (us_email_address x.2) (us_email_address y.2))
      (omap (λ ms, if (om_organization_id ms =? organization_id)%N then u ← ac_users a !! om_user_id ms; Some (ms, u) else None)
         (values (ac_memberships a)))).
Definition pg_upsert_membership (now : datetime) (organization_id user_id : Id) (role : Role) : PgAuth → SRes OrganizationMembership * PgAuth :=
  insert_into QUpsertMembership TMemberships (λ id a,
    match List.find (λ kv, is_membership organization_id user_id kv.2) (hash_order (map_to_list (ac_memberships a))) with
    | Some (key, row) =>
        let row := row <| om_role := role |> in ok row (a <| ac_memberships := <[key := row]> (ac_memberships a) |>)
    | None =>
        if organization_exists a organization_id && user_row a user_id
        then let row := mkMembership id organization_id user_id role now in
             ok row (a <| ac_memberships := <[id := row]> (ac_memberships a) |>)
        else refuse OtherError a
    end).
Definition pg_delete_membership (organization_id user_id : Id) : PgAuth → SRes bool * PgAuth :=
  execute QDeleteMembership (λ a,
    let kept := retain (λ _ ms, negb (is_membership organization_id user_id ms)) (ac_memberships a) in
    ok (0 <? size (ac_memberships a) - size kept)%nat (a <| ac_memberships := kept |>)).

(** *** Invitations *)

(** [idx_invitations_pending] *)
Definition pending_for (organization_id : Id) (email : bytes) (i : Invitation) : bool :=
  (in_organization_id i =? organization_id)%N && (sql_lower (in_email_address i) =b sql_lower email) && bool_decide (in_accepted_at i = None).
Definition pg_create_invitation (new : NewInvitation) : PgAuth → SRes Invitation * PgAuth :=
  insert_into QCreateInvitation TInvitations (λ id a,
    if existsb (λ i, in_token_hash i =b ni_token_hash new) (values (ac_invitations a)) then refuse NOT_UNIQUE a
    else if existsb (pending_for (ni_organization_id new) (ni_email_address new)) (values (ac_invitations a))
    then refuse (Conflict PENDING_INVITATION) a
    else if organization_exists a (ni_organization_id new) && user_row a (ni_invited_by_user_id new)
    then let row := mkInvitation id (account_uuid id) (ni_organization_id new) (ni_email_address new) (ni_role new) (ni_token_hash new)
                      (ni_invited_by_user_id new) (ni_expires_at new) None in
         ok row (a <| ac_invitations := <[id := row]> (ac_invitations a) |>)
    else refuse OtherError a).
Definition pg_list_invitations (s : PgAuth) (organization_id : Id) : SRes (list Invitation) :=
  select s QListInvitations (λ a, stable_sort (λ x y, in_id x <=? in_id y)%N
    (List.filter (λ i, (in_organization_id i =? organization_id)%N) (values (ac_invitations a)))).
Definition pg_invitation_by_token_hash (s : PgAuth) (token_hash : bytes) : SRes (option Invitation) :=
  select s QInvitation (λ a, List.find (λ i, in_token_hash i =b token_hash) (values (ac_invitations a))).
Definition pg_mark_invitation_accepted (now : datetime) (invitation_id : Id) : PgAuth → SRes unit * PgAuth :=
  execute QAcceptInvitation (λ a, ok tt (a <| ac_invitations := alter (λ i, i <| in_accepted_at := Some now |>) invitation_id (ac_invitations a) |>)).
Definition pg_delete_invitation (organization_id invitation_id : Id) : PgAuth → SRes bool * PgAuth :=
  execute QDeleteInvitation (λ a,
    let kept := retain (λ id i, negb ((id =? invitation_id)%N && (in_organization_id i =? organization_id)%N)) (ac_invitations a) in
    ok (0 <? size (ac_invitations a) - size kept)%nat (a <| ac_invitations := kept |>)).

(** *** Password resets *)

Definition pg_create_password_reset (user_id : Id) (token_hash : bytes) (expires_at : datetime) : PgAuth → SRes unit * PgAuth :=
  execute QCreateReset (λ a,
    if negb (user_row a user_id) then refuse OtherError a
    else if existsb (λ r, r.1.2 =b token_hash) (ac_password_resets a) then refuse NOT_UNIQUE a
    else ok tt (a <| ac_password_resets := ac_password_resets a ++ [(user_id, token_hash, expires_at)] |>)).
(** [DELETE ... RETURNING user_id, expires_at]; the token is unique. *)
Definition pg_consume_password_reset (token_hash : bytes) (now : datetime) : PgAuth → SRes (option Id) * PgAuth :=
  execute QConsumeReset (λ a,
    let deleted := List.filter (λ r, r.1.2 =b token_hash) (ac_password_resets a) in
    let row := head deleted in
    ok (r ← row; if (r.2 <? now)%Z then None else Some r.1.1)
      (a <| ac_password_resets := List.filter (λ r, negb (r.1.2 =b token_hash)) (ac_password_resets a) |>)).

(** *** Sign-on *)

Definition holds_sub (sub : bytes) (row : UserAuth) : bool := bool_decide (ua_oidc_sub row = Some sub).
Definition pg_user_by_oidc_sub (s : PgAuth) (sub : bytes) : SRes (option User) :=
  select s QUserBySub (λ a, head (omap (λ row, if holds_sub sub row then ac_users a !! ua_user_id row else None) (values (ac_user_auth a)))).
(** [user_auth_oidc_sub_key] *)
Definition pg_set_oidc_sub (user_id : Id) (sub : bytes) : PgAuth → SRes unit * PgAuth :=
  execute QSetSub (λ a,
    if existsb (λ kv, negb (kv.1 =? user_id)%N && holds_sub sub kv.2) (map_to_list (ac_user_auth a))
    then refuse (Conflict IDENTITY_LINKED) a
    else upsert_user_auth user_id (λ row, row <| ua_oidc_sub := Some sub |>) a).

Definition pg_user_by_sso_identity (s : PgAuth) (provider subject : bytes) : SRes (option User) :=
  select s QUserByIdentity (λ a, user_id ← ac_sso_identities a !! (provider, subject); ac_users a !! user_id).
(** [ON CONFLICT ON CONSTRAINT sso_identities_provider_user_key DO UPDATE SET subject]:
    the row of the user moves to the new subject, unless that key is taken. *)
Definition pg_link_sso_identity (user_id : Id) (provider subject : bytes) : PgAuth → SRes unit * PgAuth :=
  execute QLinkIdentity (λ a,
    let rows := ac_sso_identities a in
    if from_option (λ holder, negb (holder =? user_id)%N) false (rows !! (provider, subject))
    then refuse (Conflict IDENTITY_LINKED) a
    else if user_row a user_id
    then let others := retain (λ key holder, negb ((key.1 =b provider) && (holder =? user_id)%N)) rows in
         ok tt (a <| ac_sso_identities := <[(provider, subject) := user_id]> others |>)
    else refuse OtherError a).

Definition pg_create_oidc_state (state pkce_verifier nonce : bytes) (expires_at : datetime) : PgAuth → SRes unit * PgAuth :=
  execute QCreateOidcState (λ a,
    match ac_oidc_states a !! state with
    | Some _ => refuse NOT_UNIQUE a
    | None => ok tt (a <| ac_oidc_states := <[state := (pkce_verifier, nonce, expires_at)]> (ac_oidc_states a) |>)
    end).
Definition pg_consume_oidc_state (state : bytes) (now : datetime) : PgAuth → SRes (option (bytes * bytes)) * PgAuth :=
  execute QConsumeOidcState (λ a,
    ok (row ← ac_oidc_states a !! state; if (row.2 <? now)%Z then None else Some row.1)
      (a <| ac_oidc_states := delete state (ac_oidc_states a) |>)).

(** *** Passkeys *)

Definition pg_add_webauthn_credential (now : datetime) (new : NewWebAuthnCredential) : PgAuth → SRes WebAuthnCredential * PgAuth :=
  insert_into QAddPasskey TPasskeys (λ id a,
    if existsb (λ c, wc_credential_id c =b nw_credential_id new) (values (ac_webauthn_credentials a))
    then refuse (Conflict PASSKEY_REGISTERED) a
    else if user_row a (nw_user_id new)
    then let row := mkWebAuthnCredential id (nw_user_id new) (nw_name new) (nw_credential_id new) (nw_credential_json new) now None in
         ok row (a <| ac_webauthn_credentials := <[id := row]> (ac_webauthn_credentials a) |>)
    else refuse OtherError a).
Definition pg_list_webauthn_credentials (s : PgAuth) (user_id : Id) : SRes (list WebAuthnCredential) :=
  select s QListPasskeys (λ a, stable_sort (λ x y, wc_id x <=? wc_id y)%N
    (List.filter (λ c, (wc_user_id c =? user_id)%N) (values (ac_webauthn_credentials a)))).
Definition pg_webauthn_credential_by_credential_id (s : PgAuth) (credential_id : bytes) : SRes (option WebAuthnCredential) :=
  select s QPasskey (λ a, List.find (λ c, wc_credential_id c =b credential_id) (values (ac_webauthn_credentials a))).
Definition pg_update_webauthn_credential (id : Id) (credential_json : bytes) (last_used_at : datetime) : PgAuth → SRes unit * PgAuth :=
  execute QUpdatePasskey (λ a, ok tt (a <| ac_webauthn_credentials :=
    alter (λ c, c <| wc_credential_json := credential_json |> <| wc_last_used_at := Some last_used_at |>) id (ac_webauthn_credentials a) |>)).
Definition pg_delete_webauthn_credential (user_id id : Id) : PgAuth → SRes bool * PgAuth :=
  execute QDeletePasskey (λ a,
    let kept := retain (λ key c, negb ((key =? id)%N && (wc_user_id c =? user_id)%N)) (ac_webauthn_credentials a) in
    ok (0 <? size (ac_webauthn_credentials a) - size kept)%nat (a <| ac_webauthn_credentials := kept |>)).
Definition pg_create_webauthn_state (key : bytes) (user_id : option Id) (state_json : bytes) (expires_at : datetime) : PgAuth → SRes unit * PgAuth :=
  execute QCreatePasskeyState (λ a,
    if from_option (user_row a) true user_id
    then ok tt (a <| ac_webauthn_states := <[key := (user_id, state_json, expires_at)]> (ac_webauthn_states a) |>)
    else refuse OtherError a).
Definition pg_consume_webauthn_state (key : bytes) (now : datetime) : PgAuth → SRes (option (option Id * bytes)) * PgAuth :=
  execute QConsumePasskeyState (λ a,
    ok (row ← ac_webauthn_states a !! key; if (row.2 <? now)%Z then None else Some row.1)
      (a <| ac_webauthn_states := delete key (ac_webauthn_states a) |>)).


(** *** SAML *)

Definition pg_create_saml_request (request_id : bytes) (expires_at : datetime) : PgAuth → SRes unit * PgAuth :=
  execute QCreateSaml (λ a,
    match ac_saml_requests a !! request_id with
    | Some _ => refuse NOT_UNIQUE a
    | None => ok tt (a <| ac_saml_requests := <[request_id := expires_at]> (ac_saml_requests a) |>)
    end).
Definition pg_consume_saml_request (request_id : bytes) (now : datetime) : PgAuth → SRes bool * PgAuth :=
  execute QConsumeSaml (λ a,
    ok (match ac_saml_requests a !! request_id with Some expires_at => (now <=? expires_at)%Z | None => false end)
      (a <| ac_saml_requests := delete request_id (ac_saml_requests a) |>)).
(** Two statements: the sweep of expired assertions stays when the insertion fails. *)
Definition pg_register_saml_assertion (assertion_id : bytes) (expires_at now : datetime) (s : PgAuth) : SRes bool * PgAuth :=
  let '(swept, s) := execute QSweepAssertions (λ a,
    ok tt (a <| ac_saml_assertions := retain (λ _ expiry, negb (expiry <? now)%Z) (ac_saml_assertions a) |>)) s in
  match swept with
  | inl e => (inl e, s)
  | inr _ =>
      execute QInsertAssertion (λ a,
        match ac_saml_assertions a !! assertion_id with
        | Some _ => ok false a
        | None => ok true (a <| ac_saml_assertions := <[assertion_id := expires_at]> (ac_saml_assertions a) |>)
        end) s
  end.

(** *** Account state, audit log, users *)

Definition pg_set_user_disabled (user_id : Id) (disabled : bool) : PgAuth → SRes unit * PgAuth :=
  execute QSetDisabled (upsert_user_auth user_id (λ a, a <| ua_disabled := disabled |>)).
Definition pg_record_auth_event (now : datetime) (e : NewAuthEvent) : PgAuth → SRes unit * PgAuth :=
  insert_into QRecordEvent TEvents (λ id a,
    if from_option (user_row a) true (ne_user_id e)
    then ok tt (a <| ac_events := ac_events a ++ [new_event id now e] |>)
    else refuse OtherError a).
(** [ORDER BY id DESC LIMIT $1] *)
Definition pg_list_auth_events (s : PgAuth) (limit : nat) : SRes (list AuthEvent) :=
  select s QListEvents (λ a, take limit (stable_sort (λ x y, ae_id y <=? ae_id x)%N (ac_events a))).

Definition pg_create_user (new : NewUser) : PgAuth → SRes User * PgAuth :=
  insert_into QCreateUser TUsers (λ id a,
    if existsb (λ u, us_email_address u =b nu_email_address new) (values (ac_users a)) then refuse (Conflict EMAIL_TAKEN) a
    else ok (new_user id new) (a <| ac_users := <[id := new_user id new]> (ac_users a) |>)).
Definition pg_update_user (user : User) : PgAuth → SRes User * PgAuth :=
  execute QUpdateUser (λ a,
    if user_row a (us_id user) && existsb (λ kv, negb (kv.1 =? us_id user)%N && (us_email_address kv.2 =b us_email_address user)) (map_to_list (ac_users a))
    then refuse (Conflict EMAIL_TAKEN) a
    else ok user (a <| ac_users := alter (λ row, user <| us_uuid := us_uuid row |>) (us_id user) (ac_users a) |>)).

(** [ON DELETE CASCADE] and, for the audit log, [SET NULL]. *)
Definition without_user (id : Id) (a : Accounts) : Accounts :=
  let other user_id := negb (user_id =? id)%N in
  a <| ac_users := delete id (ac_users a) |>
    <| ac_user_auth := delete id (ac_user_auth a) |>
    <| ac_sessions := retain (λ _ s, other (as_user_id s)) (ac_sessions a) |>
    <| ac_memberships := retain (λ _ ms, other (om_user_id ms)) (ac_memberships a) |>
    <| ac_invitations := retain (λ _ i, other (in_invited_by_user_id i)) (ac_invitations a) |>
    <| ac_password_resets := List.filter (λ r, other r.1.1) (ac_password_resets a) |>
    <| ac_sso_identities := retain (λ _ user_id, other user_id) (ac_sso_identities a) |>
    <| ac_webauthn_credentials := retain (λ _ c, other (wc_user_id c)) (ac_webauthn_credentials a) |>
    <| ac_webauthn_states := retain (λ _ row, from_option other true row.1.1) (ac_webauthn_states a) |>
    <| ac_events := map (anonymised id) (ac_events a) |>.
(** One transaction. *)
Definition pg_delete_user (id : Id) : PgAuth → SRes bool * PgAuth :=
  execute QDeleteUser (λ a, ok (user_row a id) (without_user id a)).

Definition pg_organization_by_permalink (s : PgAuth) (permalink : bytes) : SRes (option Organization) :=
  select s QOrganizationByPermalink (λ a, List.find (λ o, org_permalink o =b permalink) (values (ac_organizations a))).
Definition pg_list_organizations (s : PgAuth) : SRes (list Organization) :=
  select s QListOrganizations (λ a, stable_sort (λ x y, collate_le (org_name x) (org_name y)) (values (ac_organizations a))).

#[export] Instance PgAuth_store : AuthStore PgAuth := {|
  user_by_email a := reading (λ s, pg_user_by_email s a); user_auth a := reading (λ s, pg_user_auth s a); set_password_digest := pg_set_password_digest;
  set_totp := pg_set_totp; set_login_state := pg_set_login_state; user_has_two_factor a := reading (λ s, pg_user_has_two_factor s a);
  create_session := pg_create_session; session_with_user a := reading (λ s, pg_session_with_user s a); touch_session := pg_touch_session;
  delete_session := pg_delete_session; delete_sessions_for_user := pg_delete_sessions_for_user;
  memberships_for_user a := reading (λ s, pg_memberships_for_user s a); membership a b := reading (λ s, pg_membership s a b);
  memberships_for_organization a := reading (λ s, pg_memberships_for_organization s a); upsert_membership := pg_upsert_membership;
  delete_membership := pg_delete_membership; create_invitation := pg_create_invitation; list_invitations a := reading (λ s, pg_list_invitations s a);
  invitation_by_token_hash a := reading (λ s, pg_invitation_by_token_hash s a); mark_invitation_accepted := pg_mark_invitation_accepted;
  delete_invitation := pg_delete_invitation; create_password_reset := pg_create_password_reset;
  consume_password_reset := pg_consume_password_reset; user_by_oidc_sub a := reading (λ s, pg_user_by_oidc_sub s a); set_oidc_sub := pg_set_oidc_sub;
  user_by_sso_identity a b := reading (λ s, pg_user_by_sso_identity s a b); link_sso_identity := pg_link_sso_identity;
  create_oidc_state := pg_create_oidc_state; consume_oidc_state := pg_consume_oidc_state;
  add_webauthn_credential := pg_add_webauthn_credential; list_webauthn_credentials a := reading (λ s, pg_list_webauthn_credentials s a);
  webauthn_credential_by_credential_id a := reading (λ s, pg_webauthn_credential_by_credential_id s a);
  update_webauthn_credential := pg_update_webauthn_credential; delete_webauthn_credential := pg_delete_webauthn_credential;
  create_webauthn_state := pg_create_webauthn_state; consume_webauthn_state := pg_consume_webauthn_state;
  create_saml_request := pg_create_saml_request; consume_saml_request := pg_consume_saml_request;
  register_saml_assertion := pg_register_saml_assertion; set_user_disabled := pg_set_user_disabled;
  record_auth_event := pg_record_auth_event; list_auth_events a := reading (λ s, pg_list_auth_events s a); create_user := pg_create_user;
  update_user := pg_update_user; delete_user := pg_delete_user; organization_by_permalink a := reading (λ s, pg_organization_by_permalink s a);
  list_organizations := reading (λ s, pg_list_organizations s) |}.

End Pg.
