(* ===== verification/AppMailer.v ===== *)
(** * AppMailer: platform mail and the hooks of account handlers

    The texts of [camelmailer-api/src/app_mailer.rs], and what the account handlers
    call outside the account tables: delivering platform mail, the lifecycle event of
    a registration, the starter workspace, the confirmation of a sender address.
    [Workspace.Deployment_hooks] are the hooks on the production store. *)

From S2P Require Import Prelude RustStr Net Model MemoryStore PgStore Compose ApiSend Auth AuthStore.

Record AppMail := mkAppMail { am_to : bytes; am_subject : bytes; am_text_body : bytes; am_html_body : bytes }.

Definition escape_html : bytes → bytes := footer_escape.
(** [<a href="url">text</a>] *)
Definition anchor (url : bytes) : bytes := !"<a href=" ++ [DQ] ++ url ++ [DQ] ++ !">" ++ url ++ !"</a>".
Definition paragraph (text : bytes) : bytes := !"<p>" ++ text ++ !"</p>".
Definition nl (s : bytes) : bytes := s ++ [LF].

Definition password_reset_mail (to link : bytes) (expiry_hours : N) : AppMail :=
  mkAppMail to !"Reset your Camelmailer password"
    (nl !"Hello," ++ [LF] ++ nl !"A password reset was requested for your Camelmailer account."
     ++ nl !"Choose a new password using this link:" ++ [LF] ++ nl link ++ [LF]
     ++ nl (!"The link expires in " ++ show_N expiry_hours ++ !" hours. If you did not request a reset, you can ignore this email."))
    (let link := escape_html link in
     paragraph !"Hello,"
     ++ paragraph !"A password reset was requested for your Camelmailer account. Choose a new password using this link:"
     ++ paragraph (anchor link)
     ++ paragraph (!"The link expires in " ++ show_N expiry_hours ++ !" hours. If you did not request a reset, you can ignore this email.")).

Definition invitation_mail (to organization_name link : bytes) (expiry_days : N) : AppMail :=
  mkAppMail to (!"You have been invited to " ++ organization_name ++ !" on Camelmailer")
    (nl !"Hello," ++ [LF] ++ nl (!"You have been invited to join " ++ organization_name ++ !" on Camelmailer.")
     ++ nl !"Accept the invitation using this link:" ++ [LF] ++ nl link ++ [LF]
     ++ nl (!"The invitation expires in " ++ show_N expiry_days ++ !" days."))
    (let organization_name := escape_html organization_name in
     let link := escape_html link in
     paragraph !"Hello,"
     ++ paragraph (!"You have been invited to join <strong>" ++ organization_name
                   ++ !"</strong> on Camelmailer. Accept the invitation using this link:")
     ++ paragraph (anchor link)
     ++ paragraph (!"The invitation expires in " ++ show_N expiry_days ++ !" days.")).

(** U+2014 in UTF-8. *)
Definition EM_DASH : bytes := [ascii_of_N 226; ascii_of_N 128; ascii_of_N 148].
Definition sender_address_confirmation_mail (to link : bytes) : AppMail :=
  let added := !"This email address was added as a sender address on a Camelmailer mail server. Confirm that you own it using this link:" in
  let unexpected := !"If you did not expect this email, you can ignore it " ++ EM_DASH ++ !" the address will stay unconfirmed." in
  mkAppMail to !"Confirm your sender address on Camelmailer"
    (nl !"Hello," ++ [LF] ++ nl added ++ [LF] ++ nl link ++ [LF] ++ nl unexpected)
    (paragraph !"Hello," ++ paragraph added ++ paragraph (anchor (escape_html link)) ++ paragraph unexpected).

Definition welcome_mail (to first_name : bytes) (frontend_url : option bytes) : AppMail :=
  let greeting := if bool_decide (first_name = []) then !"Hello" else !"Hello " ++ first_name in
  mkAppMail to !"Welcome to Camelmailer"
    (nl (greeting ++ !",") ++ [LF] ++ nl !"Your Camelmailer account has been created."
     ++ from_option (λ url, [LF] ++ nl (!"Sign in at " ++ url)) [] frontend_url ++ [LF] ++ nl !"Happy sending!")
    (paragraph (escape_html greeting ++ !",") ++ paragraph !"Your Camelmailer account has been created."
     ++ from_option (λ url, paragraph (!"Sign in at " ++ anchor (escape_html url))) [] frontend_url
     ++ paragraph !"Happy sending!").

(** ** Hooks *)

Inductive RegistrationSource := Registration | ByInvitation | Sso | Scim | ByAdmin.
Definition registration_source (s : RegistrationSource) : bytes :=
  match s with
  | Registration => !"registration" | ByInvitation => !"invitation" | Sso => !"sso" | Scim => !"scim" | ByAdmin => !"admin"
  end.

Record BootstrappedWorkspace := mkBootstrapped { bw_organization : Organization; bw_server : Server; bw_api_key : option bytes }.

(** What the handlers of accounts use besides the account tables. *)
Class AccountHooks (S : Type) := {
  deliver : datetime → Z → AppMail → S → bool * S;
  user_registered : datetime → User → RegistrationSource → S → unit * S;
  bootstrap_workspace : datetime → Z → User → bool → S → option BootstrappedWorkspace * S;
  confirm_sender_address : bytes → S → SRes (option bytes) * S;
}.
