(* ===== verification/AdminStore.v ===== *)
(** * AdminStore: the storage interface of the admin API

    [camelmailer-core/src/admin_store.rs]: the records of new rows and the trait
    [AdminStore] as a class.  The operations on users and the two lookups of
    organizations the account handlers use too are in [AuthStore]; the class has the
    rest.  An operation is a step on the store. *)

From S2P Require Import Prelude RustStr Net Model SendLimit MemoryStore MailDb PgStore Auth AuthStore.

Record NewOrganization := mkNewOrganization { no_name : bytes; no_permalink : bytes }.
Record NewServer := mkNewServer { nsv_organization_id : Id; nsv_name : bytes; nsv_permalink : bytes; nsv_mode : ServerMode }.
Record NewCredential := mkNewCredential {
  nc_server_id : Id; nc_credential_type : CredentialType; nc_name : bytes; nc_key : option bytes }.
Record NewRoute := mkNewRoute {
  nr_server_id : Id; nr_domain_id : option Id; nr_name : bytes; nr_mode : RouteMode; nr_endpoint_url : option bytes }.
Record NewWebhook := mkNewWebhook {
  nw_server_id : Id; nw_name : bytes; nw_url : bytes; nw_all_events : bool; nw_sign : bool; nw_events : list bytes;
  nw_headers : list (bytes * bytes) }.
Record NewSenderAddress := mkNewSenderAddress { nsa_server_id : Id; nsa_email_address : bytes; nsa_verification_token_hash : bytes }.
Record NewSuppression := mkNewSuppression {
  nsp_server_id : Id; nsp_suppression_type : bytes; nsp_address : bytes; nsp_reason : option bytes; nsp_stream_id : option Id }.
Record NewIpAddress := mkNewIpAddress {
  nip_ip_pool_id : Id; nip_ipv4 : bytes; nip_ipv6 : option bytes; nip_hostname : bytes; nip_priority : Z }.

Record IpPool := mkIpPool { ipp_id : Id; ipp_uuid : bytes; ipp_name : bytes; ipp_default : bool }.
Record IpAddress := mkIpAddress {
  ipa_id : Id; ipa_uuid : bytes; ipa_ip_pool_id : Id; ipa_ipv4 : bytes; ipa_ipv6 : option bytes; ipa_hostname : bytes; ipa_priority : Z }.

#[export] Instance eta_Organization : Eta Organization := λ o,
  mkOrganization (org_id o) (org_uuid o) (org_name o) (org_permalink o) (org_require_two_factor o).
#[export] Instance eta_Server : Eta Server := λ s,
  mkServer (srv_id s) (srv_uuid s) (srv_organization_id s) (srv_name s) (srv_permalink s) (srv_token s) (srv_mode s)
    (srv_suspended s) (srv_suspension_reason s) (srv_privacy_mode s) (srv_log_smtp_data s) (srv_allow_sender s)
    (srv_ip_pool_id s) (srv_track_opens s) (srv_track_clicks s) (srv_send_limit s) (srv_spam_threshold s)
    (srv_outbound_spam_threshold s) (srv_bounce_hook_url s) (srv_delivery_hook_url s) (srv_inbound_domain s)
    (srv_broadcast_physical_address s) (srv_color s) (srv_default_stream_id s).
#[export] Instance eta_Domain : Eta Domain := λ d,
  mkDomain (dom_id d) (dom_uuid d) (dom_owner d) (dom_name d) (dom_verified d) (dom_verification_token d) (dom_check_dmarc d)
    (dom_check_spf d) (dom_dkim_private_key d).
#[export] Instance eta_Webhook : Eta Webhook := λ w,
  mkWebhook (wh_id w) (wh_uuid w) (wh_server_id w) (wh_name w) (wh_url w) (wh_all_events w) (wh_enabled w) (wh_sign w)
    (wh_events w) (wh_headers w).
#[export] Instance eta_SenderAddress : Eta SenderAddress := λ a,
  mkSenderAddress (sa_id a) (sa_uuid a) (sa_server_id a) (sa_email_address a) (sa_verified a) (sa_verification_token_hash a).
#[export] Instance eta_TrackDomain : Eta TrackDomain := λ d,
  mkTrackDomain (td_id d) (td_uuid d) (td_server_id d) (td_name d) (td_verified d).
#[export] Instance eta_MessageStream : Eta MessageStream := λ m,
  mkMessageStream (str_id m) (str_uuid m) (str_server_id m) (str_name m) (str_permalink m) (str_stream_type m) (str_archived m)
    (str_ip_pool_id m).

(** A server as [create_server] makes it. *)
Definition new_server (id : Id) (uuid token : bytes) (new : NewServer) (default_stream_id : option Id) : Server :=
  mkServer id uuid (nsv_organization_id new) (nsv_name new) (nsv_permalink new) token (nsv_mode new)
    false None false false false None false false None None None None None None None None default_stream_id.
(** Its transactional stream. *)
Definition default_stream (id : Id) (uuid : bytes) (server_id : Id) : MessageStream :=
  mkMessageStream id uuid server_id !"Default Transactional Stream" !"outbound" !"transactional" false None.

Class AdminStore (S : Type) := {
  create_organization : NewOrganization → S → SRes Organization * S;
  update_organization : Organization → S → SRes Organization * S;
  delete_organization : Id → S → SRes bool * S;
  servers_for_organization : Id → S → SRes (list Server) * S;
  server_by_permalink : Id → bytes → S → SRes (option Server) * S;
  create_server : NewServer → S → SRes Server * S;
  update_server : Server → S → SRes Server * S;
  delete_server : Id → S → SRes bool * S;
  admin_api_key_auth : bytes → S → SRes (option AdminApiKey) * S;
  find_servers_by_permalink : bytes → S → SRes (list (Organization * Server)) * S;
  list_domains : Id → S → SRes (list Domain) * S;
  domain_by_name : Id → bytes → S → SRes (option Domain) * S;
  create_server_domain : Id → bytes → option bytes → S → SRes Domain * S;
  set_domain_verified : Id → bool → S → SRes unit * S;
  set_domain_dmarc_check : Id → bool → S → SRes unit * S;
  set_domain_spf_check : Id → bool → S → SRes unit * S;
  delete_domain : Id → S → SRes bool * S;
  list_credentials : Id → S → SRes (list Credential) * S;
  credential_by_id : Id → Id → S → SRes (option Credential) * S;
  create_credential_record : NewCredential → S → SRes Credential * S;
  update_credential : Credential → S → SRes Credential * S;
  delete_credential : Id → S → SRes bool * S;
  list_routes : Id → S → SRes (list Route) * S;
  route_by_id : Id → Id → S → SRes (option Route) * S;
  create_route_record : NewRoute → S → SRes Route * S;
  update_route : Route → S → SRes Route * S;
  delete_route : Id → S → SRes bool * S;
  list_webhooks : Id → S → SRes (list Webhook) * S;
  webhook_by_id : Id → Id → S → SRes (option Webhook) * S;
  create_webhook : NewWebhook → S → SRes Webhook * S;
  update_webhook : Webhook → S → SRes Webhook * S;
  delete_webhook : Id → S → SRes bool * S;
  list_sender_addresses : Id → S → SRes (list SenderAddress) * S;
  sender_address_by_id : Id → Id → S → SRes (option SenderAddress) * S;
  create_sender_address : NewSenderAddress → S → SRes SenderAddress * S;
  confirm_sender_address_hash : bytes → S → SRes (option SenderAddress) * S;
  delete_sender_address : Id → S → SRes bool * S;
  list_suppressions : Id → S → SRes (list Suppression) * S;
  create_suppression : NewSuppression → S → SRes Suppression * S;
  delete_suppression : Id → bytes → S → SRes bool * S;
  list_users : S → SRes (list User) * S;
  user_by_id : Id → S → SRes (option User) * S;
  list_ip_pools : S → SRes (list IpPool) * S;
  ip_pool_by_id : Id → S → SRes (option IpPool) * S;
  create_ip_pool : bytes → bool → S → SRes IpPool * S;
  update_ip_pool : IpPool → S → SRes IpPool * S;
  delete_ip_pool : Id → S → SRes bool * S;
  list_ip_addresses : Id → S → SRes (list IpAddress) * S;
  ip_address_by_id : Id → Id → S → SRes (option IpAddress) * S;
  create_ip_address : NewIpAddress → S → SRes IpAddress * S;
  delete_ip_address : Id → S → SRes bool * S;
  set_server_ip_pool : Id → option Id → S → SRes unit * S;
  api_token_server : bytes → S → SRes (option Server) * S;
  authenticated_domain_id : Id → bytes → S → SRes (option Id) * S;
  policy_of_organization : Id → S → SRes OrganizationPolicy * S;
  set_organization_policy : Id → OrganizationPolicy → S → SRes unit * S;
  month_usage_of_organization : Id → UsageMonth → S → SRes Z * S;
  queue_lifecycle_event : LifecycleEvent → S → SRes unit * S;
  organization_billing_customer_id : Id → S → SRes (option bytes) * S;
  set_organization_billing_customer_id : Id → bytes → S → SRes unit * S;
  list_admin_api_keys : S → SRes (list AdminApiKey) * S;
  create_admin_api_key_record : bytes → bytes → option Id → option Id → S → SRes AdminApiKey * S;
  delete_admin_api_key : Id → S → SRes bool * S;
  list_track_domains : Id → S → SRes (list TrackDomain) * S;
  track_domain_by_id : Id → Id → S → SRes (option TrackDomain) * S;
  create_track_domain : Id → bytes → S → SRes TrackDomain * S;
  set_track_domain_verified : Id → bool → S → SRes unit * S;
  delete_track_domain : Id → S → SRes bool * S;
}.
