(* ===== verification/AdminPg.v ===== *)
(** * AdminPg: the admin API in PostgreSQL

    [AdminStore for PgStore] of [camelmailer-db/src/pg_store.rs]: every statement as a
    function of the tables, with the constraints of the migrations (unique and foreign
    keys, cascades) and the errors [sqlx_error] makes of them.  A [Deployment] is the
    whole database: the tables of [PgStore], the accounts of [AuthPg], and the tables
    only the admin API has.  [dp_failing] are the statements that fail now; one that
    fails changes nothing.  Ids come from the sequence of the table; a uuid, a token or
    a generated key is a function of the row's id.  The last use of a machine key is
    in [dp_key_uses]; a suppression has no id. *)

From S2P Require Import Prelude RustStr Net Model SendLimit MemoryStore Queue MailDb PgStore Compose ApiSend Auth AuthStore AuthPg.
From S2P Require Import AppMailer AdminStore.

Inductive AdminTable :=
| Organizations | Servers | Streams | Domains | Routes | Credentials | Webhooks | SenderAddresses | Suppressions | TrackDomains
| IpPools | IpAddresses | AdminApiKeys | Users | LifecycleEvents | SendCounters.
#[export] Instance AdminTable_eq_dec : EqDecision AdminTable.
Proof. solve_decision. Defined.
Inductive Verb := Select | Insert | Update | Delete.

Record Deployment := mkDeployment {
  dp_store : PgStore;
  dp_accounts : PgAuth;
  dp_admin_api_keys : list (AdminApiKey * bytes);
  dp_key_uses : gmap Id datetime;
  dp_billing_customers : gmap Id bytes;
  dp_ip_pools : list IpPool;
  dp_ip_addresses : list IpAddress;
  dp_sequence : AdminTable → Id;
  dp_failing : Verb → AdminTable → bool;
}.
#[export] Instance eta_Deployment : Eta Deployment := λ d,
  mkDeployment (dp_store d) (dp_accounts d) (dp_admin_api_keys d) (dp_key_uses d) (dp_billing_customers d) (dp_ip_pools d) (dp_ip_addresses d)
    (dp_sequence d) (dp_failing d).

(** The generators: uuids, the tokens of servers, routes and domains, credential keys. *)
Class AdminCrates := {
  row_uuid : AdminTable → Id → bytes;
  row_token : AdminTable → Id → bytes;
  row_key : Id → bytes;
}.

Definition tables (d : Deployment) : PgTables := ps_tables (dp_store d).
Definition mail (d : Deployment) : MailDb := ps_mail (dp_store d).
Definition accounts (d : Deployment) : Accounts := pa_accounts (dp_accounts d).
Definition on_tables (f : PgTables → PgTables) (d : Deployment) : Deployment :=
  d <| dp_store := (dp_store d) <| ps_tables := f (tables d) |> |>.
Definition on_mail (f : MailDb → MailDb) (d : Deployment) : Deployment := d <| dp_store := (dp_store d) <| ps_mail := f (mail d) |> |>.
Definition on_account_tables (f : Accounts → Accounts) (d : Deployment) : Deployment :=
  d <| dp_accounts := (dp_accounts d) <| pa_accounts := f (accounts d) |> |>.

(** ** Statements *)

Definition query {A} (table : AdminTable) (rows : Deployment → A) (d : Deployment) : SRes A * Deployment :=
  (if dp_failing d Select table then inl OtherError else inr (rows d), d).
Definition statement {A} (verb : Verb) (table : AdminTable) (f : Deployment → SRes A * Deployment) (d : Deployment) :
    SRes A * Deployment :=
  if dp_failing d verb table then (inl OtherError, d) else f d.
(** An insertion draws its id also when a constraint refuses the row. *)
Definition next_in (table : AdminTable) (d : Deployment) : Deployment :=
  d <| dp_sequence := λ t, if decide (t = table) then (dp_sequence d t + 1)%N else dp_sequence d t |>.
Definition insertion {A} (table : AdminTable) (f : Id → Deployment → SRes A * Deployment) : Deployment → SRes A * Deployment :=
  statement Insert table (λ d, f (dp_sequence d table) (next_in table d)).

(** [UPDATE ... WHERE P] and [DELETE ... WHERE P]. *)
Definition modify {A} (P : A → bool) (f : A → A) (l : list A) : list A := map (λ r, if P r then f r else r) l.
Definition discard {A} (P : A → bool) (l : list A) : list A := List.filter (λ r, negb (P r)) l.

(** The message of a unique violation; a foreign key is another error. *)
Definition taken (table : AdminTable) : StoreError :=
  Conflict match table with
  | Domains | TrackDomains => !"Name has already been taken"
  | Suppressions => !"Address is already suppressed"
  | Users => !"Email address has already been taken"
  | SenderAddresses => !"Email address has already been added"
  | _ => !"Permalink has already been taken"
  end.
Definition refused {A} (e : StoreError) (d : Deployment) : SRes A * Deployment := (inl e, d).

Section AdminPg.
Context `{ORD : !HashOrder, CRA : !Crates, AUTH : !AuthCrates, ADM : !AdminCrates} (sql_lower : bytes → bytes)
  (collate_le : bytes → bytes → bool).

Definition has_organization (id : Id) (d : Deployment) : bool := existsb (λ o, (org_id o =? id)%N) (pt_organizations (tables d)).
Definition has_server (id : Id) (d : Deployment) : bool := existsb (λ s, (srv_id s =? id)%N) (pt_servers (tables d)).

(** ** Organizations *)

Definition pg_create_organization (new : NewOrganization) : Deployment → SRes Organization * Deployment :=
  insertion Organizations (λ id d,
    if existsb (λ o, org_permalink o =b no_permalink new) (pt_organizations (tables d)) then refused (taken Organizations) d
    else
      let row := mkOrganization id (row_uuid Organizations id) (no_name new) (no_permalink new) false in
      ok row (on_tables (λ t, t <| pt_organizations := pt_organizations t ++ [row] |>) d)).
Definition pg_update_organization (organization : Organization) : Deployment → SRes Organization * Deployment :=
  statement Update Organizations (λ d,
    let other o := negb (org_id o =? org_id organization)%N && (org_permalink o =b org_permalink organization) in
    if has_organization (org_id organization) d && existsb other (pt_organizations (tables d)) then refused (taken Organizations) d
    else ok organization (on_tables (λ t, t <| pt_organizations :=
           modify (λ o, (org_id o =? org_id organization)%N) (λ o, organization <| org_uuid := org_uuid o |>) (pt_organizations t) |>) d)).

(** What goes with a server ([ON DELETE CASCADE]); a domain names its owner without a
    foreign key and stays. *)
Definition mail_without_servers (gone : Id → bool) (m : MailDb) : MailDb :=
  m <| db_messages := discard (λ r, gone (sg_server_id (stored r))) (db_messages m) |>
    <| db_deliveries := discard (λ r, gone (dv_server_id r)) (db_deliveries m) |>
    <| db_queue := (db_queue m) <| qt_rows := discard (λ r, gone (q_server_id r)) (qt_rows (db_queue m)) |> |>
    <| db_webhooks := discard (λ w, gone (wh_server_id w)) (db_webhooks m) |>
    <| db_requests := discard (λ r, gone (wr_server_id r)) (db_requests m) |>
    <| db_suppressions := discard (λ s, gone (sp_server_id s)) (db_suppressions m) |>
    <| db_subscriptions := retain (λ k _, negb (gone k.1.1)) (db_subscriptions m) |>
    <| db_unsubscribe_tokens := discard (λ t, gone t.2.1.1) (db_unsubscribe_tokens m) |>
    <| db_send_counters := retain (λ k _, negb (gone k.1)) (db_send_counters m) |>
    <| db_idempotency_requests := retain (λ k _, negb (gone k.1)) (db_idempotency_requests m) |>
    <| db_activity :=
         let a := db_activity m in
         mkActivity (discard (λ l, gone l.1.1.2) (act_links a)) (act_next_link a)
           (discard (λ t, gone (tt_server_id t.2)) (act_tracking_tokens a))
           (discard (λ c, gone c.1.1.1) (act_link_clicks a)) (discard (λ c, gone c.1.1.1) (act_loads a)) |>.
Definition tables_without_servers (gone : Id → bool) (t : PgTables) : PgTables :=
  t <| pt_servers := discard (λ s, gone (srv_id s)) (pt_servers t) |>
    <| pt_routes := discard (λ r, gone (rt_server_id r)) (pt_routes t) |>
    <| pt_credentials := discard (λ c, gone (cred_server_id c)) (pt_credentials t) |>
    <| pt_sender_addresses := discard (λ a, gone (sa_server_id a)) (pt_sender_addresses t) |>
    <| pt_streams := discard (λ m, gone (str_server_id m)) (pt_streams t) |>
    <| pt_track_domains := discard (λ x, gone (td_server_id x)) (pt_track_domains t) |>.
Definition without_servers (gone : Id → bool) (d : Deployment) : Deployment :=
  on_mail (mail_without_servers gone) (on_tables (tables_without_servers gone) d)
    <| dp_admin_api_keys := discard (λ k, from_option gone false (key_server_id k.1)) (dp_admin_api_keys d) |>.

Definition without_organization (id : Id) (d : Deployment) : Deployment :=
  let is_org o := (o =? id)%N in
  let gone server_id := existsb (λ s, is_org (srv_organization_id s) && (srv_id s =? server_id)%N) (pt_servers (tables d)) in
  let d := without_servers gone d in
  let d := on_tables (λ t, t <| pt_organizations := discard (λ o, is_org (org_id o)) (pt_organizations t) |>
                             <| pt_policies := delete id (pt_policies t) |>) d in
  let d := on_account_tables (λ a, a <| ac_memberships := retain (λ _ m, negb (is_org (om_organization_id m))) (ac_memberships a) |>
                             <| ac_invitations := retain (λ _ i, negb (is_org (in_organization_id i))) (ac_invitations a) |>) d in
  let d := on_mail (λ m, m <| db_organization_send_counters := retain (λ k _, negb (is_org k.1)) (db_organization_send_counters m) |>
                           <| db_usage_alerts := filter (λ k, k.1.1 ≠ id) (db_usage_alerts m) |>) d in
  d <| dp_admin_api_keys := discard (λ k, from_option is_org false (key_organization_id k.1)) (dp_admin_api_keys d) |>
    <| dp_billing_customers := delete id (dp_billing_customers d) |>.
Definition pg_delete_organization (id : Id) : Deployment → SRes bool * Deployment :=
  statement Delete Organizations (λ d, ok (has_organization id d) (without_organization id d)).

Definition pg_policy_of_organization (id : Id) : Deployment → SRes OrganizationPolicy * Deployment :=
  query Organizations (λ d, from_option (λ p, p) policy_default (pt_policies (tables d) !! id)).
Definition pg_set_organization_policy (id : Id) (policy : OrganizationPolicy) : Deployment → SRes unit * Deployment :=
  statement Update Organizations (λ d,
    if has_organization id d then ok tt (on_tables (λ t, t <| pt_policies := <[id := policy]> (pt_policies t) |>) d)
    else refused OtherError d).
Definition pg_month_usage_of_organization (id : Id) (month : UsageMonth) : Deployment → SRes Z * Deployment :=
  query SendCounters (λ d, from_option (λ z, z) 0%Z (db_organization_send_counters (mail d) !! (id, month))).
Definition pg_queue_lifecycle_event (event : LifecycleEvent) : Deployment → SRes unit * Deployment :=
  insertion LifecycleEvents (λ _ d, ok tt (on_mail (λ m, m <| db_lifecycle_events := db_lifecycle_events m ++ [event] |>) d)).
Definition pg_organization_billing_customer_id (id : Id) : Deployment → SRes (option bytes) * Deployment :=
  query Organizations (λ d, if has_organization id d then dp_billing_customers d !! id else None).
Definition pg_set_organization_billing_customer_id (id : Id) (customer : bytes) : Deployment → SRes unit * Deployment :=
  statement Update Organizations (λ d,
    if has_organization id d then ok tt (d <| dp_billing_customers := <[id := customer]> (dp_billing_customers d) |>)
    else refused OtherError d).
(** ** Servers *)

Definition pg_servers_for_organization (organization_id : Id) : Deployment → SRes (list Server) * Deployment :=
  query Servers (λ d, stable_sort (λ a b, srv_id a <=? srv_id b)%N
    (List.filter (λ s, (srv_organization_id s =? organization_id)%N) (pt_servers (tables d)))).
Definition is_server (organization_id : Id) (permalink : bytes) (s : Server) : bool :=
  (srv_organization_id s =? organization_id)%N && (srv_permalink s =b permalink).
Definition pg_server_by_permalink (organization_id : Id) (permalink : bytes) : Deployment → SRes (option Server) * Deployment :=
  query Servers (λ d, List.find (is_server organization_id permalink) (pt_servers (tables d))).

Definition insert_server_row (new : NewServer) : Deployment → SRes Server * Deployment :=
  insertion Servers (λ id d,
    let row := new_server id (row_uuid Servers id) (row_token Servers id) new None in
    if negb (has_organization (nsv_organization_id new) d) then refused OtherError d
    else if existsb (λ s, is_server (nsv_organization_id new) (nsv_permalink new) s || (srv_token s =b srv_token row)) (pt_servers (tables d))
    then refused (taken Servers) d
    else ok row (on_tables (λ t, t <| pt_servers := pt_servers t ++ [row] |>) d)).
Definition insert_default_stream (server_id : Id) : Deployment → SRes Id * Deployment :=
  insertion Streams (λ id d,
    let row := default_stream id (row_uuid Streams id) server_id in
    if negb (has_server server_id d) then refused OtherError d
    else if existsb (λ m, (str_server_id m =? server_id)%N && (str_permalink m =b str_permalink row)) (pt_streams (tables d))
    then refused (taken Streams) d
    else ok id (on_tables (λ t, t <| pt_streams := pt_streams t ++ [row] |>) d)).
Definition on_server (id : Id) (f : Server → Server) : Deployment → Deployment :=
  on_tables (λ t, t <| pt_servers := modify (λ s, (srv_id s =? id)%N) f (pt_servers t) |>).
(** Three statements, in no transaction. *)
Definition pg_create_server (new : NewServer) (d : Deployment) : SRes Server * Deployment :=
  match insert_server_row new d with
  | (inl e, d) => (inl e, d)
  | (inr row, d) =>
      match insert_default_stream (srv_id row) d with
      | (inl e, d) => (inl e, d)
      | (inr stream_id, d) =>
          let row := row <| srv_default_stream_id := Some stream_id |> in
          statement Update Servers (λ d, ok row (on_server (srv_id row) (λ s, s <| srv_default_stream_id := Some stream_id |>) d)) d
      end
  end.

(** The columns [UPDATE servers] writes. *)
Definition updated_server (server row : Server) : Server :=
  row <| srv_name := srv_name server |> <| srv_suspended := srv_suspended server |>
      <| srv_suspension_reason := srv_suspension_reason server |> <| srv_privacy_mode := srv_privacy_mode server |>
      <| srv_log_smtp_data := srv_log_smtp_data server |> <| srv_allow_sender := srv_allow_sender server |>
      <| srv_mode := srv_mode server |> <| srv_track_opens := srv_track_opens server |>
      <| srv_track_clicks := srv_track_clicks server |> <| srv_spam_threshold := srv_spam_threshold server |>
      <| srv_outbound_spam_threshold := srv_outbound_spam_threshold server |>
      <| srv_bounce_hook_url := srv_bounce_hook_url server |> <| srv_delivery_hook_url := srv_delivery_hook_url server |>
      <| srv_inbound_domain := srv_inbound_domain server |>
      <| srv_broadcast_physical_address := srv_broadcast_physical_address server |> <| srv_color := srv_color server |>
      <| srv_default_stream_id := srv_default_stream_id server |> <| srv_send_limit := srv_send_limit server |>.
Definition pg_update_server (server : Server) : Deployment → SRes Server * Deployment :=
  statement Update Servers (λ d, ok server (on_server (srv_id server) (updated_server server) d)).
Definition pg_delete_server (id : Id) : Deployment → SRes bool * Deployment :=
  statement Delete Servers (λ d, ok (has_server id d) (without_servers (λ s, s =? id)%N d)).
Definition pg_set_server_ip_pool (server_id : Id) (ip_pool_id : option Id) : Deployment → SRes unit * Deployment :=
  statement Update Servers (λ d,
    if has_server server_id d && from_option (λ p, negb (existsb (λ x, (ipp_id x =? p)%N) (dp_ip_pools d))) false ip_pool_id
    then refused OtherError d
    else ok tt (on_server server_id (λ s, s <| srv_ip_pool_id := ip_pool_id |>) d)).
(** The inner join with the organization. *)
Definition with_organization (d : Deployment) (s : Server) : option (Organization * Server) :=
  o ← List.find (λ o, (org_id o =? srv_organization_id s)%N) (pt_organizations (tables d)); Some (o, s).
Definition pg_find_servers_by_permalink (permalink : bytes) : Deployment → SRes (list (Organization * Server)) * Deployment :=
  query Servers (λ d, stable_sort (λ a b, srv_id a.2 <=? srv_id b.2)%N
    (omap (with_organization d) (List.filter (λ s, srv_permalink s =b permalink) (pt_servers (tables d))))).

(** ** Admin API keys *)

(** [UPDATE admin_api_keys SET last_used_at = now() ... RETURNING]; [key_hash] is
    unique.  The column is [dp_key_uses], by the id of the row: an id is never used
    again, and nothing looks at the entry of a row that is gone. *)
Definition pg_admin_api_key_auth (key : bytes) : Deployment → SRes (option AdminApiKey) * Deployment :=
  statement Update AdminApiKeys (λ d,
    match List.find (λ k, k.2 =b hash_token key) (dp_admin_api_keys d) with
    | Some (k, _) => ok (Some k) (d <| dp_key_uses := <[key_id k := db_now (mail d)]> (dp_key_uses d) |>)
    | None => ok None d
    end).
Definition pg_list_admin_api_keys : Deployment → SRes (list AdminApiKey) * Deployment :=
  query AdminApiKeys (λ d, stable_sort (λ a b, key_id a <=? key_id b)%N (map fst (dp_admin_api_keys d))).
Definition pg_create_admin_api_key_record (name key : bytes) (organization_id server_id : option Id) :
    Deployment → SRes AdminApiKey * Deployment :=
  insertion AdminApiKeys (λ id d,
    let row := mkAdminApiKey id (row_uuid AdminApiKeys id) name (take 6 key) organization_id server_id in
    if negb (from_option (λ o, has_organization o d) true organization_id && from_option (λ s, has_server s d) true server_id)
    then refused OtherError d
    else if existsb (λ k, k.2 =b hash_token key) (dp_admin_api_keys d) then refused (taken AdminApiKeys) d
    else ok row (d <| dp_admin_api_keys := dp_admin_api_keys d ++ [(row, hash_token key)] |>)).
Definition pg_delete_admin_api_key (id : Id) : Deployment → SRes bool * Deployment :=
  let this k := (key_id (fst k) =? id)%N in
  statement Delete AdminApiKeys (λ d, ok (existsb this (dp_admin_api_keys d)) (d <| dp_admin_api_keys := discard this (dp_admin_api_keys d) |>)).

(** ** Domains *)

Definition server_domain (server_id : Id) (x : Domain) : bool := bool_decide (dom_owner x = OwnerServer server_id).
Definition pg_list_domains (server_id : Id) : Deployment → SRes (list Domain) * Deployment :=
  query Domains (λ d, stable_sort (λ a b, dom_id a <=? dom_id b)%N (List.filter (server_domain server_id) (pt_domains (tables d)))).
Definition pg_domain_by_name (server_id : Id) (name : bytes) : Deployment → SRes (option Domain) * Deployment :=
  query Domains (λ d, List.find (λ x, server_domain server_id x && (dom_name x =b name)) (pt_domains (tables d))).
(** [PgStore::create_domain] *)
Definition create_domain (owner : DomainOwner) (name : bytes) (verified : bool) (dkim_private_key : option bytes) :
    Deployment → SRes Domain * Deployment :=
  insertion Domains (λ id d,
    if existsb (λ x, bool_decide (dom_owner x = owner) && (dom_name x =b name)) (pt_domains (tables d)) then refused (taken Domains) d
    else
      let row := mkDomain id (row_uuid Domains id) owner name verified (row_token Domains id) true true dkim_private_key in
      ok row (on_tables (λ t, t <| pt_domains := pt_domains t ++ [row] |>) d)).
Definition pg_create_server_domain (server_id : Id) (name : bytes) (dkim_private_key : option bytes) :
    Deployment → SRes Domain * Deployment :=
  create_domain (OwnerServer server_id) name false dkim_private_key.
Definition update_domain (id : Id) (f : Domain → Domain) : Deployment → SRes unit * Deployment :=
  statement Update Domains (λ d, ok tt (on_tables (λ t, t <| pt_domains := modify (λ x, (dom_id x =? id)%N) f (pt_domains t) |>) d)).
Definition pg_set_domain_verified (id : Id) (verified : bool) := update_domain id (λ x, x <| dom_verified := verified |>).
Definition pg_set_domain_dmarc_check (id : Id) (check_dmarc : bool) := update_domain id (λ x, x <| dom_check_dmarc := check_dmarc |>).
Definition pg_set_domain_spf_check (id : Id) (check_spf : bool) := update_domain id (λ x, x <| dom_check_spf := check_spf |>).
(** The routes to it stay, with no domain. *)
Definition pg_delete_domain (id : Id) : Deployment → SRes bool * Deployment :=
  let this x := (dom_id x =? id)%N in
  statement Delete Domains (λ d, ok (existsb this (pt_domains (tables d)))
    (on_tables (λ t, t <| pt_domains := discard this (pt_domains t) |>
                       <| pt_routes := modify (λ r, bool_decide (rt_domain_id r = Some id)) (λ r, r <| rt_domain_id := None |>) (pt_routes t) |>) d)).
Definition pg_authenticated_domain (server_id : Id) (name : bytes) : Deployment → SRes (option Id) * Deployment :=
  query Domains (λ d, server ← server_row (tables d) server_id;
    dom_id <$> List.find (λ x, dom_verified x && (dom_name x =b name) && owner_is server x) (pt_domains (tables d))).

(** ** Track domains *)

Definition track_domain_of (server_id : Id) (x : TrackDomain) : bool := (td_server_id x =? server_id)%N.
Definition pg_list_track_domains (server_id : Id) : Deployment → SRes (list TrackDomain) * Deployment :=
  query TrackDomains (λ d, stable_sort (λ a b, td_id a <=? td_id b)%N (List.filter (track_domain_of server_id) (pt_track_domains (tables d)))).
Definition pg_track_domain_by_id (server_id id : Id) : Deployment → SRes (option TrackDomain) * Deployment :=
  query TrackDomains (λ d, List.find (λ x, track_domain_of server_id x && (td_id x =? id)%N) (pt_track_domains (tables d))).
Definition pg_create_track_domain (server_id : Id) (name : bytes) : Deployment → SRes TrackDomain * Deployment :=
  insertion TrackDomains (λ id d,
    if negb (has_server server_id d) then refused OtherError d
    else if existsb (λ x, track_domain_of server_id x && (td_name x =b name)) (pt_track_domains (tables d)) then refused (taken TrackDomains) d
    else
      let row := mkTrackDomain id (row_uuid TrackDomains id) server_id name false in
      ok row (on_tables (λ t, t <| pt_track_domains := pt_track_domains t ++ [row] |>) d)).
Definition pg_set_track_domain_verified (id : Id) (verified : bool) : Deployment → SRes unit * Deployment :=
  statement Update TrackDomains (λ d, ok tt (on_tables (λ t, t <| pt_track_domains :=
    modify (λ x, (td_id x =? id)%N) (λ x, x <| td_verified := verified |>) (pt_track_domains t) |>) d)).
Definition pg_delete_track_domain (id : Id) : Deployment → SRes bool * Deployment :=
  let this x := (td_id x =? id)%N in
  statement Delete TrackDomains (λ d, ok (existsb this (pt_track_domains (tables d)))
    (on_tables (λ t, t <| pt_track_domains := discard this (pt_track_domains t) |>) d)).

(** ** Credentials *)

Definition credential_of (server_id : Id) (c : Credential) : bool := (cred_server_id c =? server_id)%N.
Definition pg_list_credentials (server_id : Id) : Deployment → SRes (list Credential) * Deployment :=
  query Credentials (λ d, stable_sort (λ a b, cred_id a <=? cred_id b)%N (List.filter (credential_of server_id) (pt_credentials (tables d)))).
Definition pg_credential_by_id (server_id id : Id) : Deployment → SRes (option Credential) * Deployment :=
  query Credentials (λ d, List.find (λ c, credential_of server_id c && (cred_id c =? id)%N) (pt_credentials (tables d))).
Definition pg_create_credential_record (new : NewCredential) : Deployment → SRes Credential * Deployment :=
  insertion Credentials (λ id d,
    if negb (has_server (nc_server_id new) d) then refused OtherError d
    else
      let row := mkCredential id (row_uuid Credentials id) (nc_server_id new) (nc_credential_type new) (nc_name new)
                   (from_option (λ k, k) (row_key id) (nc_key new)) false None in
      ok row (on_tables (λ t, t <| pt_credentials := pt_credentials t ++ [row] |>) d)).
Definition pg_update_credential (credential : Credential) : Deployment → SRes Credential * Deployment :=
  statement Update Credentials (λ d, ok credential (on_tables (λ t, t <| pt_credentials :=
    modify (λ c, (cred_id c =? cred_id credential)%N) (λ c, c <| cred_name := cred_name credential |> <| cred_hold := cred_hold credential |>)
      (pt_credentials t) |>) d)).
Definition pg_delete_credential (id : Id) : Deployment → SRes bool * Deployment :=
  let this c := (cred_id c =? id)%N in
  statement Delete Credentials (λ d, ok (existsb this (pt_credentials (tables d)))
    (on_tables (λ t, t <| pt_credentials := discard this (pt_credentials t) |>) d)).
Definition pg_api_token_server (key : bytes) (d : Deployment) : SRes (option Server) * Deployment :=
  let '(found, s) := server_for_api_token (dp_store d) key in
  (match found with None => inl OtherError | Some server => inr server end, d <| dp_store := s |>).

(** ** Routes *)

Definition route_of (server_id : Id) (r : Route) : bool := (rt_server_id r =? server_id)%N.
Definition domain_exists (id : option Id) (d : Deployment) : bool :=
  from_option (λ id, existsb (λ x, (dom_id x =? id)%N) (pt_domains (tables d))) true id.
Definition pg_list_routes (server_id : Id) : Deployment → SRes (list Route) * Deployment :=
  query Routes (λ d, stable_sort (λ a b, rt_id a <=? rt_id b)%N (List.filter (route_of server_id) (pt_routes (tables d)))).
Definition pg_route_by_id (server_id id : Id) : Deployment → SRes (option Route) * Deployment :=
  query Routes (λ d, List.find (λ r, route_of server_id r && (rt_id r =? id)%N) (pt_routes (tables d))).
Definition pg_create_route_record (new : NewRoute) : Deployment → SRes Route * Deployment :=
  insertion Routes (λ id d,
    let row := mkRoute id (row_uuid Routes id) (nr_server_id new) (nr_domain_id new) (nr_name new) (row_token Routes id) (nr_mode new)
                 (nr_endpoint_url new) in
    if negb (has_server (nr_server_id new) d && domain_exists (nr_domain_id new) d) then refused OtherError d
    else if existsb (λ r, rt_token r =b rt_token row) (pt_routes (tables d)) then refused (taken Routes) d
    else ok row (on_tables (λ t, t <| pt_routes := pt_routes t ++ [row] |>) d)).
Definition pg_update_route (route : Route) : Deployment → SRes Route * Deployment :=
  statement Update Routes (λ d,
    if existsb (λ r, (rt_id r =? rt_id route)%N) (pt_routes (tables d)) && negb (domain_exists (rt_domain_id route) d)
    then refused OtherError d
    else ok route (on_tables (λ t, t <| pt_routes :=
      modify (λ r, (rt_id r =? rt_id route)%N)
        (λ r, r <| rt_name := rt_name route |> <| rt_domain_id := rt_domain_id route |> <| rt_mode := rt_mode route |>
                <| rt_endpoint_url := rt_endpoint_url route |>) (pt_routes t) |>) d)).
Definition pg_delete_route (id : Id) : Deployment → SRes bool * Deployment :=
  let this r := (rt_id r =? id)%N in
  statement Delete Routes (λ d, ok (existsb this (pt_routes (tables d)))
    (on_tables (λ t, t <| pt_routes := discard this (pt_routes t) |>) d)).
(** ** Webhooks *)

Definition webhook_of (server_id : Id) (w : Webhook) : bool := (wh_server_id w =? server_id)%N.
Definition pg_list_webhooks (server_id : Id) : Deployment → SRes (list Webhook) * Deployment :=
  query Webhooks (λ d, stable_sort (λ a b, wh_id a <=? wh_id b)%N (List.filter (webhook_of server_id) (db_webhooks (mail d)))).
Definition pg_webhook_by_id (server_id id : Id) : Deployment → SRes (option Webhook) * Deployment :=
  query Webhooks (λ d, List.find (λ w, webhook_of server_id w && (wh_id w =? id)%N) (db_webhooks (mail d))).
Definition pg_create_webhook (new : NewWebhook) : Deployment → SRes Webhook * Deployment :=
  insertion Webhooks (λ id d,
    if negb (has_server (nw_server_id new) d) then refused OtherError d
    else
      let row := mkWebhook id (row_uuid Webhooks id) (nw_server_id new) (nw_name new) (nw_url new) (nw_all_events new) true (nw_sign new)
                   (nw_events new) (nw_headers new) in
      ok row (on_mail (λ m, m <| db_webhooks := db_webhooks m ++ [row] |>) d)).
Definition pg_update_webhook (webhook : Webhook) : Deployment → SRes Webhook * Deployment :=
  statement Update Webhooks (λ d, ok webhook (on_mail (λ m, m <| db_webhooks :=
    modify (λ w, (wh_id w =? wh_id webhook)%N)
      (λ w, w <| wh_name := wh_name webhook |> <| wh_url := wh_url webhook |> <| wh_all_events := wh_all_events webhook |>
              <| wh_enabled := wh_enabled webhook |> <| wh_sign := wh_sign webhook |> <| wh_events := wh_events webhook |>
              <| wh_headers := wh_headers webhook |>) (db_webhooks m) |>) d)).
(** Its pending requests go with it. *)
Definition pg_delete_webhook (id : Id) : Deployment → SRes bool * Deployment :=
  let this w := (wh_id w =? id)%N in
  statement Delete Webhooks (λ d, ok (existsb this (db_webhooks (mail d)))
    (on_mail (λ m, m <| db_webhooks := discard this (db_webhooks m) |>
                     <| db_requests := discard (λ r, (wr_webhook_id r =? id)%N) (db_requests m) |>) d)).

(** ** Sender addresses *)

Definition sender_address_of (server_id : Id) (a : SenderAddress) : bool := (sa_server_id a =? server_id)%N.
Definition pg_list_sender_addresses (server_id : Id) : Deployment → SRes (list SenderAddress) * Deployment :=
  query SenderAddresses (λ d, stable_sort (λ a b, sa_id a <=? sa_id b)%N
    (List.filter (sender_address_of server_id) (pt_sender_addresses (tables d)))).
Definition pg_sender_address_by_id (server_id id : Id) : Deployment → SRes (option SenderAddress) * Deployment :=
  query SenderAddresses (λ d, List.find (λ a, sender_address_of server_id a && (sa_id a =? id)%N) (pt_sender_addresses (tables d))).
Definition pg_create_sender_address (new : NewSenderAddress) : Deployment → SRes SenderAddress * Deployment :=
  insertion SenderAddresses (λ id d,
    if negb (has_server (nsa_server_id new) d) then refused OtherError d
    else if existsb (λ a, sender_address_of (nsa_server_id new) a && (sa_email_address a =b nsa_email_address new)) (pt_sender_addresses (tables d))
    then refused (taken SenderAddresses) d
    else
      let row := mkSenderAddress id (row_uuid SenderAddresses id) (nsa_server_id new) (nsa_email_address new) false
                   (Some (nsa_verification_token_hash new)) in
      ok row (on_tables (λ t, t <| pt_sender_addresses := pt_sender_addresses t ++ [row] |>) d)).
(** [UPDATE ... RETURNING *]: the first row it returns. *)
Definition awaits (token_hash : bytes) (a : SenderAddress) : bool :=
  bool_decide (sa_verification_token_hash a = Some token_hash) && negb (sa_verified a).
Definition confirmed (a : SenderAddress) : SenderAddress := a <| sa_verified := true |> <| sa_verification_token_hash := None |>.
Definition pg_confirm_sender_address (token_hash : bytes) : Deployment → SRes (option SenderAddress) * Deployment :=
  statement Update SenderAddresses (λ d,
    ok (confirmed <$> List.find (awaits token_hash) (pt_sender_addresses (tables d)))
      (on_tables (λ t, t <| pt_sender_addresses := modify (awaits token_hash) confirmed (pt_sender_addresses t) |>) d)).
Definition pg_delete_sender_address (id : Id) : Deployment → SRes bool * Deployment :=
  let this a := (sa_id a =? id)%N in
  statement Delete SenderAddresses (λ d, ok (existsb this (pt_sender_addresses (tables d)))
    (on_tables (λ t, t <| pt_sender_addresses := discard this (pt_sender_addresses t) |>) d)).

(** ** Suppressions, in the context of the tenant *)

Definition suppression_of (server_id : Id) (x : Suppression) : bool := (sp_server_id x =? server_id)%N.
Definition pg_list_suppressions (server_id : Id) : Deployment → SRes (list Suppression) * Deployment :=
  query Suppressions (λ d, List.filter (suppression_of server_id) (db_suppressions (mail d))).
Definition pg_create_suppression (new : NewSuppression) : Deployment → SRes Suppression * Deployment :=
  insertion Suppressions (λ _ d,
    let row := mkSuppression (nsp_server_id new) (nsp_suppression_type new) (nsp_address new) (nsp_reason new) (nsp_stream_id new) in
    let stream_exists id := existsb (λ m, (str_id m =? id)%N) (pt_streams (tables d)) in
    if negb (has_server (nsp_server_id new) d && from_option stream_exists true (nsp_stream_id new)) then refused OtherError d
    else if existsb (λ x, suppression_of (nsp_server_id new) x && (sp_address x =b nsp_address new)
                          && (coalesce (sp_stream_id x) =? coalesce (nsp_stream_id new))%N) (db_suppressions (mail d))
    then refused (taken Suppressions) d
    else ok row (on_mail (λ m, m <| db_suppressions := db_suppressions m ++ [row] |>) d)).
(** Every row of the address, the ones of a stream too. *)
Definition pg_delete_suppression (server_id : Id) (address : bytes) : Deployment → SRes bool * Deployment :=
  let this x := suppression_of server_id x && (sp_address x =b address) in
  statement Delete Suppressions (λ d, ok (existsb this (db_suppressions (mail d)))
    (on_mail (λ m, m <| db_suppressions := discard this (db_suppressions m) |>) d)).

(** ** Users *)

Definition pg_list_users : Deployment → SRes (list User) * Deployment :=
  query Users (λ d, stable_sort (λ a b, us_id a <=? us_id b)%N (values (ac_users (accounts d)))).
Definition pg_user_by_id (id : Id) : Deployment → SRes (option User) * Deployment := query Users (λ d, ac_users (accounts d) !! id).

(** ** IP pools *)

Definition pg_list_ip_pools : Deployment → SRes (list IpPool) * Deployment :=
  query IpPools (λ d, stable_sort (λ a b, ipp_id a <=? ipp_id b)%N (dp_ip_pools d)).
Definition pg_ip_pool_by_id (id : Id) : Deployment → SRes (option IpPool) * Deployment :=
  query IpPools (λ d, List.find (λ p, (ipp_id p =? id)%N) (dp_ip_pools d)).
Definition pg_create_ip_pool (name : bytes) (default : bool) : Deployment → SRes IpPool * Deployment :=
  insertion IpPools (λ id d, let row := mkIpPool id (row_uuid IpPools id) name default in ok row (d <| dp_ip_pools := dp_ip_pools d ++ [row] |>)).
Definition pg_update_ip_pool (pool : IpPool) : Deployment → SRes IpPool * Deployment :=
  statement Update IpPools (λ d, ok pool (d <| dp_ip_pools :=
    modify (λ p, (ipp_id p =? ipp_id pool)%N) (λ p, mkIpPool (ipp_id p) (ipp_uuid p) (ipp_name pool) (ipp_default pool)) (dp_ip_pools d) |>)).
(** Its addresses go with it; servers and streams fall back to no pool. *)
Definition pg_delete_ip_pool (id : Id) : Deployment → SRes bool * Deployment :=
  let this p := (ipp_id p =? id)%N in
  let none pool := if bool_decide (pool = Some id) then None else pool in
  statement Delete IpPools (λ d, ok (existsb this (dp_ip_pools d))
    (on_tables (λ t, t <| pt_servers := map (λ s, s <| srv_ip_pool_id := none (srv_ip_pool_id s) |>) (pt_servers t) |>
                       <| pt_streams := map (λ m, m <| str_ip_pool_id := none (str_ip_pool_id m) |>) (pt_streams t) |>) d
       <| dp_ip_pools := discard this (dp_ip_pools d) |>
       <| dp_ip_addresses := discard (λ a, (ipa_ip_pool_id a =? id)%N) (dp_ip_addresses d) |>)).
Definition pg_list_ip_addresses (pool_id : Id) : Deployment → SRes (list IpAddress) * Deployment :=
  query IpAddresses (λ d, stable_sort (λ a b, ipa_id a <=? ipa_id b)%N (List.filter (λ a, (ipa_ip_pool_id a =? pool_id)%N) (dp_ip_addresses d))).
Definition pg_ip_address_by_id (pool_id id : Id) : Deployment → SRes (option IpAddress) * Deployment :=
  query IpAddresses (λ d, List.find (λ a, (ipa_ip_pool_id a =? pool_id)%N && (ipa_id a =? id)%N) (dp_ip_addresses d)).
Definition pg_create_ip_address (new : NewIpAddress) : Deployment → SRes IpAddress * Deployment :=
  insertion IpAddresses (λ id d,
    if negb (existsb (λ p, (ipp_id p =? nip_ip_pool_id new)%N) (dp_ip_pools d)) then refused OtherError d
    else
      let row := mkIpAddress id (row_uuid IpAddresses id) (nip_ip_pool_id new) (nip_ipv4 new) (nip_ipv6 new) (nip_hostname new) (nip_priority new) in
      ok row (d <| dp_ip_addresses := dp_ip_addresses d ++ [row] |>)).
Definition pg_delete_ip_address (id : Id) : Deployment → SRes bool * Deployment :=
  let this a := (ipa_id a =? id)%N in
  statement Delete IpAddresses (λ d, ok (existsb this (dp_ip_addresses d)) (d <| dp_ip_addresses := discard this (dp_ip_addresses d) |>)).

#[export] Instance Deployment_admin : AdminStore Deployment := {|
  create_organization := pg_create_organization; update_organization := pg_update_organization;
  delete_organization := pg_delete_organization; servers_for_organization := pg_servers_for_organization;
  server_by_permalink := pg_server_by_permalink; create_server := pg_create_server; update_server := pg_update_server;
  delete_server := pg_delete_server; admin_api_key_auth := pg_admin_api_key_auth; find_servers_by_permalink := pg_find_servers_by_permalink;
  list_domains := pg_list_domains; domain_by_name := pg_domain_by_name; create_server_domain := pg_create_server_domain;
  set_domain_verified := pg_set_domain_verified; set_domain_dmarc_check := pg_set_domain_dmarc_check;
  set_domain_spf_check := pg_set_domain_spf_check; delete_domain := pg_delete_domain; list_credentials := pg_list_credentials;
  credential_by_id := pg_credential_by_id; create_credential_record := pg_create_credential_record; update_credential := pg_update_credential;
  delete_credential := pg_delete_credential; list_routes := pg_list_routes; route_by_id := pg_route_by_id;
  create_route_record := pg_create_route_record; update_route := pg_update_route; delete_route := pg_delete_route;
  list_webhooks := pg_list_webhooks; webhook_by_id := pg_webhook_by_id; create_webhook := pg_create_webhook;
  update_webhook := pg_update_webhook; delete_webhook := pg_delete_webhook; list_sender_addresses := pg_list_sender_addresses;
  sender_address_by_id := pg_sender_address_by_id; create_sender_address := pg_create_sender_address;
  confirm_sender_address_hash := pg_confirm_sender_address; delete_sender_address := pg_delete_sender_address;
  list_suppressions := pg_list_suppressions; create_suppression := pg_create_suppression; delete_suppression := pg_delete_suppression;
  list_users := pg_list_users; user_by_id := pg_user_by_id; list_ip_pools := pg_list_ip_pools; ip_pool_by_id := pg_ip_pool_by_id;
  create_ip_pool := pg_create_ip_pool; update_ip_pool := pg_update_ip_pool; delete_ip_pool := pg_delete_ip_pool;
  list_ip_addresses := pg_list_ip_addresses; ip_address_by_id := pg_ip_address_by_id; create_ip_address := pg_create_ip_address;
  delete_ip_address := pg_delete_ip_address; set_server_ip_pool := pg_set_server_ip_pool; api_token_server := pg_api_token_server;
  authenticated_domain_id := pg_authenticated_domain; policy_of_organization := pg_policy_of_organization;
  set_organization_policy := pg_set_organization_policy; month_usage_of_organization := pg_month_usage_of_organization;
  queue_lifecycle_event := pg_queue_lifecycle_event; organization_billing_customer_id := pg_organization_billing_customer_id;
  set_organization_billing_customer_id := pg_set_organization_billing_customer_id; list_admin_api_keys := pg_list_admin_api_keys;
  create_admin_api_key_record := pg_create_admin_api_key_record; delete_admin_api_key := pg_delete_admin_api_key;
  list_track_domains := pg_list_track_domains; track_domain_by_id := pg_track_domain_by_id; create_track_domain := pg_create_track_domain;
  set_track_domain_verified := pg_set_track_domain_verified; delete_track_domain := pg_delete_track_domain |}.
End AdminPg.
