(* ===== verification/Workspace.v ===== *)
(** * Workspace: lifecycle events, platform mail, the starter workspace

    What the handlers do besides the tables they are about:
    [camelmailer-api/src/lifecycle.rs], [deliver] of [app_mailer.rs] and
    [workspace.rs].  [Deployment_hooks] are the hooks of the account handlers on the
    production store, [Deployment_accounts] its accounts. *)

From S2P Require Import Prelude RustStr Net Model SendLimit MemoryStore Queue MailDb Lifecycle PgStore Compose ApiSend.
From S2P Require Import Auth AuthStore AuthPg AppMailer AdminStore AdminPg.

(** ** Accounts of a deployment *)

Section Accounts.
Context `{ORD : !HashOrder, CRA : !Crates, AUTH : !AuthCrates, ADM : !AdminCrates} (sql_lower : bytes → bytes)
  (collate_le : bytes → bytes → bool).

(** The account tables, with the organizations of the deployment; the accounts keep
    no organizations of their own. *)
Definition with_organizations (organizations : gmap Id Organization) (s : PgAuth) : PgAuth :=
  s <| pa_accounts := (pa_accounts s) <| ac_organizations := organizations |> |>.
Definition account_view (d : Deployment) : PgAuth :=
  with_organizations (list_to_map (map (λ o, (org_id o, o)) (pt_organizations (tables d)))) (dp_accounts d).
Definition account_step {A} (op : PgAuth → SRes A * PgAuth) (d : Deployment) : SRes A * Deployment :=
  let '(r, s) := op (account_view d) in (r, d <| dp_accounts := with_organizations (ac_organizations (accounts d)) s |>).

Definition dp_organization_by_permalink (permalink : bytes) : Deployment → SRes (option Organization) * Deployment :=
  query Organizations (λ d, List.find (λ o, org_permalink o =b permalink) (pt_organizations (tables d))).
Definition dp_list_organizations : Deployment → SRes (list Organization) * Deployment :=
  query Organizations (λ d, stable_sort (λ x y, collate_le (org_name x) (org_name y)) (pt_organizations (tables d))).

#[local] Existing Instance PgAuth_store.
#[export] Instance Deployment_accounts : AuthStore Deployment :=
  let STO : AuthStore PgAuth := PgAuth_store sql_lower collate_le in {|
  user_by_email a := account_step (user_by_email a); user_auth a := account_step (user_auth a);
  set_password_digest a b := account_step (set_password_digest a b); set_totp a b c := account_step (set_totp a b c);
  set_login_state a b c e := account_step (set_login_state a b c e); user_has_two_factor a := account_step (user_has_two_factor a);
  create_session a b := account_step (create_session a b); session_with_user a := account_step (session_with_user a);
  touch_session a b c := account_step (touch_session a b c); delete_session a := account_step (delete_session a);
  delete_sessions_for_user a := account_step (delete_sessions_for_user a); memberships_for_user a := account_step (memberships_for_user a);
  membership a b := account_step (membership a b); memberships_for_organization a := account_step (memberships_for_organization a);
  upsert_membership a b c e := account_step (upsert_membership a b c e); delete_membership a b := account_step (delete_membership a b);
  create_invitation a := account_step (create_invitation a); list_invitations a := account_step (list_invitations a);
  invitation_by_token_hash a := account_step (invitation_by_token_hash a);
  mark_invitation_accepted a b := account_step (mark_invitation_accepted a b); delete_invitation a b := account_step (delete_invitation a b);
  create_password_reset a b c := account_step (create_password_reset a b c);
  consume_password_reset a b := account_step (consume_password_reset a b); user_by_oidc_sub a := account_step (user_by_oidc_sub a);
  set_oidc_sub a b := account_step (set_oidc_sub a b); user_by_sso_identity a b := account_step (user_by_sso_identity a b);
  link_sso_identity a b c := account_step (link_sso_identity a b c); create_oidc_state a b c e := account_step (create_oidc_state a b c e);
  consume_oidc_state a b := account_step (consume_oidc_state a b); add_webauthn_credential a b := account_step (add_webauthn_credential a b);
  list_webauthn_credentials a := account_step (list_webauthn_credentials a);
  webauthn_credential_by_credential_id a := account_step (webauthn_credential_by_credential_id a);
  update_webauthn_credential a b c := account_step (update_webauthn_credential a b c);
  delete_webauthn_credential a b := account_step (delete_webauthn_credential a b);
  create_webauthn_state a b c e := account_step (create_webauthn_state a b c e);
  consume_webauthn_state a b := account_step (consume_webauthn_state a b); create_saml_request a b := account_step (create_saml_request a b);
  consume_saml_request a b := account_step (consume_saml_request a b);
  register_saml_assertion a b c := account_step (register_saml_assertion a b c); set_user_disabled a b := account_step (set_user_disabled a b);
  record_auth_event a b := account_step (record_auth_event a b); list_auth_events a := account_step (list_auth_events a);
  create_user a := account_step (create_user a); update_user a := account_step (update_user a); delete_user a := account_step (delete_user a);
  organization_by_permalink := dp_organization_by_permalink; list_organizations := dp_list_organizations |}.
End Accounts.

(** ** Lifecycle events of the web server *)

Definition user_data (u : User) : Value :=
  VObject [(!"email_address", VString (us_email_address u)); (!"first_name", VString (us_first_name u)); (!"id", VNumber (show_N (us_id u)));
           (!"last_name", VString (us_last_name u)); (!"uuid", VString (us_uuid u))].
Definition actor (user : option User) : Value := from_option user_data VNull user.

Section Emit.
Context {S : Type} `{STO : !AdminStore S} (enabled : bool).

(** Nothing when no address is configured; a failure is dropped. *)
Definition emit (event : LifecycleEvent) (s : S) : unit * S := (tt, if enabled then (queue_lifecycle_event event s).2 else s).
Definition organization_created (now : datetime) (organization : Organization) (by_ : option User) : S → unit * S :=
  emit (mkLifecycleEvent ORGANIZATION_CREATED now (VObject [(!"organization", organization_data organization); (!"user", actor by_)])).
Definition organization_deleted (now : datetime) (organization : Organization) (by_ : option User) : S → unit * S :=
  emit (mkLifecycleEvent ORGANIZATION_DELETED now (VObject [(!"organization", organization_data organization); (!"user", actor by_)])).
Definition emit_user_registered (now : datetime) (user : User) (source : RegistrationSource) : S → unit * S :=
  emit (mkLifecycleEvent USER_REGISTERED now (VObject [(!"source", VString (registration_source source)); (!"user", user_data user)])).
End Emit.

(** ** The starter workspace *)

Definition MAX_SLUG_ATTEMPTS : N := 50.
Definition join_dashes (parts : list bytes) : bytes := match parts with [] => [] | p :: ps => p ++ flat_map (λ x, !"-" ++ x) ps end.
(** Every character that is not an ASCII letter or digit separates; a byte at a time,
    since separators collapse. *)
Definition permalink_from `{CASE : !UnicodeCase} (name : bytes) : bytes :=
  join_dashes (List.filter (λ part, negb (bool_decide (part = [])))
    (split_on (is_byte "-") (map (λ c, if is_ascii_alphanumeric c then c else "-"%char) (to_lowercase name)))).

Section Bootstrap.
Context `{CASE : !UnicodeCase} {S : Type} `{STO : !AdminStore S, ACC : !AuthStore S} (lifecycle_enabled bootstrap_enabled : bool).

(** [create_organization] with the slug, then with a suffix, until one is free. *)
Fixpoint claim_permalink (remaining : nat) (attempt : N) (name base_slug : bytes) (s : S) : SRes Organization * S :=
  match remaining with
  | O => (inl OtherError, s)
  | Datatypes.S remaining =>
      let permalink := if (attempt =? 1)%N then base_slug else base_slug ++ !"-" ++ show_N attempt in
      match create_organization (mkNewOrganization name permalink) s with
      | (inr created, s) => (inr created, s)
      | (inl (Conflict _), s) => claim_permalink remaining (attempt + 1) name base_slug s
      | (inl e, s) => (inl e, s)
      end
  end.

Definition workspace_name (user : User) : bytes :=
  let first_name := trim (us_first_name user) in
  if bool_decide (first_name = []) then !"My Team" else first_name ++ !"'s Team".
Definition base_slug (name : bytes) : bytes := let slug := permalink_from name in if bool_decide (slug = []) then !"team" else slug.

Definition workspace_server (organization_id : Id) (name : bytes) (mode : ServerMode) : S → SRes Server * S :=
  create_server (mkNewServer organization_id name name mode).
Definition workspace_key (include_api_key : bool) (server_id : Id) (s : S) : SRes (option bytes) * S :=
  if include_api_key then
    match create_credential_record (mkNewCredential server_id CtApi !"default" None) s with
    | (inr credential, s) => (inr (Some (cred_key credential)), s)
    | (inl e, s) => (inl e, s)
    end
  else (inr None, s).
Definition try_bootstrap (now : datetime) (user : User) (include_api_key : bool) (s : S) : SRes BootstrappedWorkspace * S :=
  let name := workspace_name user in
  match claim_permalink (N.to_nat MAX_SLUG_ATTEMPTS) 1 name (base_slug name) s with
  | (inl e, s) => (inl e, s)
  | (inr organization, s) =>
      match upsert_membership now (org_id organization) (us_id user) Owner s with
      | (inl e, s) => (inl e, s)
      | (inr _, s) =>
          let s := (organization_created lifecycle_enabled now organization (Some user) s).2 in
          match workspace_server (org_id organization) !"production" Live s with
          | (inl e, s) => (inl e, s)
          | (inr server, s) =>
              let s := (workspace_server (org_id organization) !"development" Development s).2 in
              match workspace_key include_api_key (srv_id server) s with
              | (inl e, s) => (inl e, s)
              | (inr api_key, s) => (inr (mkBootstrapped organization server api_key), s)
              end
          end
      end
  end.
(** A failure is logged: the account stays, and what was created too. *)
Definition bootstrap (now : datetime) (user : User) (include_api_key : bool) (s : S) : option BootstrappedWorkspace * S :=
  if bootstrap_enabled then
    let '(r, s) := try_bootstrap now user include_api_key s in (match r with inr workspace => Some workspace | inl _ => None end, s)
  else (None, s).
End Bootstrap.

(** ** Platform mail *)

Record AppMailConfig := mkAppMailConfig {
  amc_enabled : bool; amc_server_api_key : option bytes; amc_from_address : option bytes; amc_from_name : bytes }.

(** The sending tables name organizations, servers and streams of the configuration. *)
Definition refreshed (s : PgStore) : PgStore :=
  let t := ps_tables s in
  let policy o := from_option (λ p, p) policy_default (pt_policies t !! org_id o) in
  s <| ps_mail := (ps_mail s)
         <| db_server_organizations := list_to_map (map (λ r, (srv_id r, srv_organization_id r)) (pt_servers t)) |>
         <| db_organizations := list_to_map (map (λ o, (org_id o, (o, pol_monthly_send_limit (policy o)))) (pt_organizations t)) |>
         <| db_stream_types := list_to_map (map (λ m, (str_id m, str_stream_type m)) (pt_streams t)) |> |>.

Definition present_setting (o : option bytes) : option bytes := v ← o; if bool_decide (v = []) then None else Some v.
Definition platform_message (settings : AppMailConfig) (from_address : bytes) (m : AppMail) : SendMessage :=
  mkSendMessage (Some (AObject from_address (if bool_decide (amc_from_name settings = []) then None else Some (amc_from_name settings))))
    [AString (am_to m)] [] [] [] (Some (am_subject m)) (Some (am_html_body m)) (Some (am_text_body m)) [] [] None None None.

Section Deliver.
Context `{ORD : !HashOrder, CASE : !UnicodeCase, CRA : !Crates, PAY : !Payloads, MB : !MailBuilder, API : !ApiCrates SendMessage}
  `{AUTH : !AuthCrates, ADM : !AdminCrates} (sql_lower : bytes → bytes) (collate_le : bytes → bytes → bool)
  (api : ApiConfig) (settings : AppMailConfig) (lifecycle_enabled bootstrap_enabled : bool).

Definition deliver_mail (now : datetime) (nonce : Z) (m : AppMail) (d : Deployment) : bool * Deployment :=
  if negb (amc_enabled settings) then (false, d)
  else
    match present_setting (amc_server_api_key settings), present_setting (amc_from_address settings) with
    | Some key, Some from_address =>
        match pg_api_token_server key d with
        | (inr (Some server), d) =>
            if srv_suspended server then (false, d)
            else
              let '(response, s) :=
                enqueue_send sql_lower api (refreshed (dp_store d)) now nonce server (platform_message settings from_address m) in
              (match response with inr _ => true | inl _ => false end, d <| dp_store := s |>)
        | (_, d) => (false, d)
        end
    | _, _ => (false, d)
    end.

Definition confirm_address (token_hash : bytes) (d : Deployment) : SRes (option bytes) * Deployment :=
  let '(r, d) := pg_confirm_sender_address token_hash d in
  (match r with inl e => inl e | inr address => inr (sa_email_address <$> address) end, d).

#[export] Instance Deployment_hooks : AccountHooks Deployment :=
  let STO : AdminStore Deployment := Deployment_admin in
  let ACC : AuthStore Deployment := Deployment_accounts sql_lower collate_le in {|
  deliver := deliver_mail;
  user_registered := emit_user_registered lifecycle_enabled;
  bootstrap_workspace now _ user include_api_key := bootstrap lifecycle_enabled bootstrap_enabled now user include_api_key;
  confirm_sender_address := confirm_address |}.
End Deliver.
