(* ===== verification/AuthApi.v ===== *)
(** * AuthApi: login, registration, sessions, resets, second factor, invitations

    [camelmailer-api/src/auth_api.rs] over any store of accounts, with accounts
    enabled.  A handler is a step on the store that gives the rendered error or the
    data of the response.  Tokens and salts are functions of a number; the clock does
    not advance within a handler.  The verification against [dummy_digest], whose
    result is not used, and logging are left out. *)

From S2P Require Import Prelude RustStr Net Model MemoryStore Compose ApiSend Auth AuthStore AppMailer.

(** ** Handlers *)

Definition Handler (S A : Type) : Type := S → Api A * S.
#[export] Instance handler_ret S : MRet (Handler S) := λ A a s, (inr a, s).
#[export] Instance handler_bind S : MBind (Handler S) := λ A B f m s,
  match m s with (inr a, s) => f a s | (inl e, s) => (inl e, s) end.

Section Handlers.
Context {S : Type}.
Definition fail {A} (e : ApiError) : Handler S A := λ s, (inl e, s).
(** [let Some(a) = o else { return e }] *)
Definition require {A} (e : ApiError) (o : option A) : Handler S A := λ s, (ok_or e o, s).
(** [if refuse { return e }] *)
Definition refuse_if (refuse : bool) (e : ApiError) : Handler S unit := λ s, (guard_error refuse e, s).

Definition render_store_error (e : StoreError) : ApiError :=
  match e with Conflict message => validation_error message | OtherError => internal_error end.
(** A store operation whose error is the response. *)
Definition call {A} (op : S → SRes A * S) : Handler S A := λ s,
  let '(r, s) := op s in (match r with inl e => inl (render_store_error e) | inr a => inr a end, s).
(** A store operation whose result is matched on, and one whose result is dropped. *)
Definition attempt {A} (op : S → SRes A * S) : Handler S (SRes A) := λ s, let '(r, s) := op s in (inr r, s).
Definition ignore {A} (op : S → SRes A * S) : Handler S unit := λ s, (inr tt, (op s).2).
(** A hook. *)
Definition effect {A} (op : S → A * S) : Handler S A := λ s, let '(r, s) := op s in (inr r, s).
End Handlers.

(** A parameter that is present and not empty. *)
Definition present (param : option bytes) : option bytes := p ← param; if bool_decide (p = []) then None else Some p.

(** ** Configuration and requests *)

Record AuthConfig := mkAuthConfig {
  au_session_timeout_days : N;
  au_max_login_attempts : N;
  au_lockout_minutes : N;
  au_minimum_password_length : N;
  au_allow_organization_creation : bool;
  au_allow_registration : bool;
  au_bootstrap_workspace : bool;
  au_invitation_expiry_days : N;
  au_password_reset_expiry_hours : N;
  au_frontend_url : option bytes;
  au_app_mail : bool;
  au_web_protocol : bytes;
  au_web_hostname : bytes;
}.

(** [headers name] is the value of a header, when it is visible ASCII. *)
Abbreviation Headers := (bytes → option bytes).
Definition first_forwarded (value : bytes) : option bytes :=
  let first := trim (match split_once (is_byte ",") value with Some (first, _) => first | None => value end) in
  if bool_decide (first = []) then None else Some first.
Definition client_ip (headers : Headers) : option bytes :=
  match headers !"x-forwarded-for" ≫= first_forwarded with
  | Some ip => Some ip
  | None => headers !"x-real-ip" ≫= first_forwarded
  end.
Definition user_agent (headers : Headers) : option bytes := take 255 <$> headers !"user-agent".

Definition minutes (n : Z) : Z := n * 60 * 1000000000.
Definition unix_time (t : datetime) : N := Z.to_N (t / 1000000000 mod 2 ^ 64).

(** [let Some(v) = v.filter(|v| !v.is_empty()) else { return parameter missing }] *)
Definition param {S} (name : bytes) (value : option bytes) : Handler S bytes := require (missing name) (present value).

Record CurrentUser := mkCurrentUser { cu_user : User; cu_token_hash : bytes }.

Section AuthApi.
Context `{CRA : !Crates, AUTH : !AuthCrates} {S : Type} `{STO : !AuthStore S, HOOKS : !AccountHooks S} (config : AuthConfig).

Definition user_json (u : User) : Value :=
  VObject [(!"admin", VBool (us_admin u)); (!"email_address", VString (us_email_address u)); (!"first_name", VString (us_first_name u));
           (!"id", VNumber (show_N (us_id u))); (!"last_name", VString (us_last_name u)); (!"uuid", VString (us_uuid u))].

(** A failure to record is ignored. *)
Definition audit (now : datetime) (headers : Headers) (user_id : option Id) (email : option bytes) (event : bytes) : Handler S unit :=
  ignore (record_auth_event now (mkNewAuthEvent user_id email event (client_ip headers) (user_agent headers))).

Definition too_short (password : bytes) : bool := (Z.of_nat (length password) mod 2 ^ 32 <? Z.of_N (au_minimum_password_length config))%Z.
Definition password_too_short : ApiError :=
  validation_error (!"Password must be at least " ++ show_N (au_minimum_password_length config) ++ !" characters").
(** [auth::hash_password], whose error is a storage error. *)
Definition hash_or_fail (nonce : Z) (password : bytes) : Handler S bytes := require internal_error (hash_password nonce password).

(** ** Sessions *)

Definition session_end (now : datetime) : datetime := (now + days (Z.of_N (au_session_timeout_days config)))%Z.
Definition issue_session_with_oidc_logout (now : datetime) (nonce : Z) (headers : Headers) (user : User) (oidc_logout : option OidcLogout) :
    Handler S (bytes * AuthSession) :=
  let token := generate_auth_token nonce in
  session ← call (create_session now (mkNewAuthSession (us_id user) (hash_token token) (session_end now) (client_ip headers)
                                        (user_agent headers) oidc_logout));
  mret (token, session).
Definition issue_session (now : datetime) (nonce : Z) (headers : Headers) (user : User) : Handler S (bytes * AuthSession) :=
  issue_session_with_oidc_logout now nonce headers user None.

(** ** Login *)

Record LoginBody := mkLoginBody { lb_email_address : option bytes; lb_password : option bytes; lb_totp_code : option bytes }.
(** The data of a signed-in response. *)
Record SignedIn := mkSignedIn { si_token : bytes; si_expires_at : datetime; si_user : User; si_workspace : option BootstrappedWorkspace }.

Definition unauthorized (code message : bytes) : ApiError := (401%N, code, message).
Definition forbidden (code message : bytes) : ApiError := (403%N, code, message).
Definition invalid_credentials : ApiError := unauthorized !"InvalidCredentials" !"The email address or password is incorrect".
Definition account_disabled : ApiError := forbidden !"AccountDisabled" !"This account has been deactivated".
Definition account_locked : ApiError :=
  forbidden !"AccountLocked" !"This account is temporarily locked after repeated failed logins".
Definition totp_required : ApiError := unauthorized !"TOTPRequired" !"A two-factor authentication code is required".
Definition invalid_totp (status : N) : ApiError := (status, !"InvalidTOTPCode", !"The two-factor authentication code is incorrect").

(** [failed_login_attempts + 1], in [u32], and the lock it brings. *)
Definition next_attempt (a : UserAuth) : Z := ((ua_failed_login_attempts a + 1) mod 2 ^ 32)%Z.
Definition lock_after (now : datetime) (attempts : Z) : option datetime :=
  if (Z.of_N (au_max_login_attempts config) <=? attempts)%Z then Some (now + minutes (Z.of_N (au_lockout_minutes config)))%Z else None.
Definition count_failure (now : datetime) (user : User) (a : UserAuth) : Handler S unit :=
  let attempts := next_attempt a in ignore (set_login_state (us_id user) attempts (lock_after now attempts) None).

Definition locked (now : datetime) (a : UserAuth) : bool :=
  match ua_locked_until a with Some locked_until => (now <? locked_until)%Z | None => false end.
Definition password_matches (password : bytes) (a : UserAuth) : bool :=
  match ua_password_digest a with Some digest => verify_password password digest | None => false end.

Definition login (now : datetime) (nonce : Z) (headers : Headers) (body : LoginBody) : Handler S SignedIn :=
  email ← param !"email_address" (lb_email_address body);
  password ← param !"password" (lb_password body);
  let log user_id event := audit now headers user_id (Some email) event in
  user ← call (user_by_email email);
  match user with
  | None => _ ← log None !"login.failure"; fail invalid_credentials
  | Some user =>
      auth ← call (user_auth (us_id user));
      match auth with
      | None => fail invalid_credentials
      | Some a =>
          let id := Some (us_id user) in
          if ua_disabled a then _ ← log id !"login.disabled"; fail account_disabled
          else if locked now a then _ ← log id !"login.locked"; fail account_locked
          else if negb (password_matches password a) then
            _ ← count_failure now user a; _ ← log id !"login.failure"; fail invalid_credentials
          else
            _ ← (if ua_totp_enabled a then
                   match present (lb_totp_code body) with
                   | None => fail totp_required
                   | Some code =>
                       if verify_totp (from_option (λ s, s) [] (ua_totp_secret a)) code (unix_time now) then mret tt
                       else _ ← count_failure now user a; _ ← log id !"login.totp_failure"; fail (invalid_totp 401)
                   end
                 else mret tt);
            _ ← call (set_login_state (us_id user) 0 None (Some now));
            '(token, session) ← issue_session now nonce headers user;
            _ ← log id !"login.success";
            mret (mkSignedIn token (as_expires_at session) user None)
      end
  end.

(** ** Registration *)

Record RegisterBody := mkRegisterBody {
  rb_email_address : option bytes; rb_first_name : option bytes; rb_last_name : option bytes; rb_password : option bytes;
  rb_captcha_token : option bytes;
}.
Inductive CaptchaError := Rejected | Unavailable.
Definition captcha_error (e : CaptchaError) : ApiError :=
  match e with
  | Rejected => (422%N, !"CaptchaInvalid", !"The captcha could not be verified; please solve it again")
  | Unavailable => (503%N, !"CaptchaUnavailable", !"The captcha service is unavailable; please try again later")
  end.
(** [captcha]: whether one is configured, and what the verifier answers to a token. *)
Definition check_captcha (captcha : option (bytes → option CaptchaError)) (token : option bytes) : Handler S unit :=
  match captcha with
  | None => mret tt
  | Some verify =>
      token ← require (missing !"captcha_token") (t ← token; if bool_decide (trim t = []) then None else Some t);
      match verify token with None => mret tt | Some e => fail (captcha_error e) end
  end.

Definition register (captcha : option (bytes → option CaptchaError)) (now : datetime) (nonce : Z) (headers : Headers) (body : RegisterBody) :
    Handler S SignedIn :=
  _ ← refuse_if (negb (au_allow_registration config)) (forbidden !"RegistrationDisabled" !"Self-registration is disabled on this instance");
  email ← param !"email_address" (rb_email_address body);
  first_name ← param !"first_name" (rb_first_name body);
  last_name ← param !"last_name" (rb_last_name body);
  password ← param !"password" (rb_password body);
  _ ← refuse_if (negb (existsb (is_byte "@") email)) (validation_error !"Email address is invalid");
  _ ← refuse_if (too_short password) password_too_short;
  _ ← check_captcha captcha (rb_captcha_token body);
  user ← call (create_user (mkNewUser email first_name last_name false));
  digest ← hash_or_fail nonce password;
  _ ← call (set_password_digest (us_id user) digest);
  _ ← audit now headers (Some (us_id user)) (Some (us_email_address user)) !"registration.success";
  _ ← effect (user_registered now user Registration);
  _ ← effect (deliver now nonce (welcome_mail (us_email_address user) (us_first_name user) (au_frontend_url config)));
  workspace ← effect (bootstrap_workspace now nonce user true);
  '(token, session) ← issue_session now nonce headers user;
  mret (mkSignedIn token (as_expires_at session) user workspace).

(** ** Session middleware *)

(** [Authorization: Bearer <token>] *)
Definition bearer (headers : Headers) : bytes := trim (from_option (λ t, t) [] (headers !"authorization" ≫= strip_prefix !"Bearer ")).
Definition live_session (now : datetime) (session : option (AuthSession * User)) : option (AuthSession * User) :=
  '(session, user) ← session; if (now <? as_expires_at session)%Z then Some (session, user) else None.
Definition session_invalid : ApiError := unauthorized !"Unauthorized" !"The session token is invalid or has expired".
(** The session slides. *)
Definition resolve_session (now : datetime) (token : bytes) : Handler S CurrentUser :=
  let token_hash := hash_token token in
  found ← call (session_with_user token_hash);
  '(session, user) ← require session_invalid (live_session now found);
  _ ← ignore (touch_session (as_id session) now (session_end now));
  mret (mkCurrentUser user token_hash).
Definition session_middleware {A} (now : datetime) (headers : Headers) (next : CurrentUser → Handler S A) : Handler S A :=
  let token := bearer headers in
  _ ← refuse_if (bool_decide (token = [])) (unauthorized !"Unauthorized" !"Missing Authorization: Bearer session token");
  current ← resolve_session now token;
  next current.

(** ** The signed-in user *)

Definition post_logout_redirect_uri : bytes := au_web_protocol config ++ !"://" ++ au_web_hostname config ++ !"/login".
(** [oidc::urlencode] *)
Definition urlencode : bytes → bytes := encode.
Definition oidc_end_session_url (session : AuthSession) : option bytes :=
  logout ← as_oidc_logout session;
  let separator := if existsb (is_byte "?") (ol_end_session_endpoint logout) then "&"%char else "?"%char in
  Some (ol_end_session_endpoint logout ++ [separator] ++ !"id_token_hint=" ++ urlencode (ol_id_token logout)
        ++ !"&post_logout_redirect_uri=" ++ urlencode post_logout_redirect_uri).

(** The provider's end-session URL of the session that ends. *)
Definition logout (now : datetime) (headers : Headers) (current : CurrentUser) : Handler S (option bytes) :=
  found ← attempt (session_with_user (cu_token_hash current));
  let end_session_url := match found with inr (Some (session, _)) => oidc_end_session_url session | _ => None end in
  _ ← call (delete_session (cu_token_hash current));
  _ ← audit now headers (Some (us_id (cu_user current))) (Some (us_email_address (cu_user current))) !"logout";
  mret end_session_url.

Record Me := mkMe { me_user : User; me_totp_enabled : bool; me_memberships : list (OrganizationMembership * Organization) }.
Definition me (current : CurrentUser) : Handler S Me :=
  auth ← call (user_auth (us_id (cu_user current)));
  memberships ← call (memberships_for_user (us_id (cu_user current)));
  mret (mkMe (cu_user current) (from_option ua_totp_enabled false auth) memberships).

Definition update_me (first_name last_name : option bytes) (current : CurrentUser) : Handler S User :=
  let user := cu_user current in
  let user := match present first_name with Some v => user <| us_first_name := v |> | None => user end in
  let user := match present last_name with Some v => user <| us_last_name := v |> | None => user end in
  call (update_user user).

(** The password the user gave is the account's, when it has one. *)
Definition confirms (password : option bytes) (a : UserAuth) : bool :=
  match ua_password_digest a with
  | Some digest => match password with Some p => verify_password p digest | None => false end
  | None => true
  end.

Definition change_password (now : datetime) (nonce : Z) (headers : Headers) (current_password new_password : option bytes) (current : CurrentUser) :
    Handler S (bytes * datetime) :=
  let user := cu_user current in
  new_password ← param !"new_password" new_password;
  _ ← refuse_if (too_short new_password) password_too_short;
  auth ← call (user_auth (us_id user));
  a ← require (unauthorized !"Unauthorized" !"Unknown user") auth;
  _ ← refuse_if (negb (confirms current_password a)) (unauthorized !"InvalidCredentials" !"The current password is incorrect");
  digest ← hash_or_fail nonce new_password;
  _ ← call (set_password_digest (us_id user) digest);
  _ ← ignore (delete_sessions_for_user (us_id user));
  _ ← audit now headers (Some (us_id user)) (Some (us_email_address user)) !"password.change";
  '(token, session) ← issue_session now nonce headers user;
  mret (token, as_expires_at session).

(** ** Password reset *)

(** [trim_end_matches('/')] and the token's path. *)
Definition frontend_link (path token : bytes) : option bytes :=
  (λ base, trim_end_matches (is_byte "/") base ++ path ++ token) <$> au_frontend_url config.
Definition is_disabled (auth : SRes (option UserAuth)) : bool := match auth with inr (Some a) => ua_disabled a | _ => false end.

(** The answer says nothing; the token goes by mail, or to the log. *)
Definition password_reset_request (now : datetime) (nonce : Z) (headers : Headers) (email_address : option bytes) : Handler S unit :=
  email ← param !"email_address" email_address;
  found ← attempt (user_by_email email);
  match found with
  | inr (Some user) =>
      auth ← attempt (user_auth (us_id user));
      if is_disabled auth then mret tt
      else
        let token := generate_auth_token nonce in
        let expires_at := (now + hours (Z.of_N (au_password_reset_expiry_hours config)))%Z in
        _ ← ignore (create_password_reset (us_id user) (hash_token token) expires_at);
        _ ← audit now headers (Some (us_id user)) (Some email) !"password.reset_request";
        match frontend_link !"/reset-password?token=" token with
        | Some link =>
            if au_app_mail config
            then _ ← effect (deliver now nonce (password_reset_mail email link (au_password_reset_expiry_hours config))); mret tt
            else mret tt
        | None => mret tt
        end
  | _ => mret tt
  end.

Definition password_reset_complete (now : datetime) (nonce : Z) (headers : Headers) (token new_password : option bytes) : Handler S unit :=
  token ← param !"token" token;
  new_password ← param !"new_password" new_password;
  _ ← refuse_if (too_short new_password) password_too_short;
  redeemed ← call (consume_password_reset (hash_token token) now);
  user_id ← require (422%N, !"InvalidToken", !"The reset token is invalid or has expired") redeemed;
  auth ← attempt (user_auth user_id);
  _ ← refuse_if (is_disabled auth) account_disabled;
  digest ← hash_or_fail nonce new_password;
  _ ← call (set_password_digest user_id digest);
  _ ← ignore (delete_sessions_for_user user_id);
  _ ← ignore (set_login_state user_id 0 None None);
  audit now headers (Some user_id) None !"password.reset_complete".

(** ** Second factor *)

Definition issuer : bytes := !"Camelmailer (" ++ au_web_hostname config ++ !")".
Definition totp_enroll (nonce : Z) (current : CurrentUser) : Handler S (bytes * bytes) :=
  let secret := generate_totp_secret nonce in
  _ ← call (set_totp (us_id (cu_user current)) (Some secret) false);
  mret (secret, otpauth_url secret (us_email_address (cu_user current)) issuer).

Definition not_enrolled : ApiError := validation_error !"TOTP enrollment has not been started".
Definition totp_activate (now : datetime) (headers : Headers) (code : option bytes) (current : CurrentUser) : Handler S unit :=
  code ← param !"code" code;
  auth ← attempt (user_auth (us_id (cu_user current)));
  secret ← require not_enrolled (match auth with inr (Some a) => ua_totp_secret a | _ => None end);
  _ ← refuse_if (negb (verify_totp secret code (unix_time now))) (invalid_totp 422);
  _ ← call (set_totp (us_id (cu_user current)) (Some secret) true);
  audit now headers (Some (us_id (cu_user current))) (Some (us_email_address (cu_user current))) !"totp.activate".

Definition totp_disable (now : datetime) (headers : Headers) (password : option bytes) (current : CurrentUser) : Handler S unit :=
  auth ← call (user_auth (us_id (cu_user current)));
  a ← require (validation_error !"TOTP is not enabled") auth;
  _ ← refuse_if (negb (confirms password a)) (unauthorized !"InvalidCredentials" !"The password is incorrect");
  _ ← call (set_totp (us_id (cu_user current)) None false);
  audit now headers (Some (us_id (cu_user current))) (Some (us_email_address (cu_user current))) !"totp.disable".

(** ** Invitations *)

Definition invalid_invitation : ApiError := (422%N, !"InvalidToken", !"The invitation is invalid, expired, or already used").
(** The open invitation with a token. *)
Definition open_invitation (now : datetime) (token : bytes) : Handler S Invitation :=
  found ← call (invitation_by_token_hash (hash_token token));
  invitation ← require invalid_invitation found;
  _ ← refuse_if (bool_decide (is_Some (in_accepted_at invitation)) || (in_expires_at invitation <? now)%Z) invalid_invitation;
  mret invitation.

Definition invitation_preview (now : datetime) (token : bytes) : Handler S (Invitation * option Organization * bool) :=
  invitation ← open_invitation now token;
  organizations ← call list_organizations;
  user ← attempt (user_by_email (in_email_address invitation));
  mret (invitation, List.find (λ o, (org_id o =? in_organization_id invitation)%N) organizations,
        match user with inr (Some _) => true | _ => false end).

Record AcceptInvitation := mkAcceptInvitation {
  ab_token : option bytes; ab_first_name : option bytes; ab_last_name : option bytes; ab_password : option bytes;
}.
Record Accepted := mkAccepted { ax_user : User; ax_account_created : bool; ax_session : option (bytes * datetime) }.

(** The account of the invited address, and whether it is new. *)
Definition invited_user (now : datetime) (nonce : Z) (invitation : Invitation) (body : AcceptInvitation) : Handler S (User * bool) :=
  existing ← call (user_by_email (in_email_address invitation));
  match existing with
  | Some user => mret (user, false)
  | None =>
      password ← param !"password" (ab_password body);
      _ ← refuse_if (too_short password) password_too_short;
      user ← call (create_user (mkNewUser (in_email_address invitation) (from_option id [] (ab_first_name body))
                                  (from_option id [] (ab_last_name body)) false));
      digest ← hash_or_fail nonce password;
      _ ← call (set_password_digest (us_id user) digest);
      _ ← effect (user_registered now user ByInvitation);
      mret (user, true)
  end.

Definition invitation_accept (now : datetime) (nonce : Z) (headers : Headers) (body : AcceptInvitation) : Handler S Accepted :=
  token ← param !"token" (ab_token body);
  invitation ← open_invitation now token;
  '(user, created) ← invited_user now nonce invitation body;
  _ ← call (upsert_membership now (in_organization_id invitation) (us_id user) (in_role invitation));
  _ ← call (mark_invitation_accepted now (in_id invitation));
  _ ← audit now headers (Some (us_id user)) (Some (us_email_address user)) !"invitation.accepted";
  if created : bool then
    '(token, session) ← issue_session now nonce headers user;
    mret (mkAccepted user true (Some (token, as_expires_at session)))
  else mret (mkAccepted user false None).

(** ** Sender addresses *)

Definition sender_address_confirm (token : option bytes) : Handler S bytes :=
  token ← param !"token" token;
  confirmed ← call (confirm_sender_address (hash_token token));
  require (422%N, !"InvalidToken", !"The confirmation token is invalid or has already been used") confirmed.

End AuthApi.
