(* ===== verification/Authorize.v ===== *)
(** * Authorize: who may do what in the admin API

    [camelmailer-api/src/app.rs]: the scope of a machine key, the caller of a request,
    the role a path needs, the middleware in front of the handlers, and pages of a
    collection.  The middleware reads the segments of the path as they are written; a
    handler gets them from axum's [Path], which decodes them ([PathParams]). *)

From S2P Require Import Prelude RustStr Net Model MemoryStore Compose ApiSend Auth AuthStore AppMailer AuthApi AdminStore.

(** ** Requests and responses *)

Inductive Method := GET | HEAD | POST | PATCH | DELETE.
#[export] Instance Method_eq_dec : EqDecision Method.
Proof. solve_decision. Defined.

(** The path is relative to [/api/v2/admin], or still has the prefix. *)
Record AdminRequest := mkAdminRequest { rq_method : Method; rq_path : bytes; rq_headers : Headers }.

(** The status and the data of a success. *)
Abbreviation Response := (N * Value)%type.
Definition ok_data {S} (data : Value) : Handler S Response := mret (200%N, data).
Definition created_data {S} (data : Value) : Handler S Response := mret (201%N, data).
Definition object (name : bytes) (v : Value) : Value := VObject [(name, v)].
Definition render_deleted {S} : Handler S Response := ok_data (object !"deleted" (VBool true)).
Definition not_found : ApiError := (404%N, !"NotFound", !"Resource not found").
(** [Ok(None)] is not found. *)
Definition found {S A} (op : S → SRes (option A) * S) : Handler S A := r ← call op; require not_found r.

Definition opt_value {A} (f : A → Value) (o : option A) : Value := from_option f VNull o.
Definition number (n : N) : Value := VNumber (show_N n).

(** ** Paths *)

Definition segments (path : bytes) : list bytes :=
  List.filter (λ s, negb (bool_decide (s = []))) (split_on (is_byte "/") (from_option id path (strip_prefix !"/api/v2/admin" path))).

(** [axum::extract::Path]: percent-decoding, which leaves a segment without a percent
    sign alone. *)
Class PathParams := {
  path_param : bytes → option bytes;
  path_param_plain s : forallb (λ c, negb (is_byte "%" c)) s = true → path_param s = Some s;
}.

(** ** Principals *)

Record AdminKeyScope := mkAdminKeyScope { aks_organization_id : option Id; aks_server_id : option Id }.
Definition scope_default : AdminKeyScope := mkAdminKeyScope None None.
Definition scope_is_global (s : AdminKeyScope) : bool :=
  bool_decide (aks_organization_id s = None) && bool_decide (aks_server_id s = None).

Inductive Principal := PAdminKey (scope : AdminKeyScope) | PUser (user : User).
Definition is_root (p : Principal) : bool := match p with PAdminKey scope => scope_is_global scope | PUser user => us_admin user end.
Definition principal_user (p : Principal) : option User := match p with PAdminKey _ => None | PUser user => Some user end.
Definition is_admin_key (p : Principal) : bool := match p with PAdminKey _ => true | PUser _ => false end.

(** [ActingRole]: the role in the organization of the path, [None] past the checks. *)
Abbreviation ActingRole := (option Role).
Definition acting_is_owner (r : ActingRole) : bool := bool_decide (r = None) || bool_decide (r = Some Owner).

(** ** Roles *)

Definition is_read (m : Method) : bool := bool_decide (m = GET) || bool_decide (m = HEAD).
Definition one_of (names : list bytes) (s : bytes) : bool := existsb (bytes_eqb s) names.
Definition required_role (rest : list bytes) (m : Method) : Role :=
  let read_or r := if is_read m then Viewer else r in
  match rest with
  | [] => read_or Owner
  | first :: others =>
      if one_of [!"members"; !"invitations"] first then read_or Admin
      else if first =b !"billing" then Admin
      else if first =b !"usage" then Viewer
      else if one_of [!"limits"; !"suspend"; !"unsuspend"] first then read_or Owner
      else if first =b !"sso" then Admin
      else if first =b !"servers" then
        match nth_error others 1 with
        | None => read_or Admin
        | Some third => if one_of [!"suspend"; !"unsuspend"; !"ip_pool"] third then read_or Admin else read_or Member
        end
      else read_or Admin
  end.

(** ** The middleware *)

Record AdminConfig := mkAdminConfig { ad_auth : AuthConfig; ad_accounts : bool; ad_global_admin_api_key : option bytes }.

Section Middleware.
Context `{CRA : !Crates} {S : Type} `{STO : !AdminStore S, ACC : !AuthStore S} (config : AdminConfig).

Definition key_scope (key : bytes) : Handler S (option AdminKeyScope) :=
  record ← call (admin_api_key_auth key);
  match record with
  | Some r => mret (Some (mkAdminKeyScope (key_organization_id r) (key_server_id r)))
  | None =>
      mret match ad_global_admin_api_key config with
           | Some configured => if negb (bool_decide (configured = [])) && (configured =b key) then Some scope_default else None
           | None => None
           end
  end.

Definition key_scope_allows (scope : AdminKeyScope) (path : bytes) : Handler S bool :=
  match segments path with
  | organizations :: org_permalink :: rest =>
      if negb (organizations =b !"organizations") then mret false
      else
        organization ← call (organization_by_permalink org_permalink);
        match organization with
        | None => mret false
        | Some organization =>
            if negb (bool_decide (Some (org_id organization) = aks_organization_id scope)) then mret false
            else
              match aks_server_id scope with
              | None => mret true
              | Some scoped_server_id =>
                  match rest with
                  | servers :: server_permalink :: _ =>
                      if negb (servers =b !"servers") then mret false
                      else
                        server ← call (server_by_permalink (org_id organization) server_permalink);
                        mret (from_option (λ s, srv_id s =? scoped_server_id)%N false server)
                  | _ => mret false
                  end
              end
        end
  | _ => mret false
  end.

Definition forbidden_error (message : bytes) : ApiError := forbidden !"Forbidden" message.
Definition role_error (required : Role) : ApiError :=
  forbidden_error (!"This action requires the " ++ role_str required ++ !" role in this organization").
Definition two_factor_error : ApiError :=
  forbidden !"TwoFactorEnforced"
    !"This organization requires two-factor authentication. Enable two-factor authentication on your account to continue.".

Definition machine_key {A} (rq : AdminRequest) (key : bytes) (next : Principal → ActingRole → Handler S A) : Handler S A :=
  scope ← key_scope key;
  scope ← require (unauthorized !"Unauthorized" !"Invalid API key") scope;
  _ ← (if scope_is_global scope then mret tt
       else allowed ← key_scope_allows scope (rq_path rq); refuse_if (negb allowed) not_found);
  next (PAdminKey scope) None.

(** The organization the path names, when it names one. *)
Definition path_organization (segs : list bytes) : Handler S (option Organization) :=
  match segs with
  | organizations :: permalink :: _ =>
      if organizations =b !"organizations" then call (organization_by_permalink permalink) else mret None
  | _ => mret None
  end.

(** The role checks of a user who is no global administrator. *)
Definition user_role (rq : AdminRequest) (user : User) (segs : list bytes) (organization : option Organization) : Handler S ActingRole :=
  match segs with
  | organizations :: rest =>
      if negb (organizations =b !"organizations") then fail (forbidden_error !"This action requires a global administrator account")
      else
        match rest with
        | [] =>
            _ ← refuse_if (bool_decide (rq_method rq = POST) && negb (au_allow_organization_creation (ad_auth config)))
                  (forbidden_error !"Organization creation is restricted to administrators");
            mret None
        | _ :: below =>
            found ← match organization with
                    | Some organization => call (membership (org_id organization) (us_id user))
                    | None => mret None
                    end;
            m ← require not_found found;
            let required := required_role below (rq_method rq) in
            _ ← refuse_if (negb (role_at_least (om_role m) required)) (role_error required);
            mret (Some (om_role m))
        end
  | [] => fail (forbidden_error !"This action requires a global administrator account")
  end.

Definition enforce_two_factor (user : User) (organization : option Organization) : Handler S unit :=
  if from_option org_require_two_factor false organization then
    enrolled ← call (user_has_two_factor (us_id user));
    refuse_if (negb enrolled) two_factor_error
  else mret tt.

Definition user_session {A} (now : datetime) (rq : AdminRequest) (token : bytes) (next : Principal → ActingRole → Handler S A) : Handler S A :=
  session ← call (session_with_user (hash_token token));
  '(session, user) ← require session_invalid (live_session now session);
  _ ← ignore (touch_session (as_id session) now (session_end (ad_auth config) now));
  let segs := segments (rq_path rq) in
  organization ← path_organization segs;
  acting_role ← (if us_admin user then mret None else user_role rq user segs organization);
  _ ← enforce_two_factor user organization;
  next (PUser user) acting_role.

Definition auth_middleware {A} (now : datetime) (rq : AdminRequest) (next : Principal → ActingRole → Handler S A) : Handler S A :=
  match present (rq_headers rq !"x-admin-api-key") with
  | Some key => machine_key rq key next
  | None =>
      let token := bearer (rq_headers rq) in
      if bool_decide (token = []) || negb (ad_accounts config)
      then fail (unauthorized !"Unauthorized" !"Missing X-Admin-API-Key header or Authorization: Bearer session token")
      else user_session now rq token next
  end.
End Middleware.

(** ** Pages *)

Record PaginationParams := mkPaginationParams { pp_page : option N; pp_per_page : option N }.
Record Paginated (T : Type) := mkPaginated { pg_items : list T; pg_page : N; pg_per_page : N; pg_total : N; pg_total_pages : N }.
Arguments mkPaginated {T}.
Arguments pg_items {T}.
Arguments pg_page {T}.
Arguments pg_per_page {T}.
Arguments pg_total {T}.
Arguments pg_total_pages {T}.

Definition page_number (p : PaginationParams) : N := N.max 1 (from_option id 1%N (pp_page p)).
Definition page_size (p : PaginationParams) : N := N.max 1 (N.min 100 (from_option id 25%N (pp_per_page p))).
Definition div_ceil (a b : N) : N := ((a + b - 1) / b)%N.
(** [((page - 1) * per_page) as usize] wraps at 64 bits. *)
Definition page_offset (p : PaginationParams) : N := (((page_number p - 1) * page_size p) mod 2 ^ 64)%N.
Definition paginate {T} (collection : list T) (p : PaginationParams) : Paginated T :=
  let total := N.of_nat (length collection) in
  mkPaginated (take (N.to_nat (page_size p)) (drop (N.to_nat (page_offset p)) collection))
    (page_number p) (page_size p) total (div_ceil total (page_size p)).
Definition pagination_json {T} (p : Paginated T) : Value :=
  VObject [(!"page", number (pg_page p)); (!"per_page", number (pg_per_page p)); (!"total", number (pg_total p));
           (!"total_pages", number (pg_total_pages p))].
Definition page_json {T} (name : bytes) (render : T → Value) (p : Paginated T) : list (bytes * Value) :=
  [(name, VArray (map render (pg_items p))); (!"pagination", pagination_json p)].
