(* ===== verification/AdminApi.v ===== *)
(** * AdminApi: organizations, servers, machine keys, limits

    The handlers of [camelmailer-api/src/app.rs] and [quota.rs] over any store.  A
    handler gets the decoded parameters of its path and its parsed body; a field of
    the body that tells absent from [null] is an option of an option.  The statistics
    of servers and the billing handlers are left out. *)

From S2P Require Import Prelude RustStr Net Model SendLimit MemoryStore MailDb PgStore Compose ApiSend Auth AuthStore AppMailer AuthApi.
From S2P Require Import AdminStore AdminPg Workspace Authorize.

(** Serialization of floats and dates, and generated keys. *)
Class AdminJson := {
  json_f64 : f64 → bytes;
  json_datetime : datetime → bytes;
  json_midnight : UsageMonth → bytes;
  generate_key : Z → bytes;
}.

Definition vstring_opt : option bytes → Value := opt_value VString.
Definition number_opt : option N → Value := opt_value number.
Definition integer_opt : option Z → Value := opt_value (λ z, VNumber (show_Z z)).

Record RetentionSettings := mkRetentionSettings {
  rs_message_content_days : N; rs_message_metadata_days : N; rs_message_retention_days : N; rs_webhook_log_days : N;
  rs_dmarc_report_days : N; rs_auth_event_days : N; rs_api_request_days : N }.
(** [Config::message_metadata_retention_days] *)
Definition message_metadata_retention_days (c : RetentionSettings) : N :=
  if (0 <? rs_message_metadata_days c)%N then rs_message_metadata_days c else rs_message_retention_days c.
Definition installation_retention (c : RetentionSettings) : RetentionPeriods :=
  from_days (rs_message_content_days c) (message_metadata_retention_days c) (rs_webhook_log_days c) (rs_dmarc_report_days c).

Section Json.
Context `{JS : !AdminJson}.
Definition organization_json (o : Organization) : Value :=
  VObject [(!"id", number (org_id o)); (!"name", VString (org_name o)); (!"permalink", VString (org_permalink o));
           (!"require_two_factor", VBool (org_require_two_factor o)); (!"uuid", VString (org_uuid o))].
Definition mode_str (m : ServerMode) : bytes := match m with Live => !"Live" | Development => !"Development" end.
Definition server_json (s : Server) : Value :=
  let float := opt_value (λ x, VNumber (json_f64 x)) in
  VObject [(!"bounce_hook_url", vstring_opt (srv_bounce_hook_url s));
           (!"broadcast_physical_address", vstring_opt (srv_broadcast_physical_address s)); (!"color", vstring_opt (srv_color s));
           (!"default_stream_id", number_opt (srv_default_stream_id s)); (!"delivery_hook_url", vstring_opt (srv_delivery_hook_url s));
           (!"id", number (srv_id s)); (!"inbound_domain", vstring_opt (srv_inbound_domain s)); (!"ip_pool_id", number_opt (srv_ip_pool_id s));
           (!"mode", VString (mode_str (srv_mode s))); (!"name", VString (srv_name s));
           (!"outbound_spam_threshold", float (srv_outbound_spam_threshold s)); (!"permalink", VString (srv_permalink s));
           (!"privacy_mode", VBool (srv_privacy_mode s)); (!"send_limit", integer_opt (srv_send_limit s));
           (!"spam_threshold", float (srv_spam_threshold s)); (!"suspended", VBool (srv_suspended s));
           (!"suspension_reason", vstring_opt (srv_suspension_reason s)); (!"track_clicks", VBool (srv_track_clicks s));
           (!"track_opens", VBool (srv_track_opens s)); (!"uuid", VString (srv_uuid s))].
Definition admin_api_key_json (k : AdminApiKey) : list (bytes * Value) :=
  [(!"id", number (key_id k)); (!"key_prefix", VString (key_prefix k)); (!"name", VString (key_name k));
   (!"organization_id", number_opt (key_organization_id k)); (!"server_id", number_opt (key_server_id k)); (!"uuid", VString (key_uuid k))].

Definition overrides_json (o : RetentionOverrides) : Value :=
  VObject [(!"dmarc_report_days", number_opt (ro_dmarc_report_days o)); (!"message_content_days", number_opt (ro_message_content_days o));
           (!"message_metadata_days", number_opt (ro_message_metadata_days o)); (!"webhook_log_days", number_opt (ro_webhook_log_days o))].
Definition policy_json (p : OrganizationPolicy) : Value :=
  VObject [(!"monthly_send_limit", integer_opt (pol_monthly_send_limit p)); (!"retention", overrides_json (pol_retention p));
           (!"suspended", VBool (pol_suspended p)); (!"suspension_reason", vstring_opt (pol_suspension_reason p))].
Definition retention_json (c : RetentionSettings) (p : OrganizationPolicy) : Value :=
  let effective := with_overrides (installation_retention c) (pol_retention p) in
  VObject [(!"api_request_days", number_opt (retention_days (rs_api_request_days c)));
           (!"auth_event_days", number_opt (retention_days (rs_auth_event_days c)));
           (!"dmarc_report_days", number_opt (rp_dmarc_report_days effective));
           (!"message_content_days", number_opt (rp_message_content_days effective));
           (!"message_metadata_days", number_opt (rp_message_metadata_days effective)); (!"overrides", overrides_json (pol_retention p));
           (!"webhook_log_days", number_opt (rp_webhook_log_days effective))].
End Json.

(** ** Bodies *)

Record CreateOrganization := mkCreateOrganization { co_name : option bytes; co_permalink : option bytes }.
Record CreateServer := mkCreateServer { cs_name : option bytes; cs_permalink : option bytes; cs_mode : option bytes }.
Record UpdateServer := mkUpdateServer {
  up_name : option bytes; up_mode : option bytes; up_track_opens : option bool; up_track_clicks : option bool;
  up_spam_threshold : option f64; up_outbound_spam_threshold : option f64; up_bounce_hook_url : option bytes;
  up_delivery_hook_url : option bytes; up_inbound_domain : option bytes; up_broadcast_physical_address : option bytes;
  up_color : option bytes; up_send_limit : option (option Z) }.
Record CreateAdminApiKey := mkCreateAdminApiKey { ck_name : option bytes; ck_organization : option bytes; ck_server : option bytes }.
Record UpdateRetention := mkUpdateRetention {
  ur_message_content_days : option (option Z); ur_message_metadata_days : option (option Z);
  ur_webhook_log_days : option (option Z); ur_dmarc_report_days : option (option Z) }.
Record UpdateLimits := mkUpdateLimits {
  ul_monthly_send_limit : option (option Z); ul_suspended : option bool; ul_suspension_reason : option (option bytes);
  ul_retention : option UpdateRetention }.

#[export] Instance eta_OrganizationPolicy : Eta OrganizationPolicy := λ p,
  mkOrganizationPolicy (pol_monthly_send_limit p) (pol_suspended p) (pol_suspension_reason p) (pol_retention p).

(** [if let Some(v) = v { target = v }], and [if v.is_some() { target = v }]. *)
Definition assign {A} (v : option A) (target : A) : A := from_option (λ a, a) target v.
Definition replace_some {A} (v target : option A) : option A := match v with Some _ => v | None => target end.

Section AdminApi.
Context `{CASE : !UnicodeCase, CRA : !Crates, AUTH : !AuthCrates, JS : !AdminJson, API : !ApiCrates SendMessage}.
Context {S : Type} `{STO : !AdminStore S, ACC : !AuthStore S} (config : AdminConfig) (retention : RetentionSettings) (lifecycle_enabled : bool).
#[local] Abbreviation H := (Handler S Response).

(** ** Organizations *)

(** The callers are roots or users: a scoped key does not reach the index. *)
Definition visible_organizations (principal : Principal) : Handler S (list Organization) :=
  if is_root principal then call list_organizations
  else
    match principal_user principal with
    | None => fail internal_error
    | Some user =>
        if ad_accounts config then memberships ← call (memberships_for_user (us_id user)); mret (map snd memberships)
        else mret []
    end.
Definition organizations_index (principal : Principal) (params : PaginationParams) : H :=
  organizations ← visible_organizations principal;
  let sorted := stable_sort (λ a b, bytes_le (org_name a) (org_name b)) organizations in
  ok_data (VObject (page_json !"organizations" organization_json (paginate sorted params))).

Definition organizations_create (now : datetime) (principal : Principal) (body : CreateOrganization) : H :=
  name ← param !"name" (co_name body);
  let permalink := from_option id (permalink_from name) (present (co_permalink body)) in
  organization ← call (create_organization (mkNewOrganization name permalink));
  _ ← match principal_user principal with
      | Some user =>
          if ad_accounts config then _ ← call (upsert_membership now (org_id organization) (us_id user) Owner); mret tt else mret tt
      | None => mret tt
      end;
  _ ← effect (organization_created lifecycle_enabled now organization (principal_user principal));
  created_data (object !"organization" (organization_json organization)).

Definition find_organization (permalink : bytes) : Handler S Organization := found (organization_by_permalink permalink).
Definition organizations_show (permalink : bytes) : H :=
  organization ← find_organization permalink;
  policy ← call (policy_of_organization (org_id organization));
  ok_data (VObject [(!"organization", organization_json organization); (!"retention", retention_json retention policy)]).
Definition organizations_update (permalink : bytes) (require_two_factor : option bool) : H :=
  organization ← find_organization permalink;
  require_two_factor ← require (missing !"require_two_factor") require_two_factor;
  organization ← call (update_organization (organization <| org_require_two_factor := require_two_factor |>));
  ok_data (object !"organization" (organization_json organization)).
Definition organizations_destroy (now : datetime) (principal : Principal) (permalink : bytes) : H :=
  organization ← find_organization permalink;
  deleted ← call (delete_organization (org_id organization));
  _ ← (if deleted : bool then effect (organization_deleted lifecycle_enabled now organization (principal_user principal)) else mret tt);
  render_deleted.

(** ** Servers *)

Definition find_server (org permalink : bytes) : Handler S Server :=
  organization ← find_organization org;
  found (server_by_permalink (org_id organization) permalink).
Definition server_response (server : Server) : H := ok_data (object !"server" (server_json server)).
Definition servers_index (org : bytes) (params : PaginationParams) : H :=
  organization ← find_organization org;
  servers ← call (servers_for_organization (org_id organization));
  ok_data (VObject (page_json !"servers" server_json (paginate servers params))).
Definition server_mode (mode : bytes) : Handler S ServerMode :=
  if mode =b !"Live" then mret Live
  else if mode =b !"Development" then mret Development
  else fail (validation_error (!"Mode " ++ debug_str mode ++ !" is not a valid mode")).
Definition servers_create (org : bytes) (body : CreateServer) : H :=
  organization ← find_organization org;
  name ← param !"name" (cs_name body);
  mode ← match cs_mode body with None => mret Live | Some mode => server_mode mode end;
  let permalink := from_option id (permalink_from name) (present (cs_permalink body)) in
  server ← call (create_server (mkNewServer (org_id organization) name permalink mode));
  created_data (object !"server" (server_json server)).
Definition servers_show (org permalink : bytes) : H := server ← find_server org permalink; server_response server.
Definition servers_destroy (org permalink : bytes) : H :=
  server ← find_server org permalink;
  _ ← call (delete_server (srv_id server));
  render_deleted.

Definition SUSPENDED : bytes := !"Suspended via Admin API".
Definition save_server (server : Server) : H := server ← call (update_server server); server_response server.
Definition servers_suspend (org permalink : bytes) (reason : option bytes) : H :=
  server ← find_server org permalink;
  save_server (server <| srv_suspended := true |> <| srv_suspension_reason := replace_some reason (Some SUSPENDED) |>).
Definition servers_unsuspend (org permalink : bytes) : H :=
  server ← find_server org permalink;
  save_server (server <| srv_suspended := false |> <| srv_suspension_reason := None |>).

Definition send_limit_denied : ApiError := forbidden !"AccessDenied" !"Only a global administrator can change a server's send limit".
Definition negative_limit : ApiError := validation_error !"Send limit must be zero or greater, or null for unlimited".
Definition servers_update (principal : Principal) (org permalink : bytes) (body : UpdateServer) : H :=
  server ← find_server org permalink;
  mode ← match up_mode body with None => mret (srv_mode server) | Some mode => server_mode mode end;
  send_limit ← match up_send_limit body with
               | None => mret (srv_send_limit server)
               | Some send_limit =>
                   _ ← refuse_if (negb (is_root principal)) send_limit_denied;
                   _ ← refuse_if (from_option (λ limit, limit <? 0)%Z false send_limit) negative_limit;
                   mret send_limit
               end;
  save_server (server <| srv_name := assign (up_name body) (srv_name server) |> <| srv_mode := mode |>
    <| srv_track_opens := assign (up_track_opens body) (srv_track_opens server) |>
    <| srv_track_clicks := assign (up_track_clicks body) (srv_track_clicks server) |>
    <| srv_spam_threshold := replace_some (up_spam_threshold body) (srv_spam_threshold server) |>
    <| srv_outbound_spam_threshold := replace_some (up_outbound_spam_threshold body) (srv_outbound_spam_threshold server) |>
    <| srv_bounce_hook_url := replace_some (up_bounce_hook_url body) (srv_bounce_hook_url server) |>
    <| srv_delivery_hook_url := replace_some (up_delivery_hook_url body) (srv_delivery_hook_url server) |>
    <| srv_inbound_domain := replace_some (up_inbound_domain body) (srv_inbound_domain server) |>
    <| srv_broadcast_physical_address := replace_some (up_broadcast_physical_address body) (srv_broadcast_physical_address server) |>
    <| srv_color := replace_some (up_color body) (srv_color server) |> <| srv_send_limit := send_limit |>).

(** The server as it was is shown when it cannot be read again. *)
Definition servers_set_ip_pool (org permalink : bytes) (ip_pool_id : option Id) : H :=
  server ← find_server org permalink;
  _ ← call (set_server_ip_pool (srv_id server) ip_pool_id);
  updated ← attempt (server_by_permalink (srv_organization_id server) permalink);
  server_response match updated with inr (Some updated) => updated | _ => server end.

Definition servers_find (permalink : bytes) : H :=
  matches ← call (find_servers_by_permalink permalink);
  match matches with
  | [] => fail not_found
  | [(organization, server)] => ok_data (VObject [(!"organization", organization_json organization); (!"server", server_json server)])
  | _ => fail (validation_error (!"Server permalink " ++ debug_str permalink ++ !" is ambiguous: " ++ show_N (N.of_nat (length matches))
                                 ++ !" organizations have one"))
  end.

(** ** Machine keys *)

Definition admin_api_keys_index (params : PaginationParams) : H :=
  keys ← call list_admin_api_keys;
  ok_data (VObject (page_json !"admin_api_keys" (λ k, VObject (admin_api_key_json k)) (paginate keys params))).
Definition key_organization (permalink : option bytes) : Handler S (option Organization) :=
  match permalink with
  | None => mret None
  | Some permalink =>
      organization ← call (organization_by_permalink permalink);
      organization ← require (validation_error (!"Organization " ++ debug_str permalink ++ !" does not exist")) organization;
      mret (Some organization)
  end.
Definition key_server (permalink : option bytes) (organization : option Organization) : Handler S (option Id) :=
  match permalink with
  | None => mret None
  | Some permalink =>
      organization ← require (validation_error !"A server-scoped key also needs its organization") organization;
      server ← call (server_by_permalink (org_id organization) permalink);
      server ← require (validation_error (!"Server " ++ debug_str permalink ++ !" does not exist in this organization")) server;
      mret (Some (srv_id server))
  end.
(** The one time the secret is shown. *)
Definition admin_api_keys_create (nonce : Z) (body : CreateAdminApiKey) : H :=
  name ← param !"name" (ck_name body);
  organization ← key_organization (present (ck_organization body));
  server_id ← key_server (present (ck_server body)) organization;
  let key := generate_key nonce in
  record ← call (create_admin_api_key_record name key (org_id <$> organization) server_id);
  created_data (object !"admin_api_key" (VObject (admin_api_key_json record ++ [(!"key", VString key)]))).
Definition admin_api_keys_destroy (id : Id) : H :=
  deleted ← call (delete_admin_api_key id); if deleted : bool then render_deleted else fail not_found.

(** ** Limits and usage *)

Definition usage_show (now : datetime) (org : bytes) (month : option bytes) : H :=
  organization ← find_organization org;
  month ← match present month with
          | None => mret (usage_month_of now)
          | Some value => require (validation_error !"month must be formatted as YYYY-MM") (parse_usage_month value)
          end;
  policy ← call (policy_of_organization (org_id organization));
  sent ← call (month_usage_of_organization (org_id organization) month);
  let allowance := allowance_organization (pol_monthly_send_limit policy) sent in
  ok_data (object !"usage" (VObject
    [(!"limit", integer_opt (pol_monthly_send_limit policy)); (!"month", VString (label month));
     (!"organization", VString (org_permalink organization)); (!"period_end", VString (json_midnight (next_month month)));
     (!"period_start", VString (json_midnight month)); (!"remaining", integer_opt (remaining allowance));
     (!"sent", VNumber (show_Z sent)); (!"suspended", VBool (pol_suspended policy));
     (!"suspension_reason", vstring_opt (pol_suspension_reason policy))])).
Definition limits_response (policy : OrganizationPolicy) : H := ok_data (object !"limits" (policy_json policy)).
Definition limits_show (org : bytes) : H :=
  organization ← find_organization org;
  policy ← call (policy_of_organization (org_id organization));
  limits_response policy.

Definition retention_error : bytes := !"Retention periods must be between 0 (keep forever) and 36500 days, or null to inherit".
Definition apply_days (target : option N) (change : option (option Z)) : bytes + option N :=
  match change with
  | None => inr target
  | Some None => inr None
  | Some (Some days) => if ((0 <=? days) && (days <=? 36500))%Z then inr (Some (Z.to_N days)) else inl retention_error
  end.
#[local] Instance sum_bind : MBind (sum bytes) := λ A B f m, match m with inl e => inl e | inr a => f a end.
Definition apply_retention_change (target : RetentionOverrides) (r : UpdateRetention) : bytes + RetentionOverrides :=
  content ← apply_days (ro_message_content_days target) (ur_message_content_days r);
  metadata ← apply_days (ro_message_metadata_days target) (ur_message_metadata_days r);
  webhook_log ← apply_days (ro_webhook_log_days target) (ur_webhook_log_days r);
  dmarc ← apply_days (ro_dmarc_report_days target) (ur_dmarc_report_days r);
  inr (mkRetentionOverrides content metadata webhook_log dmarc).
Definition negative_month_limit : bytes := !"Monthly send limit must be zero or greater, or null for unlimited".
Definition apply_limits (body : UpdateLimits) (policy : OrganizationPolicy) : bytes + OrganizationPolicy :=
  limit ← match ul_monthly_send_limit body with
          | None => inr (pol_monthly_send_limit policy)
          | Some limit => if from_option (λ l, l <? 0)%Z false limit then inl negative_month_limit else inr limit
          end;
  let policy := policy <| pol_monthly_send_limit := limit |> in
  let policy := match ul_suspended body with
                | None => policy
                | Some true => policy <| pol_suspended := true |>
                | Some false => policy <| pol_suspended := false |> <| pol_suspension_reason := None |>
                end in
  let policy := policy <| pol_suspension_reason := assign (ul_suspension_reason body) (pol_suspension_reason policy) |> in
  overrides ← match ul_retention body with None => inr (pol_retention policy) | Some r => apply_retention_change (pol_retention policy) r end;
  let policy := policy <| pol_retention := overrides |> in
  inr (if pol_suspended policy && bool_decide (pol_suspension_reason policy = None)
       then policy <| pol_suspension_reason := Some SUSPENDED |> else policy).

Definition limits_denied : ApiError := forbidden !"AccessDenied" !"Only an installation administrator can change an organization's limits".
Definition change_policy (principal : Principal) (org : bytes) (change : OrganizationPolicy → bytes + OrganizationPolicy) : H :=
  _ ← refuse_if (negb (is_root principal)) limits_denied;
  organization ← find_organization org;
  policy ← call (policy_of_organization (org_id organization));
  match change policy with
  | inl message => fail (validation_error message)
  | inr policy => _ ← call (set_organization_policy (org_id organization) policy); limits_response policy
  end.
Definition limits_update (principal : Principal) (org : bytes) (body : UpdateLimits) : H :=
  change_policy principal org (apply_limits body).
Definition organization_suspend (principal : Principal) (org : bytes) (reason : option bytes) : H :=
  let reason := from_option id SUSPENDED (present reason) in
  change_policy principal org (λ p, inr (p <| pol_suspended := true |> <| pol_suspension_reason := Some reason |>)).
Definition organization_unsuspend (principal : Principal) (org : bytes) : H :=
  change_policy principal org (λ p, inr (p <| pol_suspended := false |> <| pol_suspension_reason := None |>)).
End AdminApi.
