(* ===== verification/Members.v ===== *)
(** * Members: the people of an organization

    The handlers of [camelmailer-api/src/memberships.rs]: members, invitations and the
    audit log.  The middleware has checked the role a path needs; the rules about
    owners are here. *)

From S2P Require Import Prelude RustStr Net Model MemoryStore Compose ApiSend Auth AuthStore AppMailer AuthApi.
From S2P Require Import AdminStore Authorize AdminApi.

Section Members.
Context `{CRA : !Crates, AUTH : !AuthCrates, JS : !AdminJson}.
Context {S : Type} `{STO : !AdminStore S, ACC : !AuthStore S, HOOKS : !AccountHooks S} (config : AdminConfig).
#[local] Abbreviation H := (Handler S Response).

Definition accounts_unavailable : ApiError :=
  (503%N, !"AccountsUnavailable", !"User accounts require persistent storage and are not enabled on this instance").
Definition auth_store : Handler S unit := refuse_if (negb (ad_accounts config)) accounts_unavailable.

Definition membership_json (m : OrganizationMembership) (user : Value) : Value :=
  VObject [(!"created_at", VString (json_datetime (om_created_at m))); (!"role", VString (role_str (om_role m))); (!"user", user)].
Definition invitation_json (i : Invitation) : list (bytes * Value) :=
  [(!"accepted_at", opt_value (λ t, VString (json_datetime t)) (in_accepted_at i)); (!"email_address", VString (in_email_address i));
   (!"expires_at", VString (json_datetime (in_expires_at i))); (!"id", number (in_id i)); (!"role", VString (role_str (in_role i)));
   (!"uuid", VString (in_uuid i))].

Definition is_owner (m : OrganizationMembership) : bool := bool_decide (om_role m = Owner).
(** A failure counts as none. *)
Definition owner_count (organization_id : Id) : Handler S nat :=
  members ← attempt (memberships_for_organization organization_id);
  mret match members with inr members => length (List.filter (λ m, is_owner m.1) members) | inl _ => 0 end.
Definition event (user_id : option Id) (email : option bytes) (name : bytes) : NewAuthEvent := mkNewAuthEvent user_id email name None None.

(** ** Members *)

Definition members_index (org : bytes) : H :=
  _ ← auth_store;
  organization ← find_organization org;
  members ← call (memberships_for_organization (org_id organization));
  ok_data (object !"members" (VArray (map (λ m, membership_json m.1 (user_json m.2)) members))).

Definition role_invalid : ApiError := validation_error !"role must be one of viewer, member, admin, owner".
Definition ALREADY_MEMBER : ApiError := validation_error !"User is already a member of this organization".
Definition grant_denied : ApiError := forbidden_error !"Only owners can grant the owner role".
(** "No account exists for this email address (dash) send an invitation instead" *)
Definition no_account : ApiError :=
  validation_error (!"No account exists for this email address " ++ EM_DASH ++ !" send an invitation instead").
Definition member_response (render : Value → H) (m : OrganizationMembership) (user : User) : H :=
  render (object !"member" (membership_json m (user_json user))).

Definition members_create (now : datetime) (acting : ActingRole) (org : bytes) (email_address role : option bytes) : H :=
  _ ← auth_store;
  organization ← find_organization org;
  email ← param !"email_address" email_address;
  role ← require role_invalid (role ≫= role_parse);
  _ ← refuse_if (bool_decide (role = Owner) && negb (acting_is_owner acting)) grant_denied;
  user ← call (user_by_email email);
  user ← require no_account user;
  existing ← attempt (membership (org_id organization) (us_id user));
  _ ← refuse_if (match existing with inr (Some _) => true | _ => false end) ALREADY_MEMBER;
  m ← call (upsert_membership now (org_id organization) (us_id user) role);
  member_response created_data m user.

Definition owner_change_denied : ApiError := forbidden_error !"Only owners can change owner roles".
Definition last_owner : ApiError := validation_error !"The organization must keep at least one owner".
(** [P] is checked, and only then the owners are counted. *)
Definition keep_an_owner (P : bool) (organization_id : Id) : Handler S unit :=
  if P then owners ← owner_count organization_id; refuse_if (owners <=? 1)%nat last_owner else mret tt.
Definition members_update (now : datetime) (acting : ActingRole) (org : bytes) (user_id : Id) (role : option bytes) : H :=
  _ ← auth_store;
  organization ← find_organization org;
  role ← require role_invalid (role ≫= role_parse);
  existing ← found (membership (org_id organization) user_id);
  _ ← refuse_if ((bool_decide (role = Owner) || is_owner existing) && negb (acting_is_owner acting)) owner_change_denied;
  _ ← keep_an_owner (is_owner existing && negb (bool_decide (role = Owner))) (org_id organization);
  _ ← ignore (record_auth_event now (event (Some user_id) None (!"membership.role_change." ++ role_str role)));
  m ← call (upsert_membership now (org_id organization) user_id role);
  ok_data (object !"member" (VObject
    [(!"created_at", VString (json_datetime (om_created_at m))); (!"role", VString (role_str (om_role m))); (!"user_id", number (om_user_id m))])).

Definition owner_removal_denied : ApiError := forbidden_error !"Only owners can remove an owner".
Definition members_destroy (now : datetime) (acting : ActingRole) (org : bytes) (user_id : Id) : H :=
  _ ← auth_store;
  organization ← find_organization org;
  existing ← found (membership (org_id organization) user_id);
  _ ← refuse_if (is_owner existing && negb (acting_is_owner acting)) owner_removal_denied;
  _ ← keep_an_owner (is_owner existing) (org_id organization);
  deleted ← call (delete_membership (org_id organization) user_id);
  if deleted : bool
  then _ ← ignore (record_auth_event now (event (Some user_id) None !"membership.removed")); render_deleted
  else fail not_found.

(** ** Invitations *)

Definition invitations_index (org : bytes) : H :=
  _ ← auth_store;
  organization ← find_organization org;
  invitations ← call (list_invitations (org_id organization));
  ok_data (object !"invitations" (VArray (map (λ i, VObject (invitation_json i)) invitations))).

(** A user who is a member already; errors are passed over. *)
Definition is_member (organization_id : Id) (email : bytes) : Handler S bool :=
  user ← attempt (user_by_email email);
  match user with
  | inr (Some user) =>
      m ← attempt (membership organization_id (us_id user)); mret (match m with inr (Some _) => true | _ => false end)
  | _ => mret false
  end.
Definition invitation_role (role : option bytes) : Handler S Role :=
  match role with None => mret Member | Some value => require role_invalid (role_parse value) end.

Definition invitations_create (now : datetime) (nonce : Z) (acting : ActingRole) (principal : Principal) (org : bytes)
    (email_address role : option bytes) : H :=
  _ ← auth_store;
  organization ← find_organization org;
  email ← require (missing !"email_address") (e ← present email_address; if existsb (is_byte "@") e then Some e else None);
  role ← invitation_role role;
  _ ← refuse_if (bool_decide (role = Owner) && negb (acting_is_owner acting)) grant_denied;
  member ← is_member (org_id organization) email;
  _ ← refuse_if member ALREADY_MEMBER;
  let token := generate_auth_token nonce in
  let inviter := us_id <$> principal_user principal in
  let expiry := au_invitation_expiry_days (ad_auth config) in
  invitation ← call (create_invitation (mkNewInvitation (org_id organization) email role (hash_token token) (from_option id 0%N inviter)
                                          (now + days (Z.of_N expiry))%Z));
  _ ← ignore (record_auth_event now (event inviter (Some email) !"invitation.created"));
  let invite_url := frontend_link (ad_auth config) !"/invitations/accept?token=" token in
  let data := invitation_json invitation ++ [(!"invite_token", VString token)]
              ++ from_option (λ url, [(!"invite_url", VString url)]) [] invite_url in
  _ ← match invite_url with
      | Some link =>
          if au_app_mail (ad_auth config)
          then _ ← effect (deliver now nonce (invitation_mail (in_email_address invitation) (org_name organization) link expiry)); mret tt
          else mret tt
      | None => mret tt
      end;
  created_data (object !"invitation" (VObject data)).
Definition invitations_destroy (org : bytes) (id : Id) : H :=
  _ ← auth_store;
  organization ← find_organization org;
  deleted ← call (delete_invitation (org_id organization) id);
  if deleted : bool then render_deleted else fail not_found.

(** ** The audit log *)

Definition auth_event_json (e : AuthEvent) : Value :=
  VObject [(!"created_at", VString (json_datetime (ae_created_at e))); (!"email_address", vstring_opt (ae_email_address e)); (!"event", VString (ae_event e));
           (!"id", number (ae_id e)); (!"ip_address", vstring_opt (ae_ip_address e)); (!"user_agent", vstring_opt (ae_user_agent e));
           (!"user_id", number_opt (ae_user_id e))].
Definition auth_events_index (limit : option N) : H :=
  _ ← auth_store;
  events ← call (list_auth_events (N.to_nat (N.max 1 (N.min 1000 (from_option id 100%N limit)))));
  ok_data (object !"auth_events" (VArray (map auth_event_json events))).
End Members.
