(* ===== verification/Resources.v ===== *)
(** * Resources: what a server has, users and IP pools

    The handlers of [camelmailer-api/src/resources.rs] over any store, and the test
    delivery of [webhook_send.rs].  DNS answers and the answer to a test delivery are
    arguments.  The health check of a domain, the copying of templates and the import
    of messages are left out; so is the duration of a test delivery. *)

From S2P Require Import Prelude RustStr Net Model SendLimit MemoryStore MailDb Dkim Worker Webhooks PgStore Compose ApiSend Auth AuthStore AppMailer AuthApi.
From S2P Require Import AdminStore AdminPg Workspace Authorize AdminApi.

(** RSA keys (rsa, base64), header fields (http), and the float of a time in
    milliseconds, less a minute, as JSON prints it. *)
Class ResourceCrates := {
  dkim_public_key_b64 : bytes → option bytes;
  generate_dkim_key : Z → option bytes;
  header_name_valid : bytes → bool;
  header_value_valid : bytes → bool;
  minute_earlier : Z → bytes;
}.

Record DnsSettings := mkDnsSettings {
  dns_dkim_identifier : bytes; dns_verification_record_label : bytes; dns_verification_value_prefix : bytes; dns_spf_include : bytes;
  dns_track_domain_name : bytes; dns_smtp_hostname : bytes; dns_web_hostname : bytes; dns_installation_dkim_public_key : option bytes }.

(** ** Bodies *)

Record CreateDomain := mkCreateDomain { cd_name : option bytes; cd_dkim_private_key : option bytes }.
Record CreateCredential := mkCreateCredential { cc_credential_type : option bytes; cc_name : option bytes; cc_key : option bytes }.
Record CreateRoute := mkCreateRoute {
  cr_name : option bytes; cr_domain : option bytes; cr_mode : option bytes; cr_endpoint_url : option bytes }.
Record CreateWebhook := mkCreateWebhook {
  cw_name : option bytes; cw_url : option bytes; cw_all_events : option bool; cw_sign : option bool; cw_events : option (list bytes);
  cw_headers : option (list (bytes * bytes)) }.
Record UpdateWebhook := mkUpdateWebhook {
  uw_name : option bytes; uw_url : option bytes; uw_sign : option bool; uw_enabled : option bool; uw_events : option (list bytes);
  uw_headers : option (list (bytes * bytes)) }.
Record CreateSuppression := mkCreateSuppression { csp_address : option bytes; csp_type : option bytes; csp_reason : option bytes }.
Record CreateUser := mkCreateUser {
  cu_email_address : option bytes; cu_first_name : option bytes; cu_last_name : option bytes; cu_admin : option bool;
  cu_password : option bytes }.
Record UpdateUser := mkUpdateUser {
  uu_email_address : option bytes; uu_first_name : option bytes; uu_last_name : option bytes; uu_admin : option bool }.
Record CreateIpAddress := mkCreateIpAddress {
  ci_ipv4 : option bytes; ci_ipv6 : option bytes; ci_hostname : option bytes; ci_priority : option Z }.

(** [contains(char::is_whitespace)] *)
Fixpoint has_whitespace (s : bytes) : bool := match s with [] => false | _ :: s' => starts_with_whitespace s || has_whitespace s' end.
Definition is_http_url (url : bytes) : bool := starts_with !"http://" url || starts_with !"https://" url.
Definition quoted (s : bytes) : bytes := [DQ] ++ s ++ [DQ].
Fixpoint join (sep : bytes) (parts : list bytes) : bytes :=
  match parts with [] => [] | [p] => p | p :: parts => p ++ sep ++ join sep parts end.

Section Resources.
Context `{CASE : !UnicodeCase, CRA : !Crates, AUTH : !AuthCrates, JS : !AdminJson, API : !ApiCrates SendMessage, RES : !ResourceCrates}.
Context {S : Type} `{STO : !AdminStore S, ACC : !AuthStore S, HOOKS : !AccountHooks S}.
Context (config : AdminConfig) (dns : DnsSettings) (lifecycle_enabled : bool).
#[local] Abbreviation H := (Handler S Response).

(** [require_server] *)
Definition require_server (org server : bytes) : Handler S Server := find_server org server.

(** ** Domains *)

Definition dns_record_json (name value : bytes) : Value := VObject [(!"name", VString name); (!"type", VString !"TXT"); (!"value", VString value)].
Definition domain_dkim_public (d : Domain) : option bytes :=
  match dom_dkim_private_key d ≫= dkim_public_key_b64 with Some p => Some p | None => dns_installation_dkim_public_key dns end.
Definition spf_source : bytes :=
  if bool_decide (dns_spf_include dns = []) then !"a:" ++ dns_smtp_hostname dns else !"include:" ++ dns_spf_include dns.
Definition verification_name (d : Domain) : bytes := dns_verification_record_label dns ++ !"." ++ dom_name d.
Definition verification_value (d : Domain) : bytes := dns_verification_value_prefix dns ++ !"=" ++ dom_verification_token d.
Definition domain_json (d : Domain) : Value :=
  VObject [(!"check_dmarc", VBool (dom_check_dmarc d)); (!"check_spf", VBool (dom_check_spf d));
           (!"dkim_record", opt_value (λ p, dns_record_json (dns_dkim_identifier dns ++ !"._domainkey." ++ dom_name d)
                                                              (!"v=DKIM1; k=rsa; p=" ++ p)) (domain_dkim_public d));
           (!"id", number (dom_id d)); (!"name", VString (dom_name d));
           (!"spf_record", dns_record_json (dom_name d) (!"v=spf1 " ++ spf_source ++ !" ~all")); (!"uuid", VString (dom_uuid d));
           (!"verification_record", dns_record_json (verification_name d) (verification_value d)); (!"verified", VBool (dom_verified d))].
Definition domain_response (d : Domain) : H := ok_data (object !"domain" (domain_json d)).

Definition domains_index (org server : bytes) (params : PaginationParams) : H :=
  server ← require_server org server;
  domains ← call (list_domains (srv_id server));
  ok_data (VObject (page_json !"domains" domain_json (paginate domains params))).
Definition invalid_dkim_key : ApiError :=
  validation_error !"dkim_private_key must be a valid RSA private key in PKCS#8 or PKCS#1 PEM form".
(** The imported key, or a fresh one. *)
Definition domain_key (nonce : Z) (imported : option bytes) : Handler S bytes :=
  match imported with
  | Some pem =>
      if bool_decide (trim pem = []) then require internal_error (generate_dkim_key nonce)
      else _ ← refuse_if (bool_decide (dkim_public_key_b64 pem = None)) invalid_dkim_key; mret pem
  | None => require internal_error (generate_dkim_key nonce)
  end.
Definition domains_create (nonce : Z) (org server : bytes) (body : CreateDomain) : H :=
  server ← require_server org server;
  name ← param !"name" (cd_name body);
  key ← domain_key nonce (cd_dkim_private_key body);
  domain ← call (create_server_domain (srv_id server) name (Some key));
  created_data (object !"domain" (domain_json domain)).
Definition require_domain (org server name : bytes) : Handler S Domain :=
  server ← require_server org server; found (domain_by_name (srv_id server) name).
Definition domains_show (org server name : bytes) : H := domain ← require_domain org server name; domain_response domain.
Definition domains_update (org server name : bytes) (check_dmarc check_spf : option bool) : H :=
  domain ← require_domain org server name;
  _ ← refuse_if (bool_decide (check_dmarc = None) && bool_decide (check_spf = None)) (missing !"check_dmarc or check_spf");
  domain ← match check_dmarc with
           | Some v => _ ← call (set_domain_dmarc_check (dom_id domain) v); mret (domain <| dom_check_dmarc := v |>)
           | None => mret domain
           end;
  domain ← match check_spf with
           | Some v => _ ← call (set_domain_spf_check (dom_id domain) v); mret (domain <| dom_check_spf := v |>)
           | None => mret domain
           end;
  domain_response domain.

Definition force_denied : ApiError := forbidden_error !"Forced verification requires the X-Admin-API-Key machine key".
Definition unproven (name expected : bytes) : ApiError :=
  validation_error (!"Domain ownership is not proven yet: publish a TXT record at " ++ name ++ !" with the value " ++ quoted expected
                    ++ !", wait for DNS to propagate, then retry").
(** [txt]: the TXT records of a name, or the resolver's error. *)
Definition prove_domain (txt : bytes → bytes + list bytes) (d : Domain) : Handler S unit :=
  match txt (verification_name d) with
  | inr records => refuse_if (negb (existsb (λ r, trim r =b verification_value d) records)) (unproven (verification_name d) (verification_value d))
  | inl error => fail (validation_error (!"Could not check the TXT record at " ++ verification_name d ++ !": " ++ error))
  end.
Definition domains_verify (txt : bytes → bytes + list bytes) (principal : Principal) (org server name : bytes) (force : option bool) : H :=
  domain ← require_domain org server name;
  _ ← (if from_option id false force then refuse_if (negb (is_admin_key principal)) force_denied else prove_domain txt domain);
  _ ← call (set_domain_verified (dom_id domain) true);
  domain_response (domain <| dom_verified := true |>).
Definition domains_destroy (org server name : bytes) : H :=
  domain ← require_domain org server name; _ ← call (delete_domain (dom_id domain)); render_deleted.

(** ** Track domains *)

Definition track_domain_json (d : TrackDomain) : Value :=
  VObject [(!"cname_record", VObject [(!"name", VString (td_name d)); (!"type", VString !"CNAME"); (!"value", VString (dns_web_hostname dns))]);
           (!"id", number (td_id d)); (!"name", VString (td_name d)); (!"uuid", VString (td_uuid d)); (!"verified", VBool (td_verified d))].
Definition track_domains_index (org server : bytes) (params : PaginationParams) : H :=
  server ← require_server org server;
  domains ← call (list_track_domains (srv_id server));
  ok_data (VObject (page_json !"track_domains" track_domain_json (paginate domains params))).
Definition hostname_invalid : ApiError := validation_error !"name must be a full hostname, e.g. track.example.com".
Definition track_domains_create (org server : bytes) (name : option bytes) : H :=
  server ← require_server org server;
  name ← param !"name" ((λ n, to_ascii_lowercase (trim_end_matches (is_byte ".") (trim n))) <$> name);
  _ ← refuse_if (negb (existsb (is_byte ".") name) || has_whitespace name) hostname_invalid;
  domain ← call (create_track_domain (srv_id server) name);
  created_data (object !"track_domain" (track_domain_json domain)).
Definition require_track_domain (org server : bytes) (id : Id) : Handler S TrackDomain :=
  server ← require_server org server; found (track_domain_by_id (srv_id server) id).
Definition track_domain_response (d : TrackDomain) : H := ok_data (object !"track_domain" (track_domain_json d)).
Definition track_domains_show (org server : bytes) (id : Id) : H := domain ← require_track_domain org server id; track_domain_response domain.
Definition track_targets : list bytes :=
  let global_track := to_ascii_lowercase (dns_track_domain_name dns) in
  to_ascii_lowercase (dns_web_hostname dns) :: (if bool_decide (global_track = []) then [] else [global_track]).
Definition not_pointing (d : TrackDomain) : ApiError :=
  validation_error (!"The track domain does not point here yet: publish a CNAME record at " ++ td_name d ++ !" with the value "
                    ++ quoted (to_ascii_lowercase (dns_web_hostname dns)) ++ !", wait for DNS to propagate, then retry").
Definition prove_track_domain (cname : bytes → bytes + option bytes) (d : TrackDomain) : Handler S unit :=
  match cname (td_name d) with
  | inr target =>
      refuse_if (negb (from_option (λ t, one_of track_targets (to_ascii_lowercase (trim_end_matches (is_byte ".") t))) false target))
        (not_pointing d)
  | inl error => fail (validation_error (!"Could not check the CNAME record at " ++ td_name d ++ !": " ++ error))
  end.
Definition track_domains_verify (cname : bytes → bytes + option bytes) (principal : Principal) (org server : bytes) (id : Id)
    (force : option bool) : H :=
  domain ← require_track_domain org server id;
  _ ← (if from_option (λ b, b) false force then refuse_if (negb (is_admin_key principal)) force_denied else prove_track_domain cname domain);
  _ ← call (set_track_domain_verified (td_id domain) true);
  track_domain_response (domain <| td_verified := true |>).
Definition track_domains_destroy (org server : bytes) (id : Id) : H :=
  domain ← require_track_domain org server id; _ ← call (delete_track_domain (td_id domain)); render_deleted.


(** ** Credentials *)

Definition credential_type_str (t : CredentialType) : bytes :=
  match t with CtSmtp => !"SMTP" | CtApi => !"API" | CtSmtpIp => !"SMTP-IP" end.
Definition credential_json (c : Credential) : Value :=
  VObject [(!"hold", VBool (cred_hold c)); (!"id", number (cred_id c)); (!"key", VString (cred_key c));
           (!"last_used_at", opt_value (λ t, VString (json_datetime t)) (cred_last_used_at c)); (!"name", VString (cred_name c));
           (!"type", VString (credential_type_str (cred_credential_type c))); (!"uuid", VString (cred_uuid c))].
Definition credentials_index (org server : bytes) (params : PaginationParams) : H :=
  server ← require_server org server;
  credentials ← call (list_credentials (srv_id server));
  ok_data (VObject (page_json !"credentials" credential_json (paginate credentials params))).
Definition credential_type (t : option bytes) : Handler S CredentialType :=
  match t with
  | None => mret CtSmtp
  | Some t =>
      if t =b !"SMTP" then mret CtSmtp else if t =b !"API" then mret CtApi else if t =b !"SMTP-IP" then mret CtSmtpIp
      else fail (validation_error (!"Type " ++ debug_str t ++ !" is not a valid credential type"))
  end.
Definition credentials_create (org server : bytes) (body : CreateCredential) : H :=
  server ← require_server org server;
  name ← param !"name" (cc_name body);
  type ← credential_type (cc_credential_type body);
  _ ← refuse_if (bool_decide (type = CtSmtpIp) && bool_decide (cc_key body = None)) (missing !"key (CIDR for SMTP-IP credentials)");
  credential ← call (create_credential_record (mkNewCredential (srv_id server) type name (cc_key body)));
  created_data (object !"credential" (credential_json credential)).
(** By number, or by uuid. *)
Definition require_credential (org server id_or_uuid : bytes) : Handler S Credential :=
  server ← require_server org server;
  match parse_uint u64_max id_or_uuid with
  | Some id => found (credential_by_id (srv_id server) id)
  | None =>
      credentials ← call (list_credentials (srv_id server));
      require not_found (List.find (λ c, cred_uuid c =b id_or_uuid) credentials)
  end.
Definition credential_response (c : Credential) : H := ok_data (object !"credential" (credential_json c)).
Definition credentials_show (org server id : bytes) : H := credential ← require_credential org server id; credential_response credential.
Definition credentials_update (org server id : bytes) (name : option bytes) (hold : option bool) : H :=
  credential ← require_credential org server id;
  credential ← call (update_credential (credential <| cred_name := assign name (cred_name credential) |>
                                                   <| cred_hold := assign hold (cred_hold credential) |>));
  credential_response credential.
Definition credentials_destroy (org server id : bytes) : H :=
  credential ← require_credential org server id; _ ← call (delete_credential (cred_id credential)); render_deleted.

(** ** Routes *)

Definition route_mode_str (m : RouteMode) : bytes :=
  match m with Endpoint => !"Endpoint" | Accept => !"Accept" | Hold => !"Hold" | Bounce => !"Bounce" | Reject => !"Reject" end.
Definition route_json (r : Route) : Value :=
  VObject [(!"domain_id", number_opt (rt_domain_id r)); (!"endpoint_url", vstring_opt (rt_endpoint_url r)); (!"id", number (rt_id r));
           (!"mode", VString (route_mode_str (rt_mode r))); (!"name", VString (rt_name r)); (!"token", VString (rt_token r));
           (!"uuid", VString (rt_uuid r))].
Definition route_response (r : Route) : H := ok_data (object !"route" (route_json r)).
Definition validate_route_endpoint (url : bytes) : option bytes :=
  if is_http_url url || (url =b DMARC_REPORTS_ENDPOINT) then None
  else if starts_with !"internal://" url
  then Some (!"Endpoint URL " ++ debug_str url ++ !" is not a known internal target (the only one is " ++ DMARC_REPORTS_ENDPOINT ++ !")")
  else Some (!"Endpoint URL must be an HTTP(S) URL or " ++ DMARC_REPORTS_ENDPOINT).
Definition parse_route_mode (mode : option bytes) : bytes + RouteMode :=
  match mode with
  | None => inr Endpoint
  | Some mode =>
      match List.find (λ m, route_mode_str m =b mode) [Endpoint; Accept; Hold; Bounce; Reject] with
      | Some m => inr m
      | None => inl (!"Mode " ++ debug_str mode ++ !" is not a valid route mode")
      end
  end.
(** [Err(message)] is a validation error. *)
Definition validated {A} (r : bytes + A) : Handler S A := match r with inl message => fail (validation_error message) | inr a => mret a end.
Definition refuse_message (message : option bytes) : Handler S unit := match message with Some m => fail (validation_error m) | None => mret tt end.

Definition routes_index (org server : bytes) (params : PaginationParams) : H :=
  server ← require_server org server;
  routes ← call (list_routes (srv_id server));
  ok_data (VObject (page_json !"routes" route_json (paginate routes params))).
Definition route_domain (server : Server) (name : option bytes) : Handler S (option Id) :=
  match name with
  | None => mret None
  | Some name =>
      domain ← call (domain_by_name (srv_id server) name);
      domain ← require (validation_error !"Domain not found on this server") domain;
      mret (Some (dom_id domain))
  end.
Definition routes_create (org server : bytes) (body : CreateRoute) : H :=
  server ← require_server org server;
  name ← param !"name" (cr_name body);
  mode ← validated (parse_route_mode (cr_mode body));
  _ ← refuse_message (present (cr_endpoint_url body) ≫= validate_route_endpoint);
  domain_id ← route_domain server (present (cr_domain body));
  route ← call (create_route_record (mkNewRoute (srv_id server) domain_id name mode (cr_endpoint_url body)));
  created_data (object !"route" (route_json route)).
Definition require_route (org server : bytes) (id : Id) : Handler S Route :=
  server ← require_server org server; found (route_by_id (srv_id server) id).
Definition routes_show (org server : bytes) (id : Id) : H := route ← require_route org server id; route_response route.
Definition routes_update (org server : bytes) (id : Id) (name mode : option bytes) : H :=
  route ← require_route org server id;
  mode ← match mode with None => mret (rt_mode route) | Some mode => validated (parse_route_mode (Some mode)) end;
  route ← call (update_route (route <| rt_name := assign name (rt_name route) |> <| rt_mode := mode |>));
  route_response route.
Definition routes_destroy (org server : bytes) (id : Id) : H :=
  route ← require_route org server id; _ ← call (delete_route (rt_id route)); render_deleted.

(** ** Webhooks *)

Definition webhook_json (w : Webhook) : Value :=
  VObject [(!"all_events", VBool (wh_all_events w)); (!"enabled", VBool (wh_enabled w)); (!"events", VArray (map VString (wh_events w)));
           (!"headers", VObject (map (λ h, (h.1, VString h.2)) (wh_headers w))); (!"id", number (wh_id w)); (!"name", VString (wh_name w));
           (!"sign", VBool (wh_sign w)); (!"url", VString (wh_url w)); (!"uuid", VString (wh_uuid w))].
Definition webhook_response (w : Webhook) : H := ok_data (object !"webhook" (webhook_json w)).
Definition unknown_event (event : bytes) : bytes :=
  !"Event " ++ debug_str event ++ !" is not a valid webhook event (valid events: " ++ join !", " WEBHOOK_EVENTS ++ !")".
Definition validate_webhook_events (events : list bytes) : option bytes :=
  unknown_event <$> List.find (λ e, negb (one_of WEBHOOK_EVENTS e)) events.
(** The message names the header, never its value. *)
Definition header_error (h : bytes * bytes) : option bytes :=
  if negb (header_name_valid h.1) then Some (!"Header name " ++ debug_str h.1 ++ !" is not a valid HTTP header name")
  else if negb (header_value_valid h.2) then Some (!"Header " ++ debug_str h.1 ++ !" has an invalid value")
  else None.
Definition validate_webhook_headers (headers : list (bytes * bytes)) : option bytes := head (omap header_error headers).
Definition url_invalid : bytes := !"Url must be a valid HTTP(S) URL".

Definition webhooks_index (org server : bytes) (params : PaginationParams) : H :=
  server ← require_server org server;
  webhooks ← call (list_webhooks (srv_id server));
  ok_data (VObject (page_json !"webhooks" webhook_json (paginate webhooks params))).
Definition webhooks_create (org server : bytes) (body : CreateWebhook) : H :=
  server ← require_server org server;
  name ← param !"name" (cw_name body);
  url ← param !"url" (cw_url body);
  _ ← refuse_message (if is_http_url url then None else Some url_invalid);
  let events := from_option (λ l, l) [] (cw_events body) in
  _ ← refuse_message (validate_webhook_events events);
  let headers := from_option (λ l, l) [] (cw_headers body) in
  _ ← refuse_message (validate_webhook_headers headers);
  let all_events := match events with [] => from_option (λ b, b) true (cw_all_events body) | _ => false end in
  webhook ← call (create_webhook (mkNewWebhook (srv_id server) name url all_events (from_option (λ b, b) true (cw_sign body)) events headers));
  created_data (object !"webhook" (webhook_json webhook)).
Definition require_webhook (org server : bytes) (id : Id) : Handler S Webhook :=
  server ← require_server org server; found (webhook_by_id (srv_id server) id).
Definition with_events (events : option (list bytes)) (w : Webhook) : Webhook :=
  match events with
  | None => w
  | Some events => w <| wh_all_events := match events with [] => true | _ => false end |> <| wh_events := events |>
  end.
Definition webhooks_update (org server : bytes) (id : Id) (body : UpdateWebhook) : H :=
  webhook ← require_webhook org server id;
  let url := present (uw_url body) in
  _ ← refuse_message (url ≫= λ url, if is_http_url url then None else Some url_invalid);
  _ ← refuse_message (uw_events body ≫= validate_webhook_events);
  _ ← refuse_message (uw_headers body ≫= validate_webhook_headers);
  webhook ← call (update_webhook (with_events (uw_events body)
    (webhook <| wh_name := assign (present (uw_name body)) (wh_name webhook) |> <| wh_url := assign url (wh_url webhook) |>
             <| wh_sign := assign (uw_sign body) (wh_sign webhook) |> <| wh_enabled := assign (uw_enabled body) (wh_enabled webhook) |>
             <| wh_headers := assign (uw_headers body) (wh_headers webhook) |>)));
  webhook_response webhook.
Definition webhooks_show (org server : bytes) (id : Id) : H := webhook ← require_webhook org server id; webhook_response webhook.
Definition webhooks_destroy (org server : bytes) (id : Id) : H :=
  webhook ← require_webhook org server id; _ ← call (delete_webhook (wh_id webhook)); render_deleted.
Definition set_webhook_enabled (org server : bytes) (id : Id) (enabled : bool) : H :=
  webhook ← require_webhook org server id;
  webhook ← call (update_webhook (webhook <| wh_enabled := enabled |>));
  webhook_response webhook.


(** ** Sender addresses *)

Definition sender_address_json (a : SenderAddress) : Value :=
  VObject [(!"email_address", VString (sa_email_address a)); (!"id", number (sa_id a));
           (!"status", VString (if sa_verified a then !"confirmed" else !"pending")); (!"uuid", VString (sa_uuid a));
           (!"verified", VBool (sa_verified a))].
Definition sender_addresses_index (org server : bytes) (params : PaginationParams) : H :=
  server ← require_server org server;
  addresses ← call (list_sender_addresses (srv_id server));
  ok_data (VObject (page_json !"sender_addresses" sender_address_json (paginate addresses params))).
Definition sender_email_valid (email : bytes) : bool :=
  existsb (is_byte "@") email && negb (starts_with !"@" email) && negb (ends_with !"@" email).
(** The token goes to the address; when it cannot, to the operator. *)
Definition mail_confirmation (now : datetime) (nonce : Z) (address : SenderAddress) (token : bytes) : Handler S bool :=
  match frontend_link (ad_auth config) !"/sender-addresses/confirm?token=" token with
  | Some link =>
      if au_app_mail (ad_auth config)
      then effect (deliver now nonce (sender_address_confirmation_mail (sa_email_address address) link)) else mret false
  | None => mret false
  end.
Definition sender_addresses_create (now : datetime) (nonce : Z) (org server : bytes) (email : option bytes) : H :=
  server ← require_server org server;
  email ← param !"email" ((λ e, to_lowercase (trim e)) <$> email);
  _ ← refuse_if (negb (sender_email_valid email)) (validation_error !"Email address is invalid");
  let token := generate_auth_token nonce in
  address ← call (create_sender_address (mkNewSenderAddress (srv_id server) email (hash_token token)));
  mailed ← mail_confirmation now nonce address token;
  created_data (VObject ([(!"sender_address", sender_address_json address)]
                         ++ (if mailed : bool then [] else [(!"verification_token", VString token)]))).
Definition sender_addresses_destroy (org server : bytes) (id : Id) : H :=
  server ← require_server org server;
  address ← found (sender_address_by_id (srv_id server) id);
  _ ← call (delete_sender_address (sa_id address));
  render_deleted.

(** ** Suppressions *)

Definition suppression_json (s : Suppression) : Value :=
  VObject [(!"address", VString (sp_address s)); (!"reason", vstring_opt (sp_reason s)); (!"stream_id", number_opt (sp_stream_id s));
           (!"type", VString (sp_type s))].
(** [streams]: the streams of the server, none when they cannot be read. *)
Definition suppressions_index (streams : Id → S → list MessageStream) (org server : bytes) (params : PaginationParams) : H :=
  server ← require_server org server;
  streams ← effect (λ s, (streams (srv_id server) s, s));
  suppressions ← call (list_suppressions (srv_id server));
  let stream_json m := VObject [(!"id", number (str_id m)); (!"name", VString (str_name m)); (!"permalink", VString (str_permalink m));
                                (!"stream_type", VString (str_stream_type m))] in
  ok_data (VObject (page_json !"suppressions" suppression_json (paginate suppressions params)
                    ++ [(!"streams", VArray (map stream_json streams))])).
Definition suppressions_create (org server : bytes) (body : CreateSuppression) : H :=
  server ← require_server org server;
  address ← param !"address" (csp_address body);
  suppression ← call (create_suppression (mkNewSuppression (srv_id server) (from_option (λ t, t) !"recipient" (csp_type body)) address
                                            (csp_reason body) None));
  created_data (object !"suppression" (suppression_json suppression)).
Definition suppressions_destroy (org server address : bytes) : H :=
  server ← require_server org server;
  deleted ← call (delete_suppression (srv_id server) address);
  if deleted : bool then render_deleted else fail not_found.

(** ** Users *)

Definition user_response (u : User) : H := ok_data (object !"user" (user_json u)).
Definition users_index (params : PaginationParams) : H :=
  users ← call list_users;
  ok_data (VObject (page_json !"users" user_json (paginate users params))).
Definition initial_password (nonce : Z) (password : option bytes) : Handler S (option bytes) :=
  match present password with
  | None => mret None
  | Some password =>
      _ ← refuse_if (negb (ad_accounts config)) (validation_error !"Passwords require accounts to be enabled (persistent storage)");
      _ ← refuse_if (too_short (ad_auth config) password) (password_too_short (ad_auth config));
      digest ← hash_or_fail nonce password;
      mret (Some digest)
  end.
Definition users_create (now : datetime) (nonce : Z) (body : CreateUser) : H :=
  email_address ← param !"email_address" (cu_email_address body);
  _ ← refuse_if (negb (existsb (is_byte "@") email_address)) (validation_error !"Email address is invalid");
  password ← initial_password nonce (cu_password body);
  user ← call (create_user (mkNewUser email_address (from_option (λ n, n) [] (cu_first_name body)) (from_option (λ n, n) [] (cu_last_name body))
                              (from_option (λ b, b) false (cu_admin body))));
  _ ← match password with Some digest => call (set_password_digest (us_id user) digest) | None => mret tt end;
  _ ← effect (emit_user_registered lifecycle_enabled now user ByAdmin);
  created_data (object !"user" (user_json user)).
Definition require_user (id : Id) : Handler S User := found (user_by_id id).
Definition users_show (id : Id) : H := user ← require_user id; user_response user.
Definition users_update (id : Id) (body : UpdateUser) : H :=
  user ← require_user id;
  user ← call (update_user (user <| us_email_address := assign (uu_email_address body) (us_email_address user) |>
                                 <| us_first_name := assign (uu_first_name body) (us_first_name user) |>
                                 <| us_last_name := assign (uu_last_name body) (us_last_name user) |>
                                 <| us_admin := assign (uu_admin body) (us_admin user) |>));
  user_response user.
Definition users_destroy (id : Id) : H := user ← require_user id; _ ← call (delete_user (us_id user)); render_deleted.

(** ** IP pools *)

Definition ip_pool_json (p : IpPool) : Value :=
  VObject [(!"default", VBool (ipp_default p)); (!"id", number (ipp_id p)); (!"name", VString (ipp_name p)); (!"uuid", VString (ipp_uuid p))].
Definition ip_address_json (a : IpAddress) : Value :=
  VObject [(!"hostname", VString (ipa_hostname a)); (!"id", number (ipa_id a)); (!"ipv4", VString (ipa_ipv4 a));
           (!"ipv6", vstring_opt (ipa_ipv6 a)); (!"priority", VNumber (show_Z (ipa_priority a))); (!"uuid", VString (ipa_uuid a))].
Definition ip_pools_index (params : PaginationParams) : H :=
  pools ← call list_ip_pools;
  ok_data (VObject (page_json !"ip_pools" ip_pool_json (paginate pools params))).
Definition ip_pools_create (name : option bytes) (default : option bool) : H :=
  name ← param !"name" name;
  pool ← call (create_ip_pool name (from_option (λ b, b) false default));
  created_data (object !"ip_pool" (ip_pool_json pool)).
Definition require_ip_pool (id : Id) : Handler S IpPool := found (ip_pool_by_id id).
Definition ip_pools_show (id : Id) : H := pool ← require_ip_pool id; ok_data (object !"ip_pool" (ip_pool_json pool)).
Definition ip_pools_destroy (id : Id) : H := pool ← require_ip_pool id; _ ← call (delete_ip_pool (ipp_id pool)); render_deleted.
Definition ip_addresses_index (pool_id : Id) (params : PaginationParams) : H :=
  _ ← require_ip_pool pool_id;
  addresses ← call (list_ip_addresses pool_id);
  ok_data (VObject (page_json !"ip_addresses" ip_address_json (paginate addresses params))).
Definition is_ipv4_text (s : bytes) : bool := match parse_ip s with Some (V4 _) => true | _ => false end.
Definition ip_addresses_create (pool_id : Id) (body : CreateIpAddress) : H :=
  _ ← require_ip_pool pool_id;
  ipv4 ← param !"ipv4" (ci_ipv4 body);
  _ ← refuse_if (negb (is_ipv4_text ipv4)) (validation_error !"Ipv4 is not a valid IPv4 address");
  hostname ← param !"hostname" (ci_hostname body);
  address ← call (create_ip_address (mkNewIpAddress pool_id ipv4 (ci_ipv6 body) hostname (from_option (λ p, p) 100%Z (ci_priority body))));
  created_data (object !"ip_address" (ip_address_json address)).
Definition ip_addresses_show (pool_id id : Id) : H :=
  address ← found (ip_address_by_id pool_id id); ok_data (object !"ip_address" (ip_address_json address)).
Definition ip_addresses_destroy (pool_id id : Id) : H :=
  address ← found (ip_address_by_id pool_id id); _ ← call (delete_ip_address (ipa_id address)); render_deleted.

End Resources.

(** ** The test delivery of a webhook *)

Section TestDelivery.
Context `{CRA : !Crates, PAY : !Payloads, RES : !ResourceCrates, API : !ApiCrates SendMessage} {K : Type} `{SIG : !Signer K}.
Context {S : Type} `{STO : !AdminStore S, ACC : !AuthStore S}.

Definition sample_details (event : bytes) : bytes :=
  if event =b !"MessageSent" then !"Message for recipient@example.com accepted by mx.example.com"
  else if event =b !"MessageDelayed" then !"421 4.7.0 try again later (attempt 2 of 18)"
  else if event =b !"MessageDeliveryFailed" then !"550 5.1.1 recipient address rejected: user unknown"
  else if event =b !"MessageHeld" then !"Message held for manual review (spam score above threshold)"
  else !"Test delivery".
(** Postal's message hash of the samples. *)
Definition sample_hash (id direction from message_id subject token to : bytes) (timestamp : bytes) : Value :=
  VObject [(!"direction", VString direction); (!"from", VString from); (!"id", VNumber id); (!"message_id", VString message_id);
           (!"spam_status", VString !"NotChecked"); (!"subject", VString subject); (!"tag", VNull); (!"timestamp", VNumber timestamp);
           (!"to", VString to); (!"token", VString token)].
Definition sample_agent : Value := VString !"Mozilla/5.0 (Macintosh; Intel Mac OS X 10_15_7)".
Definition sample_body (event : bytes) (now : datetime) : Value :=
  let millis := (now / 1000000)%Z in
  let timestamp := (!"timestamp", VNumber (f64_seconds millis)) in
  let message := sample_hash !"1234" !"outgoing" !"sender@yourdomain.com" !"original@example.com" !"Example message" !"abc123message"
                   !"recipient@example.com" (minute_earlier millis) in
  let ip := (!"ip_address", VString !"203.0.113.10") in
  if event =b !"MessageLoaded" then VObject [ip; (!"message", message); timestamp; (!"user_agent", sample_agent)]
  else if event =b !"MessageLinkClicked"
  then VObject [ip; (!"message", message); timestamp; (!"url", VString !"https://example.com/offer"); (!"user_agent", sample_agent)]
  else if event =b !"MessageComplained"
  then VObject [(!"address", VString !"recipient@example.com"); (!"feedback_type", VString !"abuse"); (!"message", message); timestamp;
                (!"user_agent", VString !"Example-FBL/1.0")]
  else if event =b !"MessageBounced"
  then VObject [(!"bounce", sample_hash !"1235" !"incoming" !"mailer-daemon@mx.example.com" !"bounce@mx.example.com"
                              !"Delivery Status Notification (Failure)" !"def456bounce" !"server1@rp.example.com" (f64_seconds millis));
                (!"original_message", message)]
  else VObject [(!"details", VString (sample_details event));
                (!"message", VObject [(!"bounce", VBool false); (!"id", VNumber !"1234"); (!"mail_from", VString !"sender@yourdomain.com");
                                      (!"rcpt_to", VString !"recipient@example.com"); (!"scope", VString !"outgoing");
                                      (!"token", VString !"AbCdEf123456")])].
Definition sample_payload (event uuid : bytes) (now : datetime) : Value :=
  VObject [(!"event", VString event); (!"payload", sample_body event now); (!"test", VBool true);
           (!"timestamp", VNumber (show_Z (now / 1000000000)%Z)); (!"uuid", VString uuid)].

(** The headers of [build_test_request], then what [ReqwestWebhookSender] puts on the
    wire: an invalid header is skipped. *)
Definition build_test_request (signer : option K) (now : datetime) (nonce : Z) (w : Webhook) (event : bytes) : Posted :=
  let uuid := request_uuid nonce in
  let body := json_to_string (sample_payload event uuid now) in
  let signature := match signer with
                   | Some k => if wh_sign w then [(!"X-CamelMailer-Signature", b64_encode (sign_sha256 k body))] else []
                   | None => []
                   end in
  mkPosted (wh_url w) (wh_headers w ++ [(!"X-CamelMailer-Event", event); (!"X-CamelMailer-UUID", uuid)] ++ signature) body.
Definition on_the_wire (p : Posted) : Posted :=
  mkPosted (post_url p)
    ((!"content-type", !"application/json") :: List.filter (λ h, header_name_valid h.1 && header_value_valid h.2) (post_headers p)) (post_body p).

Definition test_result (answer : bytes + N) : Value :=
  match answer with
  | inr status => VObject [(!"delivered", VBool ((200 <=? status) && (status <? 300))%N); (!"status_code", number status)]
  | inl error => VObject [(!"delivered", VBool false); (!"error", VString error); (!"status_code", VNull)]
  end.
(** [post]: what the network answers to a request. *)
Definition webhooks_test (post : Posted → bytes + N) (signer : option K) (now : datetime) (nonce : Z) (org server : bytes) (id : Id)
    (event : option bytes) : Handler S Response :=
  webhook ← require_webhook org server id;
  event ← param !"event" event;
  _ ← refuse_message (if one_of WEBHOOK_EVENTS event then None else Some (unknown_event event));
  ok_data (object !"result" (test_result (post (on_the_wire (build_test_request signer now nonce webhook event))))).
End TestDelivery.
