(* ===== verification/AdminRouter.v ===== *)
(** * AdminRouter: the routes of the admin API

    [build_router] of [camelmailer-api/src/app.rs]: a call is a handler with its
    decoded parameters and its parsed body, [call_route] the method and the pattern it
    is registered under, and a request is served when its raw segments match
    ([routed]).  A fixed segment wins over a parameter.  The overview, the statistics,
    billing, tenant sign-on, domain health, template copies and message imports are
    left out. *)

From S2P Require Import Prelude RustStr Net Model SendLimit MemoryStore MailDb Dkim Worker Webhooks PgStore Compose ApiSend Auth AuthStore AppMailer.
From S2P Require Import AuthApi AdminStore AdminPg Workspace Authorize AdminApi Members Resources.

Inductive AdminCall :=
| OrganizationsIndex (p : PaginationParams)
| OrganizationsCreate (body : CreateOrganization)
| OrganizationsShow (org : bytes)
| OrganizationsUpdate (org : bytes) (require_two_factor : option bool)
| OrganizationsDestroy (org : bytes)
| ServersIndex (org : bytes) (p : PaginationParams)
| ServersCreate (org : bytes) (body : CreateServer)
| ServersShow (org server : bytes)
| ServersUpdate (org server : bytes) (body : UpdateServer)
| ServersDestroy (org server : bytes)
| ServersSetIpPool (org server : bytes) (ip_pool_id : option Id)
| ServersFind (permalink : bytes)
| AdminApiKeysIndex (p : PaginationParams)
| AdminApiKeysCreate (body : CreateAdminApiKey)
| AdminApiKeysDestroy (id : Id)
| ServersSuspend (org server : bytes) (reason : option bytes)
| ServersUnsuspend (org server : bytes)
| DomainsIndex (org server : bytes) (p : PaginationParams)
| DomainsCreate (org server : bytes) (body : CreateDomain)
| DomainsShow (org server name : bytes)
| DomainsUpdate (org server name : bytes) (check_dmarc check_spf : option bool)
| DomainsDestroy (org server name : bytes)
| DomainsVerify (org server name : bytes) (force : option bool)
| CredentialsIndex (org server : bytes) (p : PaginationParams)
| CredentialsCreate (org server : bytes) (body : CreateCredential)
| CredentialsShow (org server id : bytes)
| CredentialsUpdate (org server id : bytes) (name : option bytes) (hold : option bool)
| CredentialsDestroy (org server id : bytes)
| RoutesIndex (org server : bytes) (p : PaginationParams)
| RoutesCreate (org server : bytes) (body : CreateRoute)
| RoutesShow (org server : bytes) (id : Id)
| RoutesUpdate (org server : bytes) (id : Id) (name mode : option bytes)
| RoutesDestroy (org server : bytes) (id : Id)
| WebhooksIndex (org server : bytes) (p : PaginationParams)
| WebhooksCreate (org server : bytes) (body : CreateWebhook)
| WebhooksShow (org server : bytes) (id : Id)
| WebhooksUpdate (org server : bytes) (id : Id) (body : UpdateWebhook)
| WebhooksDestroy (org server : bytes) (id : Id)
| WebhooksEnable (org server : bytes) (id : Id)
| WebhooksDisable (org server : bytes) (id : Id)
| WebhooksTest (org server : bytes) (id : Id) (event : option bytes)
| TrackDomainsIndex (org server : bytes) (p : PaginationParams)
| TrackDomainsCreate (org server : bytes) (name : option bytes)
| TrackDomainsShow (org server : bytes) (id : Id)
| TrackDomainsDestroy (org server : bytes) (id : Id)
| TrackDomainsVerify (org server : bytes) (id : Id) (force : option bool)
| SenderAddressesIndex (org server : bytes) (p : PaginationParams)
| SenderAddressesCreate (org server : bytes) (email : option bytes)
| SenderAddressesDestroy (org server : bytes) (id : Id)
| SuppressionsIndex (org server : bytes) (p : PaginationParams)
| SuppressionsCreate (org server : bytes) (body : CreateSuppression)
| SuppressionsDestroy (org server address : bytes)
| UsageShow (org : bytes) (month : option bytes)
| LimitsShow (org : bytes)
| LimitsUpdate (org : bytes) (body : UpdateLimits)
| OrganizationSuspend (org : bytes) (reason : option bytes)
| OrganizationUnsuspend (org : bytes)
| MembersIndex (org : bytes)
| MembersCreate (org : bytes) (email_address role : option bytes)
| MembersUpdate (org : bytes) (user_id : Id) (role : option bytes)
| MembersDestroy (org : bytes) (user_id : Id)
| InvitationsIndex (org : bytes)
| InvitationsCreate (org : bytes) (email_address role : option bytes)
| InvitationsDestroy (org : bytes) (id : Id)
| AuthEventsIndex (limit : option N)
| UsersIndex (p : PaginationParams)
| UsersCreate (body : CreateUser)
| UsersShow (id : Id)
| UsersUpdate (id : Id) (body : UpdateUser)
| UsersDestroy (id : Id)
| IpPoolsIndex (p : PaginationParams)
| IpPoolsCreate (name : option bytes) (default : option bool)
| IpPoolsShow (id : Id)
| IpPoolsDestroy (id : Id)
| IpAddressesIndex (pool : Id) (p : PaginationParams)
| IpAddressesCreate (pool : Id) (body : CreateIpAddress)
| IpAddressesShow (pool id : Id)
| IpAddressesDestroy (pool id : Id).

(** A segment of a pattern: fixed, or a parameter with the value it has in the call. *)
Inductive Segment := Fixed (s : bytes) | Text (v : bytes) | Number (v : Id).
Definition organization_path (org : bytes) (rest : list Segment) : list Segment := Fixed !"organizations" :: Text org :: rest.
Definition server_path (org server : bytes) (rest : list Segment) : list Segment :=
  organization_path org (Fixed !"servers" :: Text server :: rest).
Definition resource_path (org server name : bytes) (rest : list Segment) : list Segment := server_path org server (Fixed name :: rest).

Definition call_route (c : AdminCall) : Method * list Segment :=
  match c with
  | OrganizationsIndex _ => (GET, [Fixed !"organizations"])
  | OrganizationsCreate _ => (POST, [Fixed !"organizations"])
  | OrganizationsShow org => (GET, organization_path org [])
  | OrganizationsUpdate org _ => (PATCH, organization_path org [])
  | OrganizationsDestroy org => (DELETE, organization_path org [])
  | ServersIndex org _ => (GET, organization_path org [Fixed !"servers"])
  | ServersCreate org _ => (POST, organization_path org [Fixed !"servers"])
  | ServersShow org server => (GET, server_path org server [])
  | ServersUpdate org server _ => (PATCH, server_path org server [])
  | ServersDestroy org server => (DELETE, server_path org server [])
  | ServersSetIpPool org server _ => (POST, resource_path org server !"ip_pool" [])
  | ServersFind permalink => (GET, [Fixed !"servers"; Fixed !"find"; Text permalink])
  | AdminApiKeysIndex _ => (GET, [Fixed !"admin_api_keys"])
  | AdminApiKeysCreate _ => (POST, [Fixed !"admin_api_keys"])
  | AdminApiKeysDestroy id => (DELETE, [Fixed !"admin_api_keys"; Number id])
  | ServersSuspend org server _ => (POST, resource_path org server !"suspend" [])
  | ServersUnsuspend org server => (POST, resource_path org server !"unsuspend" [])
  | DomainsIndex org server _ => (GET, resource_path org server !"domains" [])
  | DomainsCreate org server _ => (POST, resource_path org server !"domains" [])
  | DomainsShow org server name => (GET, resource_path org server !"domains" [Text name])
  | DomainsUpdate org server name _ _ => (PATCH, resource_path org server !"domains" [Text name])
  | DomainsDestroy org server name => (DELETE, resource_path org server !"domains" [Text name])
  | DomainsVerify org server name _ => (POST, resource_path org server !"domains" [Text name; Fixed !"verify"])
  | CredentialsIndex org server _ => (GET, resource_path org server !"credentials" [])
  | CredentialsCreate org server _ => (POST, resource_path org server !"credentials" [])
  | CredentialsShow org server id => (GET, resource_path org server !"credentials" [Text id])
  | CredentialsUpdate org server id _ _ => (PATCH, resource_path org server !"credentials" [Text id])
  | CredentialsDestroy org server id => (DELETE, resource_path org server !"credentials" [Text id])
  | RoutesIndex org server _ => (GET, resource_path org server !"routes" [])
  | RoutesCreate org server _ => (POST, resource_path org server !"routes" [])
  | RoutesShow org server id => (GET, resource_path org server !"routes" [Number id])
  | RoutesUpdate org server id _ _ => (PATCH, resource_path org server !"routes" [Number id])
  | RoutesDestroy org server id => (DELETE, resource_path org server !"routes" [Number id])
  | WebhooksIndex org server _ => (GET, resource_path org server !"webhooks" [])
  | WebhooksCreate org server _ => (POST, resource_path org server !"webhooks" [])
  | WebhooksShow org server id => (GET, resource_path org server !"webhooks" [Number id])
  | WebhooksUpdate org server id _ => (PATCH, resource_path org server !"webhooks" [Number id])
  | WebhooksDestroy org server id => (DELETE, resource_path org server !"webhooks" [Number id])
  | WebhooksEnable org server id => (POST, resource_path org server !"webhooks" [Number id; Fixed !"enable"])
  | WebhooksDisable org server id => (POST, resource_path org server !"webhooks" [Number id; Fixed !"disable"])
  | WebhooksTest org server id _ => (POST, resource_path org server !"webhooks" [Number id; Fixed !"test"])
  | TrackDomainsIndex org server _ => (GET, resource_path org server !"track_domains" [])
  | TrackDomainsCreate org server _ => (POST, resource_path org server !"track_domains" [])
  | TrackDomainsShow org server id => (GET, resource_path org server !"track_domains" [Number id])
  | TrackDomainsDestroy org server id => (DELETE, resource_path org server !"track_domains" [Number id])
  | TrackDomainsVerify org server id _ => (POST, resource_path org server !"track_domains" [Number id; Fixed !"verify"])
  | SenderAddressesIndex org server _ => (GET, resource_path org server !"sender_addresses" [])
  | SenderAddressesCreate org server _ => (POST, resource_path org server !"sender_addresses" [])
  | SenderAddressesDestroy org server id => (DELETE, resource_path org server !"sender_addresses" [Number id])
  | SuppressionsIndex org server _ => (GET, resource_path org server !"suppressions" [])
  | SuppressionsCreate org server _ => (POST, resource_path org server !"suppressions" [])
  | SuppressionsDestroy org server address => (DELETE, resource_path org server !"suppressions" [Text address])
  | UsageShow org _ => (GET, organization_path org [Fixed !"usage"])
  | LimitsShow org => (GET, organization_path org [Fixed !"limits"])
  | LimitsUpdate org _ => (PATCH, organization_path org [Fixed !"limits"])
  | OrganizationSuspend org _ => (POST, organization_path org [Fixed !"suspend"])
  | OrganizationUnsuspend org => (POST, organization_path org [Fixed !"unsuspend"])
  | MembersIndex org => (GET, organization_path org [Fixed !"members"])
  | MembersCreate org _ _ => (POST, organization_path org [Fixed !"members"])
  | MembersUpdate org id _ => (PATCH, organization_path org [Fixed !"members"; Number id])
  | MembersDestroy org id => (DELETE, organization_path org [Fixed !"members"; Number id])
  | InvitationsIndex org => (GET, organization_path org [Fixed !"invitations"])
  | InvitationsCreate org _ _ => (POST, organization_path org [Fixed !"invitations"])
  | InvitationsDestroy org id => (DELETE, organization_path org [Fixed !"invitations"; Number id])
  | AuthEventsIndex _ => (GET, [Fixed !"auth_events"])
  | UsersIndex _ => (GET, [Fixed !"users"])
  | UsersCreate _ => (POST, [Fixed !"users"])
  | UsersShow id => (GET, [Fixed !"users"; Number id])
  | UsersUpdate id _ => (PATCH, [Fixed !"users"; Number id])
  | UsersDestroy id => (DELETE, [Fixed !"users"; Number id])
  | IpPoolsIndex _ => (GET, [Fixed !"ip_pools"])
  | IpPoolsCreate _ _ => (POST, [Fixed !"ip_pools"])
  | IpPoolsShow id => (GET, [Fixed !"ip_pools"; Number id])
  | IpPoolsDestroy id => (DELETE, [Fixed !"ip_pools"; Number id])
  | IpAddressesIndex pool _ => (GET, [Fixed !"ip_pools"; Number pool; Fixed !"ip_addresses"])
  | IpAddressesCreate pool _ => (POST, [Fixed !"ip_pools"; Number pool; Fixed !"ip_addresses"])
  | IpAddressesShow pool id => (GET, [Fixed !"ip_pools"; Number pool; Fixed !"ip_addresses"; Number id])
  | IpAddressesDestroy pool id => (DELETE, [Fixed !"ip_pools"; Number pool; Fixed !"ip_addresses"; Number id])
  end.

Definition segment_matches `{PATH : !PathParams} (s : Segment) (raw : bytes) : bool :=
  match s with
  | Fixed s => s =b raw
  | Text v => bool_decide (path_param raw = Some v)
  | Number v => bool_decide (path_param raw ≫= parse_uint u64_max = Some v)
  end.
Fixpoint pattern_matches `{PATH : !PathParams} (pattern : list Segment) (raw : list bytes) : bool :=
  match pattern, raw with
  | [], [] => true
  | s :: pattern, r :: raw => segment_matches s r && pattern_matches pattern raw
  | _, _ => false
  end.
(** [/organizations/{permalink}/servers/stats] is a route of its own. *)
Definition shadowed (raw : list bytes) : bool :=
  match raw with [o; _; s; stats] => (o =b !"organizations") && (s =b !"servers") && (stats =b !"stats") | _ => false end.
(** A route for GET serves HEAD. *)
Definition method_matches (registered m : Method) : bool :=
  bool_decide (registered = m) || (bool_decide (registered = GET) && bool_decide (m = HEAD)).
(** No segment is empty. *)
Definition canonical (path : bytes) : bool :=
  bool_decide (split_on (is_byte "/") (from_option id path (strip_prefix !"/api/v2/admin" path)) = [] :: segments path).
Definition routed `{PATH : !PathParams} (rq : AdminRequest) (c : AdminCall) : bool :=
  let '(m, pattern) := call_route c in
  let raw := segments (rq_path rq) in
  canonical (rq_path rq) && method_matches m (rq_method rq) && pattern_matches pattern raw && negb (shadowed raw).

(** What a request meets besides the store: the clock, random numbers, the network. *)
Record World (K : Type) := mkWorld {
  wd_now : datetime;
  wd_nonce : Z;
  wd_txt : bytes → bytes + list bytes;
  wd_cname : bytes → bytes + option bytes;
  wd_post : Posted → bytes + N;
  wd_signer : option K;
}.
Arguments wd_now {K}.
Arguments wd_nonce {K}.
Arguments wd_txt {K}.
Arguments wd_cname {K}.
Arguments wd_post {K}.
Arguments wd_signer {K}.

Section Run.
Context `{CASE : !UnicodeCase, CRA : !Crates, AUTH : !AuthCrates, JS : !AdminJson, API : !ApiCrates SendMessage, RES : !ResourceCrates, PAY : !Payloads}.
Context {K : Type} `{SIG : !Signer K} {S : Type} `{STO : !AdminStore S, ACC : !AuthStore S, HOOKS : !AccountHooks S}.
Context (config : AdminConfig) (dns : DnsSettings) (retention : RetentionSettings) (lifecycle_enabled : bool)
  (streams : Id → S → list MessageStream).

Definition run_call (w : World K) (principal : Principal) (acting : ActingRole) (c : AdminCall) : Handler S Response :=
  let now := wd_now w in
  let nonce := wd_nonce w in
  match c with
  | OrganizationsIndex p => organizations_index config principal p
  | OrganizationsCreate body => organizations_create config lifecycle_enabled now principal body
  | OrganizationsShow org => organizations_show retention org
  | OrganizationsUpdate org v => organizations_update org v
  | OrganizationsDestroy org => organizations_destroy lifecycle_enabled now principal org
  | ServersIndex org p => servers_index org p
  | ServersCreate org body => servers_create org body
  | ServersShow org server => servers_show org server
  | ServersUpdate org server body => servers_update principal org server body
  | ServersDestroy org server => servers_destroy org server
  | ServersSetIpPool org server pool => servers_set_ip_pool org server pool
  | ServersFind permalink => servers_find permalink
  | AdminApiKeysIndex p => admin_api_keys_index p
  | AdminApiKeysCreate body => admin_api_keys_create nonce body
  | AdminApiKeysDestroy id => admin_api_keys_destroy id
  | ServersSuspend org server reason => servers_suspend org server reason
  | ServersUnsuspend org server => servers_unsuspend org server
  | DomainsIndex org server p => domains_index dns org server p
  | DomainsCreate org server body => domains_create dns nonce org server body
  | DomainsShow org server name => domains_show dns org server name
  | DomainsUpdate org server name dmarc spf => domains_update dns org server name dmarc spf
  | DomainsDestroy org server name => domains_destroy org server name
  | DomainsVerify org server name force => domains_verify dns (wd_txt w) principal org server name force
  | CredentialsIndex org server p => credentials_index org server p
  | CredentialsCreate org server body => credentials_create org server body
  | CredentialsShow org server id => credentials_show org server id
  | CredentialsUpdate org server id name hold => credentials_update org server id name hold
  | CredentialsDestroy org server id => credentials_destroy org server id
  | RoutesIndex org server p => routes_index org server p
  | RoutesCreate org server body => routes_create org server body
  | RoutesShow org server id => routes_show org server id
  | RoutesUpdate org server id name mode => routes_update org server id name mode
  | RoutesDestroy org server id => routes_destroy org server id
  | WebhooksIndex org server p => webhooks_index org server p
  | WebhooksCreate org server body => webhooks_create org server body
  | WebhooksShow org server id => webhooks_show org server id
  | WebhooksUpdate org server id body => webhooks_update org server id body
  | WebhooksDestroy org server id => webhooks_destroy org server id
  | WebhooksEnable org server id => set_webhook_enabled org server id true
  | WebhooksDisable org server id => set_webhook_enabled org server id false
  | WebhooksTest org server id event => webhooks_test (wd_post w) (wd_signer w) now nonce org server id event
  | TrackDomainsIndex org server p => track_domains_index dns org server p
  | TrackDomainsCreate org server name => track_domains_create dns org server name
  | TrackDomainsShow org server id => track_domains_show dns org server id
  | TrackDomainsDestroy org server id => track_domains_destroy org server id
  | TrackDomainsVerify org server id force => track_domains_verify dns (wd_cname w) principal org server id force
  | SenderAddressesIndex org server p => sender_addresses_index org server p
  | SenderAddressesCreate org server email => sender_addresses_create config now nonce org server email
  | SenderAddressesDestroy org server id => sender_addresses_destroy org server id
  | SuppressionsIndex org server p => suppressions_index streams org server p
  | SuppressionsCreate org server body => suppressions_create org server body
  | SuppressionsDestroy org server address => suppressions_destroy org server address
  | UsageShow org month => usage_show now org month
  | LimitsShow org => limits_show org
  | LimitsUpdate org body => limits_update principal org body
  | OrganizationSuspend org reason => organization_suspend principal org reason
  | OrganizationUnsuspend org => organization_unsuspend principal org
  | MembersIndex org => members_index config org
  | MembersCreate org email role => members_create config now acting org email role
  | MembersUpdate org id role => members_update config now acting org id role
  | MembersDestroy org id => members_destroy config now acting org id
  | InvitationsIndex org => invitations_index config org
  | InvitationsCreate org email role => invitations_create config now nonce acting principal org email role
  | InvitationsDestroy org id => invitations_destroy config org id
  | AuthEventsIndex limit => auth_events_index config limit
  | UsersIndex p => users_index p
  | UsersCreate body => users_create config lifecycle_enabled now nonce body
  | UsersShow id => users_show id
  | UsersUpdate id body => users_update id body
  | UsersDestroy id => users_destroy id
  | IpPoolsIndex p => ip_pools_index p
  | IpPoolsCreate name default => ip_pools_create name default
  | IpPoolsShow id => ip_pools_show id
  | IpPoolsDestroy id => ip_pools_destroy id
  | IpAddressesIndex pool p => ip_addresses_index pool p
  | IpAddressesCreate pool body => ip_addresses_create pool body
  | IpAddressesShow pool id => ip_addresses_show pool id
  | IpAddressesDestroy pool id => ip_addresses_destroy pool id
  end.

(** A request that reaches the call: the middleware, then the handler. *)
Definition serve (w : World K) (rq : AdminRequest) (c : AdminCall) : Handler S Response :=
  auth_middleware config (wd_now w) rq (λ principal acting, run_call w principal acting c).
End Run.
