(* ===== verification/AuthStoreFacts.v ===== *)
(** * AuthStoreFacts: the constraints of the account tables

    Every writing operation as a value, and the constraints of the migrations (keys,
    foreign keys, unique columns) as an invariant of the PostgreSQL tables. *)

From S2P Require Import Prelude RustStr Net Model MemoryStore Auth AuthStore AuthPg RustStrFacts MemoryFacts.

(** ** Tables *)

(** Every row satisfies [P], and no two rows clash. *)
Section Table.
Context {K A : Type} `{Countable K}.
Implicit Types (m : gmap K A) (P : K → A → Prop) (u : A → A → Prop).

Record table_ok P u m := mkTableOk {
  rows_ok : map_Forall P m;
  rows_distinct : ∀ i j x y, m !! i = Some x → m !! j = Some y → u x y → i = j;
}.

Lemma table_empty P u : table_ok P u ∅.
Proof. split; [apply map_Forall_empty | intros ???? H1; by rewrite lookup_empty in H1]. Qed.
Lemma lookup_retain Q m i x : retain Q m !! i = Some x ↔ m !! i = Some x ∧ Q i x = true.
Proof. apply map_lookup_filter_Some. Qed.
Lemma table_sub P u m m' : (∀ i x, m' !! i = Some x → m !! i = Some x) → table_ok P u m → table_ok P u m'.
Proof.
  intros Hsub [HP Hu]. split.
  - intros i x Hx. by apply HP, Hsub.
  - intros i j x y Hx Hy. apply Hu; by apply Hsub.
Qed.
Lemma table_retain Q P u m : table_ok P u m → table_ok P u (retain Q m).
Proof. apply table_sub. intros i x [Hx _]%lookup_retain. done. Qed.
Lemma table_delete i P u m : table_ok P u m → table_ok P u (delete i m).
Proof. apply table_sub. intros j x [_ Hx]%lookup_delete_Some. done. Qed.
Lemma table_mono P P' u m : (∀ i x, P i x → P' i x) → table_ok P u m → table_ok P' u m.
Proof. intros Himp [HP Hu]. split; [intros i x Hx; by apply Himp, HP | done]. Qed.
Lemma table_insert P u m i x :
  P i x → (∀ j y, m !! j = Some y → j ≠ i → ¬ u x y ∧ ¬ u y x) → table_ok P u m → table_ok P u (<[i := x]> m).
Proof.
  intros Hx Hno [HP Hu]. split; [by apply map_Forall_insert_2|].
  intros j k y z Hy Hz Hyz. rewrite !lookup_insert_Some in Hy, Hz.
  destruct Hy as [[<- <-]|[Hij Hy]], Hz as [[<- <-]|[Hik Hz]]; try done.
  - by destruct (Hno k z Hz).
  - by destruct (Hno j y Hy).
  - by eapply Hu.
Qed.
Lemma table_alter P u m i f :
  (∀ x, m !! i = Some x → P i x → P i (f x)) → (∀ x y, u (f x) y → u x y) → (∀ x y, u y (f x) → u y x) →
  table_ok P u m → table_ok P u (alter f i m).
Proof.
  intros Hx Hul Hur [HP Hu]. split.
  - intros j y Hy. destruct (decide (i = j)) as [<-|Hij].
    + rewrite lookup_alter_eq in Hy. apply fmap_Some in Hy as (x & Hxi & ->). by apply Hx; [|apply HP].
    + rewrite lookup_alter_ne in Hy by done. by apply HP.
  - intros j k y z Hy Hz Hyz.
    destruct (decide (i = j)) as [<-|Hij], (decide (i = k)) as [<-|Hik]; try done;
      repeat match goal with
      | H : alter _ _ _ !! _ = Some _ |- _ =>
          first [rewrite lookup_alter_eq in H; apply fmap_Some in H as (? & H & ->) | rewrite lookup_alter_ne in H by done]
      end; eauto.
Qed.
End Table.

(** ** The constraints *)

(** [seq] are the next ids of the tables. *)
Definition user_exists (a : Accounts) (id : Id) : Prop := is_Some (ac_users a !! id).
Definition same_key {A B} (f : A → B) (x y : A) : Prop := f x = f y.
Definition same_sub (x y : UserAuth) : Prop := ∃ sub, ua_oidc_sub x = Some sub ∧ ua_oidc_sub y = Some sub.
Definition both_pending (lower : bytes → bytes) (x y : Invitation) : Prop :=
  in_organization_id x = in_organization_id y ∧ lower (in_email_address x) = lower (in_email_address y) ∧
  in_accepted_at x = None ∧ in_accepted_at y = None.

Record accounts_wf (lower : bytes → bytes) (seq : AuthTable → Id) (a : Accounts) : Prop := mkAccountsWf {
  wf_users : table_ok (λ id u, us_id u = id ∧ (id < seq TUsers)%N) (same_key us_email_address) (ac_users a);
  wf_auth : table_ok (λ id r, ua_user_id r = id ∧ user_exists a id) same_sub (ac_user_auth a);
  wf_sessions : table_ok (λ id r, as_id r = id ∧ (id < seq TSessions)%N ∧ user_exists a (as_user_id r)) (same_key as_token_hash) (ac_sessions a);
  wf_memberships :
    table_ok (λ id r, om_id r = id ∧ (id < seq TMemberships)%N ∧ user_exists a (om_user_id r) ∧ is_Some (ac_organizations a !! om_organization_id r))
      (same_key (λ r, (om_organization_id r, om_user_id r))) (ac_memberships a);
  wf_invitations :
    table_ok (λ id r, in_id r = id ∧ (id < seq TInvitations)%N ∧ user_exists a (in_invited_by_user_id r)
                      ∧ is_Some (ac_organizations a !! in_organization_id r))
      (λ x y, in_token_hash x = in_token_hash y ∨ both_pending lower x y) (ac_invitations a);
  wf_resets : Forall (λ r, user_exists a r.1.1) (ac_password_resets a) ∧ NoDup (map (λ r, r.1.2) (ac_password_resets a));
  wf_identities : map_Forall (λ _ user_id, user_exists a user_id) (ac_sso_identities a)
    ∧ ∀ p s1 s2 u, ac_sso_identities a !! (p, s1) = Some u → ac_sso_identities a !! (p, s2) = Some u → s1 = s2;
  wf_passkeys : table_ok (λ id r, wc_id r = id ∧ (id < seq TPasskeys)%N ∧ user_exists a (wc_user_id r)) (same_key wc_credential_id)
    (ac_webauthn_credentials a);
  wf_passkey_states : map_Forall (λ _ r, ∀ u, r.1.1 = Some u → user_exists a u) (ac_webauthn_states a);
  wf_events : Forall (λ e, (ae_id e < seq TEvents)%N ∧ ∀ u, ae_user_id e = Some u → user_exists a u) (ac_events a)
    ∧ NoDup (map ae_id (ac_events a));
}.

(** ** Writing operations as values *)

Inductive AuthOp :=
| OSetPassword (user_id : Id) (digest : bytes)
| OSetTotp (user_id : Id) (secret : option bytes) (enabled : bool)
| OSetLoginState (user_id : Id) (failed : Z) (locked_until last_login_at : option datetime)
| OCreateSession (now : datetime) (new : NewAuthSession)
| OTouchSession (id : Id) (last_used_at expires_at : datetime)
| ODeleteSession (token_hash : bytes)
| ODeleteSessions (user_id : Id)
| OUpsertMembership (now : datetime) (organization_id user_id : Id) (role : Role)
| ODeleteMembership (organization_id user_id : Id)
| OCreateInvitation (new : NewInvitation)
| OAcceptInvitation (now : datetime) (id : Id)
| ODeleteInvitation (organization_id id : Id)
| OCreateReset (user_id : Id) (token_hash : bytes) (expires_at : datetime)
| OConsumeReset (token_hash : bytes) (now : datetime)
| OSetSub (user_id : Id) (sub : bytes)
| OLinkIdentity (user_id : Id) (provider subject : bytes)
| OCreateOidcState (state pkce_verifier nonce : bytes) (expires_at : datetime)
| OConsumeOidcState (state : bytes) (now : datetime)
| OAddPasskey (now : datetime) (new : NewWebAuthnCredential)
| OUpdatePasskey (id : Id) (json : bytes) (last_used_at : datetime)
| ODeletePasskey (user_id id : Id)
| OCreatePasskeyState (key : bytes) (user_id : option Id) (state : bytes) (expires_at : datetime)
| OConsumePasskeyState (key : bytes) (now : datetime)
| OCreateSaml (request_id : bytes) (expires_at : datetime)
| OConsumeSaml (request_id : bytes) (now : datetime)
| ORegisterAssertion (assertion_id : bytes) (expires_at now : datetime)
| OSetDisabled (user_id : Id) (disabled : bool)
| ORecordEvent (now : datetime) (event : NewAuthEvent)
| OCreateUser (new : NewUser)
| OUpdateUser (user : User)
| ODeleteUser (user_id : Id).

Definition run_op {S : Type} `{AuthStore S} (op : AuthOp) (s : S) : S :=
  match op with
  | OSetPassword u d => (set_password_digest u d s).2
  | OSetTotp u x e => (set_totp u x e s).2
  | OSetLoginState u f l t => (set_login_state u f l t s).2
  | OCreateSession now new => (create_session now new s).2
  | OTouchSession id l e => (touch_session id l e s).2
  | ODeleteSession h => (delete_session h s).2
  | ODeleteSessions u => (delete_sessions_for_user u s).2
  | OUpsertMembership now o u r => (upsert_membership now o u r s).2
  | ODeleteMembership o u => (delete_membership o u s).2
  | OCreateInvitation new => (create_invitation new s).2
  | OAcceptInvitation now id => (mark_invitation_accepted now id s).2
  | ODeleteInvitation o id => (delete_invitation o id s).2
  | OCreateReset u h e => (create_password_reset u h e s).2
  | OConsumeReset h now => (consume_password_reset h now s).2
  | OSetSub u x => (set_oidc_sub u x s).2
  | OLinkIdentity u p x => (link_sso_identity u p x s).2
  | OCreateOidcState st v n e => (create_oidc_state st v n e s).2
  | OConsumeOidcState st now => (consume_oidc_state st now s).2
  | OAddPasskey now new => (add_webauthn_credential now new s).2
  | OUpdatePasskey id j l => (update_webauthn_credential id j l s).2
  | ODeletePasskey u id => (delete_webauthn_credential u id s).2
  | OCreatePasskeyState k u st e => (create_webauthn_state k u st e s).2
  | OConsumePasskeyState k now => (consume_webauthn_state k now s).2
  | OCreateSaml r e => (create_saml_request r e s).2
  | OConsumeSaml r now => (consume_saml_request r now s).2
  | ORegisterAssertion x e now => (register_saml_assertion x e now s).2
  | OSetDisabled u d => (set_user_disabled u d s).2
  | ORecordEvent now e => (record_auth_event now e s).2
  | OCreateUser new => (create_user new s).2
  | OUpdateUser u => (update_user u s).2
  | ODeleteUser u => (delete_user u s).2
  end.

Section Constraints.
Context `{ORD : !HashOrder, AUTH : !AuthCrates} (lower : bytes → bytes) (collate_le : bytes → bytes → bool).
Implicit Types (a : Accounts) (seq : AuthTable → Id).
Local Abbreviation wf := (accounts_wf lower).

Lemma user_row_exists a id : user_row a id = true ↔ user_exists a id.
Proof. unfold user_row, user_exists. by rewrite bool_decide_eq_true. Qed.
Lemma existsb_values {A} (P : A → bool) (m : gmap Id A) : existsb P (values m) = false → map_Forall (λ _ x, P x = false) m.
Proof.
  intros He i x Hx. destruct (P x) eqn:HP; [|done].
  rewrite <- He. symmetry. apply existsb_exists. exists x. split; [|done].
  apply list_elem_of_In, values_elem. by exists i.
Qed.

Ltac keep W := destruct W; constructor; cbn; try assumption.

(** *** Account state *)

Lemma wf_upsert_auth seq a user_id f :
  (∀ r, ua_user_id (f r) = ua_user_id r) →
  (∀ r sub, ua_oidc_sub (f r) = Some sub → ua_oidc_sub r = Some sub ∨
     ∀ j r', ac_user_auth a !! j = Some r' → j ≠ user_id → ua_oidc_sub r' ≠ Some sub) →
  wf seq a → wf seq (upsert_user_auth user_id f a).2.
Proof.
  intros Hid Hsub W. unfold upsert_user_auth. destruct (user_row a user_id) eqn:Hu; [|done]. apply user_row_exists in Hu.
  keep W. pose proof (rows_ok _ _ _ wf_auth0) as Hrows. pose proof (rows_distinct _ _ _ wf_auth0) as Huniq.
  apply table_insert; [| |done].
  - split; [|done]. rewrite Hid. destruct (ac_user_auth a !! user_id) eqn:E; [by apply (Hrows _ _ E) | done].
  - assert (Hno : ∀ j r', ac_user_auth a !! j = Some r' → j ≠ user_id →
      ¬ same_sub (f (from_option id (user_auth_default user_id) (ac_user_auth a !! user_id))) r').
    { intros j r' Hr' Hj (sub & Hs & Hs'). destruct (Hsub _ _ Hs) as [Hold|Hfree]; [|by eapply Hfree].
      destruct (ac_user_auth a !! user_id) eqn:E; [|done]. apply Hj. eapply Huniq; [exact Hr'|exact E|]. by exists sub. }
    intros j y Hy Hj. split; [by eapply Hno|]. intros (sub & Hs & Hs'). eapply Hno; [done..|]. by exists sub.
Qed.
Lemma wf_upsert_same seq a user_id f :
  (∀ r, ua_user_id (f r) = ua_user_id r) → (∀ r, ua_oidc_sub (f r) = ua_oidc_sub r) → wf seq a → wf seq (upsert_user_auth user_id f a).2.
Proof. intros Hid Hsub. apply wf_upsert_auth; [done|]. intros r sub Hs. left. by rewrite <- Hsub. Qed.

Lemma wf_with_user_auth seq a user_id f : (∀ r, ua_user_id (f r) = ua_user_id r) → (∀ r, ua_oidc_sub (f r) = ua_oidc_sub r) →
  user_exists a user_id → wf seq a → wf seq (with_user_auth user_id f a).
Proof.
  intros Hid Hsub Hu W. apply (wf_upsert_same seq a user_id f Hid Hsub) in W. unfold upsert_user_auth in W.
  by rewrite (proj2 (user_row_exists _ _) Hu) in W.
Qed.

(** *** Statements *)

Definition pg_wf (s : PgAuth) : Prop := wf (pa_sequence s) (pa_accounts s).

Lemma execute_wf {A} q (f : Accounts → SRes A * Accounts) s :
  (∀ seq a, wf seq a → wf seq (f a).2) → pg_wf s → pg_wf (execute q f s).2.
Proof.
  intros Hf W. unfold execute, pg_wf in *. destruct (pa_failing s q); [done|].
  specialize (Hf _ _ W). by destruct (f (pa_accounts s)).
Qed.

Definition bump (seq : AuthTable → Id) (table : AuthTable) : AuthTable → Id := λ t, if decide (t = table) then (seq table + 1)%N else seq t.
Lemma wf_mono seq seq' a : (∀ t, seq t <= seq' t)%N → wf seq a → wf seq' a.
Proof.
  intros Hle []; constructor; try done; try (eapply table_mono; [|done]; cbn; intros i x; pose proof (Hle TUsers); pose proof (Hle TSessions);
    pose proof (Hle TMemberships); pose proof (Hle TInvitations); pose proof (Hle TPasskeys); naive_solver lia).
  destruct wf_events0 as [He ?]. split; [|done]. eapply Forall_impl; [exact He|]. cbn. intros e. pose proof (Hle TEvents). naive_solver lia.
Qed.
Lemma wf_bump seq table a : wf seq a → wf (bump seq table) a.
Proof. apply wf_mono. intros t. unfold bump. destruct (decide _); subst; lia. Qed.
(** A row whose id is the next one of its table. *)
Lemma insert_wf {A} q table (f : Id → Accounts → SRes A * Accounts) s :
  (∀ seq a, wf seq a → wf (bump seq table) (f (seq table) a).2) → pg_wf s → pg_wf (insert_into q table f s).2.
Proof.
  intros Hf W. unfold insert_into, pg_wf in *. destruct (pa_failing s q); [done|].
  specialize (Hf _ _ W). by destruct (f (pa_sequence s table) (pa_accounts s)).
Qed.

(** *** Sessions *)

Local Abbreviation run := (run_op (S := PgAuth) (H := PgAuth_store lower collate_le)).

Lemma wf_create_session now new s : pg_wf s → pg_wf (run (OCreateSession now new) s).
Proof.
  apply insert_wf. clear s. intros seq a W. destruct (user_row a (ns_user_id new)) eqn:Hu; cbn; [|by apply wf_bump].
  destruct (existsb _ _) eqn:He; cbn; [by apply wf_bump|]. apply user_row_exists in Hu. apply existsb_values in He.
  apply (wf_bump _ TSessions) in W as W'. keep W'. apply table_insert; [| |done].
  - split; [done|]. split; [|done]. unfold bump. rewrite decide_True by done. lia.
  - intros j y Hy _. specialize (He _ _ Hy). cbn in He. apply bytes_eqb_neq in He. unfold same_key. cbn. naive_solver.
Qed.
Lemma wf_touch_session id l e s : pg_wf s → pg_wf (run (OTouchSession id l e) s).
Proof. apply execute_wf. clear s. intros seq a W. cbn. keep W. by apply table_alter. Qed.
Lemma wf_delete_session h s : pg_wf s → pg_wf (run (ODeleteSession h) s).
Proof. apply execute_wf. clear s. intros seq a W. cbn. keep W. by apply table_retain. Qed.
Lemma wf_delete_sessions u s : pg_wf s → pg_wf (run (ODeleteSessions u) s).
Proof. apply execute_wf. clear s. intros seq a W. cbn. keep W. by apply table_retain. Qed.

(** *** Memberships and invitations *)

Lemma find_Some_key {A} (P : Id * A → bool) (m : gmap Id A) k x :
  List.find P (hash_order (map_to_list m)) = Some (k, x) → m !! k = Some x ∧ P (k, x) = true.
Proof.
  intros Hf. apply List.find_some in Hf as [Hin HP]. split; [|done].
  apply list_elem_of_In in Hin. rewrite hash_order_perm in Hin. by apply elem_of_map_to_list.
Qed.
Lemma find_None_key {A} (P : Id * A → bool) (m : gmap Id A) :
  List.find P (hash_order (map_to_list m)) = None → map_Forall (λ k x, P (k, x) = false) m.
Proof.
  intros Hf k x Hk. apply (List.find_none _ _ Hf). apply list_elem_of_In. rewrite hash_order_perm. by apply elem_of_map_to_list.
Qed.
Lemma is_membership_spec o u ms : is_membership o u ms = true ↔ om_organization_id ms = o ∧ om_user_id ms = u.
Proof. unfold is_membership. by rewrite andb_true_iff, !N.eqb_eq. Qed.

Lemma wf_upsert_membership now o u r s : pg_wf s → pg_wf (run (OUpsertMembership now o u r) s).
Proof.
  apply insert_wf. clear s. intros seq a W. apply (wf_bump _ TMemberships) in W as W'. cbn.
  destruct (List.find _ _) as [[k row]|] eqn:Hf; cbn.
  - apply find_Some_key in Hf as [Hk _]. keep W'. apply table_insert; [| |done].
    + cbn. by apply (rows_ok _ _ _ wf_memberships0 _ _ Hk).
    + intros j y Hy Hj. pose proof (rows_distinct _ _ _ wf_memberships0 _ _ _ _ Hk Hy) as Hd. unfold same_key in *. cbn in *.
      split; intros E; apply Hj; symmetry; apply Hd; congruence.
  - apply find_None_key in Hf. destruct (organization_exists a o && user_row a u) eqn:Hex; cbn; [|done].
    apply andb_true_iff in Hex as [Ho%bool_decide_eq_true Hu%user_row_exists].
    keep W'. apply table_insert; [| |done].
    + cbn. split; [done|]. split; [|done]. unfold bump. rewrite decide_True by done. lia.
    + intros j y Hy _. specialize (Hf _ _ Hy). cbn in Hf. apply not_true_iff_false in Hf. rewrite is_membership_spec in Hf.
      unfold same_key. cbn. naive_solver.
Qed.
Lemma wf_delete_membership o u s : pg_wf s → pg_wf (run (ODeleteMembership o u) s).
Proof. apply execute_wf. clear s. intros seq a W. cbn. keep W. by apply table_retain. Qed.

Lemma pending_for_spec o e i : pending_for lower o e i = true ↔
  in_organization_id i = o ∧ lower (in_email_address i) = lower e ∧ in_accepted_at i = None.
Proof. unfold pending_for. rewrite !andb_true_iff, N.eqb_eq, bytes_eqb_eq, bool_decide_eq_true. tauto. Qed.
Lemma wf_create_invitation new s : pg_wf s → pg_wf (run (OCreateInvitation new) s).
Proof.
  apply insert_wf. clear s. intros seq a W. apply (wf_bump _ TInvitations) in W as W'. cbn.
  destruct (existsb _ _) eqn:Ht; [done|]. destruct (existsb _ _) eqn:Hp in |- *; [done|].
  destruct (organization_exists a _ && user_row a _) eqn:Hex; cbn; [|done].
  apply andb_true_iff in Hex as [Ho%bool_decide_eq_true Hu%user_row_exists].
  apply existsb_values in Ht, Hp. keep W'. apply table_insert; [| |done].
  - cbn. split; [done|]. split; [|done]. unfold bump. rewrite decide_True by done. lia.
  - intros j y Hy _. specialize (Ht _ _ Hy). specialize (Hp _ _ Hy). cbn in Ht. apply bytes_eqb_neq in Ht.
    apply not_true_iff_false in Hp. rewrite pending_for_spec in Hp. unfold both_pending. cbn. naive_solver.
Qed.
Lemma wf_accept_invitation now id s : pg_wf s → pg_wf (run (OAcceptInvitation now id) s).
Proof. apply execute_wf. clear s. intros seq a W. cbn. keep W. apply table_alter; [done|..|done]; unfold both_pending; cbn; naive_solver. Qed.
Lemma wf_delete_invitation o id s : pg_wf s → pg_wf (run (ODeleteInvitation o id) s).
Proof. apply execute_wf. clear s. intros seq a W. cbn. keep W. by apply table_retain. Qed.

(** *** Resets, sign-on states and identities *)

Lemma wf_create_reset u h e s : pg_wf s → pg_wf (run (OCreateReset u h e) s).
Proof.
  apply execute_wf. clear s. intros seq a W. destruct (user_row a u) eqn:Hu; cbn; [|done].
  destruct (existsb _ _) eqn:Hh; cbn; [done|]. apply user_row_exists in Hu. keep W. destruct wf_resets0 as [HF HN]. split.
  - apply Forall_app. split; [done|]. by constructor.
  - rewrite map_app. apply NoDup_app. split; [done|]. split; [|apply NoDup_singleton].
    intros x Hx Hin. apply list_elem_of_singleton in Hin as ->. apply list_elem_of_fmap in Hx as (r & Hr & Hrin).
    assert (Ht : existsb (λ r0, r0.1.2 =b h) (ac_password_resets a) = true); [|congruence].
    apply existsb_exists. exists r. split; [by apply list_elem_of_In | by apply bytes_eqb_eq].
Qed.
Lemma NoDup_map_filter {A B} (f : A → B) (P : A → bool) l : NoDup (map f l) → NoDup (map f (List.filter P l)).
Proof.
  induction l as [|x l IH]; cbn; [done|]. intros [Hx Hl]%NoDup_cons. destruct (P x); cbn; [|by apply IH].
  apply NoDup_cons. split; [|by apply IH]. intros Hin. apply Hx. apply list_elem_of_fmap in Hin as (y & -> & Hy).
  apply list_elem_of_fmap. exists y. split; [done|]. apply list_elem_of_In in Hy. apply filter_In in Hy as [Hy _]. by apply list_elem_of_In.
Qed.
Lemma Forall_filter_bool {A} (P : A → Prop) (Q : A → bool) l : Forall P l → Forall P (List.filter Q l).
Proof. induction 1; cbn; [constructor|]. destruct (Q _); [by constructor | done]. Qed.
Lemma wf_consume_reset h now s : pg_wf s → pg_wf (run (OConsumeReset h now) s).
Proof.
  apply execute_wf. clear s. intros seq a W. cbn. keep W. destruct wf_resets0 as [HF HN].
  split; [by apply Forall_filter_bool | by apply NoDup_map_filter].
Qed.

Lemma holds_sub_spec sub r : holds_sub sub r = true ↔ ua_oidc_sub r = Some sub.
Proof. unfold holds_sub. by rewrite bool_decide_eq_true. Qed.
Lemma wf_set_sub u sub s : pg_wf s → pg_wf (run (OSetSub u sub) s).
Proof.
  apply execute_wf. clear s. intros seq a W. destruct (existsb _ _) eqn:He; [done|].
  apply wf_upsert_auth; [done| |done]. cbn. intros r0 sub' [= <-]. right. intros j r Hr Hj Hs.
  rewrite <- not_true_iff_false in He. apply He. apply existsb_exists. exists (j, r).
  split; [by apply list_elem_of_In, elem_of_map_to_list|]. cbn. apply andb_true_iff. split; [|by apply holds_sub_spec].
  by apply negb_true_iff, N.eqb_neq.
Qed.
Lemma wf_link_identity u p x s : pg_wf s → pg_wf (run (OLinkIdentity u p x) s).
Proof.
  apply execute_wf. clear s. intros seq a W. cbn. destruct (from_option _ _ _); cbn; [done|].
  destruct (user_row a u) eqn:Hu; cbn; [|done]. apply user_row_exists in Hu. keep W. destruct wf_identities0 as [HF HU]. split.
  - apply map_Forall_insert_2; [done|]. intros k y Hy%lookup_retain. by apply (HF k), Hy.
  - intros q s1 s2 v. rewrite !lookup_insert_Some, !lookup_retain. cbn. rewrite !negb_true_iff, !andb_false_iff, !bytes_eqb_neq, !N.eqb_neq.
    naive_solver.
Qed.
Lemma wf_create_oidc_state st v n e s : pg_wf s → pg_wf (run (OCreateOidcState st v n e) s).
Proof. apply execute_wf. clear s. intros seq a W. cbn. destruct (ac_oidc_states a !! st); cbn; [done|]. keep W. Qed.
Lemma wf_consume_oidc_state st now s : pg_wf s → pg_wf (run (OConsumeOidcState st now) s).
Proof. apply execute_wf. clear s. intros seq a W. cbn. keep W. Qed.

(** *** Passkeys and SAML *)

Lemma wf_add_passkey now new s : pg_wf s → pg_wf (run (OAddPasskey now new) s).
Proof.
  apply insert_wf. clear s. intros seq a W. apply (wf_bump _ TPasskeys) in W as W'. cbn.
  destruct (existsb _ _) eqn:He; [done|]. destruct (user_row a _) eqn:Hu; cbn; [|done].
  apply user_row_exists in Hu. apply existsb_values in He. keep W'. apply table_insert; [| |done].
  - cbn. split; [done|]. split; [|done]. unfold bump. rewrite decide_True by done. lia.
  - intros j y Hy _. specialize (He _ _ Hy). cbn in He. apply bytes_eqb_neq in He. unfold same_key. cbn. naive_solver.
Qed.
Lemma wf_update_passkey id j l s : pg_wf s → pg_wf (run (OUpdatePasskey id j l) s).
Proof. apply execute_wf. clear s. intros seq a W. cbn. keep W. by apply table_alter. Qed.
Lemma wf_delete_passkey u id s : pg_wf s → pg_wf (run (ODeletePasskey u id) s).
Proof. apply execute_wf. clear s. intros seq a W. cbn. keep W. by apply table_retain. Qed.
Lemma wf_create_passkey_state k u st e s : pg_wf s → pg_wf (run (OCreatePasskeyState k u st e) s).
Proof.
  apply execute_wf. clear s. intros seq a W. cbn. destruct (from_option _ _ _) eqn:Hu; cbn; [|done].
  keep W. apply map_Forall_insert_2; [|done]. cbn. intros v ->. by apply user_row_exists.
Qed.
Lemma wf_consume_passkey_state k now s : pg_wf s → pg_wf (run (OConsumePasskeyState k now) s).
Proof. apply execute_wf. clear s. intros seq a W. cbn. keep W. by apply map_Forall_delete. Qed.
Lemma wf_create_saml r e s : pg_wf s → pg_wf (run (OCreateSaml r e) s).
Proof. apply execute_wf. clear s. intros seq a W. cbn. destruct (ac_saml_requests a !! r); cbn; [done|]. keep W. Qed.
Lemma wf_consume_saml r now s : pg_wf s → pg_wf (run (OConsumeSaml r now) s).
Proof. apply execute_wf. clear s. intros seq a W. cbn. keep W. Qed.
Lemma wf_register_assertion x e now s : pg_wf s → pg_wf (run (ORegisterAssertion x e now) s).
Proof.
  intros W. cbn. unfold pg_register_saml_assertion.
  pose proof (execute_wf QSweepAssertions (λ a, ok tt (a <| ac_saml_assertions := retain (λ _ expiry, negb (expiry <? now)%Z)
    (ac_saml_assertions a) |>)) s) as Hs.
  destruct (execute QSweepAssertions _ s) as [[e'|[]] s'] eqn:Hsw; cbn in *.
  - apply Hs; [|done]. intros seq a W'. keep W'.
  - apply execute_wf; [|apply Hs; [|done]]; intros seq a W'; cbn; [destruct (ac_saml_assertions a !! x); cbn; [done|]|]; keep W'.
Qed.

(** *** Events and users *)

Lemma wf_record_event now e s : pg_wf s → pg_wf (run (ORecordEvent now e) s).
Proof.
  apply insert_wf. clear s. intros seq a W. apply (wf_bump _ TEvents) in W as W'. cbn.
  destruct (from_option _ _ _) eqn:Hu; cbn; [|done]. pose proof (wf_events _ _ _ W) as [HF HN]. keep W'. clear wf_events0. split.
  - apply Forall_app. split.
    + eapply Forall_impl; [exact HF|]. cbn. intros ev [? ?]. split; [|done]. unfold bump. rewrite decide_True by done. lia.
    + constructor; [|constructor]. cbn. split; [unfold bump; rewrite decide_True by done; lia|].
      intros u Hn. rewrite Hn in Hu. by apply user_row_exists.
  - rewrite map_app. apply NoDup_app. split; [done|]. split; [|apply NoDup_singleton].
    intros i Hi Hin. apply list_elem_of_singleton in Hin as ->. apply list_elem_of_fmap in Hi as (ev & Hev & Hin).
    rewrite Forall_forall in HF. destruct (HF _ Hin). cbn in *. lia.
Qed.

Lemma same_users_exist seq a users : (∀ id, is_Some (ac_users a !! id) → is_Some (users !! id)) →
  table_ok (λ id u, us_id u = id ∧ (id < seq TUsers)%N) (same_key us_email_address) users → wf seq a → wf seq (a <| ac_users := users |>).
Proof.
  intros Hsub Hok W. destruct W. constructor; cbn; unfold user_exists in *; cbn; try done;
    try (eapply table_mono; [|done]; cbn; naive_solver).
  - split; [|apply wf_resets0]. eapply Forall_impl; [apply wf_resets0|]. cbn. naive_solver.
  - split; [|apply wf_identities0]. intros k u Hk. by apply Hsub, (proj1 wf_identities0 k).
  - intros k r Hk u Hu. by eapply Hsub, wf_passkey_states0.
  - split; [|apply wf_events0]. eapply Forall_impl; [apply wf_events0|]. cbn. naive_solver.
Qed.

Lemma wf_create_user new s : pg_wf s → pg_wf (run (OCreateUser new) s).
Proof.
  apply insert_wf. clear s. intros seq a W. apply (wf_bump _ TUsers) in W as W'. cbn.
  destruct (existsb _ _) eqn:He; [done|]. apply existsb_values in He. cbn. apply same_users_exist; [| |done].
  - intros id Hid. destruct (decide (id = seq TUsers)) as [->|?]; [by rewrite lookup_insert_eq | by rewrite lookup_insert_ne].
  - apply table_insert; [| |apply W'].
    + split; [done|]. unfold bump. rewrite decide_True by done. lia.
    + intros j y Hy _. specialize (He _ _ Hy). cbn in He. apply bytes_eqb_neq in He. unfold same_key. cbn. naive_solver.
Qed.
Lemma wf_update_user u s : pg_wf s → pg_wf (run (OUpdateUser u) s).
Proof.
  apply execute_wf. clear s. intros seq a W. destruct (user_row a (us_id u) && _) eqn:Hc; cbn; [done|].
  apply same_users_exist; [intros id; by rewrite lookup_alter_is_Some | |done].
  rewrite alter_alt. destruct (ac_users a !! us_id u) as [old|] eqn:Hold; [|apply W].
  apply table_insert; [| |apply W].
  - cbn. split; [done|]. by apply (rows_ok _ _ _ (wf_users _ _ _ W) _ _ Hold).
  - intros j y Hy Hj. unfold same_key. cbn. enough (us_email_address y ≠ us_email_address u) by naive_solver. intros Hm.
    rewrite <- not_true_iff_false in Hc. apply Hc, andb_true_iff. split; [by apply user_row_exists; exists old|].
    apply existsb_exists. exists (j, y). split; [by apply list_elem_of_In, elem_of_map_to_list|]. cbn.
    apply andb_true_iff. split; [by apply negb_true_iff, N.eqb_neq | by apply bytes_eqb_eq].
Qed.

Lemma other_user a id v : negb (v =? id)%N = true → user_exists a v → user_exists (without_user id a) v.
Proof. intros Hv%negb_true_iff%N.eqb_neq Hu. unfold user_exists. cbn. by rewrite lookup_delete_ne. Qed.
Lemma table_retain_mono {A} (P P' : Id → A → Prop) u (Q : Id → A → bool) m :
  (∀ i x, Q i x = true → P i x → P' i x) → table_ok P u m → table_ok P' u (retain Q m).
Proof.
  intros Himp [HP Hu]. split; [intros i x [Hx HQ]%lookup_retain; by apply Himp, HP|].
  intros i j x y [Hx _]%lookup_retain [Hy _]%lookup_retain. by apply Hu.
Qed.
Lemma wf_delete_user id s : pg_wf s → pg_wf (run (ODeleteUser id) s).
Proof.
  apply execute_wf. clear s. intros seq a []. pose proof (other_user a id) as Hother. constructor; cbn.
  - by apply table_delete.
  - destruct wf_auth0 as [HF HU]. split.
    + intros j r [Hj Hr]%lookup_delete_Some. destruct (HF _ _ Hr) as [? ?]. split; [done|]. apply Hother; [|done].
      apply negb_true_iff, N.eqb_neq. congruence.
    + intros i j x y [_ Hx]%lookup_delete_Some [_ Hy]%lookup_delete_Some. by apply HU.
  - eapply table_retain_mono; [|done]. naive_solver.
  - eapply table_retain_mono; [|done]. naive_solver.
  - eapply table_retain_mono; [|done]. naive_solver.
  - destruct wf_resets0 as [HF HN]. split; [|by apply NoDup_map_filter]. apply Forall_forall. intros r Hr.
    apply list_elem_of_In, filter_In in Hr as [Hr Ho]. apply list_elem_of_In in Hr. rewrite Forall_forall in HF. by apply Hother, HF.
  - destruct wf_identities0 as [HF HU]. split.
    + intros k u [Hk Ho]%lookup_retain. by apply Hother, (HF k).
    + intros p s1 s2 u [H1 _]%lookup_retain [H2 _]%lookup_retain. by eapply HU.
  - eapply table_retain_mono; [|done]. naive_solver.
  - intros k r [Hk Ho]%lookup_retain u Hu. rewrite Hu in Ho. by eapply Hother, wf_passkey_states0.
  - destruct wf_events0 as [HF HN].
    assert (Hids : map ae_id (map (anonymised id) (ac_events a)) = map ae_id (ac_events a)).
    { rewrite map_map. apply map_ext. intros e. unfold anonymised. by destruct (bool_decide _). }
    rewrite Hids. split; [|done]. apply Forall_map. eapply Forall_impl; [exact HF|]. cbn. intros e [? He].
    unfold anonymised. destruct (bool_decide _) eqn:Hd; cbn; [done|]. split; [done|]. intros u Hu. apply Hother; [|by apply He].
    apply bool_decide_eq_false in Hd. apply negb_true_iff, N.eqb_neq. congruence.
Qed.

(** ** The invariant *)

Lemma run_op_wf op s : pg_wf s → pg_wf (run op s).
Proof.
  destruct op; try solve [apply execute_wf; intros seq a; by apply wf_upsert_same]; auto using
    wf_create_session, wf_touch_session, wf_delete_session, wf_delete_sessions, wf_upsert_membership, wf_delete_membership,
    wf_create_invitation, wf_accept_invitation, wf_delete_invitation, wf_create_reset, wf_consume_reset, wf_set_sub, wf_link_identity,
    wf_create_oidc_state, wf_consume_oidc_state, wf_add_passkey, wf_update_passkey, wf_delete_passkey, wf_create_passkey_state,
    wf_consume_passkey_state, wf_create_saml, wf_consume_saml, wf_register_assertion, wf_record_event, wf_create_user, wf_update_user,
    wf_delete_user.
Qed.

Lemma accounts_empty_wf seq organizations : wf seq (accounts_empty <| ac_organizations := organizations |>).
Proof.
  constructor; cbn; try apply map_Forall_empty; try apply table_empty.
  - split; constructor.
  - split; [apply map_Forall_empty|]. intros p s1 s2 u Hs. by rewrite lookup_empty in Hs.
  - split; constructor.
Qed.

(** A history: operations, between which statements begin and cease to fail. *)
Definition history : Type := list ((AuthQuery → bool) * AuthOp).
Fixpoint replay (h : history) (s : PgAuth) : PgAuth :=
  match h with
  | [] => s
  | (failing, op) :: h => replay h (run op (s <| pa_failing := failing |>))
  end.

Lemma replay_wf h : ∀ s, pg_wf s → pg_wf (replay h s).
Proof. induction h as [|[failing op] h IH]; intros s W; [done|]. by apply IH, run_op_wf. Qed.

(** the constraints of the account tables are an invariant.  Whatever operations
    run on an empty database, in whatever order and whichever of their statements
    fail, ids are the keys of their rows and never above the sequence, foreign keys
    refer to users and organizations that exist, and e-mail addresses, tokens, OIDC
    subjects, memberships, pending invitations, linked identities and passkeys are
    unique. *)
Theorem account_tables_well_formed organizations first h :
  let start := mkPgAuth (accounts_empty <| ac_organizations := organizations |>) (λ _, first) (λ _, false) in
  pg_wf (replay h start).
Proof. intros start. apply replay_wf, accounts_empty_wf. Qed.
End Constraints.
