(* ===== verification/AuthLaws.v ===== *)
(** * AuthLaws: what a store of accounts promises

    The interface the handlers of [AuthApi] rely on: on a consistent store each
    operation answers and changes the account tables as its specification says.  The
    in-memory store and the PostgreSQL store (no statement failing) keep it.  First
    the primitives: base32 and codes round trip, roles are ordered. *)

From S2P Require Import Prelude RustStr Net Model MemoryStore Auth AuthStore AuthPg RustStrFacts MemoryFacts AuthStoreFacts.

#[local] Ltac Zify.zify_post_hook ::= Z.to_euclidean_division_equations.

(** ** Base32 *)

Lemma alphabet_position i : (i < 32)%N →
  position (Ascii.eqb (byte_to_upper (alphabet_char i))) BASE32_ALPHABET = Some i ∧
  is_byte "=" (alphabet_char i) || is_byte " " (alphabet_char i) = false.
Proof.
  intros Hi. assert (Forall (λ n, position (Ascii.eqb (byte_to_upper (alphabet_char (N.of_nat n)))) BASE32_ALPHABET = Some (N.of_nat n) ∧
    is_byte "=" (alphabet_char (N.of_nat n)) || is_byte " " (alphabet_char (N.of_nat n)) = false) (seq 0 32)) as H.
  { apply Forall_forall. intros n Hn. apply elem_of_seq in Hn. do 32 (destruct n as [|n]; [by vm_compute|]). lia. }
  rewrite <- (N2Nat.id i). apply (proj1 (Forall_forall _ _) H). apply elem_of_seq. lia.
Qed.

Lemma lor_add (a b n : N) : (b < 2 ^ n)%N → N.lor (N.shiftl a n) b = (a * 2 ^ n + b)%N.
Proof.
  intros Hb. rewrite <- N.shiftl_mul_pow2.
  assert (N.land (N.shiftl a n) b = 0)%N as H0.
  { apply N.bits_inj_0; intros i. rewrite N.land_spec. destruct (N.lt_ge_cases i n) as [Hi|Hi]; [by rewrite N.shiftl_spec_low|].
    destruct (N.eq_dec b 0%N) as [->|Hz]; [by rewrite N.bits_0, andb_false_r|].
    rewrite (N.bits_above_log2 b), andb_false_r; [done|]. apply (N.lt_le_trans _ n); [|done]. apply N.log2_lt_pow2; lia. }
  rewrite N.add_nocarry_lxor by done. symmetry. by apply N.lxor_lor.
Qed.

(** Shifting a group into the buffer. *)
Lemma shift_in (a b n : N) : (n <= 64)%N → (b < 2 ^ n)%N → N.lor (shl_u64 a n) b = ((a mod 2 ^ (64 - n)) * 2 ^ n + b)%N.
Proof.
  intros Hn Hb. unfold shl_u64. rewrite N.shiftl_mul_pow2.
  assert (2 ^ 64 = 2 ^ (64 - n) * 2 ^ n)%N as E by (rewrite <- N.pow_add_r; f_equal; lia).
  rewrite E, N.Div0.mul_mod_distr_r. etrans; [|by apply lor_add]. by rewrite N.shiftl_mul_pow2.
Qed.
Lemma low_bits (a n : N) : N.land a (N.ones n) = (a mod 2 ^ n)%N.
Proof. apply N.land_ones. Qed.

(** One decoded character: the group it stands for is shifted in. *)
Lemma decode_step i rest buffer bits : (i < 32)%N →
  base32_decode_loop (alphabet_char i :: rest) buffer bits =
  let buffer := ((buffer mod 2 ^ 59) * 32 + i)%N in
  if (8 <=? bits + 5)%N
  then rest ← base32_decode_loop rest buffer (bits - 3); Some (ascii_of_N ((buffer / 2 ^ (bits - 3)) mod 256) :: rest)
  else base32_decode_loop rest buffer (bits + 5).
Proof.
  intros Hi. destruct (alphabet_position i Hi) as [H1 H2]. cbn [base32_decode_loop]. rewrite H2, H1. cbn [mbind option_bind].
  rewrite (shift_in _ i 5) by (cbv; lia || done). cbv zeta. change (2 ^ (64 - 5))%N with (2 ^ 59)%N. change (2 ^ 5)%N with 32%N.
  destruct (N.leb_spec 8 (bits + 5)); [|done]. replace (bits + 5 - 8)%N with (bits - 3)%N by lia.
  by rewrite N.shiftr_div_pow2, (low_bits _ 8).
Qed.

(** The groups a byte completes when [k] bits are pending. *)
Definition group (buffer sh : N) : N := ((buffer / 2 ^ sh) mod 32)%N.
Lemma group_lt buffer sh : (group buffer sh < 32)%N.
Proof. by apply N.mod_lt. Qed.

Lemma encode_step byte data ebuf k : (k < 5)%N →
  base32_encode_loop (byte :: data) ebuf k =
  let buffer := ((ebuf mod 2 ^ 56) * 256 + byte_n byte)%N in
  if (k <? 2)%N then alphabet_char (group buffer (k + 3)) :: base32_encode_loop data buffer (k + 3)
  else alphabet_char (group buffer (k + 3)) :: alphabet_char (group buffer (k - 2)) :: base32_encode_loop data buffer (k - 2).
Proof.
  intros Hk. cbn [base32_encode_loop]. rewrite (shift_in _ (byte_n byte) 8) by (apply N_ascii_bounded || done).
  change (2 ^ (64 - 8))%N with (2 ^ 56)%N. change (2 ^ 8)%N with 256%N. set (buffer := (_ * 256 + _)%N). cbv zeta. unfold group.
  assert (k = 0 ∨ k = 1 ∨ k = 2 ∨ k = 3 ∨ k = 4)%N as [-> | [-> | [-> | [-> | ->]]]] by lia;
    cbn [emit_groups N.add N.leb N.compare N.sub Pos.add Pos.compare Pos.compare_cont Pos.succ N.ltb app];
    by rewrite ?N.shiftr_div_pow2, ?(low_bits _ 5).
Qed.

(** The decoder has seen all but the [k] bits the encoder still holds: of the byte in
    progress it holds the other [8 - k]. *)
Definition in_step (k ebuf dbuf b : N) : Prop := (ebuf mod 2 ^ k = b mod 2 ^ k ∧ dbuf mod 2 ^ (8 - k) = b / 2 ^ k ∧ b < 256)%N.

(** Computes the closed exponents, differences and comparisons of bit counts. *)
Ltac closed_N :=
  let ev t := (let v := eval vm_compute in t in lazymatch v with context [match _ with _ => _ end] => fail | _ => change t with v in * end) in
  repeat match goal with
  | |- context [(2 ^ N0)%N] => ev (2 ^ N0)%N
  | |- context [(2 ^ N.pos ?p)%N] => ev (2 ^ N.pos p)%N
  | |- context [(N.pos ?p + N.pos ?q)%N] => ev (N.pos p + N.pos q)%N
  | |- context [(0 + N.pos ?q)%N] => ev (0 + N.pos q)%N
  | |- context [(N.pos ?p - N.pos ?q)%N] => ev (N.pos p - N.pos q)%N
  | |- context [(N.pos ?p <=? N.pos ?q)%N] => ev (N.pos p <=? N.pos q)%N
  | |- context [(N.pos ?p <? N.pos ?q)%N] => ev (N.pos p <? N.pos q)%N
  | |- context [(0 <? N.pos ?q)%N] => ev (0 <? N.pos q)%N
  end.

Lemma mod_low (a n m : N) : (m <= n)%N → ((a mod 2 ^ n) mod 2 ^ m = a mod 2 ^ m)%N.
Proof.
  intros H. replace n with (m + (n - m))%N by lia. rewrite N.pow_add_r, N.Div0.mod_mul_r, (N.mul_comm (2 ^ m)).
  by rewrite N.Div0.mod_add, N.Div0.mod_mod.
Qed.

Lemma decode_encode_loop data : ∀ ebuf dbuf,
  base32_decode_loop (base32_encode_loop data ebuf 0) dbuf 0 = Some data ∧
  ∀ k b, (0 < k < 5)%N → in_step k ebuf dbuf b →
    base32_decode_loop (base32_encode_loop data ebuf k) dbuf (8 - k) = Some (ascii_of_N b :: data).
Proof.
  induction data as [|byte data IH]; intros ebuf dbuf.
  - split; [done|]. intros k b Hk (H1 & H2 & Hb). cbn [base32_encode_loop].
    destruct (N.ltb_spec 0 k); [|lia]. rewrite (low_bits _ 5). unfold shl_u64. rewrite N.shiftl_mul_pow2, decode_step by by apply N.mod_lt.
    assert (k = 1 ∨ k = 2 ∨ k = 3 ∨ k = 4)%N as [-> | [-> | [-> | ->]]] by lia; cbv zeta; closed_N; cbv iota;
      cbn [base32_decode_loop mbind option_bind]; do 3 f_equal; revert H1 H2; closed_N; lia.
  - pose proof (N_ascii_bounded byte) as Hbyte. fold (byte_n byte) in Hbyte. pose proof (ascii_N_embedding byte) as Hb'. fold (byte_n byte) in Hb'.
    assert (∀ k e d, (0 < k < 5)%N → in_step k e d (byte_n byte) →
      base32_decode_loop (base32_encode_loop data e k) d (8 - k) = Some (byte :: data)) as Hnext.
    { intros k e d Hk Hs. rewrite <- Hb'. by apply IH. }
    split.
    + rewrite encode_step by done. cbv zeta. closed_N. cbv iota. rewrite decode_step by apply group_lt. cbv zeta. closed_N. cbv iota.
      generalize (ebuf mod 72057594037927936)%N, (dbuf mod 576460752303423488)%N. intros e d.
      apply (Hnext 3%N); [lia|]. unfold in_step, group. closed_N. split_and!; lia.
    + intros k b Hk (H1 & H2 & Hb). rewrite encode_step by apply Hk. rewrite <- (mod_low ebuf 56 k) in H1 by (clear -Hk; lia).
      rewrite <- (mod_low dbuf 59 (8 - k)) in H2 by (clear -Hk; lia). generalize dependent (ebuf mod 2 ^ 56)%N. intros e H1.
      assert (k = 1 ∨ k = 2 ∨ k = 3 ∨ k = 4)%N as [-> | [-> | [-> | ->]]] by (clear -Hk; lia); cbv zeta; revert H1 H2; closed_N; intros H1 H2; cbv iota;
        rewrite decode_step by apply group_lt; cbv zeta; closed_N; cbv iota; generalize dependent (dbuf mod 576460752303423488)%N; intros d H2;
        try (rewrite decode_step by apply group_lt; cbv zeta; closed_N; cbv iota).
      * rewrite (Hnext 4%N); [|done|unfold in_step, group; closed_N; split_and!; [clear -Hbyte; lia|clear -Hbyte; lia|done]].
        cbn [mbind option_bind]. do 3 f_equal. unfold group. closed_N. lia.
      * rewrite (proj1 (IH _ _)). cbn. rewrite <- Hb' at 4. unfold group. closed_N. repeat f_equal; lia.
      * rewrite (Hnext 1%N); [|done|unfold in_step, group; closed_N; split_and!; [clear -Hbyte; lia|clear -Hbyte; lia|done]].
        cbn [mbind option_bind]. do 3 f_equal. unfold group. closed_N. lia.
      * rewrite (Hnext 2%N); [|done|unfold in_step, group; closed_N; split_and!; [clear -Hbyte; lia|clear -Hbyte; lia|done]].
        cbn [mbind option_bind]. do 3 f_equal. unfold group. closed_N. lia.
Qed.

(** Base32 round trips: decoding what [base32_encode] writes gives the data back,
    whatever its length, although the 64-bit buffers of both lose their high bits. *)
Theorem base32_round_trip data : base32_decode (base32_encode data) = Some data.
Proof. apply decode_encode_loop. Qed.

(** ** One-time codes *)

Lemma pretty_go_length k : ∀ x s, (x < 10 ^ N.of_nat k)%N →
  (String.length (pretty.pretty_N_go x s) <= k + String.length s)%nat.
Proof.
  induction k as [|k IH]; intros x s Hx.
  - assert (x = 0)%N as -> by (cbn in Hx; lia). by rewrite pretty.pretty_N_go_0.
  - destruct (N.eq_dec x 0%N) as [->|Hz]; [rewrite pretty.pretty_N_go_0; lia|].
    rewrite pretty.pretty_N_go_step by lia. etrans; [apply IH|cbn; lia].
    rewrite Nat2N.inj_succ, N.pow_succ_r' in Hx. apply N.Div0.div_lt_upper_bound. lia.
Qed.

Lemma lit_length s : length (lit s) = String.length s.
Proof. induction s as [|c s IH]; [done|]. unfold lit in *. cbn. by rewrite IH. Qed.

Lemma show_N_length k n : (0 < k)%nat → (n < 10 ^ N.of_nat k)%N → (length (show_N n) <= k)%nat.
Proof.
  intros Hk Hn. unfold show_N, pretty. rewrite lit_length. unfold pretty.pretty_N. case_decide; [cbn; lia|].
  pose proof (pretty_go_length k n "" Hn). cbn in *. lia.
Qed.

Lemma totp_code_length `{AUTH : !AuthCrates} secret t code : totp_code secret t = Some code → length code = TOTP_DIGITS.
Proof.
  unfold totp_code. destruct (base32_decode secret); cbn [mbind option_bind]; [|done]. intros [= <-].
  unfold show_padded. rewrite length_app, length_replicate.
  match goal with |- context [show_N ?n] => assert (length (show_N n) <= TOTP_DIGITS) as H end; [|lia].
  apply show_N_length; [cbv; lia|]. by apply N.mod_lt.
Qed.

(** A code is accepted exactly when it is the code of the time step before, the
    current one or the one after: the drift of a client is at most one step of thirty
    seconds either way, and the length of the code is no further condition. *)
Theorem totp_accepts_three_steps `{AUTH : !AuthCrates} secret code t : (TOTP_STEP_SECONDS <= t)%N → (t + TOTP_STEP_SECONDS <= u64_max)%N →
  verify_totp secret code t = true ↔
  ∃ counter, (t / TOTP_STEP_SECONDS - 1 <= counter <= t / TOTP_STEP_SECONDS + 1)%N ∧ totp_code secret (counter * TOTP_STEP_SECONDS) = Some code.
Proof.
  unfold TOTP_STEP_SECONDS, u64_max. intros H1 H2. unfold verify_totp.
  assert (∀ u, totp_code secret u = totp_code secret (u / 30 * 30)) as Hstep.
  { intros u. unfold totp_code, TOTP_STEP_SECONDS. destruct (base32_decode secret); [|done]. cbn. by rewrite N.div_mul. }
  assert (∀ d : Z, (-1 <= d <= 1)%Z → saturating_add_signed t (d * 30) / 30 = Z.to_N (Z.of_N (t / 30) + d))%N as Hd.
  { intros d Hd. unfold saturating_add_signed, u64_max. assert (d = -1 ∨ d = 0 ∨ d = 1)%Z as [-> | [-> | ->]] by lia; lia. }
  assert (existsb (λ drift, bool_decide (totp_code secret (saturating_add_signed t (drift * Z.of_N 30)) = Some code)) [-1; 0; 1]%Z = true ↔
    ∃ counter, (t / 30 - 1 <= counter <= t / 30 + 1)%N ∧ totp_code secret (counter * 30) = Some code) as H.
  { rewrite existsb_exists. split.
    - intros (d & Hin & Hc%bool_decide_eq_true). rewrite Hstep, Hd in Hc by (repeat destruct Hin as [<-|Hin]; by lia || destruct Hin).
      eexists. split; [|exact Hc]. repeat destruct Hin as [<-|Hin]; lia || destruct Hin.
    - intros (c & Hc & E). exists (Z.of_N c - Z.of_N (t / 30))%Z. split; [cbn; lia|]. apply bool_decide_eq_true.
      rewrite Hstep, Hd by lia. rewrite <- E. do 2 f_equal. lia. }
  destruct (Nat.eqb_spec (length code) TOTP_DIGITS) as [Hl|Hl]; cbn [negb]; [exact H|]. split; [done|].
  intros (c & _ & E%totp_code_length). done.
Qed.

(** The authentication state of an account that exists. *)
Definition account_auth (a : Accounts) (user_id : Id) : option UserAuth :=
  _ ← ac_users a !! user_id; Some (from_option id (user_auth_default user_id) (ac_user_auth a !! user_id)).
Definition fresh_session_token (a : Accounts) (hash : bytes) : Prop := map_Forall (λ _ r, as_token_hash r ≠ hash) (ac_sessions a).
Definition fresh_reset_token (a : Accounts) (hash : bytes) : Prop := Forall (λ r, r.1.2 ≠ hash) (ac_password_resets a).
Definition session_row (now : datetime) (new : NewAuthSession) (id : Id) : AuthSession :=
  mkAuthSession id (ns_user_id new) (ns_token_hash new) now (ns_expires_at new) now (ns_ip_address new) (ns_user_agent new) (ns_oidc_logout new).

Class AuthStoreLaws (S : Type) `{STO : !AuthStore S} := {
  accounts : S → Accounts;
  consistent : S → Prop;
  lookup_email : gmap Id User → bytes → option User;

  consistent_wf s : consistent s → ∃ lower seq, accounts_wf lower seq ((accounts s) <| ac_events := [] |>);
  lookup_email_row s e u : consistent s → lookup_email (ac_users (accounts s)) e = Some u → ac_users (accounts s) !! us_id u = Some u;
  user_by_email_law s e : consistent s → user_by_email e s = (inr (lookup_email (ac_users (accounts s)) e), s);
  user_auth_law s id : consistent s → user_auth id s = (inr (account_auth (accounts s) id), s);
  set_password_digest_law s id d : consistent s → user_exists (accounts s) id → ∃ s', set_password_digest id d s = (inr tt, s') ∧ consistent s' ∧
    accounts s' = with_user_auth id (λ r, r <| ua_password_digest := Some d |>) (accounts s);
  set_totp_law s id secret e : consistent s → user_exists (accounts s) id → ∃ s', set_totp id secret e s = (inr tt, s') ∧ consistent s' ∧
    accounts s' = with_user_auth id (λ r, r <| ua_totp_secret := secret |> <| ua_totp_enabled := e |>) (accounts s);
  set_login_state_law s id n l t : consistent s → user_exists (accounts s) id → ∃ s', set_login_state id n l t s = (inr tt, s') ∧ consistent s' ∧
    accounts s' = with_user_auth id (login_state n l t) (accounts s);
  record_auth_event_law s now e : consistent s → ∃ r s' events, record_auth_event now e s = (r, s') ∧ consistent s' ∧
    accounts s' = (accounts s) <| ac_events := events |>;
  create_session_law s now new : consistent s → user_exists (accounts s) (ns_user_id new) → fresh_session_token (accounts s) (ns_token_hash new) →
    ∃ id s', create_session now new s = (inr (session_row now new id), s') ∧ consistent s' ∧ ac_sessions (accounts s) !! id = None ∧
    accounts s' = (accounts s) <| ac_sessions := <[id := session_row now new id]> (ac_sessions (accounts s)) |>;
  session_with_user_law s hash : consistent s → ∃ r, session_with_user hash s = (inr r, s) ∧
    match r with
    | Some (row, u) => ac_sessions (accounts s) !! as_id row = Some row ∧ as_token_hash row = hash ∧
                       ac_users (accounts s) !! as_user_id row = Some u
    | None => fresh_session_token (accounts s) hash
    end;
  touch_session_law s id used expires : consistent s → ∃ s', touch_session id used expires s = (inr tt, s') ∧ consistent s' ∧
    accounts s' = (accounts s) <| ac_sessions :=
      alter (λ r, r <| as_last_used_at := used |> <| as_expires_at := expires |>) id (ac_sessions (accounts s)) |>;
  delete_session_law s hash : consistent s → ∃ r s', delete_session hash s = (inr r, s') ∧ consistent s' ∧
    accounts s' = (accounts s) <| ac_sessions := retain (λ _ r, negb (as_token_hash r =b hash)) (ac_sessions (accounts s)) |>;
  delete_sessions_for_user_law s id : consistent s → ∃ n s', delete_sessions_for_user id s = (inr n, s') ∧ consistent s' ∧
    accounts s' = (accounts s) <| ac_sessions := retain (λ _ r, negb (as_user_id r =? id)%N) (ac_sessions (accounts s)) |>;
  consume_password_reset_law s hash now : consistent s → ∃ r s', consume_password_reset hash now s = (inr r, s') ∧ consistent s' ∧
    accounts s' = (accounts s) <| ac_password_resets := List.filter (λ x, negb (x.1.2 =b hash)) (ac_password_resets (accounts s)) |> ∧
    ∀ user_id, r = Some user_id ↔ ∃ expires, (user_id, hash, expires) ∈ ac_password_resets (accounts s) ∧ (now <= expires)%Z;
}.

Section PgLaws.
Context `{ORD : !HashOrder, AUTH : !AuthCrates} (lower : bytes → bytes) (collate_le : bytes → bytes → bool).
#[local] Existing Instance PgAuth_store.
Local Abbreviation run := (run_op (S := PgAuth) (H := PgAuth_store lower collate_le)).

Definition pg_consistent (s : PgAuth) : Prop := pg_wf lower s ∧ ∀ q, pa_failing s q = false.
Lemma execute_failing {A} q (f : Accounts → SRes A * Accounts) s : pa_failing (execute q f s).2 = pa_failing s.
Proof. unfold execute. destruct (pa_failing s q); [done|]. by destruct (f (pa_accounts s)). Qed.
Lemma insert_failing {A} q t (f : Id → Accounts → SRes A * Accounts) s : pa_failing (insert_into q t f s).2 = pa_failing s.
Proof. unfold insert_into. destruct (pa_failing s q); [done|]. by destruct (f _ (pa_accounts s)). Qed.
Lemma register_failing x e now s : pa_failing (pg_register_saml_assertion x e now s).2 = pa_failing s.
Proof.
  unfold pg_register_saml_assertion.
  pose proof (execute_failing QSweepAssertions (λ a, ok tt (a <| ac_saml_assertions :=
    retain (λ _ expiry, negb (expiry <? now)%Z) (ac_saml_assertions a) |>)) s) as Hs.
  destruct (execute QSweepAssertions _ s) as [[?|[]] s'] eqn:E; cbn in *; by rewrite ?execute_failing, Hs.
Qed.
Lemma run_failing op s : pa_failing (run op s) = pa_failing s.
Proof. destruct op; first [apply execute_failing | apply insert_failing | apply register_failing]. Qed.
Lemma run_consistent op s : pg_consistent s → pg_consistent (run op s).
Proof. intros [W F]. split; [by apply run_op_wf|]. intros q. by rewrite run_failing, F. Qed.

Lemma execute_ok {A} q (f : Accounts → SRes A * Accounts) s : pg_consistent s →
  execute q f s = ((f (pa_accounts s)).1, s <| pa_accounts := (f (pa_accounts s)).2 |>).
Proof. intros [_ F]. unfold execute. rewrite F. by destruct (f (pa_accounts s)). Qed.
Lemma select_ok {A} s q (f : Accounts → A) : pg_consistent s → select s q f = inr (f (pa_accounts s)).
Proof. intros [_ F]. unfold select. by rewrite F. Qed.

(** What an operation that is one statement does. *)
Lemma execute_law {A} op q (f : Accounts → SRes A * Accounts) s : (∀ s, run op s = (execute q f s).2) → pg_consistent s →
  ∃ s', execute q f s = ((f (pa_accounts s)).1, s') ∧ pg_consistent s' ∧ pa_accounts s' = (f (pa_accounts s)).2.
Proof.
  intros Hop C. rewrite execute_ok by done. eexists. split; [reflexivity|]. split; [|done].
  pose proof (run_consistent op s C) as C'. by rewrite Hop, execute_ok in C'.
Qed.
Lemma upsert_law op q user_id f s : (∀ s, run op s = (execute q (upsert_user_auth user_id f) s).2) → pg_consistent s →
  user_exists (pa_accounts s) user_id → ∃ s', execute q (upsert_user_auth user_id f) s = (inr tt, s') ∧ pg_consistent s' ∧
    pa_accounts s' = with_user_auth user_id f (pa_accounts s).
Proof.
  intros Hop C Hu. destruct (execute_law op q _ s Hop C) as (s' & E & C' & Ha). exists s'. rewrite E.
  unfold upsert_user_auth in *. rewrite (proj2 (user_row_exists _ _) Hu) in *. done.
Qed.

Lemma head_omap_In {A B} (f : A → option B) l y : head (omap f l) = Some y → ∃ x, x ∈ l ∧ f x = Some y.
Proof.
  induction l as [|x l IH]; [done|]. cbn. destruct (f x) eqn:E; cbn.
  - intros [= <-]. exists x. split; [by constructor | done].
  - intros (z & Hz & Hf)%IH. exists z. split; [by constructor | done].
Qed.
Lemma head_omap_None {A B} (f : A → option B) l : head (omap f l) = None → ∀ x, x ∈ l → f x = None.
Proof.
  induction l as [|x l IH]; [by inversion 2|]. cbn. destruct (f x) eqn:E; cbn; [done|].
  intros Hl z [->|Hz]%elem_of_cons; [done | by apply IH].
Qed.
Lemma pg_session_spec s hash : pg_consistent s → ∃ r, pg_session_with_user s hash = inr r ∧
  match r with
  | Some (row, u) => ac_sessions (pa_accounts s) !! as_id row = Some row ∧ as_token_hash row = hash ∧ ac_users (pa_accounts s) !! as_user_id row = Some u
  | None => fresh_session_token (pa_accounts s) hash
  end.
Proof.
  intros C. pose proof (wf_sessions _ _ _ (proj1 C)) as [HF HU]. unfold pg_session_with_user. rewrite select_ok by done.
  eexists. split; [reflexivity|]. destruct (head _) as [[row u]|] eqn:Hh.
  - apply head_omap_In in Hh as (x & Hx & Hf). apply values_elem in Hx as [id Hx]. destruct (as_token_hash x =b hash) eqn:Ht; [|done].
    destruct (ac_users _ !! as_user_id x) eqn:Hu; [|done]. cbn in Hf. injection Hf as <- <-.
    apply bytes_eqb_eq in Ht. destruct (HF _ _ Hx) as [-> _]. done.
  - intros id x Hx Ht. apply (head_omap_None _ _ ) with (x := x) in Hh; [|apply values_elem; by exists id].
    rewrite <- Ht, bytes_eqb_refl in Hh. destruct (HF _ _ Hx) as (_ & _ & [u Hu]). by rewrite Hu in Hh.
Qed.
Lemma filter_one {A B} (f : A → B) (P : A → bool) l x : NoDup (map f l) → (∀ y, P y = true → f y = f x) → x ∈ l → P x = true →
  List.filter P l = [x].
Proof.
  intros HN HP Hx HPx. induction l as [|y l IH]; [by inversion Hx|]. cbn in HN. apply NoDup_cons in HN as [Hy HN]. cbn.
  assert (Hnone : ∀ z, z ∈ l → f z = f y → False) by (intros z Hz Hf; apply Hy; rewrite <- Hf; by apply list_elem_of_fmap_2).
  apply elem_of_cons in Hx as [->|Hx].
  - rewrite HPx. f_equal. destruct (List.filter P l) as [|z l'] eqn:E; [done|]. exfalso.
    assert (Hin : In z (List.filter P l)) by (rewrite E; by left). apply filter_In in Hin as [Hin%list_elem_of_In Hz].
    by eapply Hnone; [|apply HP].
  - destruct (P y) eqn:E; [|by apply IH]. exfalso. eapply Hnone; [exact Hx|]. symmetry. by apply HP.
Qed.
Lemma reset_answer (resets : list (Id * bytes * datetime)) hash now user_id : NoDup (map (λ r, r.1.2) resets) →
  (r ← head (List.filter (λ r, r.1.2 =b hash) resets); if (r.2 <? now)%Z then None else Some r.1.1) = Some user_id ↔
  ∃ expires, (user_id, hash, expires) ∈ resets ∧ (now <= expires)%Z.
Proof.
  intros HN. split.
  - destruct (List.filter _ _) as [|[[u h] e] l] eqn:E; [done|]. cbn. destruct (Z.ltb_spec e now); [done|]. intros [= <-].
    assert (Hin : In (u, h, e) (List.filter (λ r, r.1.2 =b hash) resets)) by (rewrite E; by left).
    apply filter_In in Hin as [Hin%list_elem_of_In Hh%bytes_eqb_eq]. cbn in Hh. subst. by exists e.
  - intros (e & Hin & He). rewrite (filter_one (λ r, r.1.2) _ _ (user_id, hash, e)); [|done|..|by apply bytes_eqb_eq].
    + cbn. by rewrite (proj2 (Z.ltb_ge _ _)).
    + by intros y Hy%bytes_eqb_eq.
    + done.
Qed.

#[export] Instance PgAuth_laws : AuthStoreLaws PgAuth (STO := PgAuth_store lower collate_le).
Proof.
  refine {| accounts := pa_accounts; consistent := pg_consistent;
            lookup_email us e := List.find (λ u, lower (us_email_address u) =b lower e) (values us) |}.
  - intros s [W _]. exists lower, (pa_sequence s). destruct W. constructor; try done. split; constructor.
  - intros s e u [W _] [Hu _]%List.find_some. apply list_elem_of_In, values_elem in Hu as [id Hu].
    by destruct (rows_ok _ _ _ (wf_users _ _ _ W) _ _ Hu) as [-> _].
  - intros s e C. cbn. unfold reading, pg_user_by_email. by rewrite select_ok.
  - intros s id C. cbn. unfold reading, pg_user_auth, account_auth. rewrite !select_ok by done. cbn. unfold user_row.
    destruct (ac_users _ !! id); cbn; [|done]. by destruct (ac_user_auth _ !! id).
  - intros s id d. by apply (upsert_law (OSetPassword id d)).
  - intros s id secret e. by apply (upsert_law (OSetTotp id secret e)).
  - intros s id n l t C Hu. destruct (upsert_law (OSetLoginState id n l t) QSetLoginState id _ s ltac:(done) C Hu) as (s' & E & C' & Ha).
    exists s'. split; [exact E|]. split; [done|]. rewrite Ha. unfold login_state, with_user_auth. by destruct t.
  - intros s now e C. pose proof (run_consistent (ORecordEvent now e) s C) as C'. cbn in *.
    destruct (pg_record_auth_event now e s) as [r s'] eqn:E. exists r, s', (ac_events (pa_accounts s')). split; [done|]. split; [done|].
    unfold pg_record_auth_event, insert_into in E. destruct (pa_failing s _); [injection E as <- <-; by destruct (pa_accounts s)|].
    destruct (from_option _ _ _); cbn in E; injection E as <- <-; cbn; [done|]. by destruct (pa_accounts s).
  - intros s now new C Hu Hfresh. pose proof (run_consistent (OCreateSession now new) s C) as C'.
    pose proof C as [W F]. exists (pa_sequence s TSessions). cbn in *. unfold pg_create_session, insert_into in *. rewrite F in *.
    rewrite (proj2 (user_row_exists _ _) Hu) in *. cbn in *.
    destruct (existsb _ _) eqn:He; [|eexists; split; [reflexivity|]; split; [done|]; split; [|done]].
    + apply existsb_exists in He as (r & Hr%list_elem_of_In & Ht%bytes_eqb_eq). apply values_elem in Hr as [i Hr]. by destruct (Hfresh i r Hr).
    + destruct (ac_sessions _ !! _) as [r|] eqn:Hr; [|done].
      destruct (rows_ok _ _ _ (wf_sessions _ _ _ W) _ _ Hr) as (_ & Hlt & _). lia.
  - intros s hash C. destruct (pg_session_spec s hash C) as (r & E & Hr). exists r. cbn. unfold reading. by rewrite E.
  - intros s id used expires. by apply (execute_law (OTouchSession id used expires)).
  - intros s hash C. destruct (execute_law (ODeleteSession hash) QDeleteSession _ s ltac:(done) C) as (s' & E & C' & Ha).
    eexists _, s'. split; [exact E|]. by split.
  - intros s id C. destruct (execute_law (ODeleteSessions id) QDeleteSessions _ s ltac:(done) C) as (s' & E & C' & Ha).
    eexists _, s'. split; [exact E|]. by split.
  - intros s hash now C. destruct (execute_law (OConsumeReset hash now) QConsumeReset _ s ltac:(done) C) as (s' & E & C' & Ha).
    eexists _, s'. split; [exact E|]. split; [done|]. split; [done|]. intros user_id. apply reset_answer.
    apply (wf_resets _ _ _ (proj1 C)).
Defined.
End PgLaws.

Section MemLaws.
Context `{ORD : !HashOrder, AUTH : !AuthCrates}.
Local Abbreviation low := (to_ascii_lowercase).

(** The tables without the audit log, which the in-memory store does not constrain. *)
Definition mem_consistent (m : MemAuth) : Prop := accounts_wf low (λ _, ma_next_id m) ((ma_accounts m) <| ac_events := [] |>).

Lemma mem_upsert_law user_id f m : (∀ r, ua_user_id (f r) = ua_user_id r) → (∀ r, ua_oidc_sub (f r) = ua_oidc_sub r) → mem_consistent m →
  user_exists (ma_accounts m) user_id → ∃ m', ok tt (on_accounts (with_user_auth user_id f) m) = (inr tt, m') ∧ mem_consistent m' ∧
    ma_accounts m' = with_user_auth user_id f (ma_accounts m).
Proof.
  intros Hid Hsub C Hu. eexists. split; [reflexivity|]. split; [|done].
  by refine (wf_with_user_auth low _ _ user_id f Hid Hsub _ C).
Qed.
Lemma mem_sub_law (g : Accounts → Accounts) m : mem_consistent m →
  (∀ seq a, accounts_wf low seq a → accounts_wf low seq (g a)) → (∀ a, g (a <| ac_events := [] |>) = (g a) <| ac_events := [] |>) →
  mem_consistent (on_accounts g m).
Proof. intros C Hg He. unfold mem_consistent. cbn. rewrite <- He. by apply Hg. Qed.
Lemma wf_with_sessions lower seq a sessions :
  table_ok (λ id r, as_id r = id ∧ (id < seq TSessions)%N ∧ user_exists a (as_user_id r)) (same_key as_token_hash) sessions →
  accounts_wf lower seq a → accounts_wf lower seq (a <| ac_sessions := sessions |>).
Proof. intros Hs []. by constructor. Qed.
Lemma take_reset_spec hash l : match take_reset hash l with
  | None => List.filter (λ r, r.1.2 =b hash) l = [] ∧ List.filter (λ r, negb (r.1.2 =b hash)) l = l
  | Some (u, e, rest) => NoDup (map (λ r, r.1.2) l) → List.filter (λ r, r.1.2 =b hash) l = [(u, hash, e)] ∧ rest = List.filter (λ r, negb (r.1.2 =b hash)) l
  end.
Proof.
  induction l as [|[[u h] e] l IH]; cbn [take_reset]; [done|]. cbn -[take_reset]. destruct (bytes_eqb_spec h hash) as [->|Hne]; cbn.
  - intros [Hh HN]%NoDup_cons. assert (Hno : ∀ r, r ∈ l → r.1.2 ≠ hash).
    { intros r Hr Heq. apply Hh. rewrite <- Heq. by apply (list_elem_of_fmap_2 (λ r, r.1.2)). }
    clear -Hno. assert (List.filter (λ r, r.1.2 =b hash) l = [] ∧ List.filter (λ r, negb (r.1.2 =b hash)) l = l) as [-> ->]; [|done].
    induction l as [|r l IH]; cbn; [done|]. rewrite (proj2 (bytes_eqb_neq _ _)) by (apply Hno; by constructor). cbn.
    destruct IH as [-> ->]; [|done]. intros x Hx. apply Hno. by constructor.
  - destruct (take_reset hash l) as [[[u' e'] rest]|]; cbn.
    + intros [_ HN]%NoDup_cons. destruct (IH HN) as [-> ->]. done.
    + destruct IH as [-> ->]. done.
Qed.

#[export] Instance MemAuth_laws : AuthStoreLaws MemAuth.
Proof.
  refine {| accounts := ma_accounts; consistent := mem_consistent;
            lookup_email us e := List.find (λ u, eq_ignore_ascii_case (us_email_address u) e) (values us) |}.
  - intros m C. by exists low, (λ _, ma_next_id m).
  - intros m e u C [Hu _]%List.find_some. apply list_elem_of_In, values_elem in Hu as [id Hu].
    by destruct (rows_ok _ _ _ (wf_users _ _ _ C) _ _ Hu) as [-> _].
  - done.
  - done.
  - intros m id d. by apply mem_upsert_law.
  - intros m id secret e. by apply mem_upsert_law.
  - intros m id n l t. by apply mem_upsert_law; intros; unfold login_state; destruct t.
  - intros m now e C. eexists _, _, _. split; [reflexivity|]. split; [|reflexivity].
    apply (wf_mono low (λ _, ma_next_id m)); [intros; cbn; lia | done].
  - intros m now new C Hu Hfresh.
    assert (Hno : ac_sessions (ma_accounts m) !! ma_next_id m = None).
    { destruct (_ !! _) as [r|] eqn:Hr; [|done]. destruct (rows_ok _ _ _ (wf_sessions _ _ _ C) _ _ Hr) as (_ & Hlt & _). cbn in Hlt. lia. }
    eexists (ma_next_id m), _. split; [reflexivity|]. split; [|done].
    assert (W : accounts_wf low (λ _, ma_next_id m + 1)%N ((ma_accounts m) <| ac_events := [] |>)) by (apply (wf_mono low (λ _, ma_next_id m)); [intros; lia | done]).
    apply (wf_with_sessions low _ _ (<[ma_next_id m := session_row now new (ma_next_id m)]> (ac_sessions (ma_accounts m)))) in W; [done|].
    apply table_insert; [| |apply W].
    + cbn. split; [done|]. split; [lia | done].
    + intros j y Hy _. specialize (Hfresh _ _ Hy). cbn in Hfresh. unfold same_key. cbn. naive_solver.
  - intros m hash C. eexists. split; [reflexivity|]. pose proof (wf_sessions _ _ _ C) as [HF HU]. cbn in HF, HU.
    destruct (List.find _ _) as [row|] eqn:Hf; cbn.
    + apply List.find_some in Hf as [Hr%list_elem_of_In Ht%bytes_eqb_eq]. apply values_elem in Hr as [id Hr].
      destruct (HF _ _ Hr) as (Hid & _ & [u Hu]). cbn in Hu. rewrite Hu. cbn. by rewrite Hid.
    + intros id r Hr Ht. pose proof (List.find_none _ _ Hf r) as Hn. cbn in Hn. rewrite Ht, bytes_eqb_refl in Hn.
      discriminate Hn. apply list_elem_of_In, values_elem. by exists id.
  - intros m id used expires C. eexists. split; [reflexivity|]. split; [|done].
    apply mem_sub_law; [done| |done]. intros seq a W. apply wf_with_sessions; [|done]. by apply table_alter; [..|apply W].
  - intros m hash C. cbn. unfold mem_delete_session. destruct (List.find _ _) as [[id r]|] eqn:Hf.
    + apply find_Some_key in Hf as [Hr Ht%bytes_eqb_eq]. cbn in Ht. eexists true, _. split; [reflexivity|].
      assert (Heq : retain (λ _ r, negb (as_token_hash r =b hash)) (ac_sessions (ma_accounts m)) = delete id (ac_sessions (ma_accounts m))).
      { apply map_eq. intros j. apply option_eq. intros x. rewrite lookup_retain, lookup_delete_Some, negb_true_iff, bytes_eqb_neq.
        split; [naive_solver|]. intros [Hj Hx]. split; [done|]. intros Hh. apply Hj.
        eapply (rows_distinct _ _ _ (wf_sessions _ _ _ C)); [exact Hr|exact Hx|]. unfold same_key. congruence. }
      rewrite Heq. split; [|done]. apply mem_sub_law; [done| |done]. intros seq a W. apply wf_with_sessions; [|done]. apply table_delete, W.
    + apply find_None_key in Hf. eexists false, m. split; [reflexivity|]. split; [done|].
      assert (Heq : retain (λ _ r, negb (as_token_hash r =b hash)) (ac_sessions (ma_accounts m)) = ac_sessions (ma_accounts m)).
      { apply map_eq. intros j. apply option_eq. intros x. rewrite lookup_retain. split; [naive_solver|]. intros Hx. split; [done|].
        specialize (Hf _ _ Hx). cbn in Hf. by rewrite Hf. }
      rewrite Heq. by destruct (ma_accounts m).
  - intros m id C. eexists _, _. split; [reflexivity|]. split; [|done]. apply mem_sub_law; [done| |done]. intros seq a W.
    apply wf_with_sessions; [|done]. apply table_retain, W.
  - intros m hash now C. cbn. unfold mem_consume_password_reset. pose proof (take_reset_spec hash (ac_password_resets (ma_accounts m))) as Hs.
    pose proof (wf_resets _ _ _ C) as [HF HN]. cbn in HF, HN.
    pose proof (λ u, reset_answer (ac_password_resets (ma_accounts m)) hash now u HN) as Hanswer.
    destruct (take_reset _ _) as [[[u e] rest]|].
    + destruct (Hs HN) as [Hs1 ->]. eexists _, _. split; [reflexivity|]. split; [|split; [done|]].
      * destruct C. constructor; try done. split; [by apply Forall_filter_bool | by apply NoDup_map_filter].
      * intros user_id. by rewrite <- Hanswer, Hs1.
    + destruct Hs as [Hs1 Hs2]. eexists _, _. split; [reflexivity|]. split; [done|]. rewrite Hs2. split; [by destruct (ma_accounts m)|].
      intros user_id. by rewrite <- Hanswer, Hs1.
Defined.
End MemLaws.
