(* ===== verification/AuthApiFacts.v ===== *)
(** * AuthApiFacts: who is signed in, and for how long

    The account handlers over any store of accounts: a login needs the secrets of the
    account, wrong guesses lock it, a changed or reset password ends its sessions, a
    session lives while it is used, an invitation grants its own role only. *)

From S2P Require Import Prelude RustStr Net Model MemoryStore Concrete Compose ApiSend Auth AuthStore AuthPg AppMailer AuthApi RustStrFacts AuthLaws AuthStoreFacts.

(** ** Stepping through handlers *)

Section Steps.
Context {S : Type}.
Implicit Types (s : S).

Lemma bind_success {A B} (m : Handler S A) (f : A → Handler S B) s b s' :
  (m ≫= f) s = (inr b, s') → ∃ a s1, m s = (inr a, s1) ∧ f a s1 = (inr b, s').
Proof. unfold mbind, handler_bind. destruct (m s) as [[e|a] s1]; [done|]. intros H. by exists a, s1. Qed.
Lemma bind_ok {A B} (m : Handler S A) (f : A → Handler S B) s a s1 : m s = (inr a, s1) → (m ≫= f) s = f a s1.
Proof. intros H. unfold mbind, handler_bind. by rewrite H. Qed.
Lemma bind_error {A B} (m : Handler S A) (f : A → Handler S B) s e s1 : m s = (inl e, s1) → (m ≫= f) s = (inl e, s1).
Proof. intros H. unfold mbind, handler_bind. by rewrite H. Qed.
Lemma call_success {A} (op : S → SRes A * S) s a s' : call op s = (inr a, s') → op s = (inr a, s').
Proof. unfold call. destruct (op s) as [[e|x] s1]; [done|]. by intros [= -> ->]. Qed.
Lemma call_ok {A} (op : S → SRes A * S) s a s' : op s = (inr a, s') → call op s = (inr a, s').
Proof. intros H. unfold call. by rewrite H. Qed.
Lemma attempt_ok {A} (op : S → SRes A * S) s r s' : op s = (r, s') → attempt op s = (inr r, s').
Proof. intros H. unfold attempt. by rewrite H. Qed.
Lemma ignore_ok {A} (op : S → SRes A * S) s r s' : op s = (r, s') → ignore op s = (inr tt, s').
Proof. intros H. unfold ignore. by rewrite H. Qed.
Lemma ignore_run {A} (op : S → SRes A * S) s : ignore op s = (inr tt, (op s).2).
Proof. done. Qed.
Lemma require_success {A} e (o : option A) s a s' : require e o s = (inr a, s') → o = Some a ∧ s' = s.
Proof. unfold require, ok_or. destruct o; [|done]. by intros [= -> ->]. Qed.
Lemma refuse_success b e s u s' : refuse_if b e s = (inr u, s') → b = false ∧ s' = s.
Proof. unfold refuse_if, guard_error. destruct b; [done|]. by intros [= _ ->]. Qed.
Lemma present_spec (p : option bytes) v : present p = Some v → p = Some v ∧ v ≠ [].
Proof. unfold present. destruct p as [p|]; [|done]. cbn. destruct (bool_decide (p = [])) eqn:E; [done|]. intros [= ->]. by apply bool_decide_eq_false in E. Qed.
Lemma param_success name p s v s' : param name p s = (inr v, s') → p = Some v ∧ v ≠ [] ∧ s' = s.
Proof. intros [Hp%present_spec ->]%require_success. naive_solver. Qed.
Lemma param_ok name v s : v ≠ [] → param name (Some v) s = (inr v, s).
Proof. intros Hv. unfold param, require, present. cbn. by rewrite bool_decide_eq_false_2. Qed.
End Steps.

(** Inverts the first step of a successful run [H]: its result, the state after it and
    what it says. *)
Tactic Notation "hstep" hyp(H) "as" simple_intropattern(x) ident(s) ident(Hx) :=
  apply bind_success in H as (x & s & Hx & H); cbv beta iota in H.
Ltac hleaf H := first
  [ apply call_success in H | apply param_success in H as (? & ? & ->) | apply require_success in H as (? & ->)
  | apply refuse_success in H as (? & ->) ].

(** ** Login *)

Section Login.
Context `{CRA : !Crates, AUTH : !AuthCrates} {S : Type} `{STO : !AuthStore S} (config : AuthConfig).

(** C16: a login succeeds only with the secrets of the account.  On any store, whatever
    runs between its operations: the e-mail address given finds an account that is
    neither deactivated nor locked, the password given verifies against its Argon2
    digest, a second factor that is enabled was passed with a code of the current
    thirty seconds or of those just before or after them, and the token returned is
    that of a session the store created for this account. *)
Theorem login_requires_secrets now nonce headers body s answer s' :
  login config now nonce headers body s = (inr answer, s') →
  ∃ email password user a digest s1 s2, lb_email_address body = Some email ∧ lb_password body = Some password ∧
    user_by_email email s = (inr (Some user), s1) ∧ user_auth (us_id user) s1 = (inr (Some a), s2) ∧
    ua_disabled a = false ∧ locked now a = false ∧
    ua_password_digest a = Some digest ∧ argon2_verify password digest = true ∧
    (ua_totp_enabled a = true → ∃ code drift, lb_totp_code body = Some code ∧ drift ∈ [-1; 0; 1]%Z ∧
       totp_code (from_option (λ x, x) [] (ua_totp_secret a)) (saturating_add_signed (unix_time now) (drift * 30)) = Some code) ∧
    ∃ s3 s4 session, create_session now (mkNewAuthSession (us_id user) (hash_token (si_token answer)) (session_end config now) (client_ip headers)
      (user_agent headers) None) s3 = (inr session, s4) ∧ si_user answer = user ∧ si_expires_at answer = as_expires_at session.
Proof.
  unfold login. intros H. hstep H as email s1 He. hleaf He. hstep H as password s1 Hp. hleaf Hp.
  hstep H as found s1 Hu. hleaf Hu. destruct found as [user|]; [|by hstep H as x s2 Hx].
  hstep H as found s2 Ha. hleaf Ha. destruct found as [a|]; [|done].
  destruct (ua_disabled a) eqn:Hd; [by hstep H as x s3 Hx|]. destruct (locked now a) eqn:Hl; [by hstep H as x s3 Hx|].
  destruct (password_matches password a) eqn:Hm; [|hstep H as x s3 Hx; by hstep H as y s4 Hy]. cbn [negb] in H.
  unfold password_matches in Hm. destruct (ua_password_digest a) as [digest|] eqn:Hdig; [|done].
  hstep H as [] s3 Ht. hstep H as [] s4 Hs. hstep H as [token session] s5 Hi. hstep H as [] s6 Hau.
  unfold issue_session, issue_session_with_oidc_logout in Hi. hstep Hi as session' s7 Hc. hleaf Hc.
  injection Hi as <- <- <-. injection H as <- <-. exists email, password, user, a, digest, s1, s2.
  do 8 (split; [done|]). split.
  - intros Hen. rewrite Hen in Ht. destruct (present (lb_totp_code body)) as [code|] eqn:Hcode; [|done].
    apply present_spec in Hcode as [Hcode _]. destruct (verify_totp _ code _) eqn:Hv; [|hstep Ht as x s8 Hx; by hstep Ht as y s9 Hy].
    unfold verify_totp in Hv. destruct (negb _); [done|]. apply existsb_exists in Hv as (drift & Hin & Hv%bool_decide_eq_true).
    exists code, drift. split; [done|]. split; [by apply list_elem_of_In | done].
  - eexists _, _, _. by split.
Qed.
End Login.

(** ** Lockout *)

Section Lockout.
Context `{CRA : !Crates, AUTH : !AuthCrates} {S : Type} `{STO : !AuthStore S, LAWS : !AuthStoreLaws S} (config : AuthConfig).
Implicit Types (s : S) (user : User).

Lemma account_auth_updated a user_id f : account_auth (with_user_auth user_id f a) user_id = f <$> account_auth a user_id.
Proof. unfold account_auth. cbn. destruct (ac_users a !! user_id); cbn; [|done]. by rewrite lookup_insert_eq. Qed.
Lemma account_auth_exists a user_id x : account_auth a user_id = Some x → user_exists a user_id.
Proof. unfold account_auth, user_exists. destruct (ac_users a !! user_id); [|done]. by intros _. Qed.
Lemma audit_ok now headers id email event s : consistent s → ∃ s' events, audit now headers id email event s = (inr tt, s') ∧ consistent s' ∧
  accounts s' = (accounts s) <| ac_events := events |>.
Proof.
  intros C. destruct (record_auth_event_law s now (mkNewAuthEvent id email event (client_ip headers) (user_agent headers)) C)
    as (r & s' & events & E & C' & Ha). exists s', events. split; [by eapply ignore_ok | done].
Qed.

(** The account of a user with these users, digest, count and lock. *)
Definition guessed (users : gmap Id User) user (digest : option bytes) (failed : Z) (until : option datetime) (s : S) : Prop :=
  consistent s ∧ ac_users (accounts s) = users ∧ ∃ a, account_auth (accounts s) (us_id user) = Some a ∧ ua_disabled a = false ∧
    ua_password_digest a = digest ∧ ua_failed_login_attempts a = failed ∧ ua_locked_until a = until.

Record Attempt := mkAttempt { at_time : datetime; at_headers : Headers; at_body : LoginBody }.
(** A login for [user] with a wrong password. *)
Definition wrong_guess (users : gmap Id User) user (digest : option bytes) (x : Attempt) : Prop :=
  ∃ email password, lb_email_address (at_body x) = Some email ∧ lb_password (at_body x) = Some password ∧ email ≠ [] ∧ password ≠ [] ∧
    lookup_email users email = Some user ∧ match digest with Some d => argon2_verify password d = false | None => True end.

Definition locked_at (t : datetime) (until : option datetime) : bool := match until with Some u => (t <? u)%Z | None => false end.

Lemma wrong_guess_outcome users user digest failed until x nonce s : guessed users user digest failed until s → wrong_guess users user digest x →
  ∃ s', if locked_at (at_time x) until
        then login config (at_time x) nonce (at_headers x) (at_body x) s = (inl account_locked, s') ∧ guessed users user digest failed until s'
        else login config (at_time x) nonce (at_headers x) (at_body x) s = (inl invalid_credentials, s') ∧
             let n := ((failed + 1) mod 2 ^ 32)%Z in guessed users user digest n (lock_after config (at_time x) n) s'.
Proof.
  intros (C & Hus & a & Ha & Hdis & Hdig & Hf & Hun) (email & password & He & Hp & Hne & Hnp & Hlook & Hwrong).
  pose proof (user_by_email_law s email C) as Hu. rewrite Hus, Hlook in Hu.
  pose proof (user_auth_law s (us_id user) C) as Hau. rewrite Ha in Hau.
  pose proof (account_auth_exists _ _ _ Ha) as Hex.
  unfold login. rewrite He, Hp. rewrite (bind_ok _ _ _ _ _ (param_ok _ _ s Hne)), (bind_ok _ _ _ _ _ (param_ok _ _ s Hnp)).
  rewrite (bind_ok _ _ _ _ _ (call_ok _ _ _ _ Hu)), (bind_ok _ _ _ _ _ (call_ok _ _ _ _ Hau)), Hdis.
  unfold locked. fold (locked_at (at_time x) (ua_locked_until a)). rewrite Hun. destruct (locked_at (at_time x) until) eqn:Hl.
  - destruct (audit_ok (at_time x) (at_headers x) (Some (us_id user)) (Some email) !"login.locked" s C) as (s' & ev & E & C' & Hs').
    exists s'. rewrite (bind_ok _ _ _ _ _ E). split; [done|]. split; [done|]. rewrite Hs'. split; [done|]. by exists a.
  - assert (Hm : password_matches password a = false) by (unfold password_matches; rewrite Hdig; destruct digest; done).
    rewrite Hm. cbn [negb].
    destruct (set_login_state_law s (us_id user) (next_attempt a) (lock_after config (at_time x) (next_attempt a)) None C Hex) as (s1 & E1 & C1 & Hs1).
    destruct (audit_ok (at_time x) (at_headers x) (Some (us_id user)) (Some email) !"login.failure" s1 C1) as (s' & ev & E & C' & Hs').
    unfold count_failure. rewrite (bind_ok _ _ _ _ _ (ignore_ok _ _ _ _ E1)), (bind_ok _ _ _ _ _ E).
    exists s'. split; [done|]. split; [done|]. rewrite Hs', Hs1. split; [done|]. eexists.
    split; [etransitivity; [apply account_auth_updated | by rewrite Ha]|]. unfold next_attempt. rewrite Hf. done.
Qed.

(** Logins one after the other. *)
Fixpoint logins (l : list (Z * Attempt)) (s : S) : list (Api SignedIn) * S :=
  match l with
  | [] => ([], s)
  | (nonce, x) :: l =>
      let '(r, s) := login config (at_time x) nonce (at_headers x) (at_body x) s in
      let '(rs, s) := logins l s in (r :: rs, s)
  end.
(** The password was looked at. *)
Definition tried (r : Api SignedIn) : bool := match r with inl e => bool_decide (e = invalid_credentials) | inr _ => false end.
Definition tries (rs : list (Api SignedIn)) : Z := Z.of_nat (length (List.filter tried rs)).

Definition lockout : Z := minutes (Z.of_N (au_lockout_minutes config)).
Definition allowed : Z := Z.of_N (au_max_login_attempts config).
Fixpoint in_order (t : datetime) (l : list (Z * Attempt)) : Prop :=
  match l with [] => True | (_, x) :: l => (t <= at_time x)%Z ∧ in_order (at_time x) l end.
Fixpoint last_time (t : datetime) (l : list (Z * Attempt)) : datetime :=
  match l with [] => t | (_, x) :: l => last_time (at_time x) l end.

Lemma last_time_le l : ∀ t, in_order t l → (t <= last_time t l)%Z.
Proof. induction l as [|[n x] l IH]; intros t; cbn; [lia|]. intros [Ht Hl%IH]. lia. Qed.

(** The earliest time the [n]-th try from now can happen. *)
Lemma tries_take_time users user digest l : ∀ t failed until s, (0 <= failed)%Z → (failed + Z.of_nat (length l) < 2 ^ 32)%Z →
  guessed users user digest failed until s → Forall (λ p, wrong_guess users user digest p.2) l → in_order t l →
  let rs := (logins l s).1 in
  Forall (λ r, r = inl account_locked ∨ r = inl invalid_credentials) rs ∧
  (0 < tries rs → Z.max t (from_option id t until) + Z.max 0 (tries rs - 1 - Z.max 0 (allowed - 1 - failed)) * lockout <= last_time t l)%Z.
Proof.
  induction l as [|[nonce x] l IH]; intros t failed until s H0 Hw G Hall Hord; [by split|].
  cbn [length] in Hw. apply Forall_cons in Hall as [Hx Hall]. destruct Hord as [Ht Hord].
  destruct (wrong_guess_outcome users user digest failed until x nonce s G Hx) as [s' Hout]. cbn [logins].
  assert (Hlock : (0 <= lockout)%Z) by (unfold lockout, minutes; lia).
  destruct (locked_at (at_time x) until) eqn:Hl; destruct Hout as [-> G'].
  - destruct (IH (at_time x) failed until s') as [HF Hn]; [done|lia|done|done|done|]. destruct (logins l s') as [rs s'']. cbn in *.
    split; [constructor; [by left | done]|].
    assert (Htr : tries (inl account_locked :: rs) = tries rs) by (unfold tries; cbn; by rewrite bool_decide_eq_false_2).
    rewrite Htr. intros Hpos. specialize (Hn Hpos). destruct until as [u|]; cbn in *; [|done]. lia.
  - set (n := ((failed + 1) mod 2 ^ 32)%Z) in *. assert (Hn1 : n = (failed + 1)%Z) by (apply Z.mod_small; lia).
    destruct (IH (at_time x) n (lock_after config (at_time x) n) s') as [HF Hn]; [lia|lia|done|done|done|].
    destruct (logins l s') as [rs s'']. cbn in *. split; [constructor; [by right | done]|].
    assert (Htr : tries (inl invalid_credentials :: rs) = (tries rs + 1)%Z) by (unfold tries; cbn [List.filter tried]; rewrite bool_decide_eq_true_2 by done; cbn [length]; lia).
    rewrite Htr. intros _. pose proof (last_time_le _ _ Hord) as Hlast.
    assert (Hstart : (Z.max t (from_option id t until) <= at_time x)%Z) by (destruct until as [u|]; cbn in *; [apply Z.ltb_ge in Hl|]; lia).
    assert (Hrs : (0 <= tries rs)%Z) by (unfold tries; lia).
    destruct (decide (tries rs = 0)%Z) as [->|Hne]; [replace (Z.max 0 _) with 0%Z by lia; lia|].
    specialize (Hn ltac:(lia)). unfold lock_after in Hn. fold allowed lockout in Hn. destruct (Z.leb_spec allowed n) as [Hle|Hgt]; cbn in Hn.
    + replace (Z.max 0 (tries rs + 1 - 1 - Z.max 0 (allowed - 1 - failed))) with (Z.max 0 (tries rs - 1 - Z.max 0 (allowed - 1 - n)) + 1)%Z by lia.
      clear -Hn Hstart Hlock. lia.
    + replace (tries rs + 1 - 1 - Z.max 0 (allowed - 1 - failed))%Z with (tries rs - 1 - Z.max 0 (allowed - 1 - n))%Z by lia. lia.
Qed.

(** C17: the lockout bounds the guessing of a password by logins one after the other, on
    a store none of whose statements fails ([AuthStoreLaws]).  Such logins for one
    account with wrong passwords are all refused; and the number of them that were
    looked at beyond the [max_login_attempts] first (one at least) took at least
    [lockout_minutes] each, however the attempts are spread over time, while the count
    of failures stays in a 32-bit word.  Logins that overlap are not covered: [login]
    reads the count, adds one and writes it back in separate statements, so that
    concurrent wrong guesses count once. *)
Theorem guesses_bounded users user digest failed until t l s :
  (0 <= failed)%Z → (failed + Z.of_nat (length l) < 2 ^ 32)%Z → (1 <= allowed)%Z →
  guessed users user digest failed until s → Forall (λ p, wrong_guess users user digest p.2) l → in_order t l →
  let rs := (logins l s).1 in
  Forall (λ r, r = inl account_locked ∨ r = inl invalid_credentials) rs ∧
  ((tries rs - allowed) * lockout <= last_time t l - t)%Z.
Proof.
  intros H0 Hw H1 G Hall Hord. destruct (tries_take_time users user digest l t failed until s) as [HF Hn]; try done.
  split; [done|]. assert (Hlock : (0 <= lockout)%Z) by (unfold lockout, minutes; lia).
  set (n := tries (logins l s).1) in *. pose proof (last_time_le _ _ Hord).
  destruct (Z.leb_spec n allowed); [nia|]. specialize (Hn ltac:(lia)).
  assert (Hb : (n - allowed <= Z.max 0 (n - 1 - Z.max 0 (allowed - 1 - failed)))%Z) by lia. nia.
Qed.
End Lockout.

(** ** Sessions *)

Section Sessions.
Context `{CRA : !Crates, AUTH : !AuthCrates} {S : Type} `{STO : !AuthStore S, LAWS : !AuthStoreLaws S} (config : AuthConfig).
Implicit Types (s : S).

Lemma sessions_ok s : consistent s → ∃ n, table_ok (λ id r, as_id r = id ∧ (id < n)%N ∧ user_exists (accounts s) (as_user_id r))
  (same_key as_token_hash) (ac_sessions (accounts s)).
Proof. intros (lower & seq & W)%consistent_wf. exists (seq TSessions). apply (wf_sessions _ _ _ W). Qed.

(** The session with a token hash, its user and when it expires; or none. *)
Definition session_at (hash : bytes) (session : option (User * datetime)) (s : S) : Prop :=
  consistent s ∧ match session with
  | Some (u, expires) => ∃ id row, ac_sessions (accounts s) !! id = Some row ∧ as_id row = id ∧ as_token_hash row = hash ∧
      as_expires_at row = expires ∧ ac_users (accounts s) !! as_user_id row = Some u
  | None => fresh_session_token (accounts s) hash
  end.

Lemma session_found s hash session : session_at hash session s → ∃ r, session_with_user hash s = (inr r, s) ∧
  match session with
  | Some (u, expires) => ∃ row, r = Some (row, u) ∧ as_expires_at row = expires ∧ as_token_hash row = hash ∧
                         ac_sessions (accounts s) !! as_id row = Some row ∧ ac_users (accounts s) !! as_user_id row = Some u
  | None => r = None
  end.
Proof.
  intros [C Hs]. destruct (session_with_user_law s hash C) as (r & E & Hr). exists r. split; [done|].
  destruct session as [[u expires]|].
  - destruct Hs as (id & row & Hrow & Hid & Ht & He & Hu). destruct r as [[row' u']|]; [|by destruct (Hr id row Hrow)].
    destruct Hr as (Hr & Ht' & Hu'). destruct (sessions_ok s C) as [n [HF HU]].
    assert (as_id row' = id) as Heq by (eapply HU; [exact Hr|exact Hrow|]; unfold same_key; congruence).
    rewrite Heq, Hrow in Hr. injection Hr as ->. exists row'. rewrite Heq. naive_solver.
  - destruct r as [[row' u']|]; [|done]. destruct Hr as (Hr & Ht & _). by destruct (Hs _ _ Hr).
Qed.

(** What happens to a session: the token is presented, or it is logged out. *)
Inductive SessionEvent := Use (t : datetime) | Logout (t : datetime).
Definition event_time (e : SessionEvent) : datetime := match e with Use t | Logout t => t end.

(** The token presented at [t], or logged out by the user of the session. *)
Definition serve (headers : Headers) (token : bytes) (u : User) (e : SessionEvent) (s : S) : bool * S :=
  match e with
  | Use t => let '(r, s) := resolve_session config t token s in (match r with inr current => bool_decide (cu_user current = u) | inl _ => false end, s)
  | Logout t => let '(r, s) := logout config t headers (mkCurrentUser u (hash_token token)) s in (match r with inr _ => true | inl _ => false end, s)
  end.
Fixpoint serve_all (headers : Headers) (token : bytes) (u : User) (l : list SessionEvent) (s : S) : list bool * S :=
  match l with
  | [] => ([], s)
  | e :: l => let '(b, s) := serve headers token u e s in let '(bs, s) := serve_all headers token u l s in (b :: bs, s)
  end.
(** A session that expires at [expires] accepts a use before that, which moves its end;
    it ends by a logout. *)
Fixpoint lifetime (expires : option datetime) (l : list SessionEvent) : list bool :=
  match l with
  | [] => []
  | Use t :: l =>
      match expires with
      | Some e => if (t <? e)%Z then true :: lifetime (Some (session_end config t)) l else false :: lifetime expires l
      | None => false :: lifetime None l
      end
  | Logout _ :: l => true :: lifetime None l
  end.

Lemma fresh_retain a hash : fresh_session_token (a <| ac_sessions := retain (λ _ r, negb (as_token_hash r =b hash)) (ac_sessions a) |>) hash.
Proof. intros id row [_ H]%lookup_retain. by apply negb_true_iff, bytes_eqb_neq in H. Qed.

Lemma serve_use t headers token u session s : session_at (hash_token token) ((λ e, (u, e)) <$> session) s →
  ∃ s', serve headers token u (Use t) s = (match session with Some e => (t <? e)%Z | None => false end, s') ∧
  session_at (hash_token token) ((λ e, (u, if (t <? e)%Z then session_end config t else e)) <$> session) s'.
Proof.
  intros Hs. destruct (session_found _ _ _ Hs) as (r & E & Hr). destruct Hs as [C Hs]. cbn [serve]. unfold resolve_session.
  rewrite (bind_ok _ _ _ _ _ (call_ok _ _ _ _ E)). destruct session as [e|]; cbn in Hr, Hs.
  - destruct Hr as (row & -> & He & Ht & Hrow & Hu). unfold live_session. cbn. rewrite He. destruct (t <? e)%Z eqn:Hlt; cbn.
    + destruct (touch_session_law s (as_id row) t (session_end config t) C) as (s' & E' & C' & Ha). rewrite (bind_ok _ _ s (row, u) s eq_refl),
        (bind_ok _ _ _ _ _ (ignore_ok _ _ _ _ E')). cbn.
      rewrite bool_decide_eq_true_2 by done. exists s'. split; [done|]. split; [done|]. rewrite Ha. cbn.
      exists (as_id row), (row <| as_last_used_at := t |> <| as_expires_at := session_end config t |>).
      rewrite lookup_alter_eq, Hrow. by destruct row.
    + exists s. split; [done|]. split; [done|]. exists (as_id row), row. naive_solver.
  - subst r. exists s. split; [done|]. split; done.
Qed.
Lemma serve_logout t headers token u session s : session_at (hash_token token) ((λ e, (u, e)) <$> session) s →
  ∃ s', serve headers token u (Logout t) s = (true, s') ∧ session_at (hash_token token) None s'.
Proof.
  intros Hs. destruct (session_found _ _ _ Hs) as (r & E & Hr). destruct Hs as [C Hs]. cbn [serve]. unfold logout.
  destruct (delete_session_law s (hash_token token) C) as (b & s1 & E1 & C1 & Ha1).
  rewrite (bind_ok _ _ _ _ _ (attempt_ok _ _ _ _ E)), (bind_ok _ _ _ _ _ (call_ok _ _ _ _ E1)). cbn [cu_user cu_token_hash].
  destruct (audit_ok t headers (Some (us_id u)) (Some (us_email_address u)) !"logout" s1 C1) as (s' & ev & E' & C' & Ha').
  rewrite (bind_ok _ _ _ _ _ E'). exists s'. split; [done|]. split; [done|]. rewrite Ha', Ha1. apply fresh_retain.
Qed.

(** C18: a session lives while it is used.  Whatever uses of its token and logouts come
    one after the other, at whatever times: a use is accepted, as the user of the
    session, exactly when no logout came before it and less than
    [session_timeout_days] have passed since the last accepted use (or, for the first,
    it comes before the session's expiry). *)
Theorem session_lifetime headers token u expires l s :
  session_at (hash_token token) (Some (u, expires)) s → (serve_all headers token u l s).1 = lifetime (Some expires) l.
Proof.
  change (Some (u, expires)) with ((λ e, (u, e)) <$> Some expires). generalize (Some expires) as session. clear expires.
  revert s. induction l as [|e l IH]; intros s session Hs; [done|]. cbn [serve_all]. destruct e as [t|t].
  - destruct (serve_use t headers token u session s Hs) as (s' & -> & Hs').
    destruct session as [e|]; cbn [fmap option_fmap option_map] in Hs'; cbn [lifetime].
    + specialize (IH s' (Some (if (t <? e)%Z then session_end config t else e)) Hs').
      destruct (serve_all headers token u l s') as [bs s'']. cbn in *. rewrite IH. by destruct (t <? e)%Z.
    + specialize (IH s' None Hs'). destruct (serve_all headers token u l s') as [bs s'']. cbn in *. by rewrite IH.
  - destruct (serve_logout t headers token u session s Hs) as (s' & -> & Hs').
    specialize (IH s' None Hs'). destruct (serve_all headers token u l s') as [bs s'']. cbn in *. by rewrite IH.
Qed.
End Sessions.

(** ** Changing and resetting a password *)

Section Passwords.
Context `{CRA : !Crates, AUTH : !AuthCrates} {S : Type} `{STO : !AuthStore S, LAWS : !AuthStoreLaws S} (config : AuthConfig).
Implicit Types (s : S).

(** The new password is the account's, and its sessions are [kept] by token hash. *)
Definition replaced (user_id : Id) (password : bytes) (kept : bytes → Prop) (before after : Accounts) : Prop :=
  (∃ digest, ua_password_digest <$> account_auth after user_id = Some (Some digest) ∧ argon2_verify password digest = true) ∧
  (∀ id row, ac_sessions after !! id = Some row → as_user_id row = user_id → kept (as_token_hash row)) ∧
  (∀ id row, as_user_id row ≠ user_id → ac_sessions after !! id = Some row ↔ ac_sessions before !! id = Some row).

Lemma account_auth_events a events user_id : account_auth (a <| ac_events := events |>) user_id = account_auth a user_id.
Proof. done. Qed.
Lemma digest_set a user_id d : user_exists a user_id →
  ua_password_digest <$> account_auth (with_user_auth user_id (λ r, r <| ua_password_digest := Some d |>) a) user_id = Some (Some d).
Proof.
  intros Hu. rewrite account_auth_updated. unfold account_auth, user_exists in *. destruct (ac_users a !! user_id); [done|]. by destruct Hu.
Qed.

Lemma issue_session_law s now nonce headers user : consistent s → user_exists (accounts s) (us_id user) →
  fresh_session_token (accounts s) (hash_token (generate_auth_token nonce)) →
  let new := mkNewAuthSession (us_id user) (hash_token (generate_auth_token nonce)) (session_end config now) (client_ip headers) (user_agent headers) None in
  ∃ id s', issue_session config now nonce headers user s = (inr (generate_auth_token nonce, session_row now new id), s') ∧ consistent s' ∧
    ac_sessions (accounts s) !! id = None ∧
    accounts s' = (accounts s) <| ac_sessions := <[id := session_row now new id]> (ac_sessions (accounts s)) |>.
Proof.
  intros C Hu Hfresh new. destruct (create_session_law s now new C Hu Hfresh) as (id & s' & E & C' & Hno & Ha).
  exists id, s'. split; [|done]. unfold issue_session, issue_session_with_oidc_logout. by rewrite (bind_ok _ _ _ _ _ (call_ok _ _ _ _ E)).
Qed.
(** The sessions of a user replaced by one. *)
Lemma only_new (sessions : gmap Id AuthSession) user_id id new hash : as_user_id new = user_id → as_token_hash new = hash →
  let others := retain (λ _ r, negb (as_user_id r =? user_id)%N) sessions in
  others !! id = None →
  (∀ i row, <[id := new]> others !! i = Some row → as_user_id row = user_id → as_token_hash row = hash) ∧
  (∀ i row, as_user_id row ≠ user_id → <[id := new]> others !! i = Some row ↔ sessions !! i = Some row).
Proof.
  intros Hown Hhash others Hno. assert (Hothers : ∀ i row, others !! i = Some row ↔ sessions !! i = Some row ∧ as_user_id row ≠ user_id).
  { intros i row. unfold others. by rewrite lookup_retain, negb_true_iff, N.eqb_neq. }
  split; intros i row; rewrite lookup_insert_Some, Hothers.
  - naive_solver.
  - intros Hother. split; [naive_solver|]. intros Hrow. right. split; [|done]. intros ->.
    assert (Hin : others !! i = Some row) by by apply Hothers. by rewrite Hno in Hin.
Qed.

(** C19: a changed password ends the other sessions, on a store none of whose statements
    fails ([AuthStoreLaws]) and with a session token that is not in use.  When a change
    of password succeeds there, the account's digest verifies the new password, its
    only session is the one whose token is returned, and the sessions of other accounts
    are as they were; and it succeeds only if the current password was given, where one
    is set.  The condition matters: [change_password] drops the result of
    [delete_sessions_for_user] and succeeds with the old sessions when that statement
    fails. *)
Theorem password_change_ends_sessions now nonce headers current_password new_password current s token expires s' :
  let user_id := us_id (cu_user current) in
  consistent s → user_exists (accounts s) user_id → fresh_session_token (accounts s) (hash_token (generate_auth_token nonce)) →
  change_password config now nonce headers current_password new_password current s = (inr (token, expires), s') →
  (∀ digest, ua_password_digest <$> account_auth (accounts s) user_id = Some (Some digest) →
     ∃ p, current_password = Some p ∧ argon2_verify p digest = true) ∧
  ∃ password, new_password = Some password ∧ replaced user_id password (λ hash, hash = hash_token token) (accounts s) (accounts s').
Proof.
  intros user_id C Hu Hfresh H. unfold change_password in H. fold user_id in H.
  hstep H as password s1 Hp. hleaf Hp. hstep H as [] s1 Hlen. hleaf Hlen.
  hstep H as auth s1 Ha. hleaf Ha. rewrite user_auth_law in Ha by done. injection Ha as <- <-.
  hstep H as a s1 Hreq. apply require_success in Hreq as [Hreq ->].
  hstep H as [] s1 Hc. apply refuse_success in Hc as [Hc ->]. hstep H as digest s1 Hd. hleaf Hd.
  hstep H as [] s1 Hset. hleaf Hset. destruct (set_password_digest_law s user_id digest C Hu) as (s1' & E1 & C1 & Ha1).
  rewrite E1 in Hset. injection Hset as <-.
  hstep H as [] s2 Hdel. destruct (delete_sessions_for_user_law s1' user_id C1) as (n & s2' & E2 & C2 & Ha2).
  unfold ignore in Hdel. rewrite E2 in Hdel. cbn in Hdel. injection Hdel as <-.
  hstep H as [] s3 Hau. destruct (audit_ok now headers (Some user_id) (Some (us_email_address (cu_user current))) !"password.change" s2' C2)
    as (s3' & ev & E3 & C3 & Ha3). rewrite E3 in Hau. injection Hau as <-.
  hstep H as [token' session] s4 Hi. injection H as <- <- <-.
  rewrite Ha1 in Ha2. rewrite Ha2 in Ha3. destruct (issue_session_law s3' now nonce headers (cu_user current) C3) as (id & s6 & E4 & C4 & Hno & Ha4);
    [rewrite Ha3; exact Hu | rewrite Ha3; intros i row [Hrow _]%lookup_retain; by apply (Hfresh i)|].
  rewrite E4 in Hi. injection Hi as <- <- <-. rewrite Ha3 in Hno. cbn in Hno. split.
  { intros d Hdig. rewrite Hreq in Hdig. cbn in Hdig. injection Hdig as Hdig. unfold confirms in Hc. rewrite Hdig in Hc.
    destruct current_password as [p|]; [|done]. exists p. split; [done|]. by apply negb_false_iff in Hc. }
  exists password. split; [done|]. unfold replaced. rewrite Ha4, Ha3. split; [|by apply only_new].
  exists digest. split; [by apply digest_set | by eapply argon2_hash_verifies].
Qed.

Lemma reset_user_exists s user_id hash expires : consistent s → (user_id, hash, expires) ∈ ac_password_resets (accounts s) → user_exists (accounts s) user_id.
Proof. intros (lower & seq & W)%consistent_wf Hin. destruct (wf_resets _ _ _ W) as [HF _]. rewrite Forall_forall in HF. by apply (HF _ Hin). Qed.
Lemma consumed_fresh a hash : fresh_reset_token (a <| ac_password_resets := List.filter (λ x, negb (x.1.2 =b hash)) (ac_password_resets a) |>) hash.
Proof. apply Forall_forall. cbn. intros r [_ Hr]%list_elem_of_In%filter_In. by apply negb_true_iff, bytes_eqb_neq in Hr. Qed.
Lemma no_sessions_left (sessions : gmap Id AuthSession) user_id :
  let others := retain (λ _ r, negb (as_user_id r =? user_id)%N) sessions in
  (∀ i row, others !! i = Some row → as_user_id row = user_id → False) ∧
  (∀ i row, as_user_id row ≠ user_id → others !! i = Some row ↔ sessions !! i = Some row).
Proof. intros others. subst others. split; intros i row; rewrite lookup_retain, negb_true_iff, N.eqb_neq; naive_solver. Qed.

Lemma fresh_token_refused now nonce headers token p s r s' : consistent s → fresh_reset_token (accounts s) (hash_token token) →
  password_reset_complete config now nonce headers (Some token) p s = (r, s') → r ≠ inr tt.
Proof.
  intros C Hfresh H ->. unfold password_reset_complete in H. hstep H as t s1 Ht. hleaf Ht. injection H0 as <-.
  hstep H as pw s1 Hp. hleaf Hp. hstep H as [] s1 Hl. hleaf Hl. hstep H as found s1 Hc. hleaf Hc.
  destruct (consume_password_reset_law s (hash_token token) now C) as (x & s2 & E & _ & _ & Hx). rewrite E in Hc. injection Hc as <- <-.
  hstep H as user_id s3 Hr. hleaf Hr. subst x. destruct (proj1 (Hx user_id) eq_refl) as (e & Hin & _).
  unfold fresh_reset_token in Hfresh. rewrite Forall_forall in Hfresh. by destruct (Hfresh _ Hin).
Qed.

(** C20: a reset token works once, for its account, while it lasts, on a store none of
    whose statements fails ([AuthStoreLaws]).  When a reset succeeds there, its token was outstanding for the account and had not expired, the
    account is not deactivated, its digest verifies the new password, all its sessions
    are gone and it is unlocked, the sessions of other accounts are as they were; and
    whoever presents the token again is refused.  The condition matters: the results of
    deleting the sessions and of unlocking the account are dropped, and a failing read
    of the account is taken for one that is not deactivated. *)
Theorem reset_token_single_use now nonce headers token new_password s s' : consistent s →
  password_reset_complete config now nonce headers (Some token) new_password s = (inr tt, s') →
  ∃ user_id expires password a, (user_id, hash_token token, expires) ∈ ac_password_resets (accounts s) ∧ (now <= expires)%Z ∧
    new_password = Some password ∧ replaced user_id password (λ _, False) (accounts s) (accounts s') ∧
    account_auth (accounts s') user_id = Some a ∧ ua_disabled a = false ∧ locked now a = false ∧ ua_failed_login_attempts a = 0%Z ∧
    ∀ later n h p r s'', password_reset_complete config later n h (Some token) p s' = (r, s'') → r ≠ inr tt.
Proof.
  intros C H. unfold password_reset_complete in H. hstep H as t s1 Ht. hleaf Ht. injection H0 as <-.
  hstep H as password s1 Hp. hleaf Hp. hstep H as [] s1 Hl. hleaf Hl. hstep H as found s1 Hc. hleaf Hc.
  destruct (consume_password_reset_law s (hash_token token) now C) as (x & s1' & E1 & C1 & Ha1 & Hx). rewrite E1 in Hc. injection Hc as <- <-.
  hstep H as user_id s2 Hr. hleaf Hr. subst x. destruct (proj1 (Hx user_id) eq_refl) as (expires & Hin & Hnow).
  pose proof (reset_user_exists _ _ _ _ C Hin) as Hu. assert (Hu1 : user_exists (accounts s1') user_id) by by rewrite Ha1.
  hstep H as auth s2 Hau. unfold attempt in Hau. rewrite user_auth_law in Hau by done. injection Hau as <- <-.
  hstep H as [] s2 Hdis. hleaf Hdis. hstep H as digest s2 Hd. hleaf Hd. hstep H as [] s2 Hset. hleaf Hset.
  destruct (set_password_digest_law s1' user_id digest C1 Hu1) as (s2' & E2 & C2 & Ha2). rewrite E2 in Hset. injection Hset as <-.
  hstep H as [] s3 Hdel. destruct (delete_sessions_for_user_law s2' user_id C2) as (n & s3' & E3 & C3 & Ha3).
  unfold ignore in Hdel. rewrite E3 in Hdel. injection Hdel as <-.
  assert (Hu3 : user_exists (accounts s3') user_id) by by rewrite Ha3, Ha2.
  hstep H as [] s4 Hlog. destruct (set_login_state_law s3' user_id 0 None None C3 Hu3) as (s4' & E4 & C4 & Ha4).
  unfold ignore in Hlog. rewrite E4 in Hlog. injection Hlog as <-.
  destruct (audit_ok now headers (Some user_id) None !"password.reset_complete" s4' C4) as (s5 & ev & E5 & C5 & Ha5).
  rewrite E5 in H. injection H as <-. rewrite Ha2 in Ha3. rewrite Ha3 in Ha4. rewrite Ha4 in Ha5.
  destruct (account_auth (accounts s1') user_id) as [a|] eqn:Hacc; [|unfold account_auth, user_exists in *; destruct (ac_users (accounts s1') !! user_id); [done | by destruct Hu1]].
  set (a' := (login_state 0 None None (a <| ua_password_digest := Some digest |>))).
  assert (Hacc' : account_auth (accounts s5) user_id = Some a').
  { rewrite Ha5, account_auth_events, account_auth_updated. change (account_auth _ user_id) with
      (account_auth (with_user_auth user_id (λ r, r <| ua_password_digest := Some digest |>) (accounts s1')) user_id).
    by rewrite account_auth_updated, Hacc. }
  exists user_id, expires, password, a'. do 3 (split; [done|]). split; [|do 4 (split; [done|])].
  - split; [exists digest; rewrite Hacc'; split; [done | by eapply argon2_hash_verifies]|]. rewrite Ha5. cbn. rewrite Ha1. apply no_sessions_left.
  - intros later n' h p r s''. apply fresh_token_refused; [done|]. rewrite Ha5. cbn. rewrite Ha1. apply consumed_fresh.
Qed.

End Passwords.

(** ** Asking for a reset, and invitations *)

Section Requests.
Context `{CRA : !Crates, AUTH : !AuthCrates} {S : Type} `{STO : !AuthStore S, HOOKS : !AccountHooks S} (config : AuthConfig).
Implicit Types (s : S).

(** asking for a password reset says nothing about accounts.  On any store, in any
    state, also when its operations fail, a request with an e-mail address gets the
    same answer. *)
Theorem reset_request_says_nothing now nonce headers email s : email ≠ [] →
  (password_reset_request config now nonce headers (Some email) s).1 = inr tt.
Proof.
  intros He. unfold password_reset_request. rewrite (bind_ok _ _ _ _ _ (param_ok _ _ s He)).
  destruct (user_by_email email s) as [found s1] eqn:Hu. rewrite (bind_ok _ _ _ _ _ (attempt_ok _ _ _ _ Hu)).
  destruct found as [e|[user|]]; [done| |done].
  destruct (user_auth (us_id user) s1) as [auth s2] eqn:Ha. rewrite (bind_ok _ _ _ _ _ (attempt_ok _ _ _ _ Ha)).
  destruct (is_disabled auth); [done|]. unfold audit. rewrite !(bind_ok _ _ _ _ _ (ignore_run _ _)).
  destruct (frontend_link _ _ _); [|done]. destruct (au_app_mail config); [|done].
  unfold effect, mbind, handler_bind. by destruct (deliver _ _ _ _).
Qed.

(** C21: an invitation grants its own role, once, and no session for an account that
    exists.  When an invitation is accepted, on any store, the token given is that of
    an invitation that was open and has not expired; the membership stored is of its
    organization with its role, for the account its address finds, or else for one
    created with a password that is long enough; the invitation is marked as
    accepted; and a session is issued only for an account this request created. *)
Theorem invitation_grants_its_role now nonce headers body s x s' :
  invitation_accept config now nonce headers body s = (inr x, s') →
  ∃ token invitation s1 existing s2, ab_token body = Some token ∧
    invitation_by_token_hash (hash_token token) s = (inr (Some invitation), s1) ∧
    in_accepted_at invitation = None ∧ (now <= in_expires_at invitation)%Z ∧
    user_by_email (in_email_address invitation) s1 = (inr existing, s2) ∧
    match existing with
    | Some user => ax_user x = user ∧ ax_account_created x = false ∧ ax_session x = None
    | None => ax_account_created x = true ∧ ∃ password s3, ab_password body = Some password ∧ too_short config password = false ∧
        create_user (mkNewUser (in_email_address invitation) (from_option id [] (ab_first_name body)) (from_option id [] (ab_last_name body)) false) s2
        = (inr (ax_user x), s3)
    end ∧
    ∃ s4 membership s5 s6, upsert_membership now (in_organization_id invitation) (us_id (ax_user x)) (in_role invitation) s4 = (inr membership, s5) ∧
      mark_invitation_accepted now (in_id invitation) s5 = (inr tt, s6).
Proof.
  unfold invitation_accept. intros H. hstep H as token s1 Ht. hleaf Ht. hstep H as invitation s1 Hi.
  unfold open_invitation in Hi. hstep Hi as found s2 Hf. hleaf Hf. hstep Hi as i s3 Hr. hleaf Hr.
  hstep Hi as [] s3 Hg. hleaf Hg. injection Hi as -> <-. apply orb_false_iff in H3 as [Hacc%bool_decide_eq_false Hexp%Z.ltb_ge].
  hstep H as [user created] s3 Hu. hstep H as m s4 Hm. hleaf Hm. hstep H as [] s5 Hmark. hleaf Hmark. hstep H as [] s6 Hau.
  unfold invited_user in Hu. hstep Hu as existing s7 He. hleaf He.
  exists token, invitation, s2, existing, s7. split; [done|]. split; [by rewrite Hf, H2|].
  split; [destruct (in_accepted_at invitation); [by destruct Hacc | done]|]. split; [done|]. split; [done|].
  assert (Hx : ax_user x = user ∧ ax_account_created x = created ∧ (created = false → ax_session x = None)).
  { destruct created; [hstep H as [tok ses] s8 Hs|]; by injection H as <- _. }
  destruct Hx as (-> & -> & Hses). split; [|by eexists _, _, _, _].
  destruct existing as [u|]; [injection Hu as <- <- _; by auto|].
  hstep Hu as password s8 Hp. hleaf Hp. hstep Hu as [] s8 Hl. hleaf Hl. hstep Hu as u s8 Hc. hleaf Hc.
  hstep Hu as digest s9 Hd. hstep Hu as [] s10 Hs. hstep Hu as [] s11 Hev. injection Hu as <- <- _. naive_solver.
Qed.
End Requests.

(** ** Witnesses *)

(** An installation without platform mail, lifecycle webhooks and starter workspaces. *)
Definition plain_hooks : AccountHooks PgAuth :=
  {| deliver _ _ _ s := (false, s); user_registered _ _ _ s := (tt, s); bootstrap_workspace _ _ _ _ s := (None, s);
     confirm_sender_address _ s := (inr None, s) |}.
Definition concrete_auth : AuthCrates.
Proof.
  refine {| argon2_hash _ p := Some p; argon2_verify p d := p =b d; hmac_sha1 _ _ := replicate 20 0%N; auth_token n := !"token-" ++ show_Z n;
            random_bytes n := show_Z n; account_uuid n := show_N n |}.
  - intros _ p d [= <-]. apply bytes_eqb_refl.
  - split; [done|]. by apply Forall_replicate.
Defined.

Definition fx_auth_config : AuthConfig := mkAuthConfig 14 2 15 8 true false false 7 2 None false !"https" !"mail.example.com".
Definition fx_no_headers : Headers := λ _, None.
Definition fx_org : Organization := mkOrganization 1 !"uuid" !"Example" !"example" false.

#[local] Existing Instances concrete_crates concrete_order concrete_auth plain_hooks.
Definition fx_accounts (ops : list AuthOp) : PgAuth :=
  replay to_ascii_lowercase bytes_le (map (λ op, ((λ _, false), op)) ops)
    (mkPgAuth (accounts_empty <| ac_organizations := {[1%N := fx_org]} |>) (λ _, 1%N) (λ _, false)).
#[local] Instance fx_auth_store : AuthStore PgAuth := PgAuth_store to_ascii_lowercase bytes_le.
#[local] Instance fx_auth_laws : AuthStoreLaws PgAuth := PgAuth_laws to_ascii_lowercase bytes_le.

Lemma fx_accounts_consistent ops : consistent (fx_accounts ops).
Proof.
  split.
  - apply replay_wf, accounts_empty_wf.
  - unfold fx_accounts. set (s := mkPgAuth _ _ _). assert (Hs : ∀ q, pa_failing s q = false) by done. clearbody s. revert s Hs.
    induction ops as [|op ops IH]; intros s Hs; [done|]. cbn [map replay]. apply IH. intros q.
    by rewrite run_failing.
Qed.

(** Ada has a password and a session, and has asked for a reset. *)
Definition fx_ada : User := mkUser 1 !"1" !"ada@example.com" !"Ada" !"L" false.
Definition fx_day : datetime := (86400 * 1000000000)%Z.
Definition fx_db : PgAuth := fx_accounts
  [OCreateUser (mkNewUser !"ada@example.com" !"Ada" !"L" false); OSetPassword 1 !"correct horse";
   OCreateSession 0 (mkNewAuthSession 1 (hash_token !"old") (14 * fx_day) None None None);
   OCreateReset 1 (hash_token !"reset") (hours 2);
   OCreateInvitation (mkNewInvitation 1 !"bob@example.com" Member (hash_token !"invite") 1 (7 * fx_day))].
Definition fx_login (password : bytes) : LoginBody := mkLoginBody (Some !"Ada@example.com") (Some password) None.
Definition outcome {A S} (r : Api A * S) : option A := match r.1 with inr a => Some a | inl _ => None end.


Lemma login_requires_secrets_witness : ∃ email password user a digest s1 s2,
  lb_email_address (fx_login !"correct horse") = Some email ∧ lb_password (fx_login !"correct horse") = Some password ∧
  user_by_email email fx_db = (inr (Some user), s1) ∧ user_auth (us_id user) s1 = (inr (Some a), s2) ∧
  ua_password_digest a = Some digest ∧ argon2_verify password digest = true.
Proof.
  destruct (login fx_auth_config 5 1 fx_no_headers (fx_login !"correct horse") fx_db) as [[e|answer] s'] eqn:E; [exfalso; revert E; vm_compute; done|].
  destruct (login_requires_secrets fx_auth_config 5 1 fx_no_headers (fx_login !"correct horse") fx_db answer s' E)
    as (email & password & user & a & digest & s1 & s2 & H1 & H2 & H3 & H4 & _ & _ & H5 & H6 & _).
  exists email, password, user, a, digest, s1, s2. auto 10.
Defined.

(** Four wrong guesses within a minute: two are looked at. *)
Definition fx_guesses : list (Z * Attempt) :=
  map (λ t, (t, mkAttempt (t * 1000000000) fx_no_headers (fx_login !"wrong password"))) [10; 20; 30; 40]%Z.
Lemma guesses_bounded_witness :
  let rs := (logins fx_auth_config fx_guesses fx_db).1 in
  tries rs = 2%Z ∧ ((tries rs - 2) * lockout fx_auth_config <= last_time 0 fx_guesses - 0)%Z.
Proof.
  split; [by vm_compute|].
  apply (guesses_bounded fx_auth_config (ac_users (accounts fx_db)) fx_ada (Some !"correct horse") 0 None 0 fx_guesses fx_db); try done.
  - split; [apply fx_accounts_consistent|]. split; [done|]. eexists. split; [vm_compute; reflexivity|]. by vm_compute.
  - repeat constructor; eexists _, _; by vm_compute.
Defined.

Lemma session_lifetime_witness :
  (serve_all fx_auth_config fx_no_headers !"old" fx_ada [Use fx_day; Use (14 * fx_day); Use (29 * fx_day); Logout (29 * fx_day); Use (29 * fx_day)]%Z fx_db).1
  = [true; true; false; true; false].
Proof.
  rewrite (session_lifetime fx_auth_config fx_no_headers !"old" fx_ada (14 * fx_day) _ fx_db); [by vm_compute|].
  split; [apply fx_accounts_consistent|]. eexists 1%N, _. split; [vm_compute; reflexivity|]. by vm_compute.
Defined.

Lemma password_change_ends_sessions_witness : ∃ token expires s',
  change_password fx_auth_config 5 1 fx_no_headers (Some !"correct horse") (Some !"battery staple") (mkCurrentUser fx_ada (hash_token !"old")) fx_db
    = (inr (token, expires), s') ∧
  replaced 1 !"battery staple" (λ hash, hash = hash_token token) (accounts fx_db) (accounts s').
Proof.
  destruct (change_password fx_auth_config 5 1 fx_no_headers (Some !"correct horse") (Some !"battery staple") (mkCurrentUser fx_ada (hash_token !"old")) fx_db)
    as [[e|[token expires]] s'] eqn:E; [exfalso; revert E; vm_compute; done|].
  exists token, expires, s'. split; [done|].
  assert (Hfresh : fresh_session_token (accounts fx_db) (hash_token (generate_auth_token 1))).
  { apply map_Forall_to_list. vm_compute. by repeat constructor. }
  destruct (password_change_ends_sessions fx_auth_config 5 1 fx_no_headers (Some !"correct horse") (Some !"battery staple")
    (mkCurrentUser fx_ada (hash_token !"old")) fx_db token expires s' (fx_accounts_consistent _) (ex_intro _ fx_ada eq_refl) Hfresh E)
    as (_ & p & Hp & Hr). by injection Hp as <-.
Defined.

Lemma reset_token_single_use_witness : ∃ s',
  password_reset_complete fx_auth_config 5 1 fx_no_headers (Some !"reset") (Some !"battery staple") fx_db = (inr tt, s') ∧
  ∀ later n h p r s'', password_reset_complete fx_auth_config later n h (Some !"reset") p s' = (r, s'') → r ≠ inr tt.
Proof.
  destruct (password_reset_complete fx_auth_config 5 1 fx_no_headers (Some !"reset") (Some !"battery staple") fx_db) as [[e|[]] s'] eqn:E;
    [exfalso; revert E; vm_compute; done|].
  exists s'. split; [done|].
  by destruct (reset_token_single_use fx_auth_config 5 1 fx_no_headers !"reset" _ fx_db s' (fx_accounts_consistent _) E)
    as (? & ? & ? & ? & _ & _ & _ & _ & _ & _ & _ & _ & Hagain).
Defined.

Lemma reset_request_says_nothing_witness : (password_reset_request fx_auth_config 5 1 fx_no_headers (Some !"nobody@example.com") fx_db).1 = inr tt.
Proof. by apply reset_request_says_nothing. Defined.

Lemma invitation_grants_its_role_witness : ∃ x s' invitation s1,
  invitation_accept fx_auth_config 5 1 fx_no_headers (mkAcceptInvitation (Some !"invite") None None (Some !"tables turned")) fx_db = (inr x, s') ∧
  invitation_by_token_hash (hash_token !"invite") fx_db = (inr (Some invitation), s1) ∧ in_role invitation = Member.
Proof.
  destruct (invitation_accept fx_auth_config 5 1 fx_no_headers (mkAcceptInvitation (Some !"invite") None None (Some !"tables turned")) fx_db)
    as [[e|x] s'] eqn:E; [exfalso; revert E; vm_compute; done|].
  destruct (invitation_grants_its_role fx_auth_config 5 1 fx_no_headers _ fx_db x s' E) as (token & i & s1 & ? & ? & [= <-] & Hi & _).
  exists x, s', i, s1. split; [done|]. split; [done|]. revert Hi. vm_compute. by intros [= <- _].
Defined.
