(* ===== verification/HandlerLogic.v ===== *)
(** * HandlerLogic: what a handler keeps

    A program logic for handlers and store operations: [keeps K h Q] says that [h]
    keeps the invariant [K] of the store, also when it fails, and that a result it
    gives satisfies [Q].  Handlers are verified rule by rule, and a store operation
    once for all the handlers that call it. *)

From S2P Require Import Prelude RustStr Net Model MemoryStore Compose ApiSend Auth AuthStore AppMailer AuthApi.

Section Logic.
Context {S : Type} (K : S → Prop).

Definition keeps {E A} (h : S → (E + A) * S) (Q : A → Prop) : Prop := ∀ s, K s → K (h s).2 ∧ ∀ a, (h s).1 = inr a → Q a.
(** A hook, which does not fail. *)
Definition keeps_hook {A} (h : S → A * S) : Prop := ∀ s, K s → K (h s).2.

Lemma rule_weaken {E A} (h : S → (E + A) * S) (Q Q' : A → Prop) : keeps h Q → (∀ a, Q a → Q' a) → keeps h Q'.
Proof. intros Hh HQ s Hs. destruct (Hh s Hs) as [? Ha]. split; [done|]. intros a E'. by apply HQ, Ha. Qed.
Lemma rule_any {E A} (h : S → (E + A) * S) (Q : A → Prop) : keeps h Q → keeps h (λ _, True).
Proof. intros Hh. by eapply rule_weaken. Qed.
Lemma rule_same {E A} (h : S → (E + A) * S) : (∀ s, (h s).2 = s) → keeps h (λ _, True).
Proof. intros Hh s Hs. rewrite Hh. by split. Qed.

(** The rules. *)
Lemma rule_ret {A} (a : A) (Q : A → Prop) : Q a → keeps (mret a : Handler S A) Q.
Proof. intros HQ s Hs. split; [done|]. by intros ? [= <-]. Qed.
Lemma rule_bind {A B} (h : Handler S A) (f : A → Handler S B) (R : A → Prop) (Q : B → Prop) :
  keeps h R → (∀ a, R a → keeps (f a) Q) → keeps (h ≫= f) Q.
Proof.
  intros Hh Hf s Hs. destruct (Hh s Hs) as [Hs' HR]. unfold mbind, handler_bind. destruct (h s) as [[e|a] s']; cbn in *; [done|].
  by apply Hf; [apply HR|].
Qed.
Lemma rule_assoc {A B C} (h : Handler S A) (f : A → Handler S B) (g : B → Handler S C) (Q : C → Prop) :
  keeps (h ≫= λ a, f a ≫= g) Q → keeps ((h ≫= f) ≫= g) Q.
Proof. intros Hh s Hs. specialize (Hh s Hs). unfold mbind, handler_bind in *. by destruct (h s) as [[e|a] s']. Qed.
Lemma rule_fail {A} e (Q : A → Prop) : keeps (fail e : Handler S A) Q.
Proof. intros s Hs. by split. Qed.
Lemma rule_require {A} e (o : option A) (Q : A → Prop) : (∀ a, o = Some a → Q a) → keeps (require e o : Handler S A) Q.
Proof. intros HQ s Hs. split; [done|]. unfold require. cbn. destruct o; [|done]. intros ? [= <-]. by apply HQ. Qed.
Lemma rule_present {A B} e (a : A) (f : A → Handler S B) (Q : B → Prop) : keeps (f a) Q → keeps (require e (Some a) ≫= f) Q.
Proof. done. Qed.
Lemma rule_refuse b e (Q : unit → Prop) : (b = false → Q tt) → keeps (refuse_if b e : Handler S unit) Q.
Proof. intros HQ s Hs. split; [done|]. unfold refuse_if, guard_error. cbn. destruct b; [done|]. intros [] _. by apply HQ. Qed.
Lemma rule_call {A} (op : S → SRes A * S) (Q : A → Prop) : keeps op Q → keeps (call op) Q.
Proof. intros Hop s Hs. destruct (Hop s Hs) as [H1 H2]. unfold call. destruct (op s) as [[e|a] s']; cbn in *; [done|]. split; [done|]. intros a' [= <-]. by apply H2. Qed.
Lemma rule_attempt {A} (op : S → SRes A * S) (Q : A → Prop) :
  keeps op Q → keeps (attempt op) (λ r, match r with inr a => Q a | inl _ => True end).
Proof. intros Hop s Hs. destruct (Hop s Hs) as [H1 H2]. unfold attempt. destruct (op s) as [[e|a] s']; cbn in *; (split; [done|]); intros r [= <-]; [done|]. by apply H2. Qed.
Lemma rule_ignore {A} (op : S → SRes A * S) (Q : A → Prop) : keeps op Q → keeps (ignore op) (λ _, True).
Proof. intros Hop s Hs. destruct (Hop s Hs) as [H1 _]. split; [|done]. by unfold ignore. Qed.
Lemma rule_effect {A} (op : S → A * S) : keeps_hook op → keeps (effect op) (λ _, True).
Proof. intros Hop s Hs. specialize (Hop s Hs). unfold effect. by destruct (op s). Qed.
(** The same, with nothing to say of the result. *)
Lemma rule_ret_any {A} (a : A) : keeps (mret a : Handler S A) (λ _, True).
Proof. by apply rule_ret. Qed.
Lemma rule_require_any {A} e (o : option A) : keeps (require e o : Handler S A) (λ _, True).
Proof. by apply rule_require. Qed.
Lemma rule_refuse_any b e : keeps (refuse_if b e : Handler S unit) (λ _, True).
Proof. by apply rule_refuse. Qed.
(** A parameter of the request. *)
Lemma rule_param name p : keeps (param name p : Handler S bytes) (λ _, True).
Proof. by apply rule_require. Qed.
End Logic.

(** A computation that only reads, in front of another. *)
Lemma rule_read {S A B} s (h : Handler S A) (f : A → Handler S B) (R : A → Prop) (P : (ApiError + B) * S → Prop) :
  keeps (eq s) h R → (∀ e, P (inl e, s)) → (∀ a, R a → P (f a s)) → P ((h ≫= f) s).
Proof.
  intros Hh He Hf. destruct (Hh s eq_refl) as [Hs HR]. unfold mbind, handler_bind. destruct (h s) as [[e|a] s'] eqn:E; cbn in *; subst s'.
  - apply He.
  - by apply Hf, HR.
Qed.

(** Runs through a handler by the rules.  [kop] and [khook] are what is known of the
    operations and the hooks, [khandler] of the handlers it calls, [kside] what a result
    has to satisfy; a handler of which nothing is known is unfolded. *)
Ltac kop := fail.
Ltac khook := fail.
Ltac khandler := fail.
Ltac kside := first [eassumption | done].
Ltac kunfold h := let rec head t := lazymatch t with ?f _ => head f | _ => t end in let f := head h in progress unfold f.
Ltac kop_any := first [kop | eapply rule_any; kop].
Ltac krun :=
  lazymatch goal with
  | |- keeps _ (_ ≫= _) _ => eapply rule_bind; [krun | let a := fresh "a" in let Ha := fresh "Ha" in intros a Ha; cbv beta in Ha; krun]
  | |- keeps _ (mret _) _ => first [apply rule_ret_any | apply rule_ret; kside]
  | |- keeps _ (fail _) _ => apply rule_fail
  | |- keeps _ (require _ _) _ => first [apply rule_require; match goal with H : ∀ _, _ = Some _ → _ |- _ => exact H end | apply rule_require_any | apply rule_require; kside]
  | |- keeps _ (refuse_if _ _) _ => first [apply rule_refuse_any | apply rule_refuse; kside]
  | |- keeps _ (param _ _) _ => apply rule_param
  | |- keeps _ (call _) _ => apply rule_call; kop_any
  | |- keeps _ (attempt _) _ => eapply rule_attempt; kop_any
  | |- keeps _ (ignore _) _ => eapply rule_ignore; kop_any
  | |- keeps _ (effect _) _ => apply rule_effect; khook
  | |- keeps _ (match ?x with _ => _ end) _ => destruct x eqn:?; krun
  | |- keeps _ ?h _ => first [khandler | eapply rule_any; khandler | kunfold h; cbv beta zeta; krun]
  end.
