(* ===== verification/Tenancy.v ===== *)
(** * Tenancy: the tables of a deployment, and what is whose

    The constraints of the migrations and of the handlers as a type of deployments
    ([deployment_wf]), and the rows that belong to a set of organizations
    ([restrict]).  Every statement of [AdminPg] keeps the type, and one whose
    arguments name no row of a set of organizations keeps their rows. *)

From S2P Require Import Prelude RustStr Net Model SendLimit MemoryStore Queue MailDb PgSink Housekeeping PgStore Compose ApiSend.
From S2P Require Import Auth AuthStore AuthPg AppMailer AdminStore AdminPg Workspace AuthApi RustStrFacts MemoryFacts AuthStoreFacts HandlerLogic.

(** ** Tables *)

(** Primary keys below the next id, a unique key, and a property of each row. *)
Section Rows.
Context {A K : Type} (id : A → Id) (key : A → K).
Implicit Types (l : list A) (P Q : A → bool).

Record Rows (each : A → Prop) (next : Id) (l : list A) : Prop := mkRows {
  rows_ids : NoDup (map id l);
  rows_keys : NoDup (map key l);
  rows_each : Forall (λ x, (id x < next)%N ∧ each x) l;
}.

Lemma map_modify {B} (f : A → B) P g l : (∀ x, f (g x) = f x) → map f (modify P g l) = map f l.
Proof. intros Hf. unfold modify. rewrite map_map. apply map_ext. intros x. destruct (P x); [apply Hf | done]. Qed.
Lemma modify_elem P g l x : x ∈ l → (if P x then g x else x) ∈ modify P g l.
Proof. intros Hx. apply list_elem_of_fmap. by exists x. Qed.
Lemma discard_elem P l x : x ∈ discard P l ↔ x ∈ l ∧ P x = false.
Proof. unfold discard. by rewrite list_elem_of_In, filter_In, negb_true_iff, <- list_elem_of_In. Qed.
Lemma NoDup_discard {B} (f : A → B) P l : NoDup (map f l) → NoDup (map f (discard P l)).
Proof. apply NoDup_map_filter. Qed.
Lemma NoDup_snoc {B} (f : A → B) l x : NoDup (map f l) → f x ∉ map f l → NoDup (map f (l ++ [x])).
Proof.
  intros Hl Hx. rewrite map_app. apply NoDup_app. split; [done|]. split; [|apply NoDup_singleton].
  by intros y Hy ->%list_elem_of_singleton.
Qed.

Lemma rows_below each next l x : Rows each next l → x ∈ l → (id x < next)%N ∧ each x.
Proof. intros HR Hx. by apply (proj1 (Forall_forall _ _) (rows_each _ _ _ HR)). Qed.
Lemma rows_fresh each next l : Rows each next l → next ∉ map id l.
Proof. intros HR (x & Hx & Hin)%list_elem_of_fmap. destruct (rows_below _ _ _ _ HR Hin). lia. Qed.
Lemma rows_weaken (each each' : A → Prop) next next' l :
  (next <= next')%N → (∀ x, x ∈ l → each x → each' x) → Rows each next l → Rows each' next' l.
Proof.
  intros Hle Himp HR. pose proof HR as [Hi Hk He]. split; [done..|]. apply Forall_forall. intros x Hx.
  destruct (rows_below _ _ _ _ HR Hx). split; [lia|]. by apply Himp.
Qed.
Lemma rows_append (each each' : A → Prop) next l x :
  (∀ y, each y → each' y) → id x = next → key x ∉ map key l → each' x → Rows each next l → Rows each' (next + 1) (l ++ [x]).
Proof.
  intros Himp Hid Hkey Hx HR. pose proof (rows_fresh _ _ _ HR) as Hfresh. pose proof HR as [Hi Hk He].
  split; [by apply NoDup_snoc; rewrite ?Hid | by apply NoDup_snoc |].
  apply Forall_app. split.
  - eapply Forall_impl; [exact He|]. cbn. intros y [??]. split; [lia | by apply Himp].
  - constructor; [|constructor]. split; [lia | done].
Qed.
Lemma rows_modify (each each' : A → Prop) next P f l :
  (∀ x, id (f x) = id x) → (∀ x, key (f x) = key x) → (∀ x, x ∈ l → P x = true → each x → each' (f x)) →
  (∀ x, x ∈ l → P x = false → each x → each' x) → Rows each next l → Rows each' next (modify P f l).
Proof.
  intros Hid Hkey Hf Hother HR. pose proof HR as [Hi Hk He]. split; [by rewrite map_modify..|].
  apply Forall_forall. intros y Hy. apply list_elem_of_fmap in Hy as (x & -> & Hx). destruct (rows_below _ _ _ _ HR Hx).
  destruct (P x) eqn:HP; (split; [by rewrite ?Hid|]); auto.
Qed.
Lemma rows_discard (each each' : A → Prop) next P l :
  (∀ x, x ∈ l → P x = false → each x → each' x) → Rows each next l → Rows each' next (discard P l).
Proof.
  intros Himp HR. pose proof HR as [Hi Hk He]. split; [by apply NoDup_discard..|].
  apply Forall_forall. intros x [Hx HP]%discard_elem. destruct (rows_below _ _ _ _ HR Hx). auto.
Qed.

(** The row of an id gets a key no other row has. *)
Lemma rows_rekey (each : A → Prop) next i f l : (∀ x, id x = i → id (f x) = i) → (∀ x y, key (f x) = key (f y)) → (∀ x, each x → each (f x)) →
  (∀ x y, x ∈ l → id x ≠ i → key x ≠ key (f y)) → Rows each next l → Rows each next (modify (λ x, (id x =? i)%N) f l).
Proof.
  intros Hid Hkey Hf Hother [Hi Hk He].
  assert (Hids : map id (modify (λ x, (id x =? i)%N) f l) = map id l).
  { unfold modify. rewrite map_map. apply map_ext. intros x. destruct (N.eqb_spec (id x) i) as [E|]; [|done]. by rewrite Hid. }
  split; [by rewrite Hids| |].
  - clear He Hids. unfold modify. induction l as [|x l IH]; [constructor|]. cbn in *. apply NoDup_cons in Hi as [Hxi Hi], Hk as [Hxk Hk].
    apply NoDup_cons. split; [|apply IH; [|done..]; intros y z Hy; apply Hother; by right].
    intros (_ & E & (y & -> & Hy)%list_elem_of_fmap)%list_elem_of_fmap.
    destruct (N.eqb_spec (id x) i) as [Ex|Ex], (N.eqb_spec (id y) i) as [Ey|Ey].
    + destruct Hxi. rewrite Ex, <- Ey. by apply list_elem_of_fmap_2.
    + by destruct (Hother y x (list_elem_of_further _ _ _ Hy) Ey).
    + by destruct (Hother x y (list_elem_of_here _ _) Ex).
    + destruct Hxk. rewrite E. by apply list_elem_of_fmap_2.
  - apply Forall_forall. intros y Hy. apply list_elem_of_fmap in Hy as (x & -> & Hx). destruct (proj1 (Forall_forall _ _) He x Hx).
    destruct (N.eqb_spec (id x) i) as [E|]; [|done]. split; [rewrite (Hid _ E); lia | by apply Hf].
Qed.

(** A row is known by its id, and by its key. *)
Lemma row_known {B} (f : A → B) l x y : NoDup (map f l) → x ∈ l → y ∈ l → f x = f y → x = y.
Proof.
  intros Hi. induction l as [|z l IH]; [by intros ?%not_elem_of_nil|].
  cbn in Hi. apply NoDup_cons in Hi as [Hz Hi]. intros [->|Hx]%elem_of_cons [->|Hy]%elem_of_cons E; [done| | |by apply IH].
  - destruct Hz. rewrite E. by apply list_elem_of_fmap_2.
  - destruct Hz. rewrite <- E. by apply list_elem_of_fmap_2.
Qed.
Lemma rows_same each next l x y : Rows each next l → x ∈ l → y ∈ l → id x = id y → x = y.
Proof. intros [Hi _ _]. by apply row_known. Qed.
End Rows.

(** ** The rows of a set of organizations *)

Section Filters.
Context {A : Type} (id : A → Id).
Implicit Types (l : list A) (P Q : A → bool).
Lemma filter_snoc P l x : P x = false → List.filter P (l ++ [x]) = List.filter P l.
Proof. intros HP. rewrite List.filter_app. cbn. by rewrite HP, app_nil_r. Qed.
Lemma filter_modify P Q f l : (∀ x, P (f x) = P x) → (∀ x, x ∈ l → Q x = true → P x = false) →
  List.filter P (modify Q f l) = List.filter P l.
Proof.
  intros Hf. unfold modify. induction l as [|x l IH]; [done|]. intros HQ. cbn. rewrite IH by (intros; apply HQ; [by right|done]).
  destruct (Q x) eqn:Hq; [|done]. by rewrite Hf, (HQ x) by (done || left).
Qed.
Lemma filter_discard P Q l : (∀ x, x ∈ l → Q x = true → P x = false) → List.filter P (discard Q l) = List.filter P l.
Proof.
  unfold discard. induction l as [|x l IH]; [done|]. intros HQ. cbn. specialize (IH (λ y Hy, HQ y (list_elem_of_further _ _ _ Hy))).
  destruct (Q x) eqn:Hq; cbn; rewrite IH; [|done]. by rewrite (HQ x) by (done || left).
Qed.
Lemma filter_elem P l x : x ∈ List.filter P l ↔ x ∈ l ∧ P x = true.
Proof. by rewrite list_elem_of_In, filter_In, <- list_elem_of_In. Qed.
(** A row whose id no row of the set has. *)
Lemma unlisted_row P l i x : i ∉ map id (List.filter P l) → x ∈ l → (id x =? i)%N = true → P x = false.
Proof.
  intros Hi Hx Hid%N.eqb_eq. destruct (P x) eqn:HP; [|done]. destruct Hi. rewrite <- Hid.
  apply list_elem_of_fmap_2, filter_elem. by split.
Qed.
Lemma row_unlisted {K} (key : A → K) each next P l x : Rows id key each next l → x ∈ l → P x = false → id x ∉ map id (List.filter P l).
Proof.
  intros HR Hx HP (y & E & [Hy HPy]%filter_elem)%list_elem_of_fmap. rewrite (rows_same _ _ _ _ _ _ _ HR Hx Hy E) in HP. congruence.
Qed.
End Filters.

(** The tables an organization has rows in, mail and counters apart. *)
Record Tenancy := mkTenancy {
  tn_organizations : list Organization;
  tn_policies : gmap Id OrganizationPolicy;
  tn_customers : gmap Id bytes;
  tn_servers : list Server;
  tn_streams : list MessageStream;
  tn_domains : list Domain;
  tn_credentials : list Credential;
  tn_routes : list Route;
  tn_senders : list SenderAddress;
  tn_track_domains : list TrackDomain;
  tn_webhooks : list Webhook;
  tn_suppressions : list Suppression;
  tn_keys : list (AdminApiKey * bytes);
  tn_memberships : gmap Id OrganizationMembership;
  tn_invitations : gmap Id Invitation;
}.
(** When a credential was last used is not configuration. *)
Definition unused (c : Credential) : Credential := c <| cred_last_used_at := None |>.
Definition tenancy (d : Deployment) : Tenancy :=
  let t := tables d in
  mkTenancy (pt_organizations t) (pt_policies t) (dp_billing_customers d) (pt_servers t) (pt_streams t) (pt_domains t)
    (map unused (pt_credentials t)) (pt_routes t) (pt_sender_addresses t) (pt_track_domains t) (db_webhooks (mail d))
    (db_suppressions (mail d)) (dp_admin_api_keys d) (ac_memberships (accounts d)) (ac_invitations (accounts d)).

(** The rows of the organizations in [T], and of their servers. *)
Section Restrict.
Context (T : Id → bool).
Definition own_server (s : Server) : bool := T (srv_organization_id s).
Definition own_key (k : AdminApiKey * bytes) : bool := from_option T false (key_organization_id k.1).
Definition listed (servers : list Server) (id : Id) : bool := existsb (λ s, (srv_id s =? id)%N) servers.
Definition own_domain (servers : list Server) (x : Domain) : bool :=
  match dom_owner x with OwnerServer id => listed servers id | OwnerOrganization o => T o end.
Definition restrict (t : Tenancy) : Tenancy :=
  let servers := List.filter own_server (tn_servers t) in
  let mine := listed servers in
  mkTenancy (List.filter (λ o, T (org_id o)) (tn_organizations t)) (retain (λ o _, T o) (tn_policies t)) (retain (λ o _, T o) (tn_customers t))
    servers (List.filter (λ m, mine (str_server_id m)) (tn_streams t)) (List.filter (own_domain servers) (tn_domains t))
    (List.filter (λ c, mine (cred_server_id c)) (tn_credentials t)) (List.filter (λ r, mine (rt_server_id r)) (tn_routes t))
    (List.filter (λ a, mine (sa_server_id a)) (tn_senders t)) (List.filter (λ x, mine (td_server_id x)) (tn_track_domains t))
    (List.filter (λ w, mine (wh_server_id w)) (tn_webhooks t)) (List.filter (λ x, mine (sp_server_id x)) (tn_suppressions t))
    (List.filter own_key (tn_keys t)) (retain (λ _ m, T (om_organization_id m)) (tn_memberships t))
    (retain (λ _ i, T (in_organization_id i)) (tn_invitations t)).
End Restrict.
Arguments listed : simpl never.

(** ** The type of a deployment *)

Definition organization_ids (t : Tenancy) : list Id := map org_id (tn_organizations t).
Definition server_ids (t : Tenancy) : list Id := map srv_id (tn_servers t).
(** The domain of a route is one of its server. *)
Definition route_domain_ok (domains : list Domain) (r : Route) : Prop :=
  ∀ i, rt_domain_id r = Some i → ∃ x, x ∈ domains ∧ dom_id x = i ∧ dom_owner x = OwnerServer (rt_server_id r).
(** The server of a scoped key is one of its organization. *)
Definition key_scope_ok (t : Tenancy) (k : AdminApiKey * bytes) : Prop :=
  (∀ o, key_organization_id k.1 = Some o → o ∈ organization_ids t) ∧
  (∀ i, key_server_id k.1 = Some i → ∃ s, s ∈ tn_servers t ∧ srv_id s = i ∧ key_organization_id k.1 = Some (srv_organization_id s)).

Record tenancy_wf (seq : AdminTable → Id) (t : Tenancy) : Prop := mkTenancyWf {
  tw_organizations : Rows org_id org_permalink (λ _, True) (seq Organizations) (tn_organizations t);
  tw_servers : Rows srv_id (λ s, (srv_organization_id s, srv_permalink s)) (λ s, srv_organization_id s ∈ organization_ids t) (seq Servers) (tn_servers t);
  tw_tokens : NoDup (map srv_token (tn_servers t));
  tw_streams : Rows str_id (λ m, (str_server_id m, str_permalink m)) (λ m, str_server_id m ∈ server_ids t) (seq Streams) (tn_streams t);
  tw_domains : Rows dom_id (λ x, (dom_owner x, dom_name x)) (λ _, True) (seq Domains) (tn_domains t);
  tw_credentials : Rows cred_id cred_id (λ c, cred_server_id c ∈ server_ids t) (seq Credentials) (tn_credentials t);
  tw_routes : Rows rt_id rt_token (λ r, rt_server_id r ∈ server_ids t ∧ route_domain_ok (tn_domains t) r) (seq Routes) (tn_routes t);
  tw_senders : Rows sa_id (λ a, (sa_server_id a, sa_email_address a)) (λ a, sa_server_id a ∈ server_ids t) (seq SenderAddresses) (tn_senders t);
  tw_track_domains : Rows td_id (λ x, (td_server_id x, td_name x)) (λ x, td_server_id x ∈ server_ids t) (seq TrackDomains) (tn_track_domains t);
  tw_webhooks : Rows wh_id wh_id (λ w, wh_server_id w ∈ server_ids t) (seq Webhooks) (tn_webhooks t);
  tw_suppressions : NoDup (map (λ x, (sp_server_id x, sp_address x, coalesce (sp_stream_id x))) (tn_suppressions t))
    ∧ Forall (λ x, sp_server_id x ∈ server_ids t) (tn_suppressions t);
  tw_keys : Rows (λ k, key_id k.1) snd (key_scope_ok t) (seq AdminApiKeys) (tn_keys t);
  tw_policies : ∀ o, is_Some (tn_policies t !! o) → o ∈ organization_ids t;
  tw_customers : ∀ o, is_Some (tn_customers t !! o) → o ∈ organization_ids t;
}.
#[export] Instance eta_Tenancy : Eta Tenancy := λ t,
  mkTenancy (tn_organizations t) (tn_policies t) (tn_customers t) (tn_servers t) (tn_streams t) (tn_domains t) (tn_credentials t)
    (tn_routes t) (tn_senders t) (tn_track_domains t) (tn_webhooks t) (tn_suppressions t) (tn_keys t) (tn_memberships t) (tn_invitations t).

Definition next_seq (table : AdminTable) (seq : AdminTable → Id) : AdminTable → Id :=
  λ t, if decide (t = table) then (seq t + 1)%N else seq t.

(** The cascades. *)
Definition drop_servers (gone : Id → bool) (t : Tenancy) : Tenancy :=
  t <| tn_servers := discard (λ s, gone (srv_id s)) (tn_servers t) |>
    <| tn_streams := discard (λ m, gone (str_server_id m)) (tn_streams t) |>
    <| tn_credentials := discard (λ c, gone (cred_server_id c)) (tn_credentials t) |>
    <| tn_routes := discard (λ r, gone (rt_server_id r)) (tn_routes t) |>
    <| tn_senders := discard (λ a, gone (sa_server_id a)) (tn_senders t) |>
    <| tn_track_domains := discard (λ x, gone (td_server_id x)) (tn_track_domains t) |>
    <| tn_webhooks := discard (λ w, gone (wh_server_id w)) (tn_webhooks t) |>
    <| tn_suppressions := discard (λ x, gone (sp_server_id x)) (tn_suppressions t) |>
    <| tn_keys := discard (λ k, from_option gone false (key_server_id k.1)) (tn_keys t) |>.
Definition drop_organization (id : Id) (t : Tenancy) : Tenancy :=
  let is_org o := (o =? id)%N in
  t <| tn_organizations := discard (λ o, is_org (org_id o)) (tn_organizations t) |>
    <| tn_policies := delete id (tn_policies t) |> <| tn_customers := delete id (tn_customers t) |>
    <| tn_memberships := retain (λ _ m, negb (is_org (om_organization_id m))) (tn_memberships t) |>
    <| tn_invitations := retain (λ _ i, negb (is_org (in_organization_id i))) (tn_invitations t) |>
    <| tn_keys := discard (λ k, from_option is_org false (key_organization_id k.1)) (tn_keys t) |>.
Definition servers_of (id : Id) (t : Tenancy) (server_id : Id) : bool :=
  existsb (λ s, (srv_organization_id s =? id)%N && (srv_id s =? server_id)%N) (tn_servers t).

Section Wf.
Implicit Types (seq : AdminTable → Id) (t : Tenancy) (id : Id).

Lemma tenancy_wf_mono seq seq' t : (∀ x, seq x <= seq' x)%N → tenancy_wf seq t → tenancy_wf seq' t.
Proof. intros Hle []. constructor; try done; by (eapply rows_weaken; [apply Hle| |done]). Qed.
Lemma wf_next table seq t : tenancy_wf seq t → tenancy_wf (next_seq table seq) t.
Proof. apply tenancy_wf_mono. intros x. unfold next_seq. destruct (decide _); lia. Qed.
(** Only the named fields change. *)
Ltac fields W := apply (tenancy_wf_mono _ _ _ (λ x, N.le_refl _)) in W; destruct W; constructor; cbn; try done.
Ltac fields_next table W := apply (wf_next table) in W as W'; destruct W'; constructor; cbn; try done.

(** *** Rows of a server *)

Lemma wf_add_stream seq t m : str_id m = seq Streams → (str_server_id m, str_permalink m) ∉ map (λ m, (str_server_id m, str_permalink m)) (tn_streams t) →
  str_server_id m ∈ server_ids t → tenancy_wf seq t → tenancy_wf (next_seq Streams seq) (t <| tn_streams := tn_streams t ++ [m] |>).
Proof. intros Hid Hk Hp W. fields_next Streams W. eapply rows_append; [|exact Hid|exact Hk|exact Hp|apply (tw_streams _ _ W)]. done. Qed.

Lemma wf_add_domain seq t x : dom_id x = seq Domains → (dom_owner x, dom_name x) ∉ map (λ x, (dom_owner x, dom_name x)) (tn_domains t) →
  tenancy_wf seq t → tenancy_wf (next_seq Domains seq) (t <| tn_domains := tn_domains t ++ [x] |>).
Proof.
  intros Hid Hk W. fields_next Domains W.
  - by eapply rows_append; [|exact Hid|exact Hk| |apply (tw_domains _ _ W)].
  - eapply rows_weaken; [apply N.le_refl| |done]. intros r _ [? Hr]. split; [done|]. intros i Hi. destruct (Hr i Hi) as (y & ? & ?).
    exists y. split; [|done]. apply elem_of_app. by left.
Qed.
Lemma wf_modify_domain seq t id f : (∀ x, dom_id (f x) = dom_id x) → (∀ x, dom_owner (f x) = dom_owner x) → (∀ x, dom_name (f x) = dom_name x) →
  tenancy_wf seq t → tenancy_wf seq (t <| tn_domains := modify (λ x, (dom_id x =? id)%N) f (tn_domains t) |>).
Proof.
  intros Hid Ho Hn W. fields W.
  - by apply rows_modify with (each := λ _, True); [|intros x; rewrite Ho, Hn|..].
  - eapply rows_weaken; [apply N.le_refl| |done]. intros r _ [? Hr]. split; [done|]. intros i Hi. destruct (Hr i Hi) as (y & Hy & <- & ?).
    exists (if (dom_id y =? id)%N then f y else y). split; [by apply (modify_elem (λ x, (dom_id x =? id)%N))|]. destruct (_ =? _)%N; by rewrite ?Hid, ?Ho.
Qed.
Lemma wf_delete_domain seq t id : tenancy_wf seq t → tenancy_wf seq (t <| tn_domains := discard (λ x, (dom_id x =? id)%N) (tn_domains t) |>
    <| tn_routes := modify (λ r, bool_decide (rt_domain_id r = Some id)) (λ r, r <| rt_domain_id := None |>) (tn_routes t) |>).
Proof.
  intros W. fields W.
  - by eapply rows_discard.
  - apply rows_modify with (each := λ r, rt_server_id r ∈ server_ids t ∧ route_domain_ok (tn_domains t) r); try done.
    + by intros r _ _ [? _].
    + intros r _ Hno%bool_decide_eq_false [? Hr]. split; [done|]. intros i Hi. destruct (Hr i Hi) as (y & Hy & Hyi & ?).
      exists y. split; [|done]. apply discard_elem. split; [done|]. apply N.eqb_neq. congruence.
Qed.

Lemma wf_add_credential seq t c : cred_id c = seq Credentials → cred_server_id c ∈ server_ids t →
  tenancy_wf seq t → tenancy_wf (next_seq Credentials seq) (t <| tn_credentials := tn_credentials t ++ [c] |>).
Proof.
  intros Hid Hp W. fields_next Credentials W. eapply rows_append; [|exact Hid| |exact Hp|apply (tw_credentials _ _ W)]; [done|].
  rewrite Hid. apply (rows_fresh _ _ _ _ _ (tw_credentials _ _ W)).
Qed.
Lemma wf_add_route seq t r : rt_id r = seq Routes → rt_token r ∉ map rt_token (tn_routes t) → rt_server_id r ∈ server_ids t →
  route_domain_ok (tn_domains t) r → tenancy_wf seq t → tenancy_wf (next_seq Routes seq) (t <| tn_routes := tn_routes t ++ [r] |>).
Proof. intros Hid Hk Hp Hr W. fields_next Routes W. by eapply rows_append; [|exact Hid|exact Hk|split; [exact Hp|exact Hr]|apply (tw_routes _ _ W)]. Qed.
Lemma wf_add_sender seq t a : sa_id a = seq SenderAddresses →
  (sa_server_id a, sa_email_address a) ∉ map (λ a, (sa_server_id a, sa_email_address a)) (tn_senders t) → sa_server_id a ∈ server_ids t →
  tenancy_wf seq t → tenancy_wf (next_seq SenderAddresses seq) (t <| tn_senders := tn_senders t ++ [a] |>).
Proof. intros Hid Hk Hp W. fields_next SenderAddresses W. by eapply rows_append; [|exact Hid|exact Hk|exact Hp|apply (tw_senders _ _ W)]. Qed.
Lemma wf_add_track_domain seq t x : td_id x = seq TrackDomains → (td_server_id x, td_name x) ∉ map (λ x, (td_server_id x, td_name x)) (tn_track_domains t) →
  td_server_id x ∈ server_ids t → tenancy_wf seq t → tenancy_wf (next_seq TrackDomains seq) (t <| tn_track_domains := tn_track_domains t ++ [x] |>).
Proof. intros Hid Hk Hp W. fields_next TrackDomains W. by eapply rows_append; [|exact Hid|exact Hk|exact Hp|apply (tw_track_domains _ _ W)]. Qed.
Lemma wf_add_webhook seq t w : wh_id w = seq Webhooks → wh_server_id w ∈ server_ids t →
  tenancy_wf seq t → tenancy_wf (next_seq Webhooks seq) (t <| tn_webhooks := tn_webhooks t ++ [w] |>).
Proof.
  intros Hid Hp W. fields_next Webhooks W. eapply rows_append; [|exact Hid| |exact Hp|apply (tw_webhooks _ _ W)]; [done|].
  rewrite Hid. apply (rows_fresh _ _ _ _ _ (tw_webhooks _ _ W)).
Qed.
Lemma wf_add_suppression seq t x :
  (sp_server_id x, sp_address x, coalesce (sp_stream_id x)) ∉ map (λ x, (sp_server_id x, sp_address x, coalesce (sp_stream_id x))) (tn_suppressions t) →
  sp_server_id x ∈ server_ids t → tenancy_wf seq t → tenancy_wf seq (t <| tn_suppressions := tn_suppressions t ++ [x] |>).
Proof. intros Hk Hp W. fields W. destruct tw_suppressions0. split; [by apply NoDup_snoc|]. apply Forall_app. by repeat constructor. Qed.
Lemma wf_add_key seq t k : key_id k.1 = seq AdminApiKeys → k.2 ∉ map snd (tn_keys t) → key_scope_ok t k →
  tenancy_wf seq t → tenancy_wf (next_seq AdminApiKeys seq) (t <| tn_keys := tn_keys t ++ [k] |>).
Proof. intros Hid Hk Hp W. fields_next AdminApiKeys W. by eapply rows_append; [|exact Hid|exact Hk|exact Hp|apply (tw_keys _ _ W)]. Qed.

Lemma wf_modify_credential seq t P f : (∀ c, cred_id (f c) = cred_id c) → (∀ c, cred_server_id (f c) = cred_server_id c) →
  tenancy_wf seq t → tenancy_wf seq (t <| tn_credentials := modify P f (tn_credentials t) |>).
Proof. intros Hid Hs W. fields W. apply rows_modify with (each := λ c, cred_server_id c ∈ server_ids t); try done. intros c _ _. by rewrite Hs. Qed.
Lemma wf_modify_route seq t P f : (∀ r, rt_id (f r) = rt_id r) → (∀ r, rt_token (f r) = rt_token r) → (∀ r, rt_server_id (f r) = rt_server_id r) →
  (∀ r, r ∈ tn_routes t → P r = true → route_domain_ok (tn_domains t) (f r)) →
  tenancy_wf seq t → tenancy_wf seq (t <| tn_routes := modify P f (tn_routes t) |>).
Proof.
  intros Hid Hk Hs Hd W. fields W. apply rows_modify with (each := λ r, rt_server_id r ∈ server_ids t ∧ route_domain_ok (tn_domains t) r); try done.
  intros r Hr HP [? _]. rewrite Hs. split; [done|]. by apply Hd.
Qed.
Lemma wf_modify_track_domain seq t P f : (∀ x, td_id (f x) = td_id x) → (∀ x, td_server_id (f x) = td_server_id x) → (∀ x, td_name (f x) = td_name x) →
  tenancy_wf seq t → tenancy_wf seq (t <| tn_track_domains := modify P f (tn_track_domains t) |>).
Proof.
  intros Hid Hs Hn W. fields W. apply rows_modify with (each := λ x, td_server_id x ∈ server_ids t); try done; [intros x; by rewrite Hs, Hn|].
  intros x _ _. by rewrite Hs.
Qed.
Lemma wf_modify_webhook seq t P f : (∀ w, wh_id (f w) = wh_id w) → (∀ w, wh_server_id (f w) = wh_server_id w) →
  tenancy_wf seq t → tenancy_wf seq (t <| tn_webhooks := modify P f (tn_webhooks t) |>).
Proof. intros Hid Hs W. fields W. apply rows_modify with (each := λ w, wh_server_id w ∈ server_ids t); try done. intros w _ _. by rewrite Hs. Qed.

Lemma wf_discard_credential seq t P : tenancy_wf seq t → tenancy_wf seq (t <| tn_credentials := discard P (tn_credentials t) |>).
Proof. intros W. fields W. eapply rows_discard; [|done]. done. Qed.
Lemma wf_discard_route seq t P : tenancy_wf seq t → tenancy_wf seq (t <| tn_routes := discard P (tn_routes t) |>).
Proof. intros W. fields W. eapply rows_discard; [|done]. done. Qed.
Lemma wf_discard_sender seq t P : tenancy_wf seq t → tenancy_wf seq (t <| tn_senders := discard P (tn_senders t) |>).
Proof. intros W. fields W. eapply rows_discard; [|done]. done. Qed.
Lemma wf_discard_track_domain seq t P : tenancy_wf seq t → tenancy_wf seq (t <| tn_track_domains := discard P (tn_track_domains t) |>).
Proof. intros W. fields W. eapply rows_discard; [|done]. done. Qed.
Lemma wf_discard_webhook seq t P : tenancy_wf seq t → tenancy_wf seq (t <| tn_webhooks := discard P (tn_webhooks t) |>).
Proof. intros W. fields W. eapply rows_discard; [|done]. done. Qed.
Lemma wf_discard_suppression seq t P : tenancy_wf seq t → tenancy_wf seq (t <| tn_suppressions := discard P (tn_suppressions t) |>).
Proof. intros W. fields W. destruct tw_suppressions0. split; [by apply NoDup_discard | by apply Forall_filter_bool]. Qed.
Lemma wf_discard_key seq t P : tenancy_wf seq t → tenancy_wf seq (t <| tn_keys := discard P (tn_keys t) |>).
Proof. intros W. fields W. eapply rows_discard; [|done]. done. Qed.

(** *** Organizations and servers *)

Lemma wf_add_organization seq t o : org_id o = seq Organizations → org_permalink o ∉ map org_permalink (tn_organizations t) →
  tenancy_wf seq t → tenancy_wf (next_seq Organizations seq) (t <| tn_organizations := tn_organizations t ++ [o] |>).
Proof.
  intros Hid Hk W. fields_next Organizations W; unfold key_scope_ok, organization_ids in *; cbn; rewrite ?map_app.
  - by eapply rows_append; [|exact Hid|exact Hk| |apply (tw_organizations _ _ W)].
  - eapply rows_weaken; [apply N.le_refl| |done]. intros s _ Hs. apply elem_of_app. by left.
  - eapply rows_weaken; [apply N.le_refl| |done]. intros k _ [Ho Hs]. split; [|done]. intros i Hi. apply elem_of_app. left. by apply Ho.
  - intros i Hi. apply elem_of_app. left. by apply tw_policies0.
  - intros i Hi. apply elem_of_app. left. by apply tw_customers0.
Qed.
Lemma wf_update_organization seq t o : (∀ x, x ∈ tn_organizations t → org_id x ≠ org_id o → org_permalink x ≠ org_permalink o) →
  tenancy_wf seq t → tenancy_wf seq (t <| tn_organizations := modify (λ x, (org_id x =? org_id o)%N) (λ x, o <| org_uuid := org_uuid x |>) (tn_organizations t) |>).
Proof.
  intros Hother W. assert (E : map org_id (modify (λ x, (org_id x =? org_id o)%N) (λ x, o <| org_uuid := org_uuid x |>) (tn_organizations t))
    = map org_id (tn_organizations t)).
  { unfold modify. rewrite map_map. apply map_ext. intros x. by destruct (N.eqb_spec (org_id x) (org_id o)). }
  fields W; unfold key_scope_ok, organization_ids in *; cbn; rewrite ?E; try done. apply rows_rekey; [done..| |done]. intros x y Hx. by apply Hother.
Qed.

(** Servers that keep their identity. *)
Lemma wf_modify_server seq t P f : (∀ s, srv_id (f s) = srv_id s) → (∀ s, srv_organization_id (f s) = srv_organization_id s) →
  (∀ s, srv_permalink (f s) = srv_permalink s) → (∀ s, srv_token (f s) = srv_token s) →
  tenancy_wf seq t → tenancy_wf seq (t <| tn_servers := modify P f (tn_servers t) |>).
Proof.
  intros Hid Ho Hp Ht W. fields W; unfold key_scope_ok, server_ids in *; cbn; rewrite ?map_modify by done; try done.
  - apply rows_modify with (each := λ s, srv_organization_id s ∈ organization_ids t); try done; [intros s; by rewrite Ho, Hp|].
    intros s _ _. by rewrite Ho.
  - eapply rows_weaken; [apply N.le_refl| |done]. intros k _ [? Hs]. split; [done|]. intros i Hi. destruct (Hs i Hi) as (s & Hin & <- & Hk).
    exists (if P s then f s else s). split; [by apply modify_elem|]. destruct (P s); by rewrite ?Hid, ?Ho.
Qed.
Lemma wf_add_server seq t s : srv_id s = seq Servers → srv_organization_id s ∈ organization_ids t →
  (srv_organization_id s, srv_permalink s) ∉ map (λ s, (srv_organization_id s, srv_permalink s)) (tn_servers t) → srv_token s ∉ map srv_token (tn_servers t) →
  tenancy_wf seq t → tenancy_wf (next_seq Servers seq) (t <| tn_servers := tn_servers t ++ [s] |>).
Proof.
  intros Hid Ho Hk Ht W. fields_next Servers W; unfold key_scope_ok, server_ids in *; cbn; rewrite ?map_app;
    try (eapply rows_weaken; [apply N.le_refl| |done]; intros x _; rewrite elem_of_app; tauto).
  - by eapply rows_append; [|exact Hid|exact Hk|exact Ho|apply (tw_servers _ _ W)].
  - rewrite <- (map_app _ _ [s]). by apply NoDup_snoc.
  - destruct tw_suppressions0 as [? HF]. split; [done|]. eapply Forall_impl; [exact HF|]. intros x ?. apply elem_of_app. by left.
  - eapply rows_weaken; [apply N.le_refl| |done]. intros k _ [? Hs]. split; [done|]. intros i Hi. destruct (Hs i Hi) as (y & Hy & ?).
    exists y. split; [|done]. apply elem_of_app. by left.
Qed.

Lemma kept_server gone t id : id ∈ server_ids t → gone id = false → id ∈ map srv_id (discard (λ s, gone (srv_id s)) (tn_servers t)).
Proof. intros (s & -> & Hs)%list_elem_of_fmap Hg. apply list_elem_of_fmap. exists s. split; [done|]. by apply discard_elem. Qed.
Lemma wf_drop_servers gone seq t : tenancy_wf seq t → tenancy_wf seq (drop_servers gone t).
Proof.
  intros W. fields W; unfold server_ids; cbn;
    try (eapply rows_discard; [|done]; cbn; intros x _ ? ?; by apply kept_server).
  - eapply rows_discard; [|done]. done.
  - by apply NoDup_discard.
  - eapply rows_discard; [|done]. cbn. intros r _ Hg [? Hd]. split; [by apply kept_server|]. done.
  - destruct tw_suppressions0 as [HN HF]. split; [by apply NoDup_discard|]. apply Forall_forall. intros x [Hx Hg]%discard_elem.
    apply kept_server; [|done]. by apply (proj1 (Forall_forall _ _) HF).
  - eapply rows_discard; [|done]. unfold key_scope_ok. cbn. intros k _ Hg [Ho Hs]. split; [done|]. intros i Hi. rewrite Hi in Hg. cbn in Hg.
    destruct (Hs i Hi) as (s & Hin & Hsi & ?). exists s. split; [|done]. apply discard_elem. by rewrite Hsi.
Qed.
Lemma wf_drop_organization id seq t : (∀ s, s ∈ tn_servers t → srv_organization_id s ≠ id) → tenancy_wf seq t → tenancy_wf seq (drop_organization id t).
Proof.
  intros Hno W. assert (Hkept : ∀ o, o ≠ id → o ∈ organization_ids t →
    o ∈ map org_id (discard (λ o, (org_id o =? id)%N) (tn_organizations t))).
  { intros o Hne (x & -> & Hx)%list_elem_of_fmap. apply list_elem_of_fmap. exists x. split; [done|]. apply discard_elem. by rewrite N.eqb_neq. }
  fields W; unfold organization_ids; cbn.
  - eapply rows_discard; [|done]. done.
  - eapply rows_weaken; [apply N.le_refl| |done]. intros s Hs ?. apply Hkept; [by apply Hno | done].
  - eapply rows_discard; [|done]. unfold key_scope_ok, organization_ids. cbn. intros k _ Hg [Ho Hs]. split; [|done]. intros i Hi.
    rewrite Hi in Hg. apply Hkept; [by apply N.eqb_neq | by apply Ho].
  - intros o [x [Hne Hx]%lookup_delete_Some]. apply Hkept; [done|]. apply tw_policies0. by exists x.
  - intros o [x [Hne Hx]%lookup_delete_Some]. apply Hkept; [done|]. apply tw_customers0. by exists x.
Qed.
Lemma no_servers_left id t s : s ∈ tn_servers (drop_servers (servers_of id t) t) → srv_organization_id s ≠ id.
Proof.
  cbn. intros [Hs Hg]%discard_elem <-. assert (Ht : servers_of (srv_organization_id s) t (srv_id s) = true); [|congruence].
  apply existsb_exists. exists s. split; [by apply list_elem_of_In|]. by rewrite !N.eqb_refl.
Qed.
End Wf.

(** Ids that none of these rows has. *)
Definition unlisted {A} (id : A → Id) (rows : list A) (i : Id) : Prop := i ∉ map id rows.
Lemma listed_false l i : unlisted srv_id l i → listed l i = false.
Proof.
  intros Hi. apply not_true_iff_false. intros (s & Hs & E%N.eqb_eq)%existsb_exists. apply Hi, list_elem_of_fmap. exists s.
  split; [done|]. by apply list_elem_of_In.
Qed.

(** Where the rows of the organizations in [T] stay. *)
Section Restricted.
Context (T : Id → bool).
Implicit Types (t : Tenancy).
Definition own (t : Tenancy) (sid : Id) : bool := listed (List.filter (own_server T) (tn_servers t)) sid.
Lemma restrict_organizations t l : List.filter (λ o, T (org_id o)) l = List.filter (λ o, T (org_id o)) (tn_organizations t) →
  restrict T (t <| tn_organizations := l |>) = restrict T t.
Proof. intros E. unfold restrict. cbn. by rewrite E. Qed.
Lemma restrict_servers t l : List.filter (own_server T) l = List.filter (own_server T) (tn_servers t) → restrict T (t <| tn_servers := l |>) = restrict T t.
Proof. intros E. unfold restrict. cbn. by rewrite E. Qed.
Lemma restrict_domains t l : let P := own_domain T (List.filter (own_server T) (tn_servers t)) in
  List.filter P l = List.filter P (tn_domains t) → restrict T (t <| tn_domains := l |>) = restrict T t.
Proof. cbn. intros E. unfold restrict. cbn. by rewrite E. Qed.
Lemma restrict_keys t l : List.filter (own_key T) l = List.filter (own_key T) (tn_keys t) → restrict T (t <| tn_keys := l |>) = restrict T t.
Proof. intros E. unfold restrict. cbn. by rewrite E. Qed.
Lemma restrict_streams t l : List.filter (λ x, own t (str_server_id x)) l = List.filter (λ x, own t (str_server_id x)) (tn_streams t) →
  restrict T (t <| tn_streams := l |>) = restrict T t.
Proof. unfold own. intros E. unfold restrict. cbn. by rewrite E. Qed.
Lemma restrict_credentials t l : List.filter (λ x, own t (cred_server_id x)) l = List.filter (λ x, own t (cred_server_id x)) (tn_credentials t) →
  restrict T (t <| tn_credentials := l |>) = restrict T t.
Proof. unfold own. intros E. unfold restrict. cbn. by rewrite E. Qed.
Lemma restrict_routes t l : List.filter (λ x, own t (rt_server_id x)) l = List.filter (λ x, own t (rt_server_id x)) (tn_routes t) →
  restrict T (t <| tn_routes := l |>) = restrict T t.
Proof. unfold own. intros E. unfold restrict. cbn. by rewrite E. Qed.
Lemma restrict_senders t l : List.filter (λ x, own t (sa_server_id x)) l = List.filter (λ x, own t (sa_server_id x)) (tn_senders t) →
  restrict T (t <| tn_senders := l |>) = restrict T t.
Proof. unfold own. intros E. unfold restrict. cbn. by rewrite E. Qed.
Lemma restrict_track_domains t l : List.filter (λ x, own t (td_server_id x)) l = List.filter (λ x, own t (td_server_id x)) (tn_track_domains t) →
  restrict T (t <| tn_track_domains := l |>) = restrict T t.
Proof. unfold own. intros E. unfold restrict. cbn. by rewrite E. Qed.
Lemma restrict_webhooks t l : List.filter (λ x, own t (wh_server_id x)) l = List.filter (λ x, own t (wh_server_id x)) (tn_webhooks t) →
  restrict T (t <| tn_webhooks := l |>) = restrict T t.
Proof. unfold own. intros E. unfold restrict. cbn. by rewrite E. Qed.
Lemma restrict_suppressions t l : List.filter (λ x, own t (sp_server_id x)) l = List.filter (λ x, own t (sp_server_id x)) (tn_suppressions t) →
  restrict T (t <| tn_suppressions := l |>) = restrict T t.
Proof. unfold own. intros E. unfold restrict. cbn. by rewrite E. Qed.

Lemma gone_not_own gone t sid : (∀ s, s ∈ tn_servers t → gone (srv_id s) = true → own_server T s = false) → gone sid = true → own t sid = false.
Proof.
  intros Hgone Hg. apply listed_false. intros (s & -> & [Hs Ho]%filter_elem)%list_elem_of_fmap. by rewrite (Hgone s Hs Hg) in Ho.
Qed.
Lemma restrict_drop_servers gone seq t : tenancy_wf seq t → (∀ s, s ∈ tn_servers t → gone (srv_id s) = true → own_server T s = false) →
  restrict T (drop_servers gone t) = restrict T t.
Proof.
  intros W Hgone. pose proof (λ sid, gone_not_own gone t sid Hgone) as Hown. unfold own in Hown. unfold restrict. cbn.
  rewrite !(filter_discard (own_server T)) by done. f_equal; try (apply filter_discard; intros x _ Hx; by apply Hown).
  apply filter_discard. intros k Hk Hg. destruct (key_server_id k.1) as [i|] eqn:Hi; [|done]. cbn in Hg.
  destruct (rows_below _ _ _ _ _ _ (tw_keys _ _ W) Hk) as [_ [_ Hs]]. destruct (Hs i Hi) as (s & Hin & <- & E).
  unfold own_key. rewrite E. by apply Hgone.
Qed.
Lemma restrict_drop_organization id t : T id = false → restrict T (drop_organization id t) = restrict T t.
Proof.
  intros HT. unfold restrict. cbn. f_equal.
  - apply filter_discard. intros o _ E%N.eqb_eq. by rewrite E.
  - apply map_eq. intros o. apply option_eq. intros x. rewrite !lookup_retain, lookup_delete_Some. naive_solver congruence.
  - apply map_eq. intros o. apply option_eq. intros x. rewrite !lookup_retain, lookup_delete_Some. naive_solver congruence.
  - apply filter_discard. intros k _ Hk. unfold own_key. destruct (key_organization_id k.1) as [o|]; [|done]. cbn in *. by apply N.eqb_eq in Hk as ->.
  - apply map_eq. intros o. apply option_eq. intros x. rewrite !lookup_retain, negb_true_iff, N.eqb_neq. naive_solver congruence.
  - apply map_eq. intros o. apply option_eq. intros x. rewrite !lookup_retain, negb_true_iff, N.eqb_neq. naive_solver congruence.
Qed.
End Restricted.

(** ** What a statement keeps *)

Definition deployment_wf (lower : bytes → bytes) (d : Deployment) : Prop :=
  tenancy_wf (dp_sequence d) (tenancy d) ∧ pg_wf lower (account_view d).

Lemma existsb_absent {A K} (P : A → bool) (key : A → K) (l : list A) k : existsb P l = false → (∀ x, key x = k → P x = true) → k ∉ map key l.
Proof.
  intros He HP (x & -> & Hx)%list_elem_of_fmap. rewrite <- not_true_iff_false in He. apply He, existsb_exists. exists x.
  split; [by apply list_elem_of_In | by apply HP].
Qed.
Lemma existsb_id {A} (id : A → Id) (l : list A) i : existsb (λ x, (id x =? i)%N) l = true → i ∈ map id l.
Proof. intros (x & Hx & <-%N.eqb_eq)%existsb_exists. apply list_elem_of_fmap. exists x. split; [done|]. by apply list_elem_of_In. Qed.
Lemma find_elem {A} (P : A → bool) (l : list A) x : List.find P l = Some x → x ∈ l ∧ P x = true.
Proof. intros [Hx HP]%List.find_some. split; [by apply list_elem_of_In | done]. Qed.
Lemma map_discard {A} (f : A → A) (P : A → bool) (l : list A) : (∀ x, P (f x) = P x) → map f (discard P l) = discard P (map f l).
Proof. intros HP. unfold discard. induction l as [|x l IH]; [done|]. cbn. rewrite HP. destruct (P x); cbn; by rewrite IH. Qed.
Lemma map_modified {A} (f g : A → A) (P : A → bool) (l : list A) : (∀ x, P (f x) = P x) → (∀ x, f (g x) = g (f x)) →
  map f (modify P g l) = modify P g (map f l).
Proof. intros HP Hg. unfold modify. rewrite !map_map. apply map_ext. intros x. rewrite HP. destruct (P x); [apply Hg | done]. Qed.

Section Kept.
Context `{ORD : !HashOrder, CRA : !Crates, AUTH : !AuthCrates, ADM : !AdminCrates} (lower : bytes → bytes) (collate_le : bytes → bytes → bool).
Context (T : Id → bool) (v : Tenancy).
Implicit Types (d : Deployment) (sid : Id).

(** The rows of the organizations in [T] are [v]; no other organization gets into [T]. *)
Definition kept (d : Deployment) : Prop :=
  deployment_wf lower d ∧ restrict T (tenancy d) = v ∧ ∀ o, T o = true → (o < dp_sequence d Organizations)%N.

Lemma kept_change d d' : account_view d' = account_view d → (∀ x, dp_sequence d x <= dp_sequence d' x)%N →
  tenancy_wf (dp_sequence d') (tenancy d') → restrict T (tenancy d') = restrict T (tenancy d) → kept d → kept d'.
Proof.
  intros Ha Hseq W E [[_ Hw] [Hv HT]]. split; [split; [done | by rewrite Ha]|]. split; [by rewrite E|].
  intros o Ho. specialize (HT o Ho). specialize (Hseq Organizations). lia.
Qed.
Lemma kept_same d d' : tenancy d' = tenancy d → account_view d' = account_view d → (∀ x, dp_sequence d x <= dp_sequence d' x)%N → kept d → kept d'.
Proof. intros Ht Ha Hseq Hd. apply (kept_change d); [done..| |by rewrite Ht|done]. rewrite Ht. eapply tenancy_wf_mono; [done|]. apply Hd. Qed.
Lemma next_le table d x : (dp_sequence d x <= dp_sequence (next_in table d) x)%N.
Proof. unfold next_in. cbn. destruct (decide _); lia. Qed.
Lemma kept_next table d : kept d → kept (next_in table d).
Proof. apply kept_same; [done..|]. apply next_le. Qed.

Lemma keeps_select {A} table (rows : Deployment → A) Q : (∀ d, kept d → Q (rows d)) → keeps kept (query table rows) Q.
Proof. intros HQ d Hd. unfold query. destruct (dp_failing d Select table); (split; [done|]); [done|]. intros a [= <-]. by apply HQ. Qed.
Lemma keeps_read {A} table (rows : Deployment → A) : keeps kept (query table rows) (λ _, True).
Proof. by apply keeps_select. Qed.
(** Nothing happens between a query and the step that relies on its rows. *)
Lemma keeps_query_then {A B} table (rows : Deployment → A) (f : A → Handler Deployment B) (Q : B → Prop) :
  (∀ d, kept d → kept (f (rows d) d).2 ∧ ∀ b, (f (rows d) d).1 = inr b → Q b) → keeps kept (call (query table rows) ≫= f) Q.
Proof. intros Hf d Hd. unfold mbind, handler_bind, call, query. destruct (dp_failing d Select table); [by split | by apply Hf]. Qed.
Lemma keeps_statement {A} verb table (f : Deployment → SRes A * Deployment) Q : keeps kept f Q → keeps kept (statement verb table f) Q.
Proof. intros Hf d Hd. unfold statement. destruct (dp_failing d verb table); [by split | by apply Hf]. Qed.
Lemma keeps_insertion {A} table (f : Id → Deployment → SRes A * Deployment) Q :
  (∀ d, kept d → kept (f (dp_sequence d table) (next_in table d)).2 ∧ ∀ a, (f (dp_sequence d table) (next_in table d)).1 = inr a → Q a) →
  keeps kept (insertion table f) Q.
Proof. intros Hf. apply keeps_statement. intros d Hd. by apply Hf. Qed.

Lemma kept_wf d : kept d → tenancy_wf (dp_sequence d) (tenancy d).
Proof. by intros [[W _] _]. Qed.
Lemma kept_view d : kept d → restrict T (tenancy d) = v.
Proof. by intros [_ [Hv _]]. Qed.
Lemma has_server_in sid d : has_server sid d = true → sid ∈ server_ids (tenancy d).
Proof. apply existsb_id. Qed.
Lemma has_organization_in o d : has_organization o d = true → o ∈ organization_ids (tenancy d).
Proof. apply existsb_id. Qed.

(** Rows outside [v]. *)
Abbreviation spare_server := (unlisted srv_id (tn_servers v)).
Lemma spare_own d sid : kept d → spare_server sid → own T (tenancy d) sid = false.
Proof. intros Hd Hs. apply listed_false. by rewrite <- (kept_view d Hd) in Hs. Qed.
Lemma server_spared d s : kept d → s ∈ pt_servers (tables d) → T (srv_organization_id s) = false → spare_server (srv_id s).
Proof. intros Hd Hs HT. rewrite <- (kept_view d Hd). eapply row_unlisted; [apply (kept_wf d Hd)|done|done]. Qed.
End Kept.
