(* ===== verification/TenancyFacts.v ===== *)
(** * TenancyFacts: every statement of the admin API keeps the type and the tenants

    For any set [T] of organizations whose rows are [v]: a statement of [AdminPg] whose
    arguments name no row of [v] keeps [v], and the type of the deployment; so do the
    account operations, the events and the platform mail of the handlers.  With an
    empty [T] the condition is void and the type is left. *)

From S2P Require Import Prelude RustStr Net Model SendLimit Message MemoryStore Queue MailDb PgSink Housekeeping PgStore Compose ApiSend.
From S2P Require Import Auth AuthStore AuthPg AppMailer AdminStore AdminPg Workspace AuthApi RustStrFacts MemoryFacts AuthStoreFacts HandlerLogic Tenancy.

Section Statements.
Context `{ORD : !HashOrder, CRA : !Crates, AUTH : !AuthCrates, ADM : !AdminCrates} (lower : bytes → bytes) (collate_le : bytes → bytes → bool).
Context (T : Id → bool) (v : Tenancy).
Implicit Types (d : Deployment) (sid : Id).
Local Abbreviation K := (kept lower T v).
Local Abbreviation spare f rows := (unlisted f (rows v)).

(** A refused insertion, and one that gives the row. *)
Ltac refusal := split; [by apply kept_next | done].
(** What a change of the tables has to show: the constraints, and the rows of [v]. *)
Ltac change_of d := refine (kept_change lower T v d _ _ _ _ _ _); [reflexivity | try apply next_le; done | | | done].
(** A row of a spare id. *)
Ltac unlisted Hd Hs :=
  let x := fresh in let Hx := fresh in let HQ := fresh in
  intros x Hx HQ; rewrite <- (kept_view _ _ _ _ Hd) in Hs; unfold unlisted, restrict in Hs; cbn in Hs; exact (unlisted_row _ _ _ _ x Hs Hx HQ).

(** ** Domains *)

Lemma keeps_create_domain sid name key : spare srv_id tn_servers sid → keeps K (pg_create_server_domain sid name key) (λ _, True).
Proof.
  intros Hs. apply keeps_insertion. intros d Hd. destruct (existsb _ _) eqn:He; [refusal|]. split; [|done].
  change_of d.
  - apply (wf_add_domain (dp_sequence d) (tenancy d)); [done| |apply Hd]. eapply existsb_absent; [exact He|]. cbn. intros x [= -> ->].
    by rewrite bool_decide_eq_true_2, bytes_eqb_refl.
  - apply (restrict_domains T (tenancy d)), filter_snoc. by apply (spare_own _ _ _ _ _ Hd).
Qed.
Lemma domain_spared d x sid : K d → x ∈ pt_domains (tables d) → dom_owner x = OwnerServer sid → spare srv_id tn_servers sid → spare dom_id tn_domains (dom_id x).
Proof.
  intros Hd Hx Ho Hs. rewrite <- (kept_view _ _ _ _ Hd). eapply row_unlisted; [apply (kept_wf _ _ _ _ Hd)|done|].
  unfold own_domain. rewrite Ho. by apply (spare_own _ _ _ _ _ Hd).
Qed.
Lemma keeps_domain_by_name sid name : spare srv_id tn_servers sid →
  keeps K (pg_domain_by_name sid name) (λ o, ∀ x, o = Some x → spare dom_id tn_domains (dom_id x)).
Proof.
  intros Hs. apply keeps_select. intros d Hd x [Hx [Ho%bool_decide_eq_true _]%andb_true_iff]%find_elem. by eapply domain_spared.
Qed.
Lemma keeps_update_domain id f : (∀ x, dom_id (f x) = dom_id x) → (∀ x, dom_owner (f x) = dom_owner x) → (∀ x, dom_name (f x) = dom_name x) →
  spare dom_id tn_domains id → keeps K (update_domain id f) (λ _, True).
Proof.
  intros Hid Ho Hn Hs. apply keeps_statement. intros d Hd. split; [|done].
  change_of d.
  - apply (wf_modify_domain (dp_sequence d) (tenancy d)); [done..|apply Hd].
  - apply (restrict_domains T (tenancy d)), filter_modify; [by intros x; unfold own_domain; rewrite Ho|]. unlisted Hd Hs.
Qed.
Lemma keeps_delete_domain id : spare dom_id tn_domains id → keeps K (pg_delete_domain id) (λ _, True).
Proof.
  intros Hs. apply keeps_statement. intros d Hd. split; [|done].
  change_of d.
  - apply (wf_delete_domain (dp_sequence d) (tenancy d)), Hd.
  - pose proof (kept_wf _ _ _ _ Hd) as W. pose (l := discard (λ x, (dom_id x =? id)%N) (tn_domains (tenancy d))).
    transitivity (restrict T ((tenancy d) <| tn_domains := l |>)); [|apply (restrict_domains T (tenancy d)), filter_discard; unlisted Hd Hs].
    pose (m := modify (λ r, bool_decide (rt_domain_id r = Some id)) (λ r, r <| rt_domain_id := None |>) (tn_routes (tenancy d))).
    change (restrict T (((tenancy d) <| tn_domains := l |>) <| tn_routes := m |>) = restrict T ((tenancy d) <| tn_domains := l |>)).
    apply restrict_routes, filter_modify; [done|].
    intros r Hr Hi%bool_decide_eq_true. destruct (rows_below _ _ _ _ _ _ (tw_routes _ _ W) Hr) as [_ [_ Hdom]].
    destruct (Hdom _ Hi) as (x & Hx & <- & Ho). apply not_true_iff_false. intros Hmine. apply Hs. rewrite <- (kept_view _ _ _ _ Hd).
    apply list_elem_of_fmap_2, filter_elem. split; [done|]. unfold own_domain. by rewrite Ho.
Qed.

(** ** Track domains *)

Lemma keeps_track_domain_by_id sid id : spare srv_id tn_servers sid →
  keeps K (pg_track_domain_by_id sid id) (λ o, ∀ x, o = Some x → spare td_id tn_track_domains (td_id x)).
Proof.
  intros Hs. apply keeps_select. intros d Hd x [Hx [Ho%N.eqb_eq _]%andb_true_iff]%find_elem. rewrite <- (kept_view _ _ _ _ Hd).
  eapply row_unlisted; [apply (kept_wf _ _ _ _ Hd)|done|]. cbn. rewrite Ho. by apply (spare_own _ _ _ _ _ Hd).
Qed.
Lemma keeps_create_track_domain sid name : spare srv_id tn_servers sid → keeps K (pg_create_track_domain sid name) (λ _, True).
Proof.
  intros Hs. apply keeps_insertion. intros d Hd. destruct (has_server sid _) eqn:Hsid; [|refusal]. destruct (existsb _ _) eqn:He; [refusal|].
  split; [|done]. change_of d.
  - apply (wf_add_track_domain (dp_sequence d) (tenancy d)); [done| |by apply has_server_in in Hsid|apply Hd].
    eapply existsb_absent; [exact He|]. cbn. intros x [= E1 E2]. unfold track_domain_of. by rewrite E1, E2, N.eqb_refl, bytes_eqb_refl.
  - apply (restrict_track_domains T (tenancy d)), filter_snoc. by apply (spare_own _ _ _ _ _ Hd).
Qed.
Lemma keeps_verify_track_domain id b : spare td_id tn_track_domains id → keeps K (pg_set_track_domain_verified id b) (λ _, True).
Proof.
  intros Hs. apply keeps_statement. intros d Hd. split; [|done]. change_of d.
  - apply (wf_modify_track_domain (dp_sequence d) (tenancy d)); [done..|apply Hd].
  - apply (restrict_track_domains T (tenancy d)), filter_modify; [done|]. unlisted Hd Hs.
Qed.
Lemma keeps_delete_track_domain id : spare td_id tn_track_domains id → keeps K (pg_delete_track_domain id) (λ _, True).
Proof.
  intros Hs. apply keeps_statement. intros d Hd. split; [|done]. change_of d.
  - apply (wf_discard_track_domain (dp_sequence d) (tenancy d)), Hd.
  - apply (restrict_track_domains T (tenancy d)), filter_discard. unlisted Hd Hs.
Qed.

(** ** Credentials *)

Lemma credential_spared d c sid : K d → c ∈ pt_credentials (tables d) → cred_server_id c = sid → spare srv_id tn_servers sid →
  spare cred_id tn_credentials (cred_id c).
Proof.
  intros Hd Hc <- Hs. rewrite <- (kept_view _ _ _ _ Hd). change (cred_id c) with (cred_id (unused c)).
  eapply row_unlisted; [apply (kept_wf _ _ _ _ Hd)|by apply list_elem_of_fmap_2|]. by apply (spare_own _ _ _ _ _ Hd).
Qed.
Lemma keeps_credential_by_id sid id : spare srv_id tn_servers sid →
  keeps K (pg_credential_by_id sid id) (λ o, ∀ c, o = Some c → spare cred_id tn_credentials (cred_id c)).
Proof.
  intros Hs. apply keeps_select. intros d Hd x [Hx [Ho%N.eqb_eq _]%andb_true_iff]%find_elem. by eapply credential_spared.
Qed.
Lemma keeps_list_credentials sid : spare srv_id tn_servers sid →
  keeps K (pg_list_credentials sid) (λ l, ∀ c, c ∈ l → spare cred_id tn_credentials (cred_id c)).
Proof.
  intros Hs. apply keeps_select. intros d Hd c. rewrite stable_sort_perm. intros [Hc Ho%N.eqb_eq]%filter_elem. by eapply credential_spared.
Qed.
Lemma keeps_create_credential new : spare srv_id tn_servers (nc_server_id new) → keeps K (pg_create_credential_record new) (λ _, True).
Proof.
  intros Hs. apply keeps_insertion. intros d Hd. destruct (has_server _ _) eqn:Hsid; [|refusal]. split; [|done].
  refine (kept_change lower T v d _ _ _ _ _ _); [reflexivity|apply next_le| | |done]; unfold tenancy; cbn; rewrite map_app.
  - apply (wf_add_credential (dp_sequence d) (tenancy d)); [done|by apply has_server_in in Hsid|apply Hd].
  - apply (restrict_credentials T (tenancy d)), (filter_snoc _ _ (unused _)). by apply (spare_own _ _ _ _ _ Hd).
Qed.
Lemma keeps_update_credential c : spare cred_id tn_credentials (cred_id c) → keeps K (pg_update_credential c) (λ _, True).
Proof.
  intros Hs. apply keeps_statement. intros d Hd. split; [|done].
  refine (kept_change lower T v d _ _ _ _ _ _); [reflexivity|done| | |done]; unfold tenancy; cbn; rewrite map_modified by done.
  - apply (wf_modify_credential (dp_sequence d) (tenancy d)); [done..|apply Hd].
  - apply (restrict_credentials T (tenancy d)), filter_modify; [done|]. unlisted Hd Hs.
Qed.
Lemma keeps_delete_credential id : spare cred_id tn_credentials id → keeps K (pg_delete_credential id) (λ _, True).
Proof.
  intros Hs. apply keeps_statement. intros d Hd. split; [|done].
  refine (kept_change lower T v d _ _ _ _ _ _); [reflexivity|done| | |done]; unfold tenancy; cbn; rewrite map_discard by done.
  - apply (wf_discard_credential (dp_sequence d) (tenancy d)), Hd.
  - apply (restrict_credentials T (tenancy d)), filter_discard. unlisted Hd Hs.
Qed.

(** ** Routes *)

Lemma route_spared d r sid : K d → r ∈ pt_routes (tables d) → rt_server_id r = sid → spare srv_id tn_servers sid → spare rt_id tn_routes (rt_id r).
Proof.
  intros Hd Hr <- Hs. rewrite <- (kept_view _ _ _ _ Hd).
  eapply row_unlisted; [apply (kept_wf _ _ _ _ Hd)|done|]. by apply (spare_own _ _ _ _ _ Hd).
Qed.
Lemma keeps_route_by_id sid id : spare srv_id tn_servers sid →
  keeps K (pg_route_by_id sid id) (λ o, ∀ r, o = Some r → spare rt_id tn_routes (rt_id r)).
Proof.
  intros Hs. apply keeps_select. intros d Hd x [Hx [Ho%N.eqb_eq _]%andb_true_iff]%find_elem. by eapply route_spared.
Qed.
(** The domain, when it names one, is of the server. *)
Lemma kept_create_route d new : K d → spare srv_id tn_servers (nr_server_id new) →
  (∀ i, nr_domain_id new = Some i → ∃ x, x ∈ pt_domains (tables d) ∧ dom_id x = i ∧ dom_owner x = OwnerServer (nr_server_id new)) →
  K (pg_create_route_record new d).2.
Proof.
  intros Hd Hs Hdom. unfold pg_create_route_record, insertion, statement. destruct (dp_failing d Insert Routes); [done|].
  destruct (has_server _ _ && _) eqn:Hsid; [|by apply kept_next]. destruct (existsb _ _) eqn:He; [by apply kept_next|].
  apply andb_true_iff in Hsid as [Hsid _]. change_of d.
  - apply (wf_add_route (dp_sequence d) (tenancy d)); [done| |by apply has_server_in in Hsid|exact Hdom|apply Hd].
    eapply existsb_absent; [exact He|]. cbn. intros x E. by rewrite E, bytes_eqb_refl.
  - apply (restrict_routes T (tenancy d)), filter_snoc. by apply (spare_own _ _ _ _ _ Hd).
Qed.
Lemma kept_update_route d route : K d → spare rt_id tn_routes (rt_id route) →
  (∀ r, r ∈ pt_routes (tables d) → rt_id r = rt_id route → rt_domain_id route = rt_domain_id r) → K (pg_update_route route d).2.
Proof.
  intros Hd Hs Hdom. unfold pg_update_route, statement. destruct (dp_failing d Update Routes); [done|]. destruct (existsb _ _ && _); [done|].
  change_of d.
  - apply (wf_modify_route (dp_sequence d) (tenancy d)); [done..| |apply Hd]. intros r Hr E%N.eqb_eq i. cbn. rewrite (Hdom r Hr E).
    apply (rows_below _ _ _ _ _ _ (tw_routes _ _ (kept_wf _ _ _ _ Hd)) Hr).
  - apply (restrict_routes T (tenancy d)), filter_modify; [done|]. unlisted Hd Hs.
Qed.
Lemma keeps_delete_route id : spare rt_id tn_routes id → keeps K (pg_delete_route id) (λ _, True).
Proof.
  intros Hs. apply keeps_statement. intros d Hd. split; [|done]. change_of d.
  - apply (wf_discard_route (dp_sequence d) (tenancy d)), Hd.
  - apply (restrict_routes T (tenancy d)), filter_discard. unlisted Hd Hs.
Qed.

(** ** Webhooks *)

Lemma keeps_webhook_by_id sid id : spare srv_id tn_servers sid →
  keeps K (pg_webhook_by_id sid id) (λ o, ∀ w, o = Some w → spare wh_id tn_webhooks (wh_id w)).
Proof.
  intros Hs. apply keeps_select. intros d Hd x [Hx [Ho%N.eqb_eq _]%andb_true_iff]%find_elem. rewrite <- (kept_view _ _ _ _ Hd).
  eapply row_unlisted; [apply (kept_wf _ _ _ _ Hd)|done|]. cbn. rewrite Ho. by apply (spare_own _ _ _ _ _ Hd).
Qed.
Lemma keeps_create_webhook new : spare srv_id tn_servers (nw_server_id new) → keeps K (pg_create_webhook new) (λ _, True).
Proof.
  intros Hs. apply keeps_insertion. intros d Hd. destruct (has_server _ _) eqn:Hsid; [|refusal]. split; [|done]. change_of d.
  - apply (wf_add_webhook (dp_sequence d) (tenancy d)); [done|by apply has_server_in in Hsid|apply Hd].
  - apply (restrict_webhooks T (tenancy d)), filter_snoc. by apply (spare_own _ _ _ _ _ Hd).
Qed.
Lemma keeps_update_webhook w : spare wh_id tn_webhooks (wh_id w) → keeps K (pg_update_webhook w) (λ _, True).
Proof.
  intros Hs. apply keeps_statement. intros d Hd. split; [|done]. change_of d.
  - apply (wf_modify_webhook (dp_sequence d) (tenancy d)); [done..|apply Hd].
  - apply (restrict_webhooks T (tenancy d)), filter_modify; [done|]. unlisted Hd Hs.
Qed.
Lemma keeps_delete_webhook id : spare wh_id tn_webhooks id → keeps K (pg_delete_webhook id) (λ _, True).
Proof.
  intros Hs. apply keeps_statement. intros d Hd. split; [|done]. change_of d.
  - apply (wf_discard_webhook (dp_sequence d) (tenancy d)), Hd.
  - apply (restrict_webhooks T (tenancy d)), filter_discard. unlisted Hd Hs.
Qed.

(** ** Sender addresses and suppressions *)

Lemma keeps_sender_address_by_id sid id : spare srv_id tn_servers sid →
  keeps K (pg_sender_address_by_id sid id) (λ o, ∀ a, o = Some a → spare sa_id tn_senders (sa_id a)).
Proof.
  intros Hs. apply keeps_select. intros d Hd x [Hx [Ho%N.eqb_eq _]%andb_true_iff]%find_elem. rewrite <- (kept_view _ _ _ _ Hd).
  eapply row_unlisted; [apply (kept_wf _ _ _ _ Hd)|done|]. cbn. rewrite Ho. by apply (spare_own _ _ _ _ _ Hd).
Qed.
Lemma keeps_create_sender_address new : spare srv_id tn_servers (nsa_server_id new) → keeps K (pg_create_sender_address new) (λ _, True).
Proof.
  intros Hs. apply keeps_insertion. intros d Hd. destruct (has_server _ _) eqn:Hsid; [|refusal]. destruct (existsb _ _) eqn:He; [refusal|].
  split; [|done]. change_of d.
  - apply (wf_add_sender (dp_sequence d) (tenancy d)); [done| |by apply has_server_in in Hsid|apply Hd].
    eapply existsb_absent; [exact He|]. cbn. intros x [= E1 E2]. unfold sender_address_of. by rewrite E1, E2, N.eqb_refl, bytes_eqb_refl.
  - apply (restrict_senders T (tenancy d)), filter_snoc. by apply (spare_own _ _ _ _ _ Hd).
Qed.
Lemma keeps_delete_sender_address id : spare sa_id tn_senders id → keeps K (pg_delete_sender_address id) (λ _, True).
Proof.
  intros Hs. apply keeps_statement. intros d Hd. split; [|done]. change_of d.
  - apply (wf_discard_sender (dp_sequence d) (tenancy d)), Hd.
  - apply (restrict_senders T (tenancy d)), filter_discard. unlisted Hd Hs.
Qed.
Lemma keeps_create_suppression new : spare srv_id tn_servers (nsp_server_id new) → keeps K (pg_create_suppression new) (λ _, True).
Proof.
  intros Hs. apply keeps_insertion. intros d Hd. cbv zeta. destruct (has_server _ _ && _) eqn:Hsid; [|refusal]. destruct (existsb _ _) eqn:He; [refusal|].
  apply andb_true_iff in Hsid as [Hsid _]. split; [|done]. change_of d.
  - apply (tenancy_wf_mono (dp_sequence d)); [apply next_le|].
    apply (wf_add_suppression (dp_sequence d) (tenancy d)); [|by apply has_server_in in Hsid|apply Hd].
    eapply existsb_absent; [exact He|]. cbn. intros x [= E1 E2 E3]. unfold suppression_of. by rewrite E1, E2, E3, !N.eqb_refl, bytes_eqb_refl.
  - apply (restrict_suppressions T (tenancy d)), filter_snoc. by apply (spare_own _ _ _ _ _ Hd).
Qed.
Lemma keeps_delete_suppression sid address : spare srv_id tn_servers sid → keeps K (pg_delete_suppression sid address) (λ _, True).
Proof.
  intros Hs. apply keeps_statement. intros d Hd. split; [|done]. change_of d.
  - apply (wf_discard_suppression (dp_sequence d) (tenancy d)), Hd.
  - apply (restrict_suppressions T (tenancy d)), filter_discard. intros x _ [E%N.eqb_eq _]%andb_true_iff. rewrite E.
    by apply (spare_own _ _ _ _ _ Hd).
Qed.

(** ** Servers *)

Lemma keeps_server_by_permalink o permalink : T o = false →
  keeps K (pg_server_by_permalink o permalink) (λ r, ∀ s, r = Some s → spare srv_id tn_servers (srv_id s) ∧ srv_organization_id s = o).
Proof.
  intros HT. apply keeps_select. intros d Hd s [Hs [E%N.eqb_eq _]%andb_true_iff]%find_elem. split; [|done].
  eapply server_spared; [exact Hd|done|by rewrite E].
Qed.
Lemma fresh_server d : K d → spare srv_id tn_servers (dp_sequence d Servers).
Proof.
  intros Hd (s & E & Hs)%list_elem_of_fmap. rewrite <- (kept_view _ _ _ _ Hd) in Hs. apply filter_elem in Hs as [Hs _].
  destruct (rows_below _ _ _ _ _ _ (tw_servers _ _ (kept_wf _ _ _ _ Hd)) Hs) as [Hlt _]. lia.
Qed.
Lemma keeps_insert_server_row new : T (nsv_organization_id new) = false →
  keeps K (insert_server_row new) (λ s, spare srv_id tn_servers (srv_id s)).
Proof.
  intros HT. apply keeps_insertion. intros d Hd. cbv zeta. destruct (has_organization _ _) eqn:Ho; [|refusal]. destruct (existsb _ _) eqn:He; [refusal|].
  split; [|intros s [= <-]; by apply fresh_server]. change_of d.
  - apply (wf_add_server (dp_sequence d) (tenancy d)); [done|by apply has_organization_in in Ho| | |apply Hd];
      (eapply existsb_absent; [exact He|]); cbn; intros s E; unfold is_server.
    + injection E as -> ->. by rewrite N.eqb_refl, bytes_eqb_refl.
    + by rewrite E, bytes_eqb_refl, orb_true_r.
  - apply (restrict_servers T (tenancy d)), filter_snoc. done.
Qed.
Lemma keeps_insert_default_stream sid : spare srv_id tn_servers sid → keeps K (insert_default_stream sid) (λ _, True).
Proof.
  intros Hs. apply keeps_insertion. intros d Hd. cbv zeta. destruct (has_server _ _) eqn:Hsid; [|refusal]. destruct (existsb _ _) eqn:He; [refusal|].
  split; [|done]. change_of d.
  - apply (wf_add_stream (dp_sequence d) (tenancy d)); [done| |by apply has_server_in in Hsid|apply Hd].
    eapply existsb_absent; [exact He|]. cbn. intros x [= E1 E2]. by rewrite E1, E2, N.eqb_refl, bytes_eqb_refl.
  - apply (restrict_streams T (tenancy d)), filter_snoc. by apply (spare_own _ _ _ _ _ Hd).
Qed.
Lemma kept_on_server d id f : (∀ s, srv_id (f s) = srv_id s) → (∀ s, srv_organization_id (f s) = srv_organization_id s) →
  (∀ s, srv_permalink (f s) = srv_permalink s) → (∀ s, srv_token (f s) = srv_token s) → spare srv_id tn_servers id → K d → K (on_server id f d).
Proof.
  intros Hid Ho Hp Ht Hs Hd. change_of d.
  - apply (wf_modify_server (dp_sequence d) (tenancy d)); [done..|apply Hd].
  - apply (restrict_servers T (tenancy d)), filter_modify; [intros s; unfold own_server; by rewrite Ho|]. unlisted Hd Hs.
Qed.
Lemma keeps_create_server new : T (nsv_organization_id new) = false → keeps K (pg_create_server new) (λ s, spare srv_id tn_servers (srv_id s)).
Proof.
  intros HT d Hd. unfold pg_create_server. destruct (keeps_insert_server_row new HT d Hd) as [Hd1 Hs].
  destruct (insert_server_row new d) as [[e|row] d1]; cbn in *; [by split|]. specialize (Hs _ eq_refl).
  destruct (keeps_insert_default_stream _ Hs d1 Hd1) as [Hd2 _]. destruct (insert_default_stream (srv_id row) d1) as [[e|i] d2]; cbn in *; [by split|].
  unfold statement. destruct (dp_failing d2 Update Servers); [by split|]. split; [by apply kept_on_server|]. by intros s [= <-].
Qed.
Lemma keeps_update_server s : spare srv_id tn_servers (srv_id s) → keeps K (pg_update_server s) (λ _, True).
Proof. intros Hs. apply keeps_statement. intros d Hd. split; [|done]. by apply kept_on_server. Qed.
Lemma keeps_set_server_ip_pool sid pool : spare srv_id tn_servers sid → keeps K (pg_set_server_ip_pool sid pool) (λ _, True).
Proof. intros Hs. apply keeps_statement. intros d Hd. destruct (_ && _); (split; [|done]); [done|]. by apply kept_on_server. Qed.
Lemma tenancy_without_servers gone d : tenancy (without_servers gone d) = drop_servers gone (tenancy d).
Proof. unfold tenancy, drop_servers. cbn. by rewrite map_discard. Qed.
Lemma keeps_delete_server id : spare srv_id tn_servers id → keeps K (pg_delete_server id) (λ _, True).
Proof.
  intros Hs. apply keeps_statement. intros d Hd. split; [|done]. refine (kept_change lower T v d _ _ _ _ _ _); [reflexivity|done| | |done];
    cbn [snd ok]; rewrite tenancy_without_servers.
  - apply wf_drop_servers, Hd.
  - eapply restrict_drop_servers; [apply Hd|]. unlisted Hd Hs.
Qed.

(** ** Accounts *)

(** The organizations, and the members and invitations of those in [T]. *)
Definition same_people (a a' : Accounts) : Prop :=
  ac_organizations a' = ac_organizations a ∧
  retain (λ _ m, T (om_organization_id m)) (ac_memberships a') = retain (λ _ m, T (om_organization_id m)) (ac_memberships a) ∧
  retain (λ _ i, T (in_organization_id i)) (ac_invitations a') = retain (λ _ i, T (in_organization_id i)) (ac_invitations a).
Lemma same_people_refl a : same_people a a.
Proof. done. Qed.
Lemma execute_people {A} q (f : Accounts → SRes A * Accounts) s : (∀ a, same_people a (f a).2) →
  same_people (pa_accounts s) (pa_accounts (execute q f s).2).
Proof. intros Hf. unfold execute. destruct (pa_failing s q); [done|]. specialize (Hf (pa_accounts s)). by destruct (f _). Qed.
Lemma insert_people {A} q table (f : Id → Accounts → SRes A * Accounts) s : same_people (pa_accounts s) (f (pa_sequence s table) (pa_accounts s)).2 →
  same_people (pa_accounts s) (pa_accounts (insert_into q table f s).2).
Proof. intros Hf. unfold insert_into. destruct (pa_failing s q); [done|]. by destruct (f _ _). Qed.

Lemma keeps_account_step {A} (op : PgAuth → SRes A * PgAuth) : (∀ s, pg_wf lower s → pg_wf lower (op s).2) →
  (∀ s, pg_wf lower s → same_people (pa_accounts s) (pa_accounts (op s).2)) → keeps K (account_step op) (λ _, True).
Proof.
  intros Hwf Hpeople d Hd. split; [|done]. pose proof Hd as [[W Wa] [Hv HT]]. specialize (Hwf _ Wa). specialize (Hpeople _ Wa) as (Ho & Hm & Hi).
  unfold account_step. destruct (op (account_view d)) as [r s'] eqn:E. cbn in *. split; [split|split; [|done]].
  - destruct W. constructor; cbn; done.
  - destruct s' as [[] ? ?]. cbn in *. subst. exact Hwf.
  - rewrite <- Hv. unfold restrict. cbn. by rewrite Hm, Hi.
Qed.
Lemma keeps_account_query {A} (q : PgAuth → SRes A) : keeps K (account_step (reading q)) (λ _, True).
Proof. by apply keeps_account_step. Qed.

(** No writing operation depends on the collation. *)
Local Abbreviation run := (run_op_wf lower (λ _ _, true)).
(** What no tenant notices. *)
Ltac unnoticed := intros s _; first [apply execute_people; intros a | apply insert_people]; cbn; repeat case_match; done.

Lemma keeps_touch_session id l e : keeps K (account_step (pg_touch_session id l e)) (λ _, True).
Proof. apply keeps_account_step; [intros s; exact (run (OTouchSession id l e) s)|]. unnoticed. Qed.
Lemma keeps_record_auth_event now e : keeps K (account_step (pg_record_auth_event now e)) (λ _, True).
Proof. apply keeps_account_step; [intros s; exact (run (ORecordEvent now e) s)|]. unnoticed. Qed.
Lemma keeps_set_password_digest u x : keeps K (account_step (pg_set_password_digest u x)) (λ _, True).
Proof. apply keeps_account_step; [intros s; exact (run (OSetPassword u x) s)|]. unfold pg_set_password_digest, upsert_user_auth. unnoticed. Qed.
Lemma keeps_create_user new : keeps K (account_step (pg_create_user new)) (λ _, True).
Proof. apply keeps_account_step; [intros s; exact (run (OCreateUser new) s)|]. unnoticed. Qed.
Lemma keeps_update_user u : keeps K (account_step (pg_update_user u)) (λ _, True).
Proof. apply keeps_account_step; [intros s; exact (run (OUpdateUser u) s)|]. unnoticed. Qed.

(** Rows of other organizations. *)
Lemma retain_same {A} (P : A → bool) (m m' : gmap Id A) : (∀ i x, P x = true → m' !! i = Some x ↔ m !! i = Some x) →
  retain (λ _ x, P x) m' = retain (λ _ x, P x) m.
Proof. intros Hs. apply map_eq. intros i. apply option_eq. intros x. rewrite !lookup_retain. split; intros [Hx HP]; (split; [by apply Hs|done]). Qed.
Lemma retain_insert_other {A} (P : A → bool) (m : gmap Id A) i y : P y = false → (∀ x, m !! i = Some x → P x = false) →
  retain (λ _ x, P x) (<[i := y]> m) = retain (λ _ x, P x) m.
Proof.
  intros Hy Hi. apply retain_same. intros j x HP. rewrite lookup_insert_Some. split; [intros [[<- <-]|[_ Hx]]; [congruence|done]|].
  intros Hx. right. split; [|done]. intros <-. rewrite (Hi x Hx) in HP. congruence.
Qed.
Lemma retain_retain_other {A} (P : A → bool) (Q : Id → A → bool) (m : gmap Id A) : (∀ i x, P x = true → Q i x = true) →
  retain (λ _ x, P x) (retain Q m) = retain (λ _ x, P x) m.
Proof. intros HQ. apply retain_same. intros i x HP. rewrite lookup_retain. split; [by intros []|]. intros Hx. split; [done|]. by apply HQ. Qed.
Lemma keeps_upsert_membership now o u r : T o = false → keeps K (account_step (pg_upsert_membership now o u r)) (λ _, True).
Proof.
  intros HT. apply keeps_account_step; [intros s; exact (run (OUpsertMembership now o u r) s)|]. intros s W. apply insert_people.
  destruct (List.find _ _) as [[k row]|] eqn:Hf; cbn.
  - apply find_Some_key in Hf as [Hk [Ho _]%is_membership_spec]. cbn in *. split; [done|]. split; [|done].
    apply (retain_insert_other (λ m, T (om_organization_id m))); cbn; [by rewrite Ho|]. intros x Hx. cbn in *. congruence.
  - destruct (_ && _); cbn; [|done]. split; [done|]. split; [|done]. apply (retain_insert_other (λ m, T (om_organization_id m))); [done|].
    intros x Hx. destruct (rows_ok _ _ _ (wf_memberships _ _ _ W) _ _ Hx) as (_ & Hlt & _). lia.
Qed.
Lemma keeps_delete_membership o u : T o = false → keeps K (account_step (pg_delete_membership o u)) (λ _, True).
Proof.
  intros HT. apply keeps_account_step; [intros s; exact (run (ODeleteMembership o u) s)|]. intros s _. apply execute_people. intros a.
  cbn. split; [done|]. split; [|done]. apply (retain_retain_other (λ m, T (om_organization_id m))). intros i m Hm.
  apply negb_true_iff, not_true_iff_false. intros [Ho _]%is_membership_spec. congruence.
Qed.
Lemma keeps_create_invitation new : T (ni_organization_id new) = false → keeps K (account_step (pg_create_invitation lower new)) (λ _, True).
Proof.
  intros HT. apply keeps_account_step; [intros s; exact (run (OCreateInvitation new) s)|]. intros s W. apply insert_people.
  repeat case_match; try done. cbn. split; [done|]. split; [done|]. apply (retain_insert_other (λ i, T (in_organization_id i))); [done|].
  intros x Hx. destruct (rows_ok _ _ _ (wf_invitations _ _ _ W) _ _ Hx) as (_ & Hlt & _). lia.
Qed.
Lemma keeps_delete_invitation o id : T o = false → keeps K (account_step (pg_delete_invitation o id)) (λ _, True).
Proof.
  intros HT. apply keeps_account_step; [intros s; exact (run (ODeleteInvitation o id) s)|]. intros s _. apply execute_people. intros a.
  cbn. split; [done|]. split; [done|]. apply (retain_retain_other (λ i, T (in_organization_id i))). intros i m Hm.
  apply negb_true_iff, not_true_iff_false. intros [_ Ho%N.eqb_eq]%andb_true_iff. congruence.
Qed.
Lemma keeps_delete_user id : (∀ o, T o = false) → keeps K (account_step (pg_delete_user id)) (λ _, True).
Proof.
  intros HT. apply keeps_account_step; [intros s; exact (run (ODeleteUser id) s)|]. intros s _. apply execute_people. intros a.
  cbn. split; [done|]. split; [apply (retain_retain_other (λ m, T (om_organization_id m))) | apply (retain_retain_other (λ i, T (in_organization_id i)))];
    intros i m Hm; by rewrite HT in Hm.
Qed.

(** ** Organizations *)

Definition organization_map (l : list Organization) : gmap Id Organization := list_to_map (map (λ o, (org_id o, o)) l).
Lemma organization_map_lookup l i : is_Some (organization_map l !! i) ↔ i ∈ map org_id l.
Proof.
  assert (E : (map (λ o, (org_id o, o)) l).*1 = map org_id l) by (rewrite <- list_fmap_compose; done). rewrite <- E.
  rewrite <- not_eq_None_Some. unfold organization_map. rewrite <- not_elem_of_list_to_map.
  split; [intros H; by apply dec_stable | by intros H1 H2].
Qed.
(** The accounts, with other organizations and fewer people. *)
Lemma accounts_wf_people seq a organizations ms invs : accounts_wf lower seq a →
  (∀ i m, ms !! i = Some m → ac_memberships a !! i = Some m ∧ is_Some (organizations !! om_organization_id m)) →
  (∀ i x, invs !! i = Some x → ac_invitations a !! i = Some x ∧ is_Some (organizations !! in_organization_id x)) →
  accounts_wf lower seq (a <| ac_organizations := organizations |> <| ac_memberships := ms |> <| ac_invitations := invs |>).
Proof.
  intros [] Hm Hi. constructor; cbn; try done.
  - destruct wf_memberships as [HP HU]. split.
    + intros i m Hx. destruct (Hm _ _ Hx) as [Hx' ?]. destruct (HP _ _ Hx') as (? & ? & ? & _). done.
    + intros i j x y Hx Hy. apply HU; [by apply (Hm i)|by apply (Hm j)].
  - destruct wf_invitations as [HP HU]. split.
    + intros i m Hx. destruct (Hi _ _ Hx) as [Hx' ?]. destruct (HP _ _ Hx') as (? & ? & ? & _). done.
    + intros i j x y Hx Hy. apply HU; [by apply (Hi i)|by apply (Hi j)].
Qed.
(** A member's organization is there. *)
Lemma membership_organization d i m : pg_wf lower (account_view d) → ac_memberships (accounts d) !! i = Some m → om_organization_id m ∈ map org_id (pt_organizations (tables d)).
Proof. intros W Hm. apply organization_map_lookup. by apply (rows_ok _ _ _ (wf_memberships _ _ _ W) _ _ Hm). Qed.
Lemma invitation_organization d i x : pg_wf lower (account_view d) → ac_invitations (accounts d) !! i = Some x → in_organization_id x ∈ map org_id (pt_organizations (tables d)).
Proof. intros W Hm. apply organization_map_lookup. by apply (rows_ok _ _ _ (wf_invitations _ _ _ W) _ _ Hm). Qed.
(** Other organizations, the same people. *)
Lemma kept_organizations d d' : dp_accounts d' = dp_accounts d → (∀ i, i ∈ map org_id (pt_organizations (tables d)) → i ∈ map org_id (pt_organizations (tables d'))) →
  (∀ x, dp_sequence d x <= dp_sequence d' x)%N → tenancy_wf (dp_sequence d') (tenancy d') → restrict T (tenancy d') = restrict T (tenancy d) → K d → K d'.
Proof.
  intros Ha Hsub Hseq W E [[_ Wa] [Hv HT]]. split; [split; [done|]|split; [by rewrite E|]].
  - apply (accounts_wf_people _ _ (organization_map (pt_organizations (tables d'))) (ac_memberships (accounts d)) (ac_invitations (accounts d))) in Wa.
    + unfold account_view. rewrite Ha. exact Wa.
    + intros i m Hm. split; [done|]. apply organization_map_lookup, Hsub. by eapply membership_organization.
    + intros i m Hm. split; [done|]. apply organization_map_lookup, Hsub. by eapply invitation_organization.
  - intros o Ho. specialize (HT o Ho). specialize (Hseq Organizations). lia.
Qed.

Local Abbreviation spare_permalink p := (p ∉ map org_permalink (tn_organizations v)).
Lemma keeps_organization_by_permalink p : spare_permalink p →
  keeps K (dp_organization_by_permalink p) (λ r, ∀ o, r = Some o → T (org_id o) = false ∧ org_permalink o = p).
Proof.
  intros Hp. apply keeps_select. intros d Hd o [Ho E%bytes_eqb_eq]%find_elem. split; [|done]. apply not_true_iff_false. intros HT. apply Hp.
  rewrite <- E, <- (kept_view _ _ _ _ Hd). by apply list_elem_of_fmap_2, filter_elem.
Qed.
Lemma modify_none {A} (P : A → bool) f l : existsb P l = false → modify P f l = l.
Proof.
  unfold modify. induction l as [|x l IH]; [done|]. cbn. intros [-> Hl]%orb_false_iff. by rewrite IH.
Qed.
Lemma fresh_organization d : K d → T (dp_sequence d Organizations) = false.
Proof. intros [_ [_ HT]]. apply not_true_iff_false. intros H. specialize (HT _ H). lia. Qed.
Lemma keeps_create_organization new : keeps K (pg_create_organization new) (λ o, T (org_id o) = false).
Proof.
  apply keeps_insertion. intros d Hd. destruct (existsb _ _) eqn:He; [refusal|]. split; [|intros o [= <-]; by apply fresh_organization].
  apply (kept_organizations d); [done| |apply next_le| | |done].
  - intros i Hi. cbn. rewrite map_app. apply elem_of_app. by left.
  - apply (wf_add_organization (dp_sequence d) (tenancy d)); [done| |apply Hd]. eapply existsb_absent; [exact He|]. cbn. intros x E. by rewrite E, bytes_eqb_refl.
  - apply (restrict_organizations T (tenancy d)), filter_snoc. by apply fresh_organization.
Qed.
Lemma keeps_update_organization o : T (org_id o) = false → keeps K (pg_update_organization o) (λ _, True).
Proof.
  intros HT. apply keeps_statement. intros d Hd. cbv zeta. destruct (has_organization _ _) eqn:Ho; cbn [andb].
  2: { assert (E : modify (λ x, (org_id x =? org_id o)%N) (λ x, o <| org_uuid := org_uuid x |>) (pt_organizations (tables d)) = pt_organizations (tables d)).
       { by apply modify_none. }
       split; [|done]. apply (kept_same _ _ _ d); [unfold tenancy|unfold account_view|..]; cbn; by rewrite ?E. }
  destruct (existsb _ _) eqn:He; [by split|]. split; [|done]. apply (kept_organizations d); [done| |done| | |done].
  - intros i (x & -> & Hx)%list_elem_of_fmap. cbn. unfold modify. rewrite map_map. apply list_elem_of_fmap. exists x. split; [|done].
    destruct (N.eqb_spec (org_id x) (org_id o)); [done|done].
  - apply (wf_update_organization (dp_sequence d) (tenancy d)); [|apply Hd]. intros x Hx Hne E. rewrite <- not_true_iff_false in He. apply He.
    apply existsb_exists. exists x. split; [by apply list_elem_of_In|]. apply andb_true_iff. by rewrite negb_true_iff, N.eqb_neq, bytes_eqb_eq.
  - apply (restrict_organizations T (tenancy d)). cbn. unfold modify. generalize (pt_organizations (tables d)) as l. intros l.
    induction l as [|x l IH]; [done|]. cbn. rewrite IH. destruct (N.eqb_spec (org_id x) (org_id o)) as [E|]; [|done]. cbn. by rewrite E, HT.
Qed.

Lemma tenancy_without_organization id d : tenancy (without_organization id d) = drop_organization id (drop_servers (servers_of id (tenancy d)) (tenancy d)).
Proof. unfold tenancy, drop_organization, drop_servers. cbn. by rewrite map_discard. Qed.
Lemma keeps_delete_organization id : T id = false → keeps K (pg_delete_organization id) (λ _, True).
Proof.
  intros HT. apply keeps_statement. intros d Hd. split; [|done]. cbn [snd ok]. pose proof Hd as [[W Wa] [Hv HT']].
  split; [split|split; [|done]].
  - rewrite tenancy_without_organization. apply wf_drop_organization; [apply no_servers_left|]. by apply wf_drop_servers.
  - assert (Hkept : ∀ o, (o =? id)%N = false → o ∈ map org_id (pt_organizations (tables d)) →
      is_Some (organization_map (discard (λ o, (org_id o =? id)%N) (pt_organizations (tables d))) !! o)).
    { intros o Hne (x & -> & Hx)%list_elem_of_fmap. apply organization_map_lookup, list_elem_of_fmap_2. by apply discard_elem. }
    apply (accounts_wf_people _ _ (organization_map (pt_organizations (tables (without_organization id d))))
      (ac_memberships (accounts (without_organization id d))) (ac_invitations (accounts (without_organization id d)))) in Wa; [exact Wa|..];
      intros i m [Hm Ho%negb_true_iff]%lookup_retain; (split; [done|]); apply Hkept; [done|by eapply membership_organization|done|by eapply invitation_organization].
  - rewrite <- Hv, tenancy_without_organization, restrict_drop_organization by done. apply (restrict_drop_servers T _ _ _ W).
    intros s Hs (s' & Hs' & [Ho%N.eqb_eq E%N.eqb_eq]%andb_true_iff)%existsb_exists. apply list_elem_of_In in Hs'.
    rewrite (rows_same _ _ _ _ _ _ _ (tw_servers _ _ W) Hs Hs') by done. unfold own_server. by rewrite Ho.
Qed.
Lemma keeps_set_policy id policy : T id = false → keeps K (pg_set_organization_policy id policy) (λ _, True).
Proof.
  intros HT. apply keeps_statement. intros d Hd. destruct (has_organization id d) eqn:Ho; (split; [|done]); [|done]. change_of d.
  - pose proof (kept_wf _ _ _ _ Hd) as W. destruct W. constructor; cbn; try done.
    intros o. destruct (decide (o = id)) as [->|]; [intros _; by apply has_organization_in | by rewrite lookup_insert_ne by done; apply tw_policies].
  - unfold restrict. cbn. f_equal. apply map_eq. intros o. apply option_eq. intros x. rewrite !lookup_retain, lookup_insert_Some. naive_solver congruence.
Qed.

(** ** Machine keys, IP pools, events *)

Lemma keeps_admin_api_key_auth key : keeps K (pg_admin_api_key_auth key) (λ _, True).
Proof. apply keeps_statement. intros d Hd. destruct (List.find _ _) as [[k h]|]; (split; [|done]); [by apply (kept_same _ _ _ d)|done]. Qed.
(** The server of the key is one of its organization. *)
Lemma kept_create_key d name key organization server_id : K d → from_option T false organization = false →
  (∀ i, server_id = Some i → ∃ s, s ∈ pt_servers (tables d) ∧ srv_id s = i ∧ organization = Some (srv_organization_id s)) →
  K (pg_create_admin_api_key_record name key organization server_id d).2.
Proof.
  intros Hd HT Hs. unfold pg_create_admin_api_key_record, insertion, statement. destruct (dp_failing d Insert AdminApiKeys); [done|].
  cbv zeta. destruct (from_option _ _ organization && _) eqn:Ho; [|by apply kept_next]. destruct (existsb _ _) eqn:He; [by apply kept_next|].
  apply andb_true_iff in Ho as [Ho _]. change_of d.
  - apply (wf_add_key (dp_sequence d) (tenancy d)); [done| | |apply Hd].
    + eapply existsb_absent; [exact He|]. cbn. intros x E. by rewrite E, bytes_eqb_refl.
    + split; [|exact Hs]. cbn. intros o ->. by apply has_organization_in in Ho.
  - apply (restrict_keys T (tenancy d)), filter_snoc. done.
Qed.
Lemma keeps_delete_key id : (∀ o, T o = false) → keeps K (pg_delete_admin_api_key id) (λ _, True).
Proof.
  intros HT. apply keeps_statement. intros d Hd. split; [|done]. change_of d.
  - apply (wf_discard_key (dp_sequence d) (tenancy d)), Hd.
  - apply (restrict_keys T (tenancy d)), filter_discard. intros k _ _. unfold own_key. destruct (key_organization_id k.1); [apply HT | done].
Qed.
Lemma keeps_queue_event event : keeps K (pg_queue_lifecycle_event event) (λ _, True).
Proof. apply keeps_insertion. intros d Hd. split; [|done]. apply (kept_same _ _ _ d); [done..|apply next_le|done]. Qed.
Lemma keeps_create_ip_pool name default : keeps K (pg_create_ip_pool name default) (λ _, True).
Proof. apply keeps_insertion. intros d Hd. split; [|done]. apply (kept_same _ _ _ d); [done..|apply next_le|done]. Qed.
Lemma keeps_create_ip_address new : keeps K (pg_create_ip_address new) (λ _, True).
Proof.
  apply keeps_insertion. intros d Hd. destruct (negb _); [refusal|]. split; [|done]. apply (kept_same _ _ _ d); [done..|apply next_le|done].
Qed.
Lemma keeps_delete_ip_address id : keeps K (pg_delete_ip_address id) (λ _, True).
Proof. apply keeps_statement. intros d Hd. split; [|done]. by apply (kept_same _ _ _ d). Qed.
(** Servers and streams of any organization fall back to no pool. *)
Lemma filter_nothing {A} (P : A → bool) l : (∀ x, P x = false) → List.filter P l = [].
Proof. intros HP. induction l as [|x l IH]; [done|]. cbn. by rewrite HP. Qed.
Lemma keeps_delete_ip_pool id : (∀ o, T o = false) → keeps K (pg_delete_ip_pool id) (λ _, True).
Proof.
  intros HT. apply keeps_statement. intros d Hd. split; [|done]. pose proof (kept_wf _ _ _ _ Hd) as W.
  pose (none pool := if bool_decide (pool = Some id) then None else pool).
  pose (servers := map (λ s, s <| srv_ip_pool_id := none (srv_ip_pool_id s) |>) (pt_servers (tables d))).
  pose (streams := map (λ m, m <| str_ip_pool_id := none (str_ip_pool_id m) |>) (pt_streams (tables d))).
  change_of d.
  - assert (W' : tenancy_wf (dp_sequence d) ((tenancy d) <| tn_servers := servers |>)).
    { apply (wf_modify_server (dp_sequence d) (tenancy d) (λ _, true) (λ s, s <| srv_ip_pool_id := none (srv_ip_pool_id s) |>)); [done..|exact W]. }
    destruct W'. constructor; cbn; try done.
    by refine (rows_modify _ _ (λ m, str_server_id m ∈ server_ids ((tenancy d) <| tn_servers := servers |>)) _ _ (λ _, true)
      (λ m, m <| str_ip_pool_id := none (str_ip_pool_id m) |>) _ _ _ _ _ tw_streams).
  - assert (Hnone : ∀ l, List.filter (own_server T) l = []) by (intros l; apply filter_nothing; intros s; apply HT).
    unfold restrict. cbn. rewrite !Hnone. by rewrite !(filter_nothing (λ m, listed [] (str_server_id m))).
Qed.

(** ** Platform mail *)

(** What a send does not touch. *)
Definition mail_config (m : MailDb) : list Webhook * list Suppression := (db_webhooks m, db_suppressions m).
Lemma count_organization_config sid m : mail_config (count_organization_send sid m) = mail_config m.
Proof.
  unfold count_organization_send. destruct (db_server_organizations m !! sid) as [o|]; [|done]. cbv zeta.
  destruct (db_organizations _ !! o) as [[organization limit]|]; [|done].
  match goal with |- context [fold_left ?f _ _] => assert (E : ∀ l m1, mail_config (fold_left f l m1) = mail_config m1); [|by rewrite E] end.
  intros l. induction l as [|x l IH]; [done|]. intros m1. cbn. rewrite IH. unfold alert_threshold. by destruct (decide _).
Qed.
Lemma insert_message_config `{CASE : !UnicodeCase, PAY : !Payloads} msg m : mail_config (insert_message_in_tx msg m).2 = mail_config m.
Proof. unfold insert_message_in_tx. cbv zeta. cbn [snd]. destruct (bool_decide _); [|done]. by rewrite count_organization_config. Qed.
#[local] Arguments insert_message_in_tx : simpl never.
Lemma register_planned_config tenant p m m' : register_planned tenant p m = inr m' → mail_config m' = mail_config m.
Proof.
  unfold register_planned, register_token. destruct (spm_unsubscribe_token p) as [t|]; [|by intros [= <-]].
  destruct (decide _); [done|by intros [= <-]].
Qed.
Lemma send_planned_config `{CASE : !UnicodeCase, PAY : !Payloads} tenant messages m r m' : send_planned tenant messages m = inr (r, m') → mail_config m' = mail_config m.
Proof.
  revert m r. induction messages as [|planned rest IH]; intros m r; cbn [send_planned]; [by intros [= _ <-]|]. destruct (negb _); [done|].
  intros (m0 & H0%register_planned_config & H)%and_then_inr.
  pose proof (insert_message_config (spm_message planned) m0) as Hc. destruct (insert_message_in_tx _ m0) as [sent m1].
  apply and_then_inr in H as ([sents m2] & Hs & [= _ <-]). rewrite (IH _ _ Hs). cbn in Hc. by rewrite Hc.
Qed.
Lemma send_plan_config `{CASE : !UnicodeCase, PAY : !Payloads} tenant plan m r m' : send_plan tenant plan m = inr (r, m') → mail_config m' = mail_config m.
Proof.
  revert m r. induction plan as [|[messages|code message] rest IH]; intros m r; cbn [send_plan]; [by intros [= _ <-]|..].
  - intros ([recipients m1] & Hs%send_planned_config & ([items m2] & Hr & [= _ <-])%and_then_inr)%and_then_inr. by rewrite (IH _ _ Hr).
  - intros ([items m2] & Hr & [= _ <-])%and_then_inr. by rewrite (IH _ _ Hr).
Qed.
Lemma store_send_config `{CASE : !UnicodeCase, PAY : !Payloads} failing tenant plan m : mail_config (store_send_operation failing tenant plan None m).2 = mail_config m.
Proof.
  unfold store_send_operation. destruct failing; [done|].
  destruct (send_plan tenant plan m) as [e|[r m']] eqn:E; cbn; [done|by eapply send_plan_config].
Qed.

Section Deliver.
Context `{CASE : !UnicodeCase, PAY : !Payloads, MB : !MailBuilder, API : !ApiCrates SendMessage} (api : ApiConfig) (settings : AppMailConfig).

Lemma enqueue_send_config s now nonce server body :
  let s' := (enqueue_send lower api s now nonce server body).2 in
  ps_tables s' = ps_tables s ∧ mail_config (ps_mail s') = mail_config (ps_mail s).
Proof.
  unfold enqueue_send. destruct (prepare_send _ _ _ _ _ _ _ _) as [e|messages]; [done|]. unfold store_send_plan.
  pose proof (store_send_config (ps_failing s QStoreSend) (srv_id server) [PlanMessages messages] (ps_mail s)) as Hc.
  by destruct (store_send_operation _ _ _ _ _) as [outcome m'].
Qed.
(** Only when credentials were last used, and mail. *)
Lemma kept_send d s : K d → mail_config (ps_mail s) = mail_config (mail d) →
  (∃ f, (∀ c, unused (f c) = unused c) ∧ ps_tables s = (tables d) <| pt_credentials := map f (pt_credentials (tables d)) |>) → K (d <| dp_store := s |>).
Proof.
  intros Hd [= Hw Hx] (f & Hf & Ht). apply (kept_same _ _ _ d); [|unfold account_view, tables; cbn; by rewrite Ht|done..].
  unfold tenancy, tables, mail in *. cbn. rewrite Ht. cbn. rewrite Hw, Hx, map_map. f_equal. by apply map_ext.
Qed.
Lemma keeps_deliver_mail now nonce m : keeps_hook K (deliver_mail lower api settings now nonce m).
Proof.
  intros d Hd. unfold deliver_mail. destruct (negb _); [done|]. destruct (present_setting _) as [key|]; [|done]. destruct (present_setting _) as [from|]; [|done].
  unfold pg_api_token_server. set (r := server_for_api_token (dp_store d) key).
  assert (Hr : mail_config (ps_mail r.2) = mail_config (mail d) ∧ ∃ f, (∀ c, unused (f c) = unused c) ∧
    ps_tables r.2 = (tables d) <| pt_credentials := map f (pt_credentials (tables d)) |>).
  { assert (Hsame : ∃ f, (∀ c, unused (f c) = unused c) ∧ ps_tables (dp_store d) = (tables d) <| pt_credentials := map f (pt_credentials (tables d)) |>).
    { exists (λ c, c). split; [done|]. rewrite map_id. by destruct d as [[[] ? ?] ? ? ? ? ? ? ? ?]. }
    subst r. unfold server_for_api_token. destruct (fetch _ _ _) as [[server|]|]; [|done..].
    destruct (ps_failing (dp_store d) QCredentialUse); [done|]. split; [done|].
    exists (λ c, if cred_key c =b key then c <| cred_last_used_at := Some (db_now (ps_mail (dp_store d))) |> else c).
    split; [|done]. intros c. by destruct (_ =b _). }
  destruct Hr as (Hc & f & Hf & Ht). destruct r as [[[server|]|] s]; cbn in *; [|apply kept_send; eauto..].
  destruct (srv_suspended server); [apply kept_send; eauto|].
  match goal with |- context [enqueue_send lower api ?a ?b ?c ?e ?g] => pose proof (enqueue_send_config a b c e g) as [Ht' Hc'];
    destruct (enqueue_send lower api a b c e g) as [response s'] end.
  cbn in *. change (K (d <| dp_store := s' |>)). apply kept_send; [done|by etrans|]. exists f. by rewrite Ht'.
Qed.
End Deliver.
End Statements.
