(* ===== verification/Tenants.v ===== *)
(** * Tenants: the admin API keeps tenants apart

    The handlers on the production store, run through the program logic: a call that
    names none of the organizations in [T] keeps their rows, and any call keeps the
    type of the deployment. *)

From S2P Require Import Prelude RustStr Net Model SendLimit Message MemoryStore Queue MailDb Dkim Worker Webhooks PgSink Housekeeping PgStore Compose ApiSend.
From S2P Require Import Auth AuthStore AuthPg AppMailer AdminStore AdminPg Workspace AuthApi Authorize AdminApi Members Resources AdminRouter.
From S2P Require Import RustStrFacts MemoryFacts AuthStoreFacts HandlerLogic Tenancy TenancyFacts.

(** The organization a route names, and whether it is below [/organizations]; the other
    calls are on the global resources. *)
Definition call_organization (c : AdminCall) : option bytes :=
  match (call_route c).2 with Fixed _ :: Text org :: _ => Some org | _ => None end.
Definition organizations_call (c : AdminCall) : bool :=
  match (call_route c).2 with Fixed s :: _ => s =b !"organizations" | _ => false end.

Section Tenants.
Context `{ORD : !HashOrder, CASE : !UnicodeCase, CRA : !Crates, PAY : !Payloads, MB : !MailBuilder, API : !ApiCrates SendMessage}.
Context `{AUTH : !AuthCrates, ADM : !AdminCrates, JS : !AdminJson, RES : !ResourceCrates, PATH : !PathParams} {K : Type} `{SIG : !Signer K}.
Context (lower : bytes → bytes) (collate_le : bytes → bytes → bool) (api : ApiConfig) (settings : AppMailConfig)
  (config : AdminConfig) (dns : DnsSettings) (retention : RetentionSettings) (lifecycle_enabled bootstrap_enabled : bool)
  (streams : Id → Deployment → list MessageStream).
#[local] Existing Instance Deployment_admin.
Create HintDb calls.
#[local] Instance accounts_store : AuthStore Deployment := Deployment_accounts lower collate_le.
#[local] Instance account_hooks : AccountHooks Deployment := Deployment_hooks lower collate_le api settings lifecycle_enabled bootstrap_enabled.

Section Kept.
Context (T : Id → bool) (v : Tenancy).
Local Abbreviation kept := (kept lower T v).
Local Abbreviation spare f rows := (unlisted f (rows v)).
Local Abbreviation spare_permalink p := (p ∉ map org_permalink (tn_organizations v)).

Lemma keeps_find_organization p : spare_permalink p → keeps kept (find_organization p) (λ o, T (org_id o) = false).
Proof.
  intros Hp. unfold find_organization, found. eapply rule_bind; [apply rule_call, (keeps_organization_by_permalink _ _ _ _ Hp)|].
  intros r Hr. apply rule_require. intros o Ho. by apply Hr.
Qed.
Lemma keeps_find_server org p : spare_permalink org → keeps kept (find_server org p) (λ s, spare srv_id tn_servers (srv_id s) ∧ T (srv_organization_id s) = false).
Proof.
  intros Hp. unfold find_server, found. eapply rule_bind; [by apply keeps_find_organization|]. intros o Ho.
  eapply rule_bind; [apply rule_call, (keeps_server_by_permalink lower T v (org_id o) p Ho)|]. intros r Hr. apply rule_require. intros s Hs.
  destruct (Hr s Hs) as [? ->]. done.
Qed.

(** What is known of the operations. *)
Ltac kfact := first [done | match goal with H : _ ∧ _ |- _ => first [exact (proj1 H) | exact (proj2 H)] end].
Ltac kop ::=
  lazymatch goal with
  | |- keeps _ (organization_by_permalink _) _ => apply keeps_organization_by_permalink; kfact
  | |- keeps _ (create_organization _) _ => apply keeps_create_organization
  | |- keeps _ (update_organization _) _ => apply keeps_update_organization; kfact
  | |- keeps _ (delete_organization _) _ => apply keeps_delete_organization; kfact
  | |- keeps _ (set_organization_policy _ _) _ => apply keeps_set_policy; kfact
  | |- keeps _ (server_by_permalink _ _) _ => apply keeps_server_by_permalink; kfact
  | |- keeps _ (create_server _) _ => apply keeps_create_server; kfact
  | |- keeps _ (update_server _) _ => apply keeps_update_server; kfact
  | |- keeps _ (delete_server _) _ => apply keeps_delete_server; kfact
  | |- keeps _ (set_server_ip_pool _ _) _ => apply keeps_set_server_ip_pool; kfact
  | |- keeps _ (admin_api_key_auth _) _ => apply keeps_admin_api_key_auth
  | |- keeps _ (delete_admin_api_key _) _ => apply keeps_delete_key; kfact
  | |- keeps _ (domain_by_name _ _) _ => apply keeps_domain_by_name; kfact
  | |- keeps _ (create_server_domain _ _ _) _ => apply keeps_create_domain; kfact
  | |- keeps _ (set_domain_verified _ _) _ => apply keeps_update_domain; [done..|kfact]
  | |- keeps _ (set_domain_dmarc_check _ _) _ => apply keeps_update_domain; [done..|kfact]
  | |- keeps _ (set_domain_spf_check _ _) _ => apply keeps_update_domain; [done..|kfact]
  | |- keeps _ (delete_domain _) _ => apply keeps_delete_domain; kfact
  | |- keeps _ (track_domain_by_id _ _) _ => apply keeps_track_domain_by_id; kfact
  | |- keeps _ (create_track_domain _ _) _ => apply keeps_create_track_domain; kfact
  | |- keeps _ (set_track_domain_verified _ _) _ => apply keeps_verify_track_domain; kfact
  | |- keeps _ (delete_track_domain _) _ => apply keeps_delete_track_domain; kfact
  | |- keeps _ (credential_by_id _ _) _ => apply keeps_credential_by_id; kfact
  | |- keeps _ (list_credentials _) _ => apply keeps_list_credentials; kfact
  | |- keeps _ (create_credential_record _) _ => apply keeps_create_credential; kfact
  | |- keeps _ (update_credential _) _ => apply keeps_update_credential; kfact
  | |- keeps _ (delete_credential _) _ => apply keeps_delete_credential; kfact
  | |- keeps _ (route_by_id _ _) _ => apply keeps_route_by_id; kfact
  | |- keeps _ (delete_route _) _ => apply keeps_delete_route; kfact
  | |- keeps _ (webhook_by_id _ _) _ => apply keeps_webhook_by_id; kfact
  | |- keeps _ (create_webhook _) _ => apply keeps_create_webhook; kfact
  | |- keeps _ (update_webhook _) _ => apply keeps_update_webhook; kfact
  | |- keeps _ (delete_webhook _) _ => apply keeps_delete_webhook; kfact
  | |- keeps _ (sender_address_by_id _ _) _ => apply keeps_sender_address_by_id; kfact
  | |- keeps _ (create_sender_address _) _ => apply keeps_create_sender_address; kfact
  | |- keeps _ (delete_sender_address _) _ => apply keeps_delete_sender_address; kfact
  | |- keeps _ (create_suppression _) _ => apply keeps_create_suppression; kfact
  | |- keeps _ (delete_suppression _ _) _ => apply keeps_delete_suppression; kfact
  | |- keeps _ (create_ip_pool _ _) _ => apply keeps_create_ip_pool
  | |- keeps _ (delete_ip_pool _) _ => apply keeps_delete_ip_pool; kfact
  | |- keeps _ (create_ip_address _) _ => apply keeps_create_ip_address
  | |- keeps _ (delete_ip_address _) _ => apply keeps_delete_ip_address
  | |- keeps _ (upsert_membership _ _ _ _) _ => apply keeps_upsert_membership; kfact
  | |- keeps _ (delete_membership _ _) _ => apply keeps_delete_membership; kfact
  | |- keeps _ (create_invitation _) _ => apply keeps_create_invitation; kfact
  | |- keeps _ (delete_invitation _ _) _ => apply keeps_delete_invitation; kfact
  | |- keeps _ (record_auth_event _ _) _ => apply keeps_record_auth_event
  | |- keeps _ (touch_session _ _ _) _ => apply keeps_touch_session
  | |- keeps _ (set_password_digest _ _) _ => apply keeps_set_password_digest
  | |- keeps _ (create_user _) _ => apply keeps_create_user
  | |- keeps _ (update_user _) _ => apply keeps_update_user
  | |- keeps _ (delete_user _) _ => apply keeps_delete_user; kfact
  | |- keeps _ _ _ => first [apply keeps_read | apply keeps_account_query]
  end.
(** Events go to the outbox, mail is sent. *)
Lemma keeps_emit event : keeps_hook kept (emit lifecycle_enabled event).
Proof. intros d Hd. unfold emit. cbn. destruct lifecycle_enabled; [|done]. by apply keeps_queue_event. Qed.
Ltac khook ::=
  lazymatch goal with
  | |- keeps_hook _ (deliver _ _ _) => apply keeps_deliver_mail
  | |- keeps_hook _ (λ _, _) => by intros ? ?
  | |- keeps_hook _ _ => apply keeps_emit
  end.
Ltac khandler ::=
  lazymatch goal with
  | |- keeps _ (find_organization _) _ => apply keeps_find_organization; kfact
  | |- keeps _ (find_server _ _) _ => apply keeps_find_server; kfact
  end.

(** *** Calls on an organization *)

Section Organization.
Context (org : bytes) (Horg : spare_permalink org).
Local Abbreviation safe h := (keeps kept h (λ _, True)).
Lemma keeps_organizations_show : safe (organizations_show retention org).
Proof. krun. Qed.
Lemma keeps_organizations_update b : safe (organizations_update org b).
Proof. krun. Qed.
Lemma keeps_organizations_destroy now principal : safe (organizations_destroy lifecycle_enabled now principal org).
Proof. krun. Qed.
Lemma keeps_servers_index p : safe (servers_index org p).
Proof. krun. Qed.
Lemma keeps_servers_create body : safe (servers_create org body).
Proof. krun. Qed.
Lemma keeps_servers_show p : safe (servers_show org p).
Proof. krun. Qed.
Lemma keeps_servers_update principal p body : safe (servers_update principal org p body).
Proof. krun. Qed.
Lemma keeps_servers_destroy p : safe (servers_destroy org p).
Proof. krun. Qed.
Lemma keeps_servers_suspend p reason : safe (servers_suspend org p reason).
Proof. krun. Qed.
Lemma keeps_servers_unsuspend p : safe (servers_unsuspend org p).
Proof. krun. Qed.
Lemma keeps_servers_set_ip_pool p pool : safe (servers_set_ip_pool org p pool).
Proof. krun. Qed.
Lemma keeps_usage_show now month : safe (usage_show now org month).
Proof. krun. Qed.
Lemma keeps_limits_show : safe (limits_show org).
Proof. krun. Qed.
Lemma keeps_limits_update principal body : safe (limits_update principal org body).
Proof. krun. Qed.
Lemma keeps_organization_suspend principal reason : safe (organization_suspend principal org reason).
Proof. krun. Qed.
Lemma keeps_organization_unsuspend principal : safe (organization_unsuspend principal org).
Proof. krun. Qed.
Lemma keeps_members_index : safe (members_index config org).
Proof. krun. Qed.
Lemma keeps_members_create now acting email role : safe (members_create config now acting org email role).
Proof. krun. Qed.
Lemma keeps_members_update now acting user role : safe (members_update config now acting org user role).
Proof. krun. Qed.
Lemma keeps_members_destroy now acting user : safe (members_destroy config now acting org user).
Proof. krun. Qed.
Lemma keeps_invitations_index : safe (invitations_index config org).
Proof. krun. Qed.
Lemma keeps_invitations_create now nonce acting principal email role : safe (invitations_create config now nonce acting principal org email role).
Proof. krun. Qed.
Lemma keeps_invitations_destroy id : safe (invitations_destroy config org id).
Proof. krun. Qed.
Lemma keeps_domains_index server p : safe (domains_index dns org server p).
Proof. krun. Qed.
Lemma keeps_domains_create nonce server body : safe (domains_create dns nonce org server body).
Proof. krun. Qed.
Lemma keeps_domains_show server name : safe (domains_show dns org server name).
Proof. krun. Qed.
Lemma keeps_domains_verify txt principal server name force : safe (domains_verify dns txt principal org server name force).
Proof. krun. Qed.
Lemma keeps_domains_destroy server name : safe (domains_destroy org server name).
Proof. krun. Qed.
Lemma keeps_track_domains_index server p : safe (track_domains_index dns org server p).
Proof. krun. Qed.
Lemma keeps_track_domains_create server name : safe (track_domains_create dns org server name).
Proof. krun. Qed.
Lemma keeps_track_domains_show server id : safe (track_domains_show dns org server id).
Proof. krun. Qed.
Lemma keeps_track_domains_destroy server id : safe (track_domains_destroy org server id).
Proof. krun. Qed.
Lemma keeps_track_domains_verify cname principal server id force : safe (track_domains_verify dns cname principal org server id force).
Proof. krun. Qed.

(** The domain that is changed twice is one domain. *)
Lemma keeps_domains_update server name dmarc spf : safe (domains_update dns org server name dmarc spf).
Proof.
  unfold domains_update. eapply rule_bind with (R := λ x, spare dom_id tn_domains (dom_id x)); [krun|]. intros x Hx.
  eapply rule_bind; [krun|]. intros _ _.
  eapply rule_bind with (R := λ y, dom_id y = dom_id x).
  { destruct dmarc; [|by apply rule_ret]. eapply rule_bind; [krun|]. intros _ _. by apply rule_ret. }
  intros y Hy. rewrite <- Hy in Hx. eapply rule_bind; [|intros z _; apply rule_ret_any].
  destruct spf; [|apply rule_ret_any]. eapply rule_bind; [krun|]. intros _ _. apply rule_ret_any.
Qed.
Lemma keeps_credentials_index server p : safe (credentials_index org server p).
Proof. krun. Qed.
Lemma keeps_credentials_create server body : safe (credentials_create org server body).
Proof. krun. Qed.
Lemma keeps_require_credential server id : keeps kept (require_credential org server id) (λ c, spare cred_id tn_credentials (cred_id c)).
Proof.
  unfold require_credential. eapply rule_bind; [apply keeps_find_server; done|]. intros s [Hs _].
  destruct (parse_uint u64_max id) as [n|]; [krun|]. eapply rule_bind; [apply rule_call; by apply keeps_list_credentials|].
  intros l Hl. apply rule_require. intros c [Hc _]%find_elem. by apply Hl.
Qed.
Ltac khandler ::=
  lazymatch goal with
  | |- keeps _ (find_organization _) _ => apply keeps_find_organization; kfact
  | |- keeps _ (find_server _ _) _ => apply keeps_find_server; kfact
  | |- keeps _ (require_credential _ _ _) _ => apply keeps_require_credential
  end.
Lemma keeps_credentials_show server id : safe (credentials_show org server id).
Proof. krun. Qed.
Lemma keeps_credentials_update server id name hold : safe (credentials_update org server id name hold).
Proof. krun. Qed.
Lemma keeps_credentials_destroy server id : safe (credentials_destroy org server id).
Proof. krun. Qed.
Lemma keeps_routes_index server p : safe (routes_index org server p).
Proof. krun. Qed.
Lemma keeps_routes_create server body : safe (routes_create org server body).
Proof.
  unfold routes_create. eapply rule_bind; [apply keeps_find_server; done|]. intros s [Hs _].
  eapply rule_bind; [krun|]. intros name _. eapply rule_bind; [krun|]. intros mode _. eapply rule_bind; [krun|]. intros _ _.
  set (new domain := mkNewRoute (srv_id s) domain name mode (cr_endpoint_url body)).
  assert (Hcreate : ∀ d domain, kept d → (∀ i, domain = Some i → ∃ x, x ∈ pt_domains (tables d) ∧ dom_id x = i ∧ dom_owner x = OwnerServer (srv_id s)) →
    kept ((call (create_route_record (new domain)) ≫= λ r, created_data (object !"route" (route_json r))) d).2).
  { intros d domain Hd Hdomain. pose proof (kept_create_route lower T v d (new domain) Hd Hs Hdomain) as Hd'.
    unfold mbind, handler_bind, call. cbn [create_route_record Deployment_admin]. by destruct (pg_create_route_record _ d) as [[e|r] d']. }
  unfold route_domain. destruct (present (cr_domain body)) as [n|].
  - apply rule_assoc, keeps_query_then. intros d Hd. split; [|done]. destruct (List.find _ _) as [x|] eqn:Hx; [|exact Hd].
    apply find_elem in Hx as [Hx [Ho%bool_decide_eq_true _]%andb_true_iff]. apply (Hcreate d (Some (dom_id x)) Hd). intros i [= <-]. by exists x.
  - intros d Hd. split; [|done]. by apply (Hcreate d None Hd).
Qed.
Lemma keeps_routes_update server id name mode : safe (routes_update org server id name mode).
Proof.
  unfold routes_update, require_route. apply rule_assoc. eapply rule_bind; [apply keeps_find_server; done|]. intros s [Hs _].
  unfold found. apply rule_assoc, keeps_query_then. intros d Hd. split; [|done]. destruct (List.find _ _) as [r|] eqn:Hr; [|exact Hd].
  apply find_elem in Hr as [Hr [Hsid%N.eqb_eq _]%andb_true_iff].
  set (route m := r <| rt_name := assign name (rt_name r) |> <| rt_mode := m |>).
  assert (Hupdate : ∀ m, kept ((call (update_route (route m)) ≫= λ r, route_response r) d).2).
  { intros m. assert (Hd' : kept (pg_update_route (route m) d).2).
    { apply kept_update_route; [done|exact (route_spared lower T v d r _ Hd Hr Hsid Hs)|]. intros r' Hr' E. cbn in E |- *.
      by rewrite (rows_same _ _ _ _ _ _ _ (tw_routes _ _ (kept_wf _ _ _ _ Hd)) Hr' Hr). }
    unfold mbind, handler_bind, call. cbn [update_route Deployment_admin]. by destruct (pg_update_route _ d) as [[e|x] d']. }
  destruct mode as [mode|]; [|apply (Hupdate (rt_mode r))].
  change (kept ((validated (parse_route_mode (Some mode)) ≫= λ m, call (update_route (route m)) ≫= λ r, route_response r) d).2).
  destruct (parse_route_mode (Some mode)) as [e|m]; [exact Hd|apply Hupdate].
Qed.
Lemma keeps_routes_show server id : safe (routes_show org server id).
Proof. krun. Qed.
Lemma keeps_routes_destroy server id : safe (routes_destroy org server id).
Proof. krun. Qed.
Lemma keeps_webhooks_index server p : safe (webhooks_index org server p).
Proof. krun. Qed.
Lemma keeps_webhooks_create server body : safe (webhooks_create org server body).
Proof. krun. Qed.
Lemma keeps_webhooks_show server id : safe (webhooks_show org server id).
Proof. krun. Qed.
Lemma keeps_webhooks_update server id body : safe (webhooks_update org server id body).
Proof.
  unfold webhooks_update. eapply rule_bind with (R := λ w, spare wh_id tn_webhooks (wh_id w)); [krun|]. intros w Hw.
  do 3 (eapply rule_bind; [krun|]; intros _ _). eapply rule_bind; [|intros ? _; krun].
  eapply rule_call, rule_any, keeps_update_webhook. by destruct (uw_events body).
Qed.
Lemma keeps_webhooks_destroy server id : safe (webhooks_destroy org server id).
Proof. krun. Qed.
Lemma keeps_set_webhook_enabled server id b : safe (set_webhook_enabled org server id b).
Proof. krun. Qed.
Lemma keeps_webhooks_test post (signer : option K) now nonce server id event : safe (webhooks_test post signer now nonce org server id event).
Proof. krun. Qed.
Lemma keeps_sender_addresses_index server p : safe (sender_addresses_index org server p).
Proof. krun. Qed.
Lemma keeps_sender_addresses_create now nonce server email : safe (sender_addresses_create config now nonce org server email).
Proof. krun. Qed.
Lemma keeps_sender_addresses_destroy server id : safe (sender_addresses_destroy org server id).
Proof. krun. Qed.
Lemma keeps_suppressions_index server p : safe (suppressions_index streams org server p).
Proof. krun. Qed.
Lemma keeps_suppressions_create server body : safe (suppressions_create org server body).
Proof. krun. Qed.
Lemma keeps_suppressions_destroy server address : safe (suppressions_destroy org server address).
Proof. krun. Qed.
End Organization.

(** *** Other calls *)

Local Abbreviation safe h := (keeps kept h (λ _, True)).
Lemma keeps_organizations_index principal p : safe (organizations_index config principal p).
Proof. krun. Qed.
Lemma keeps_organizations_create now principal body : safe (organizations_create config lifecycle_enabled now principal body).
Proof. krun. Qed.

Section Global.
Context (HT : ∀ o, T o = false).
Lemma keeps_servers_find p : safe (servers_find p).
Proof. krun. Qed.
Lemma keeps_admin_api_keys_index p : safe (admin_api_keys_index p).
Proof. krun. Qed.
Lemma keeps_admin_api_keys_create nonce body : safe (admin_api_keys_create nonce body).
Proof.
  unfold admin_api_keys_create. eapply rule_bind; [krun|]. intros name _.
  eapply rule_bind with (R := λ o, from_option T false (org_id <$> o) = false).
  { unfold key_organization. destruct (present (ck_organization body)) as [p|]; [|by apply rule_ret].
    eapply rule_bind with (R := λ _, True); [apply rule_call; apply keeps_read|]. intros r _. destruct r as [o|]; [|apply rule_fail].
    eapply rule_bind with (R := λ _, True); [krun|]. intros o' _. apply rule_ret. apply HT. }
  intros organization Ho.
  set (name_key := generate_key nonce).
  assert (Hcreate : ∀ d sid, kept d → (∀ i, sid = Some i → ∃ s, s ∈ pt_servers (tables d) ∧ srv_id s = i ∧ org_id <$> organization = Some (srv_organization_id s)) →
    kept ((call (create_admin_api_key_record name name_key (org_id <$> organization) sid) ≫= λ record,
      created_data (object !"admin_api_key" (VObject (admin_api_key_json record ++ [(!"key", VString name_key)])))) d).2).
  { intros d sid Hd Hsid. pose proof (kept_create_key lower T v d name name_key (org_id <$> organization) sid Hd Ho Hsid) as Hd'.
    unfold mbind, handler_bind, call. cbn [create_admin_api_key_record Deployment_admin]. by destruct (pg_create_admin_api_key_record _ _ _ _ d) as [[e|r] d']. }
  unfold key_server. destruct (present (ck_server body)) as [permalink|].
  - destruct organization as [o|]; [|intros d Hd; by split].
    apply rule_assoc, rule_present, rule_assoc, keeps_query_then. intros d Hd. split; [|done]. destruct (List.find _ _) as [s|] eqn:Hs; [|exact Hd].
    apply find_elem in Hs as [Hs [E%N.eqb_eq _]%andb_true_iff]. apply (Hcreate d (Some (srv_id s)) Hd). intros i [= <-]. exists s. cbn. by rewrite E.
  - intros d Hd. split; [|done]. by apply (Hcreate d None Hd).
Qed.
Lemma keeps_admin_api_keys_destroy id : safe (admin_api_keys_destroy id).
Proof. krun. Qed.
Lemma keeps_auth_events_index limit : safe (auth_events_index config limit).
Proof. krun. Qed.
Lemma keeps_users_index p : safe (users_index p).
Proof. krun. Qed.
Lemma keeps_users_create now nonce body : safe (users_create config lifecycle_enabled now nonce body).
Proof. krun. Qed.
Lemma keeps_users_show id : safe (users_show id).
Proof. krun. Qed.
Lemma keeps_users_update id body : safe (users_update id body).
Proof. krun. Qed.
Lemma keeps_users_destroy id : safe (users_destroy id).
Proof. krun. Qed.
Lemma keeps_ip_pools_index p : safe (ip_pools_index p).
Proof. krun. Qed.
Lemma keeps_ip_pools_create name default : safe (ip_pools_create name default).
Proof. krun. Qed.
Lemma keeps_ip_pools_show id : safe (ip_pools_show id).
Proof. krun. Qed.
Lemma keeps_ip_pools_destroy id : safe (ip_pools_destroy id).
Proof. krun. Qed.
Lemma keeps_ip_addresses_index pool p : safe (ip_addresses_index pool p).
Proof. krun. Qed.
Lemma keeps_ip_addresses_create pool body : safe (ip_addresses_create pool body).
Proof. krun. Qed.
Lemma keeps_ip_addresses_show pool id : safe (ip_addresses_show pool id).
Proof. krun. Qed.
Lemma keeps_ip_addresses_destroy pool id : safe (ip_addresses_destroy pool id).
Proof. krun. Qed.
End Global.

(** *** Every call *)

#[local] Hint Resolve keeps_organizations_index keeps_organizations_create : calls.
#[local] Hint Resolve keeps_organizations_show keeps_organizations_update keeps_organizations_destroy keeps_servers_index : calls.
#[local] Hint Resolve keeps_servers_create keeps_servers_show keeps_servers_update keeps_servers_destroy keeps_servers_suspend : calls.
#[local] Hint Resolve keeps_servers_unsuspend keeps_servers_set_ip_pool keeps_usage_show keeps_limits_show keeps_limits_update : calls.
#[local] Hint Resolve keeps_organization_suspend keeps_organization_unsuspend keeps_members_index keeps_members_create keeps_members_update : calls.
#[local] Hint Resolve keeps_members_destroy keeps_invitations_index keeps_invitations_create keeps_invitations_destroy keeps_domains_index : calls.
#[local] Hint Resolve keeps_domains_create keeps_domains_show keeps_domains_verify keeps_domains_destroy keeps_track_domains_index : calls.
#[local] Hint Resolve keeps_track_domains_create keeps_track_domains_show keeps_track_domains_destroy keeps_track_domains_verify : calls.
#[local] Hint Resolve keeps_domains_update keeps_credentials_index keeps_credentials_create keeps_credentials_show keeps_credentials_update : calls.
#[local] Hint Resolve keeps_credentials_destroy keeps_routes_index keeps_routes_create keeps_routes_update keeps_routes_show : calls.
#[local] Hint Resolve keeps_routes_destroy keeps_webhooks_index keeps_webhooks_create keeps_webhooks_show keeps_webhooks_update : calls.
#[local] Hint Resolve keeps_webhooks_destroy keeps_set_webhook_enabled keeps_webhooks_test keeps_sender_addresses_index : calls.
#[local] Hint Resolve keeps_sender_addresses_create keeps_sender_addresses_destroy keeps_suppressions_index keeps_suppressions_create : calls.
#[local] Hint Resolve keeps_suppressions_destroy : calls.
#[local] Hint Resolve keeps_servers_find keeps_admin_api_keys_index keeps_admin_api_keys_create keeps_admin_api_keys_destroy : calls.
#[local] Hint Resolve keeps_auth_events_index keeps_users_index keeps_users_create keeps_users_show keeps_users_update keeps_users_destroy : calls.
#[local] Hint Resolve keeps_ip_pools_index keeps_ip_pools_create keeps_ip_pools_show keeps_ip_pools_destroy keeps_ip_addresses_index : calls.
#[local] Hint Resolve keeps_ip_addresses_create keeps_ip_addresses_show keeps_ip_addresses_destroy : calls.
(** A call below [/organizations] keeps the rows of the organizations it does not name. *)
Lemma keeps_run_call (w : World K) principal acting c :
  (if organizations_call c then from_option (λ org, spare_permalink org) True (call_organization c) else ∀ o, T o = false) →
  safe (run_call config dns retention lifecycle_enabled streams w principal acting c).
Proof. destruct c; unfold run_call; cbv beta zeta iota; intros Hc; auto with calls nocore. Qed.
End Kept.
End Tenants.
