(* ===== verification/Isolation.v ===== *)
(** * Isolation: requests to the admin API

    The middleware in front of the handlers.  [reaches] says in terms of the rows what
    the credentials of a request give it on an organization; a request keeps the type
    of the deployment, and changes nothing of an organization it does not reach. *)

From S2P Require Import RustStrFacts MemoryFacts Concrete MailDbFacts ApiSendFacts AuthStoreFacts AuthApiFacts.
From S2P Require Import Prelude RustStr Net Model SendLimit Message MemoryStore Queue MailDb Dkim Worker Webhooks PgSink Housekeeping PgStore Compose ApiSend.
From S2P Require Import Auth AuthStore AuthPg AppMailer AdminStore AdminPg Workspace AuthApi Authorize AdminApi Members Resources AdminRouter.
From S2P Require Import HandlerLogic Tenancy TenancyFacts Tenants.

(** ** What a request reaches *)

Section Reach.
Context `{CRA : !Crates} (config : AdminConfig) (d : Deployment).

Definition find_permalink (p : bytes) : option Organization := List.find (λ o, org_permalink o =b p) (pt_organizations (tables d)).
(** The organization a path names. *)
Definition named_organization (segs : list bytes) : option Organization :=
  match segs with
  | organizations :: p :: _ => if organizations =b !"organizations" then find_permalink p else None
  | _ => None
  end.
(** The scope of a key: that of its row, or the global one of the configured key. *)
Definition scope_of (key : bytes) : option AdminKeyScope :=
  match List.find (λ k, k.2 =b hash_token key) (dp_admin_api_keys d) with
  | Some (k, _) => Some (mkAdminKeyScope (key_organization_id k) (key_server_id k))
  | None =>
      match ad_global_admin_api_key config with
      | Some configured => if negb (bool_decide (configured = [])) && (configured =b key) then Some scope_default else None
      | None => None
      end
  end.
(** A key with a server is one for the paths below that server. *)
Definition scope_reaches (segs : list bytes) (scope : AdminKeyScope) (organization : Id) : Prop :=
  aks_organization_id scope = Some organization ∧
  ∀ sid, aks_server_id scope = Some sid → ∃ s permalink rest, drop 2 segs = !"servers" :: permalink :: rest ∧
    s ∈ pt_servers (tables d) ∧ srv_id s = sid ∧ srv_organization_id s = organization ∧ srv_permalink s = permalink.
Definition enrolled (user : User) : Prop :=
  (∃ row, ac_user_auth (accounts d) !! us_id user = Some row ∧ ua_totp_enabled row = true) ∨
  (∃ i c, ac_webauthn_credentials (accounts d) !! i = Some c ∧ wc_user_id c = us_id user).
Definition has_role (user : User) (organization : Id) (required : Role) : Prop :=
  ∃ i m, ac_memberships (accounts d) !! i = Some m ∧ om_organization_id m = organization ∧ om_user_id m = us_id user ∧
    role_at_least (om_role m) required = true.
(** A session that is live at [now]. *)
Definition session_of (now : datetime) (token : bytes) (user : User) : Prop :=
  ∃ i s, ac_sessions (accounts d) !! i = Some s ∧ as_token_hash s = hash_token token ∧ (now < as_expires_at s)%Z ∧
    ac_users (accounts d) !! as_user_id s = Some user.
Definition user_reaches (m : Method) (segs : list bytes) (user : User) (organization : Id) : Prop :=
  (us_admin user = true ∨ has_role user organization (required_role (drop 2 segs) m)) ∧
  (∀ x, named_organization segs = Some x → org_require_two_factor x = true → enrolled user).
Definition reaches (now : datetime) (rq : AdminRequest) (organization : Id) : Prop :=
  let segs := segments (rq_path rq) in
  match present (rq_headers rq !"x-admin-api-key") with
  | Some key => ∃ scope, scope_of key = Some scope ∧ (scope_is_global scope = true ∨ scope_reaches segs scope organization)
  | None => ∃ user, session_of now (bearer (rq_headers rq)) user ∧ user_reaches (rq_method rq) segs user organization
  end.
End Reach.

Section Isolation.
Context `{ORD : !HashOrder, CASE : !UnicodeCase, CRA : !Crates, PAY : !Payloads, MB : !MailBuilder, API : !ApiCrates SendMessage}.
Context `{AUTH : !AuthCrates, ADM : !AdminCrates, JS : !AdminJson, RES : !ResourceCrates, PATH : !PathParams} {K : Type} `{SIG : !Signer K}.
Context (lower : bytes → bytes) (collate_le : bytes → bytes → bool) (api : ApiConfig) (settings : AppMailConfig)
  (config : AdminConfig) (dns : DnsSettings) (retention : RetentionSettings) (lifecycle_enabled bootstrap_enabled : bool)
  (streams : Id → Deployment → list MessageStream).
#[local] Existing Instance Deployment_admin.
#[local] Instance accounts_store : AuthStore Deployment := Deployment_accounts lower collate_le.
#[local] Instance account_hooks : AccountHooks Deployment := Deployment_hooks lower collate_le api settings lifecycle_enabled bootstrap_enabled.

(** ** The middleware *)

Local Abbreviation reads d := (keeps (eq d)).
Lemma reads_query {A} d table (rows : Deployment → A) : reads d (query table rows) (λ a, a = rows d).
Proof. intros ? <-. unfold query. split; [done|]. cbn. destruct (dp_failing d Select table); [done|]. by intros a [= <-]. Qed.
Lemma account_reading {A} (q : PgAuth → SRes A) d : account_step (reading q) d = (q (account_view d), d).
Proof. unfold account_step, reading. f_equal. by destruct d as [? [[] ? ?] ? ? ? ? ? ? ?]. Qed.
Lemma reads_account {A} d q (rows : Accounts → A) :
  reads d (account_step (reading (λ s, select s q rows))) (λ a, a = rows (pa_accounts (account_view d))).
Proof. intros ? <-. rewrite account_reading. split; [done|]. unfold select. cbn. destruct (pa_failing _ q); [done|]. by intros a [= <-]. Qed.

(** The key that is presented is looked up, and its row marked. *)
Definition key_marked (key : bytes) (d d' : Deployment) : Prop :=
  d' = d ∨ ∃ k, (k, hash_token key) ∈ dp_admin_api_keys d ∧
    d' = d <| dp_key_uses := <[key_id k := db_now (mail d)]> (dp_key_uses d) |>.
Lemma key_auth_marks key d : key_marked key d (admin_api_key_auth key d).2.
Proof.
  cbn. unfold pg_admin_api_key_auth, statement. destruct (dp_failing d Update AdminApiKeys); [by left|].
  destruct (List.find _ _) as [[k h]|] eqn:E; [|by left]. right. apply find_elem in E as [Hin Eh%bytes_eqb_eq]. cbn in Eh. subst h. by exists k.
Qed.
Lemma key_scope_spec d key : key_scope config key d = (inl internal_error, d) ∨
  ∃ d1, d1 = (admin_api_key_auth key d).2 ∧ key_scope config key d = (inr (scope_of config d key), d1).
Proof.
  unfold key_scope, scope_of, mbind, handler_bind, call. cbn. unfold pg_admin_api_key_auth, statement.
  destruct (dp_failing d Update AdminApiKeys); [by left|]. right.
  destruct (List.find _ _) as [[k h]|]; cbn; eexists; (split; [reflexivity|]); [done|]. by destruct (ad_global_admin_api_key config).
Qed.
Lemma reads_organization d p : reads d (call (organization_by_permalink p)) (λ o, o = find_permalink d p).
Proof. apply rule_call. exact (reads_query d Organizations (λ d, find_permalink d p)). Qed.

(** Everything the checks of a key read is in its scope. *)
Lemma reads_key_scope_allows d scope path : ¬ scope_is_global scope = true →
  reads d (key_scope_allows scope path) (λ b, b = true → ∃ o, named_organization d (segments path) = Some o ∧ scope_reaches d (segments path) scope (org_id o)).
Proof.
  intros Hscope. unfold key_scope_allows. set (segs := segments path). destruct segs as [|organizations [|p rest]] eqn:Es; try (apply rule_ret; done).
  unfold named_organization. destruct (organizations =b _) eqn:Eo; cbn [negb]; [|by apply rule_ret].
  eapply rule_bind; [apply reads_organization|]. intros r ->. destruct (find_permalink d p) as [o|] eqn:Hf; [|by apply rule_ret].
  destruct (bool_decide _) eqn:Ho; cbn [negb]; [|by apply rule_ret]. apply bool_decide_eq_true in Ho.
  unfold scope_reaches. destruct (aks_server_id scope) as [sid|] eqn:Hs.
  2: { apply rule_ret. intros _. exists o. by rewrite <- Ho. }
  destruct rest as [|servers [|sp rest]]; try (by apply rule_ret).
  destruct (servers =b _) eqn:Eservers; cbn [negb]; [|by apply rule_ret]. apply bytes_eqb_eq in Eservers as ->.
  eapply rule_bind.
  { apply rule_call. exact (reads_query d Servers (λ d, List.find (is_server (org_id o) sp) (pt_servers (tables d)))). }
  intros r ->. apply rule_ret. intros Hb. exists o. split; [done|]. split; [done|]. intros i [= <-].
  destruct (List.find _ _) as [s|] eqn:Hfs; [|done]. cbn in Hb. apply N.eqb_eq in Hb.
  apply find_elem in Hfs as [Hin Hserver]. unfold is_server in Hserver. apply andb_true_iff in Hserver as [Hso%N.eqb_eq Hsp%bytes_eqb_eq].
  by exists s, sp, rest.
Qed.

Lemma key_marked_rows key d d' : key_marked key d d' → (∀ segs, named_organization d' segs = named_organization d segs) ∧
  ∀ segs scope o, scope_reaches d' segs scope o = scope_reaches d segs scope o.
Proof. by intros [->|(k & _ & ->)]. Qed.
Lemma machine_key_cases {A} d rq key (next : Principal → ActingRole → Handler Deployment A) (P : (ApiError + A) * Deployment → Prop) :
  let d1 := (admin_api_key_auth key d).2 in
  (∀ e, P (inl e, d)) → (∀ e, P (inl e, d1)) →
  (∀ scope, scope_of config d key = Some scope →
     (scope_is_global scope = true ∨ ∃ o, named_organization d (segments (rq_path rq)) = Some o ∧ scope_reaches d (segments (rq_path rq)) scope (org_id o)) →
     P (next (PAdminKey scope) None d1)) →
  P (machine_key config rq key next d).
Proof.
  intros d1 He He1 Hnext. unfold machine_key. destruct (key_scope_spec d key) as [E|(d2 & -> & E)]; fold d1 in E.
  { rewrite (bind_error _ _ _ _ _ E). apply He. }
  rewrite (bind_ok _ _ _ _ _ E). destruct (key_marked_rows key d d1 (key_auth_marks key d)) as [Hnamed Hreaches].
  eapply (rule_read _ _ _ (λ a, scope_of config d key = Some a)); [by apply rule_require|done|]. intros scope Hscope.
  eapply (rule_read _ _ _ (λ _, scope_is_global scope = true ∨ ∃ o, named_organization d1 (segments (rq_path rq)) = Some o ∧ scope_reaches d1 (segments (rq_path rq)) scope (org_id o)));
    [|done|].
  - destruct (scope_is_global scope) eqn:Hg; [apply rule_ret; by left|].
    eapply rule_bind; [apply reads_key_scope_allows; by rewrite Hg|]. intros b Hb. apply rule_refuse. intros Hn. right. apply Hb. by destruct b.
  - intros [] H. setoid_rewrite Hnamed in H. setoid_rewrite Hreaches in H. by apply Hnext.
Qed.

(** ** Users *)

Lemma reads_path_organization d segs : reads d (path_organization segs) (λ o, o = named_organization d segs).
Proof.
  unfold path_organization, named_organization. destruct segs as [|organizations [|p rest]]; try by apply rule_ret.
  destruct (organizations =b _); [apply reads_organization | by apply rule_ret].
Qed.
Lemma reads_membership d o user : reads d (call (membership o (us_id user)))
  (λ r, ∀ m, r = Some m → ∃ i, ac_memberships (accounts d) !! i = Some m ∧ om_organization_id m = o ∧ om_user_id m = us_id user).
Proof.
  apply rule_call. eapply rule_weaken; [exact (reads_account d QMembership (λ a, List.find (is_membership o (us_id user)) (values (ac_memberships a))))|].
  intros r -> m [(i & Hi)%values_elem Hm]%find_elem. apply is_membership_spec in Hm. naive_solver.
Qed.
Lemma reads_user_role d rq user segs : reads d (user_role config rq user segs (named_organization d segs)) (λ _,
  ∃ rest, segs = !"organizations" :: rest ∧
    (rest = [] ∨ ∃ o, named_organization d segs = Some o ∧ has_role d user (org_id o) (required_role (drop 2 segs) (rq_method rq)))).
Proof.
  unfold user_role. destruct segs as [|organizations rest]; [apply rule_fail|].
  destruct (organizations =b _) eqn:Eo; cbn [negb]; [|apply rule_fail]. apply bytes_eqb_eq in Eo as ->.
  destruct rest as [|p below].
  { eapply rule_bind; [apply rule_refuse_any|]. intros _ _. apply rule_ret. exists []. split; [done|by left]. }
  unfold named_organization. rewrite bytes_eqb_refl. destruct (find_permalink d p) as [o|].
  - eapply rule_bind; [apply reads_membership|]. intros r Hr. eapply (rule_bind _ _ _ (λ m, r = Some m)); [by apply rule_require|].
    intros m ->. destruct (Hr m eq_refl) as (i & Hi & Ho & Hu).
    eapply (rule_bind _ _ _ (λ _, role_at_least (om_role m) (required_role below (rq_method rq)) = true)).
    { apply rule_refuse. apply negb_false_iff. }
    intros _ Hrole. apply rule_ret. eexists. split; [done|]. right. exists o. split; [done|]. by exists i, m.
  - eapply (rule_bind _ _ _ (λ r, r = None)); [by apply rule_ret|]. intros r ->. eapply (rule_bind _ _ _ (λ _, False)); [by apply rule_require|]. done.
Qed.
Lemma reads_enforce_two_factor d user organization : reads d (enforce_two_factor user organization) (λ _,
  ∀ x, organization = Some x → org_require_two_factor x = true → enrolled d user).
Proof.
  unfold enforce_two_factor. destruct organization as [x|]; [|by apply rule_ret]. cbn. destruct (org_require_two_factor x) eqn:Hx.
  2: { apply rule_ret. intros ? [= <-]. by rewrite Hx. }
  eapply rule_bind.
  { apply rule_call. exact (reads_account d QTwoFactor (λ a, match ac_user_auth a !! us_id user with Some row => ua_totp_enabled row | None => false end
      || existsb (λ c, (wc_user_id c =? us_id user)%N) (values (ac_webauthn_credentials a)))). }
  intros b ->. apply rule_refuse. rewrite negb_false_iff. intros [Ht|Hw]%orb_true_iff x' _ _.
  - left. cbn in Ht. destruct (_ !! _) as [row|] eqn:Hrow; [|done]. by exists row.
  - right. apply existsb_exists in Hw as (c & (i & Hi)%list_elem_of_In%values_elem & Hc%N.eqb_eq). by exists i, c.
Qed.

(** The row of a session that is live at [now]. *)
Definition live_row (d : Deployment) (now : datetime) (token : bytes) (s : AuthSession) : Prop :=
  ∃ i, ac_sessions (accounts d) !! i = Some s ∧ as_token_hash s = hash_token token ∧ (now < as_expires_at s)%Z.
Lemma live_session_of d now token :
  reads d (call (session_with_user (hash_token token))) (λ r, ∀ s user, live_session now r = Some (s, user) →
    session_of d now token user ∧ live_row d now token s).
Proof.
  apply rule_call. eapply rule_weaken.
  { exact (reads_account d QSession (λ a, head (omap (λ row, if as_token_hash row =b hash_token token
      then u ← ac_users a !! as_user_id row; Some (row, u) else None) (values (ac_sessions a))))). }
  intros r -> s user Hlive. destruct (head _) as [[s' u]|] eqn:Hh; [|done]. cbn in Hlive.
  destruct (now <? as_expires_at s')%Z eqn:Hnow; [|done]. injection Hlive as -> ->. apply Z.ltb_lt in Hnow.
  apply head_Some_elem_of, list_elem_of_omap in Hh as (row & (i & Hi)%values_elem & Hrow).
  destruct (as_token_hash row =b _) eqn:Hhash; [|done]. apply bytes_eqb_eq in Hhash.
  destruct (_ !! as_user_id row) as [u|] eqn:Hu; [|done]. cbn in Hrow. injection Hrow as -> ->. split; [by exists i, s|by exists i].
Qed.
(** What the middleware itself writes: the last use of the key it looks up, or the last
    use and the expiry of the session it finds. *)
Inductive marked (now : datetime) (rq : AdminRequest) (d : Deployment) : Deployment → Prop :=
| marked_nothing : marked now rq d d
| marked_key key : present (rq_headers rq !"x-admin-api-key") = Some key → marked now rq d (admin_api_key_auth key d).2
| marked_session s : present (rq_headers rq !"x-admin-api-key") = None → live_row d now (bearer (rq_headers rq)) s →
    marked now rq d (touch_session (as_id s) now (session_end (ad_auth config) now) d).2.

Definition session_used (now : datetime) (id : Id) (d : Deployment) : Deployment :=
  on_account_tables (λ a, a <| ac_sessions :=
    alter (λ s, s <| as_last_used_at := now |> <| as_expires_at := session_end (ad_auth config) now |>) id (ac_sessions a) |>) d.
Lemma touch_uses now id d : let d' := (touch_session id now (session_end (ad_auth config) now) d).2 in d' = d ∨ d' = session_used now id d.
Proof.
  destruct d as [? [[] ? ?] ? ? ? ? ? ? ?]. cbn. unfold account_step, pg_touch_session, execute. cbn.
  destruct (_ QTouchSession); [by left|by right].
Qed.
Lemma touched_rows now id d d' : d' = d ∨ d' = session_used now id d → (∀ segs, named_organization d' segs = named_organization d segs) ∧
  (∀ user o r, has_role d' user o r = has_role d user o r) ∧ ∀ user, enrolled d' user = enrolled d user.
Proof. by intros [->| ->]. Qed.
Lemma user_session_cases {A} d now rq (next : Principal → ActingRole → Handler Deployment A) (P : (ApiError + A) * Deployment → Prop) :
  let segs := segments (rq_path rq) in
  present (rq_headers rq !"x-admin-api-key") = None →
  (∀ e d1, marked now rq d d1 → P (inl e, d1)) →
  (∀ user role d1, marked now rq d d1 → session_of d now (bearer (rq_headers rq)) user →
     (us_admin user = true ∨ ∃ rest, segs = !"organizations" :: rest ∧
        (rest = [] ∨ ∃ o, named_organization d segs = Some o ∧ has_role d user (org_id o) (required_role (drop 2 segs) (rq_method rq)))) →
     (∀ o, named_organization d segs = Some o → org_require_two_factor o = true → enrolled d user) →
     P (next (PUser user) role d1)) →
  P (user_session config now rq (bearer (rq_headers rq)) next d).
Proof.
  intros segs Hnokey He Hnext. pose proof (marked_nothing now rq d) as Hd. unfold user_session.
  eapply rule_read; [apply live_session_of|by intros; apply He|]. intros r Hlive.
  eapply (rule_read _ _ _ (λ p, live_session now r = Some p)); [by apply rule_require|by intros; apply He|]. intros [s user] Hr.
  destruct (Hlive _ _ Hr) as [Hs Hrow].
  pose proof (marked_session now rq d s Hnokey Hrow) as Htouch.
  set (x := session_end _ now) in *. change (P ((organization ← path_organization segs;
    acting_role ← (if us_admin user then mret None else user_role config rq user segs organization);
    _ ← enforce_two_factor user organization; next (PUser user) acting_role) (touch_session (as_id s) now x d).2)).
  destruct (touched_rows now (as_id s) d _ (touch_uses now (as_id s) d)) as (Hnamed & Hhas & Henrolled). fold x in Hnamed, Hhas, Henrolled.
  set (d1 := (touch_session (as_id s) now x d).2) in *.
  eapply rule_read; [apply reads_path_organization|by intros; apply He|]. intros o ->.
  eapply (rule_read _ _ _ (λ _, us_admin user = true ∨ ∃ rest, segs = !"organizations" :: rest ∧
    (rest = [] ∨ ∃ o, named_organization d1 segs = Some o ∧ has_role d1 user (org_id o) (required_role (drop 2 segs) (rq_method rq))))).
  { destruct (us_admin user); [by apply rule_ret; left|]. eapply rule_weaken; [apply reads_user_role|]. by right. }
  { by intros; apply He. }
  intros role Hrole. eapply rule_read; [apply reads_enforce_two_factor|by intros; apply He|]. intros [] Hfactor.
  rewrite Hnamed, Henrolled in Hfactor. setoid_rewrite Hnamed in Hrole. setoid_rewrite Hhas in Hrole. by apply Hnext.
Qed.
Lemma middleware_cases {A} d now rq (next : Principal → ActingRole → Handler Deployment A) (P : (ApiError + A) * Deployment → Prop) :
  let segs := segments (rq_path rq) in
  (∀ e d1, marked now rq d d1 → P (inl e, d1)) →
  (∀ scope role d1, marked now rq d d1 → from_option (scope_of config d) None (present (rq_headers rq !"x-admin-api-key")) = Some scope →
     (scope_is_global scope = true ∨ ∃ o, named_organization d segs = Some o ∧ scope_reaches d segs scope (org_id o)) →
     P (next (PAdminKey scope) role d1)) →
  (∀ user role d1, marked now rq d d1 → present (rq_headers rq !"x-admin-api-key") = None → session_of d now (bearer (rq_headers rq)) user →
     (us_admin user = true ∨ ∃ rest, segs = !"organizations" :: rest ∧
        (rest = [] ∨ ∃ o, named_organization d segs = Some o ∧ has_role d user (org_id o) (required_role (drop 2 segs) (rq_method rq)))) →
     (∀ o, named_organization d segs = Some o → org_require_two_factor o = true → enrolled d user) →
     P (next (PUser user) role d1)) →
  P (auth_middleware config now rq next d).
Proof.
  intros segs He Hkey Huser. pose proof (marked_nothing now rq d) as Hd. unfold auth_middleware. destruct (present _) as [key|] eqn:Ek.
  - pose proof (marked_key now rq d key Ek) as Hm. apply machine_key_cases; [by intros; apply He..|]. intros scope. by apply Hkey.
  - destruct (_ || _); [by apply He|]. apply user_session_cases; [done..|]. intros user role d1 Hd1. by apply Huser.
Qed.

(** ** Every request *)

Local Abbreviation serve := (serve config dns retention lifecycle_enabled streams).
Local Abbreviation run_call := (run_call config dns retention lifecycle_enabled streams).
(** Requests one after the other. *)
Definition serve_all (requests : list (World K * AdminRequest * AdminCall)) (d : Deployment) : Deployment :=
  foldl (λ d '(w, rq, c), (serve w rq c d).2) d requests.

Lemma kept_marked T v now rq d d1 : marked now rq d d1 → kept lower T v d → kept lower T v d1.
Proof.
  intros [|key _|s _ _] Hd; [done| |].
  - by apply (keeps_admin_api_key_auth lower T v key).
  - by apply (keeps_touch_session lower T v (as_id s) now (session_end (ad_auth config) now)).
Qed.
Lemma all_kept_wf d : deployment_wf lower d ↔ kept lower (λ _, false) (restrict (λ _, false) (tenancy d)) d.
Proof. split; [intros W; split; [done|]; by split | by intros [W _]]. Qed.
Lemma none_filtered {A} (l : list A) : List.filter (λ _, false) l = [].
Proof. by induction l. Qed.
Lemma serve_wf w rq c d : deployment_wf lower d → deployment_wf lower (serve w rq c d).2.
Proof.
  intros Hd%all_kept_wf. apply all_kept_wf. set (v := restrict _ _) in Hd.
  assert (Hrun : ∀ principal role d', kept lower (λ _, false) v d' → deployment_wf lower (run_call w principal role c d').2).
  { intros principal role d' Hd'. eapply keeps_run_call; [|exact Hd']. destruct (organizations_call c); [|done]. destruct (call_organization c); [|done].
    cbn. rewrite none_filtered. by apply not_elem_of_nil. }
  apply all_kept_wf. assert (Hm : ∀ d1, marked (wd_now w) rq d d1 → kept lower (λ _, false) v d1) by (intros d1 H1; by eapply kept_marked).
  apply (middleware_cases d (wd_now w) rq _ (λ r, deployment_wf lower r.2)).
  - intros e d1 H1. by destruct (Hm d1 H1).
  - intros scope role d1 H1 _ _. by apply Hrun, Hm.
  - intros user role d1 H1 _ _ _ _. by apply Hrun, Hm.
Qed.

Lemma serve_all_wf requests d : deployment_wf lower d → deployment_wf lower (serve_all requests d).
Proof. unfold serve_all. revert d. induction requests as [|[[w rq] c] requests IH]; [done|]. intros d W. by apply IH, serve_wf. Qed.
(** A new database. *)
Definition fresh_deployment (mail : MailDb) (failing_queries : Query → bool) (failing_accounts : AuthQuery → bool)
    (failing : Verb → AdminTable → bool) : Deployment :=
  mkDeployment (mkPgStore (mkPgTables [] ∅ [] [] [] [] [] [] []) mail failing_queries)
    (mkPgAuth accounts_empty (λ _, 1%N) failing_accounts) [] ∅ ∅ [] [] (λ _, 1%N) failing.
Lemma fresh_wf mail q a f : db_webhooks mail = [] → db_suppressions mail = [] → deployment_wf lower (fresh_deployment mail q a f).
Proof.
  intros Hw Hs. split; [|apply accounts_empty_wf]. constructor; unfold tenancy, fresh_deployment; cbn; rewrite ?Hw, ?Hs; cbn; try (constructor; cbn; constructor).
  all: by intros o [? ?%lookup_empty_Some].
Qed.

(** C23: Whatever requests the admin API serves to a new database, in whatever order and
    whichever statements fail, the rows keep their type: ids and unique columns without
    duplicates, sequences above the ids in use, foreign keys that hold, a key scoped to
    a server of its organization, a route that names a domain of its server. *)
Theorem admin_tables_well_formed requests mail failing_queries failing_accounts failing :
  db_webhooks mail = [] → db_suppressions mail = [] →
  deployment_wf lower (serve_all requests (fresh_deployment mail failing_queries failing_accounts failing)).
Proof. intros Hw Hs. by apply serve_all_wf, fresh_wf. Qed.

(** ** Requests that read *)

(** A call registered under GET reads. *)
Section Reading.
Context (d : Deployment).
Lemma reads_any {A} table (rows : Deployment → A) : reads d (query table rows) (λ _, True).
Proof. eapply rule_any, reads_query. Qed.
Lemma reads_account_any {A} (q : PgAuth → SRes A) : reads d (account_step (reading q)) (λ _, True).
Proof. intros ? <-. by rewrite account_reading. Qed.
Ltac kop ::= first [apply reads_any | apply reads_account_any].
Ltac khook ::= by intros ? ?.
Ltac khandler ::= fail.
Lemma reads_run_call (w : World K) principal role c : (call_route c).1 = GET → reads d (run_call w principal role c) (λ _, True).
Proof. destruct c; cbn [call_route fst]; try done; intros _; unfold AdminRouter.run_call; cbv beta zeta iota; krun. Qed.
End Reading.
Lemma read_route rq c : routed rq c = true → is_read (rq_method rq) = true → (call_route c).1 = GET.
Proof.
  unfold routed, is_read, method_matches. destruct (call_route c) as [m pattern] eqn:E. cbn.
  intros [[[_ Hm]%andb_true_iff _]%andb_true_iff _]%andb_true_iff Hread.
  apply orb_true_iff in Hm as [->%bool_decide_eq_true|[->%bool_decide_eq_true _]%andb_true_iff]; [|done].
  apply orb_true_iff in Hread as [->%bool_decide_eq_true|Hh%bool_decide_eq_true]; [done|].
  rewrite Hh in E. by destruct c.
Qed.

(** C24: A request with a reading method changes nothing, whatever it asks for and
    whoever asks, but for what marks its credential as used: the last use of the row
    of the key it presents, or, presenting no key, the last use and the expiry of the
    live session its bearer token is of. *)
Theorem reading_changes_nothing (w : World K) rq c d :
  routed rq c = true → is_read (rq_method rq) = true →
  let d' := (serve w rq c d).2 in
  d' = d ∨
  (∃ key k, present (rq_headers rq !"x-admin-api-key") = Some key ∧ (k, hash_token key) ∈ dp_admin_api_keys d ∧
     d' = d <| dp_key_uses := <[key_id k := db_now (mail d)]> (dp_key_uses d) |>) ∨
  (∃ s, present (rq_headers rq !"x-admin-api-key") = None ∧ live_row d (wd_now w) (bearer (rq_headers rq)) s ∧
     d' = session_used (wd_now w) (as_id s) d).
Proof.
  intros Hr Hread d'. pose proof (read_route rq c Hr Hread) as Hc.
  assert (marked (wd_now w) rq d d') as Hm.
  { apply (middleware_cases d _ rq _ (λ r, marked (wd_now w) rq d r.2)); [done|..].
    - intros scope role d1 H1 _ _. by destruct (reads_run_call d1 w (PAdminKey scope) role c Hc d1 eq_refl) as [<- _].
    - intros user role d1 H1 _ _ _ _. by destruct (reads_run_call d1 w (PUser user) role c Hc d1 eq_refl) as [<- _]. }
  clearbody d'. destruct Hm as [|key Hk|s Hk Hs]; [by left| |].
  - destruct (key_auth_marks key d) as [->|(k & Hin & ->)]; [by left|]. right; left. by exists key, k.
  - destruct (touch_uses (wd_now w) (as_id s) d) as [->| ->]; [by left|]. right; right. by exists s.
Qed.

(** ** Organizations apart *)

Definition plain_path (rq : AdminRequest) : bool := forallb (forallb (λ c, negb (is_byte "%" c))) (segments (rq_path rq)).

Lemma named_segments rq c org : routed rq c = true → plain_path rq = true → organizations_call c = true → call_organization c = Some org →
  ∃ rest, segments (rq_path rq) = !"organizations" :: org :: rest.
Proof.
  unfold routed, organizations_call, call_organization, plain_path. destruct (call_route c) as [m pattern]. cbn [snd].
  intros [[_ Hm]%andb_true_iff _]%andb_true_iff Hp Hs Ho. destruct pattern as [|[s| |] [|[|v|] pattern]]; try done.
  apply bytes_eqb_eq in Hs as ->. injection Ho as ->. destruct (segments (rq_path rq)) as [|x [|y segs]]; try done; [by cbn in Hm; rewrite andb_false_r in Hm|].
  cbn in Hm, Hp. apply andb_true_iff in Hm as [<-%bytes_eqb_eq [Hy%bool_decide_eq_true _]%andb_true_iff]. exists segs.
  apply andb_true_iff in Hp as [_ [Hp _]%andb_true_iff]. rewrite (path_param_plain y Hp) in Hy. by injection Hy as ->.
Qed.
Lemma global_segments rq c d : routed rq c = true → organizations_call c = false →
  named_organization d (segments (rq_path rq)) = None ∧ ∀ rest, segments (rq_path rq) ≠ !"organizations" :: rest.
Proof.
  unfold routed, organizations_call. destruct (call_route c) as [m pattern] eqn:Ec. cbn [snd].
  intros [[_ Hm]%andb_true_iff _]%andb_true_iff Hs.
  assert (∃ s pattern', pattern = Fixed s :: pattern') as (s & pattern' & ->).
  { revert Ec. clear. destruct c; cbn; intros [= _ <-]; by repeat eexists. }
  destruct (segments (rq_path rq)) as [|x segs]; [done|]. cbn in Hm. apply andb_true_iff in Hm as [<-%bytes_eqb_eq _]. split.
  - cbn. destruct segs; [done|]. by rewrite Hs.
  - intros rest [= ->]. by rewrite bytes_eqb_refl in Hs.
Qed.
Lemma named_by_permalink d x rest : deployment_wf lower d → x ∈ pt_organizations (tables d) →
  named_organization d (!"organizations" :: org_permalink x :: rest) = Some x.
Proof.
  intros [W _] Hx. cbn. unfold find_permalink. destruct (List.find _ _) as [y|] eqn:Hy.
  - apply find_elem in Hy as [Hy E%bytes_eqb_eq]. f_equal. by eapply (row_known org_permalink); [apply (tw_organizations _ _ W)|..].
  - apply (List.find_none _ _) with (x := x) in Hy; [|by apply list_elem_of_In]. by rewrite bytes_eqb_refl in Hy.
Qed.

Section Apart.
Context (d : Deployment) (x : Organization) (W : deployment_wf lower d) (Hx : x ∈ pt_organizations (tables d)).
Local Abbreviation T := (λ o, (o =? org_id x)%N).
Local Abbreviation apart := (kept lower T (restrict T (tenancy d))).
Lemma apart_now : apart d.
Proof.
  split; [done|]. split; [done|]. intros o ->%N.eqb_eq. by eapply (rows_below _ _ _ _ _ _ (tw_organizations _ _ (proj1 W))).
Qed.
Lemma apart_marked now rq d1 : marked now rq d d1 → apart d1.
Proof. intros H. by eapply kept_marked, apart_now. Qed.
(** A call on another organization. *)
Lemma elsewhere rq c w principal role d' : routed rq c = true → plain_path rq = true → organizations_call c = true →
  named_organization d (segments (rq_path rq)) ≠ Some x → apart d' → apart (run_call w principal role c d').2.
Proof.
  intros Hr Hp Hc Hn. intros Hd'. eapply keeps_run_call; [|exact Hd']. rewrite Hc. destruct (call_organization c) as [org|] eqn:Ho; [|done].
  cbn. intros (y & -> & [Hy Hid%N.eqb_eq]%filter_elem)%list_elem_of_fmap. apply Hn.
  destruct (named_segments rq c _ Hr Hp Hc Ho) as [rest ->]. assert (y = x) as ->.
  { by eapply rows_same; [apply (tw_organizations _ _ (proj1 W))|..]. }
  by apply named_by_permalink.
Qed.
End Apart.

(** C22: A request changes nothing of an organization it does not reach, and is refused
    when it names one: no row of the organization, of its members, keys, servers, or
    of what belongs to a server, whatever the call is.  To reach an organization takes
    a key that is global or scoped to it (below its server, when it has one), or a live
    session of a global administrator or of a member with the role the path needs, with
    a second factor where the named organization requires one.  No segment of the path
    is percent-encoded. *)
Theorem unreached_organization_untouched (w : World K) rq c d x :
  deployment_wf lower d → routed rq c = true → plain_path rq = true → x ∈ pt_organizations (tables d) →
  ¬ reaches config d (wd_now w) rq (org_id x) →
  let d' := serve w rq c d in
  restrict (λ o, (o =? org_id x)%N) (tenancy d'.2) = restrict (λ o, (o =? org_id x)%N) (tenancy d) ∧
  (named_organization d (segments (rq_path rq)) = Some x → ∃ e, d'.1 = inl e).
Proof.
  intros W Hr Hp Hx Hreach d'. set (segs := segments (rq_path rq)).
  cut (kept lower (λ o, (o =? org_id x)%N) (restrict (λ o, (o =? org_id x)%N) (tenancy d)) d'.2 ∧ (named_organization d segs = Some x → ∃ e, d'.1 = inl e)).
  { intros [Hd' He]. split; [by apply (kept_view _ _ _ _ Hd') | done]. }
  pose proof (λ w principal role d', elsewhere d x W Hx rq c w principal role d' Hr Hp) as Helse. unfold reaches in Hreach. fold segs in Hreach, Helse.
  apply (middleware_cases d _ rq _ (λ r, kept lower _ _ r.2 ∧ (named_organization d segs = Some x → ∃ e, r.1 = inl e))); fold segs.
  - intros e d1 H1. split; [by eapply apart_marked | by exists e].
  - intros scope role d1 H1 Hscope Hcase. destruct (present _) as [key|]; [|done]. cbn in Hscope.
    assert (∃ o, named_organization d segs = Some o ∧ scope_reaches d segs scope (org_id o)) as (o & Ho & Hs) by naive_solver.
    assert (Hn : named_organization d segs ≠ Some x) by naive_solver. split; [|done]. apply Helse; [|done|by eapply apart_marked].
    apply not_false_iff_true. intros Hc. destruct (global_segments rq c d Hr Hc) as [Hnone _]. fold segs in Hnone. congruence.
  - intros user role d1 H1 Hkey Hsession Hcase Hfactor. rewrite Hkey in Hreach.
    assert (Hn : named_organization d segs ≠ Some x ∧ us_admin user = false).
    { split; [intros Hn | apply not_true_iff_false; intros Ha]; apply Hreach; exists user; split; try done; (split; [|done]); [|by left].
      destruct Hcase as [|(rest & Es & [->|(o & Ho & Hrole)])]; [by left| |right; congruence]. by rewrite Es in Hn. }
    destruct Hn as [Hn Ha]. destruct Hcase as [|(rest & Es & _)]; [congruence|]. split; [|done]. apply Helse; [|done|by eapply apart_marked].
    apply not_false_iff_true. intros Hc. destruct (global_segments rq c d Hr Hc) as [_ Hnone]. by apply (Hnone rest).
Qed.
End Isolation.

(** ** Witnesses *)

Definition concrete_admin : AdminCrates :=
  {| row_uuid _ id := show_N id; row_token _ id := !"token-" ++ show_N id; row_key id := !"key-" ++ show_N id |}.
Definition concrete_json : AdminJson :=
  {| json_f64 _ := !"0"; json_datetime := show_Z; json_midnight m := show_Z (um_year m); generate_key n := show_Z n |}.
Definition concrete_resources : ResourceCrates :=
  {| dkim_public_key_b64 := Some; generate_dkim_key n := Some (show_Z n); header_name_valid _ := true; header_value_valid _ := true;
     minute_earlier := show_Z |}.
(** Percent-decoding; an escape that is none stays. *)
Definition hex_value (c : ascii) : option N :=
  if is_ascii_digit c then Some (byte_n c - 48)%N else if ((is_ascii_upper c || is_ascii_lower c) && (byte_n c mod 32 <=? 6)%N)%bool then Some (byte_n c mod 32 + 9)%N else None.
Fixpoint percent_decode (s : bytes) : bytes :=
  match s with
  | c :: (h :: l :: rest) as s' =>
      match hex_value h, hex_value l with
      | Some a, Some b => if is_byte "%" c then Ascii.ascii_of_N (16 * a + b) :: percent_decode rest else c :: percent_decode s'
      | _, _ => c :: percent_decode s'
      end
  | c :: s' => c :: percent_decode s'
  | [] => []
  end.
Lemma percent_decode_plain s : forallb (λ c, negb (is_byte "%" c)) s = true → percent_decode s = s.
Proof.
  induction s as [|c s IH]; [done|]. cbn [forallb]. intros [Hc%negb_true_iff Hs]%andb_true_iff. cbn [percent_decode].
  destruct s as [|h [|l s]]; [done|by rewrite IH|]. rewrite Hc. destruct (hex_value h), (hex_value l); by rewrite IH.
Qed.
Definition concrete_path : PathParams.
Proof.
  refine {| path_param s := Some (percent_decode s) |}. intros s Hs. by rewrite percent_decode_plain.
Defined.

#[local] Existing Instances concrete_crates concrete_case concrete_order concrete_payloads fx_mail_builder fx_api concrete_auth concrete_admin
  concrete_json concrete_resources concrete_path concrete_signer.
#[local] Existing Instance Deployment_admin.

Definition fx_mail_settings : AppMailConfig := mkAppMailConfig false None None [].
Definition fx_admin_config : AdminConfig := mkAdminConfig fx_auth_config true (Some !"root").
Definition fx_dns : DnsSettings := mkDnsSettings !"camelmailer" !"_camel" !"verify" !"spf" !"track" !"smtp" !"web" None.
Definition fx_retention : RetentionSettings := mkRetentionSettings 30 90 90 30 365 90 7.
Definition fx_world : World unit := mkWorld _ 0 1 (λ _, inr []) (λ _, inr None) (λ _, inr 200%N) None.
#[local] Instance fx_accounts_store : AuthStore Deployment := Deployment_accounts to_ascii_lowercase bytes_le.
#[local] Instance fx_account_hooks : AccountHooks Deployment :=
  Deployment_hooks to_ascii_lowercase bytes_le fx_api_config fx_mail_settings true false.
Definition fx_serve : World unit → AdminRequest → AdminCall → Handler Deployment Response :=
  serve fx_admin_config fx_dns fx_retention true (λ _ _, []).
Definition fx_serve_all : list (World unit * AdminRequest * AdminCall) → Deployment → Deployment :=
  serve_all to_ascii_lowercase bytes_le fx_api_config fx_mail_settings fx_admin_config fx_dns fx_retention true false (λ _ _, []).

Definition by_key (key : bytes) : Headers := λ name, if name =b !"x-admin-api-key" then Some key else None.
Definition by_session (token : bytes) : Headers := λ name, if name =b !"authorization" then Some (!"Bearer " ++ token) else None.
Definition root_call (m : Method) (path : bytes) (c : AdminCall) : World unit * AdminRequest * AdminCall :=
  (fx_world, mkAdminRequest m path (by_key !"root"), c).

(** Ada owns acme; Eve has an account and a session. *)
Definition fx_tenants : Deployment :=
  let users := fx_serve_all
    [root_call POST !"/organizations" (OrganizationsCreate (mkCreateOrganization (Some !"Acme") (Some !"acme")));
     root_call POST !"/users" (UsersCreate (mkCreateUser (Some !"ada@example.com") None None None None));
     root_call POST !"/users" (UsersCreate (mkCreateUser (Some !"eve@example.com") None None None None));
     root_call POST !"/organizations/acme/members" (MembersCreate !"acme" (Some !"ada@example.com") (Some !"owner"));
     root_call POST !"/organizations/acme/servers" (ServersCreate !"acme" (mkCreateServer (Some !"Production") None None))]
    (fresh_deployment MailDbFacts.fx_db (λ _, false) (λ _, false) (λ _ _, false)) in
  (create_session 0 (mkNewAuthSession 2 (hash_token !"eve") (14 * fx_day) None None None) users).2.

Lemma fx_tenants_wf : deployment_wf to_ascii_lowercase fx_tenants.
Proof.
  unfold fx_tenants. set (users := fx_serve_all _ _). set (new := mkNewAuthSession _ _ _ _ _ _).
  assert (W : deployment_wf to_ascii_lowercase users) by (by apply serve_all_wf, fresh_wf).
  apply all_kept_wf in W. set (v := restrict _ _) in W.
  eapply (keeps_account_step to_ascii_lowercase (λ _, false) v (pg_create_session 0 new)); [| |exact W].
  - intros s. exact (run_op_wf to_ascii_lowercase (λ _ _, true) (OCreateSession 0 new) s).
  - intros s _. apply insert_people. cbn. repeat case_match; done.
Qed.
Definition fx_eve (m : Method) (path : bytes) : AdminRequest := mkAdminRequest m path (by_session !"eve").
(** Eve has created an organization of her own, whose permalink decodes to acme. *)
Definition fx_lookalike : Deployment :=
  (fx_serve fx_world (fx_eve POST !"/organizations") (OrganizationsCreate (mkCreateOrganization (Some !"Eve") (Some !"ac%6De"))) fx_tenants).2.
Definition fx_acme : Organization := mkOrganization 1 !"1" !"Acme" !"acme" false.

Lemma lookup_value {A} (m : gmap Id A) i x : m !! i = Some x → x ∈ map snd (map_to_list m).
Proof. intros Hx. apply list_elem_of_fmap. exists (i, x). split; [done|]. by apply elem_of_map_to_list. Qed.
(** Eve is no administrator and no member of acme. *)
Lemma eve_does_not_reach d m path : ac_sessions (accounts d) = ac_sessions (accounts fx_tenants) → ac_users (accounts d) = ac_users (accounts fx_tenants) →
  forallb (λ ms, negb ((om_organization_id ms =? 1) && (om_user_id ms =? 2)))%N (map snd (map_to_list (ac_memberships (accounts d)))) = true →
  ¬ reaches fx_admin_config d 0 (fx_eve m path) 1.
Proof.
  intros Hs Hu Hm (user & (i & s & Hi & _ & _ & Huser) & [[Ha|(j & ms & Hj & Ho & Hms & _)] _]); rewrite Hs in Hi; rewrite Hu in Huser;
    apply lookup_value in Hi; vm_compute in Hi; apply list_elem_of_singleton in Hi as ->; vm_compute in Huser; injection Huser as <-; [done|].
  apply lookup_value in Hj. pose proof (proj1 (forallb_forall _ _) Hm ms (proj1 (list_elem_of_In _ _) Hj)) as Hb.
  cbv beta in Hb. by rewrite Ho, Hms in Hb.
Qed.

Lemma admin_tables_well_formed_witness : ∃ servers, servers ≠ [] ∧
  let d := fx_serve_all
    [root_call POST !"/organizations" (OrganizationsCreate (mkCreateOrganization (Some !"Acme") (Some !"acme")));
     root_call POST !"/organizations/acme/servers" (ServersCreate !"acme" (mkCreateServer (Some !"Production") None None))]
    (fresh_deployment MailDbFacts.fx_db (λ _, false) (λ _, false) (λ _ _, false)) in
  pt_servers (tables d) = servers ∧ deployment_wf to_ascii_lowercase d.
Proof.
  eexists. split; [|split; [vm_compute; reflexivity|]]; [done|].
  apply (admin_tables_well_formed to_ascii_lowercase bytes_le fx_api_config fx_mail_settings fx_admin_config fx_dns fx_retention
    true false (λ _ _, [])); reflexivity.
Defined.
(** A day later Eve's list of organizations moves the expiry of her session. *)
Definition fx_next_day : World unit := mkWorld _ fx_day 1 (λ _, inr []) (λ _, inr None) (λ _, inr 200%N) None.
Lemma reading_changes_nothing_witness :
  let d' := (fx_serve fx_next_day (fx_eve GET !"/organizations") (OrganizationsIndex (mkPaginationParams None None)) fx_tenants).2 in
  d' ≠ fx_tenants ∧ ∃ s, live_row fx_tenants fx_day !"eve" s ∧ d' = session_used fx_admin_config fx_day (as_id s) fx_tenants.
Proof.
  intros d'. assert (d' ≠ fx_tenants) as Hne.
  { intros E. apply (f_equal (λ d, map (λ s, as_expires_at s.2) (map_to_list (ac_sessions (accounts d))))) in E. vm_compute in E. discriminate. }
  split; [exact Hne|].
  destruct (reading_changes_nothing to_ascii_lowercase bytes_le fx_api_config fx_mail_settings fx_admin_config fx_dns fx_retention
    true false (λ _ _, []) fx_next_day (fx_eve GET !"/organizations") (OrganizationsIndex (mkPaginationParams None None)) fx_tenants
    ltac:(vm_compute; reflexivity) eq_refl) as [E|[(key & k & E & _)|(s & _ & Hs & E)]].
  - by destruct Hne.
  - vm_compute in E. discriminate.
  - exists s. split; [exact Hs|exact E].
Defined.

(** What her request to acme comes to. *)
Lemma unreached_organization_untouched_witness :
  let rq := fx_eve DELETE !"/organizations/acme" in
  let d' := fx_serve fx_world rq (OrganizationsDestroy !"acme") fx_tenants in
  restrict (λ o, (o =? 1)%N) (tenancy d'.2) = restrict (λ o, (o =? 1)%N) (tenancy fx_tenants) ∧ ∃ e, d'.1 = inl e.
Proof.
  cbv zeta. edestruct (unreached_organization_untouched to_ascii_lowercase bytes_le fx_api_config fx_mail_settings fx_admin_config fx_dns fx_retention
    true false (λ _ _, []) fx_world (fx_eve DELETE !"/organizations/acme") (OrganizationsDestroy !"acme") fx_tenants fx_acme) as [H1 H2].
  - exact fx_tenants_wf.
  - vm_compute. reflexivity.
  - vm_compute. reflexivity.
  - assert (E : pt_organizations (tables fx_tenants) = [fx_acme]) by (vm_compute; reflexivity). rewrite E. by apply list_elem_of_singleton.
  - apply eve_does_not_reach; vm_compute; reflexivity.
  - split; [exact H1|]. apply H2. vm_compute. reflexivity.
Defined.

(** The middleware looks the organization up under the segment as it is written, the
    handler under the decoded one.  A user without any role creates an organization
    whose permalink decodes to that of another tenant, becomes its owner, and deletes
    the other tenant's organization, which the request does not reach. *)
Theorem encoded_permalink_escapes :
  let rq := fx_eve DELETE !"/organizations/ac%6De" in
  let d' := fx_serve fx_world rq (OrganizationsDestroy !"acme") fx_lookalike in
  deployment_wf to_ascii_lowercase fx_lookalike ∧ routed rq (OrganizationsDestroy !"acme") = true ∧
  fx_acme ∈ pt_organizations (tables fx_lookalike) ∧ ¬ reaches fx_admin_config fx_lookalike 0 rq (org_id fx_acme) ∧
  is_Some (outcome d') ∧ fx_acme ∉ pt_organizations (tables d'.2).
Proof.
  cbv zeta. split; [apply serve_wf, fx_tenants_wf|]. split; [vm_compute; reflexivity|].
  assert (E : pt_organizations (tables fx_lookalike) = [fx_acme; mkOrganization 2 !"2" !"Eve" !"ac%6De" false]) by (vm_compute; reflexivity).
  split; [rewrite E; apply list_elem_of_here|]. split; [apply eve_does_not_reach; vm_compute; reflexivity|]. split; [vm_compute; by eexists|].
  set (l := pt_organizations _). assert (El : l = [mkOrganization 2 !"2" !"Eve" !"ac%6De" false]) by (vm_compute; reflexivity).
  rewrite El, list_elem_of_singleton. discriminate.
Qed.
