(* ===== verification/ServerDb.v ===== *)
(** * ServerDb: the tables of the server-token API

    Message streams, subscriptions, campaigns, templates and layouts: the rows, and
    every statement of [camelmailer-db/src/pg_store.rs] on them.  The tenant of a
    transaction is the server of the token; row-level security hides the rows of
    others, and the tables without it name the server in the statement. *)

From S2P Require Import Prelude RustStr Net Model SendLimit Message MemoryStore Queue MailDb Dkim Worker Webhooks PgSink Housekeeping PgStore Compose ApiSend.
From S2P Require Import Auth AuthStore AuthPg AppMailer AdminStore AdminPg Workspace AuthApi Authorize AdminApi Template.

(** ** Rows *)

Record Subscription := mkSubscription {
  sub_id : Id; sub_server_id : Id; sub_stream_id : Id; sub_address : bytes; sub_status : bytes; sub_created_at : datetime }.
Record NewStream := mkNewStream {
  nst_server_id : Id; nst_name : bytes; nst_permalink : bytes; nst_stream_type : bytes; nst_ip_pool_id : option Id }.
Record Campaign := mkCampaign {
  cmp_id : Id;
  cmp_server_id : Id;
  cmp_stream_id : Id;
  cmp_name : option bytes;
  cmp_subject : option bytes;
  cmp_from_address : option bytes;
  cmp_html_body : option bytes;
  cmp_text_body : option bytes;
  cmp_status : bytes;
  cmp_total : Z;
  cmp_sent : Z;
  cmp_scheduled_at : option datetime;
  cmp_created_at : datetime;
  cmp_completed_at : option datetime;
}.
#[export] Instance eta_Campaign : Eta Campaign := λ c,
  mkCampaign (cmp_id c) (cmp_server_id c) (cmp_stream_id c) (cmp_name c) (cmp_subject c) (cmp_from_address c) (cmp_html_body c)
    (cmp_text_body c) (cmp_status c) (cmp_total c) (cmp_sent c) (cmp_scheduled_at c) (cmp_created_at c) (cmp_completed_at c).
Record NewCampaign := mkNewCampaign {
  nc_server_id : Id;
  nc_stream_id : Id;
  nc_name : option bytes;
  nc_subject : option bytes;
  nc_from_address : option bytes;
  nc_html_body : option bytes;
  nc_text_body : option bytes;
  nc_total : Z;
  nc_status : bytes;
  nc_scheduled_at : option datetime;
}.
(** [None] leaves a column alone, [Some None] clears it. *)
Record CampaignUpdate := mkCampaignUpdate {
  cgu_name : option (option bytes);
  cgu_subject : option (option bytes);
  cgu_from_address : option (option bytes);
  cgu_html_body : option (option bytes);
  cgu_text_body : option (option bytes);
  cgu_scheduled_at : option (option datetime);
  cgu_status : option bytes;
  cgu_total : option Z;
}.
Definition campaign_update_default : CampaignUpdate := mkCampaignUpdate None None None None None None None None.
Record CampaignStats := mkCampaignStats {
  cst_total : Z; cst_sent : Z; cst_delivered : Z; cst_failed : Z; cst_opened : Z; cst_clicked : Z; cst_unsubscribed : Z }.

Record TemplateRow := mkTemplateRow {
  tpl_id : Id;
  tpl_uuid : bytes;
  tpl_server_id : Id;
  tpl_name : bytes;
  tpl_permalink : bytes;
  tpl_subject : option bytes;
  tpl_html_body : option bytes;
  tpl_text_body : option bytes;
  tpl_archived : bool;
  tpl_layout_id : option Id;
}.
#[export] Instance eta_TemplateRow : Eta TemplateRow := λ t,
  mkTemplateRow (tpl_id t) (tpl_uuid t) (tpl_server_id t) (tpl_name t) (tpl_permalink t) (tpl_subject t) (tpl_html_body t)
    (tpl_text_body t) (tpl_archived t) (tpl_layout_id t).
Record Layout := mkLayout {
  lay_id : Id;
  lay_uuid : bytes;
  lay_server_id : Id;
  lay_name : bytes;
  lay_permalink : bytes;
  lay_html_wrapper : bytes;
  lay_text_wrapper : option bytes;
}.
#[export] Instance eta_Layout : Eta Layout := λ l,
  mkLayout (lay_id l) (lay_uuid l) (lay_server_id l) (lay_name l) (lay_permalink l) (lay_html_wrapper l) (lay_text_wrapper l).

Inductive ServerTable := Subscriptions | Campaigns | Templates | Layouts | CampaignMessages.
#[export] Instance ServerTable_eq_dec : EqDecision ServerTable.
Proof. solve_decision. Defined.

(** The deployment, the tables of this file, and the [campaign_id] of messages.  The
    [logo] and its type are columns of [layouts]. *)
Record ServerDb := mkServerDb {
  sd_deployment : Deployment;
  sd_campaigns : list Campaign;
  sd_message_campaigns : gmap Z Id;
  sd_templates : list TemplateRow;
  sd_layouts : list Layout;
  sd_logos : gmap Id (bytes * bytes);
  sd_sequence : ServerTable → Id;
  sd_failing : Verb → ServerTable → bool;
}.
#[export] Instance eta_ServerDb : Eta ServerDb := λ s,
  mkServerDb (sd_deployment s) (sd_campaigns s) (sd_message_campaigns s) (sd_templates s) (sd_layouts s) (sd_logos s) (sd_sequence s)
    (sd_failing s).

(** The id and the time a row of [subscriptions] got when it was inserted, the time of
    a suppression, and the uuids of new rows. *)
Class AudienceCrates := {
  subscription_id : Id → Id → bytes → Id;
  subscription_created_at : Id → Id → bytes → datetime;
  suppression_created_at : Suppression → datetime;
  server_row_uuid : ServerTable → Id → bytes;
}.

(** ** Statements *)

Definition sd_query {A} (table : ServerTable) (rows : ServerDb → A) (s : ServerDb) : SRes A * ServerDb :=
  (if sd_failing s Select table then inl OtherError else inr (rows s), s).
Definition sd_statement {A} (verb : Verb) (table : ServerTable) (f : ServerDb → SRes A * ServerDb) (s : ServerDb) : SRes A * ServerDb :=
  if sd_failing s verb table then (inl OtherError, s) else f s.
(** An insertion draws its id also when a constraint refuses the row. *)
Definition sd_insertion {A} (table : ServerTable) (f : Id → ServerDb → SRes A * ServerDb) : ServerDb → SRes A * ServerDb :=
  sd_statement Insert table (λ s,
    f (sd_sequence s table) (s <| sd_sequence := λ t, if decide (t = table) then (sd_sequence s t + 1)%N else sd_sequence s t |>)).
(** A statement on the tables of the deployment. *)
Definition on_deployment {A} (op : Deployment → A * Deployment) (s : ServerDb) : A * ServerDb :=
  let '(a, d) := op (sd_deployment s) in (a, s <| sd_deployment := d |>).
Definition sd_mail (s : ServerDb) : MailDb := mail (sd_deployment s).
Definition sd_on_mail (f : MailDb → MailDb) (s : ServerDb) : ServerDb := s <| sd_deployment := on_mail f (sd_deployment s) |>.
Definition sd_streams (s : ServerDb) : list MessageStream := pt_streams (tables (sd_deployment s)).
(** [as i32]. *)
Definition as_i32 (z : Z) : Z := ((z + 2 ^ 31) mod 2 ^ 32 - 2 ^ 31)%Z.

Section Statements.
Context `{ORD : !HashOrder, ADM : !AdminCrates, AUD : !AudienceCrates}.
Implicit Types (s : ServerDb) (server_id stream_id id : Id).

(** *** Streams *)

Definition pg_list_streams server_id : Deployment → SRes (list MessageStream) * Deployment :=
  query Streams (λ d, stable_sort (λ a b, str_id a <=? str_id b)%N (List.filter (λ m, str_server_id m =? server_id)%N (pt_streams (tables d)))).
Definition pg_stream_by_permalink server_id (permalink : bytes) : Deployment → SRes (option MessageStream) * Deployment :=
  query Streams (λ d, List.find (λ m, (str_server_id m =? server_id)%N && (str_permalink m =b permalink)) (pt_streams (tables d))).
Definition pool_exists (d : Deployment) (pool : option Id) : bool :=
  from_option (λ p, existsb (λ x, (ipp_id x =? p)%N) (dp_ip_pools d)) true pool.
Definition stream_types : list bytes := [!"transactional"; !"broadcast"; !"inbound"].
Definition pg_create_stream (new : NewStream) : Deployment → SRes MessageStream * Deployment :=
  insertion Streams (λ id d,
    let row := mkMessageStream id (row_uuid Streams id) (nst_server_id new) (nst_name new) (nst_permalink new) (nst_stream_type new) false
                 (nst_ip_pool_id new) in
    if negb (has_server (nst_server_id new) d && pool_exists d (nst_ip_pool_id new) && one_of stream_types (nst_stream_type new))
    then refused OtherError d
    else if existsb (λ m, (str_server_id m =? nst_server_id new)%N && (str_permalink m =b nst_permalink new)) (pt_streams (tables d))
    then refused (taken Streams) d
    else ok row (on_tables (λ t, t <| pt_streams := pt_streams t ++ [row] |>) d)).
Definition pg_update_stream (stream : MessageStream) : Deployment → SRes MessageStream * Deployment :=
  statement Update Streams (λ d,
    if negb (pool_exists d (str_ip_pool_id stream) && one_of stream_types (str_stream_type stream))
       && existsb (λ m, (str_id m =? str_id stream)%N) (pt_streams (tables d))
    then refused OtherError d
    else ok stream (on_tables (λ t, t <| pt_streams := modify (λ m, str_id m =? str_id stream)%N
      (λ m, m <| str_name := str_name stream |> <| str_stream_type := str_stream_type stream |> <| str_archived := str_archived stream |>
              <| str_ip_pool_id := str_ip_pool_id stream |>) (pt_streams t) |>) d)).

(** *** Subscriptions *)

Definition subscription_row server_id stream_id (address status : bytes) : Subscription :=
  mkSubscription (subscription_id server_id stream_id address) server_id stream_id address status
    (subscription_created_at server_id stream_id address).
Definition subscriptions_of server_id stream_id s : list Subscription :=
  stable_sort (λ a b, sub_id a <=? sub_id b)%N
    (omap (λ '((sid, st, address), status), if (sid =? server_id)%N && (st =? stream_id)%N
                                           then Some (subscription_row sid st address status) else None)
       (hash_order (map_to_list (db_subscriptions (sd_mail s))))).
Definition pg_list_subscriptions server_id stream_id : ServerDb → SRes (list Subscription) * ServerDb :=
  sd_query Subscriptions (subscriptions_of server_id stream_id).
Definition audience_exists server_id stream_id s : bool :=
  has_server server_id (sd_deployment s) && existsb (λ m, (str_id m =? stream_id)%N) (sd_streams s).
Definition pg_upsert_subscription server_id stream_id (address status : bytes) : ServerDb → SRes Subscription * ServerDb :=
  sd_statement Insert Subscriptions (λ s,
    if negb (audience_exists server_id stream_id s && one_of [!"subscribed"; !"unsubscribed"] status) then (inl OtherError, s)
    else (inr (subscription_row server_id stream_id address status), sd_on_mail (set_subscription server_id stream_id address status) s)).
Definition pg_remove_subscription server_id stream_id (address : bytes) : ServerDb → SRes bool * ServerDb :=
  sd_statement Delete Subscriptions (λ s,
    (inr (bool_decide (is_Some (db_subscriptions (sd_mail s) !! (server_id, stream_id, address)))),
     sd_on_mail (λ d, d <| db_subscriptions := delete (server_id, stream_id, address) (db_subscriptions d) |>) s)).
(** The suppression and the subscription, in one transaction. *)
Definition pg_record_complaint server_id stream_id (address : bytes) : ServerDb → SRes Subscription * ServerDb :=
  sd_statement Insert Subscriptions (λ s,
    if negb (audience_exists server_id stream_id s) then (inl OtherError, s)
    else (inr (subscription_row server_id stream_id address !"unsubscribed"), sd_on_mail (record_complaint server_id stream_id address) s)).

(** *** Campaigns *)

Definition campaign_statuses : list bytes := [!"draft"; !"scheduled"; !"sending"; !"sent"; !"failed"; !"canceled"].
Definition is_campaign server_id id (c : Campaign) : bool := (cmp_server_id c =? server_id)%N && (cmp_id c =? id)%N.
Definition pg_create_campaign (now : datetime) (new : NewCampaign) : ServerDb → SRes Campaign * ServerDb :=
  sd_insertion Campaigns (λ id s,
    let row := mkCampaign id (nc_server_id new) (nc_stream_id new) (nc_name new) (nc_subject new) (nc_from_address new) (nc_html_body new)
                 (nc_text_body new) (nc_status new) (as_i32 (nc_total new)) 0 (nc_scheduled_at new) now None in
    if negb (audience_exists (nc_server_id new) (nc_stream_id new) s && one_of campaign_statuses (nc_status new)) then (inl OtherError, s)
    else (inr row, s <| sd_campaigns := sd_campaigns s ++ [row] |>)).
Definition pg_get_campaign server_id id : ServerDb → SRes (option Campaign) * ServerDb :=
  sd_query Campaigns (λ s, List.find (is_campaign server_id id) (sd_campaigns s)).
Definition newest_first : list Campaign → list Campaign := stable_sort (λ a b, cmp_id b <=? cmp_id a)%N.
Definition pg_list_campaigns server_id stream_id : ServerDb → SRes (list Campaign) * ServerDb :=
  sd_query Campaigns (λ s, newest_first (List.filter (λ c, (cmp_server_id c =? server_id)%N && (cmp_stream_id c =? stream_id)%N) (sd_campaigns s))).
(** [ORDER BY created_at DESC, id DESC] *)
Definition pg_list_server_campaigns server_id : ServerDb → SRes (list Campaign) * ServerDb :=
  sd_query Campaigns (λ s,
    stable_sort (λ a b, (cmp_created_at b <? cmp_created_at a) || ((cmp_created_at b =? cmp_created_at a) && (cmp_id b <=? cmp_id a)%N))%Z
      (List.filter (λ c, cmp_server_id c =? server_id)%N (sd_campaigns s))).
Definition updated_campaign (u : CampaignUpdate) (c : Campaign) : Campaign :=
  c <| cmp_name := from_option id (cmp_name c) (cgu_name u) |> <| cmp_subject := from_option id (cmp_subject c) (cgu_subject u) |>
    <| cmp_from_address := from_option id (cmp_from_address c) (cgu_from_address u) |>
    <| cmp_html_body := from_option id (cmp_html_body c) (cgu_html_body u) |>
    <| cmp_text_body := from_option id (cmp_text_body c) (cgu_text_body u) |>
    <| cmp_scheduled_at := from_option id (cmp_scheduled_at c) (cgu_scheduled_at u) |>
    <| cmp_status := from_option id (cmp_status c) (cgu_status u) |>
    <| cmp_total := from_option as_i32 (cmp_total c) (cgu_total u) |>.
Definition has_updates (u : CampaignUpdate) : bool :=
  bool_decide (is_Some (cgu_name u)) || bool_decide (is_Some (cgu_subject u)) || bool_decide (is_Some (cgu_from_address u))
  || bool_decide (is_Some (cgu_html_body u)) || bool_decide (is_Some (cgu_text_body u)) || bool_decide (is_Some (cgu_scheduled_at u))
  || bool_decide (is_Some (cgu_status u)) || bool_decide (is_Some (cgu_total u)).
(** The status of the row is not looked at. *)
Definition pg_update_campaign server_id id (u : CampaignUpdate) : ServerDb → SRes (option Campaign) * ServerDb :=
  if negb (has_updates u) then pg_get_campaign server_id id
  else sd_statement Update Campaigns (λ s,
    if negb (from_option (one_of campaign_statuses) true (cgu_status u)) && existsb (is_campaign server_id id) (sd_campaigns s) then (inl OtherError, s)
    else
      let rows := modify (is_campaign server_id id) (updated_campaign u) (sd_campaigns s) in
      (inr (List.find (is_campaign server_id id) rows), s <| sd_campaigns := rows |>)).
Definition is_due server_id (now : datetime) (c : Campaign) : bool :=
  (cmp_server_id c =? server_id)%N && (cmp_status c =b !"scheduled") && from_option (λ at_, at_ <=? now)%Z false (cmp_scheduled_at c).
(** One statement flips the due rows and returns them. *)
Definition pg_claim_due_campaigns server_id (now : datetime) : ServerDb → SRes (list Campaign) * ServerDb :=
  sd_statement Update Campaigns (λ s,
    let claim c := c <| cmp_status := !"sending" |> in
    (inr (map claim (List.filter (is_due server_id now) (sd_campaigns s))),
     s <| sd_campaigns := modify (is_due server_id now) claim (sd_campaigns s) |>)).
Definition pg_set_campaign_progress server_id id (sent : Z) (status : bytes) (completed : option datetime) : ServerDb → SRes unit * ServerDb :=
  sd_statement Update Campaigns (λ s,
    (inr tt, s <| sd_campaigns := modify (is_campaign server_id id)
      (λ c, c <| cmp_sent := as_i32 sent |> <| cmp_status := status |> <| cmp_completed_at := completed |>) (sd_campaigns s) |>)).
(** The message and, when it is one, its queue row, which becomes bulk. *)
Definition pg_set_message_campaign server_id (message_id : Z) (campaign_id : Id) : ServerDb → SRes unit * ServerDb :=
  sd_statement Update CampaignMessages (λ s,
    if existsb (λ r, (sg_server_id (MailDb.stored r) =? server_id)%N && (sg_id (MailDb.stored r) =? message_id)%Z) (db_messages (sd_mail s))
    then
      (inr tt, sd_on_mail (λ d, d <| db_queue := mkQueueTable
                                       (map (λ q, if (q_message_id q =? message_id)%Z && (q_server_id q =? server_id)%N then q <| q_bulk := true |> else q)
                                          (qt_rows (db_queue d))) (qt_next (db_queue d)) |>)
                 (s <| sd_message_campaigns := <[message_id := campaign_id]> (sd_message_campaigns s) |>))
    else (inr tt, s)).
Definition attributed server_id campaign_id s (message_id : Z) : bool :=
  bool_decide (sd_message_campaigns s !! message_id = Some campaign_id)
  && existsb (λ r, (sg_server_id (MailDb.stored r) =? server_id)%N && (sg_id (MailDb.stored r) =? message_id)%Z) (db_messages (sd_mail s)).
Definition campaign_stats_of server_id (c : Campaign) s : CampaignStats :=
  let rows := List.filter (λ r, attributed server_id (cmp_id c) s (sg_id (MailDb.stored r))) (db_messages (sd_mail s)) in
  let count P := Z.of_nat (length (List.filter P rows)) in
  let distinct ids := Z.of_nat (length (remove_dups (List.filter (attributed server_id (cmp_id c) s) ids))) in
  let activity := db_activity (sd_mail s) in
  mkCampaignStats (cmp_total c) (cmp_sent c)
    (count (λ r, (sg_status (MailDb.stored r) =b !"Sent") && negb (sg_held (MailDb.stored r))))
    (count (λ r, one_of [!"Bounced"; !"HardFail"] (sg_status (MailDb.stored r)) || sg_bounce (MailDb.stored r)))
    (distinct (omap (λ '(sid, message_id, _, _), if (sid =? server_id)%N then Some message_id else None) (act_loads activity)))
    (distinct (omap (λ '(sid, link_id, _, _),
       if (sid =? server_id)%N
       then (λ l : Z * Id * Z * bytes, l.1.2) <$> List.find (λ l : Z * Id * Z * bytes, (l.1.1.1 =? link_id)%Z && (l.1.1.2 =? server_id)%N) (act_links activity)
       else None) (act_link_clicks activity)))
    (Z.of_nat (length (List.filter (λ x, (sp_server_id x =? server_id)%N && bool_decide (sp_stream_id x = Some (cmp_stream_id c))
                                        && one_of [!"unsubscribe"; !"complaint"] (sp_type x) && (cmp_created_at c <=? suppression_created_at x)%Z)
                         (db_suppressions (sd_mail s))))).
Definition pg_campaign_stats server_id id : ServerDb → SRes CampaignStats * ServerDb :=
  sd_query Campaigns (λ s, match List.find (is_campaign server_id id) (sd_campaigns s) with
                           | Some c => campaign_stats_of server_id c s
                           | None => mkCampaignStats 0 0 0 0 0 0 0
                           end).
(** The tenants of the scheduler. *)
Definition pg_list_all_servers : Deployment → SRes (list Server) * Deployment :=
  query Servers (λ d, stable_sort (λ a b, srv_id a <=? srv_id b)%N (pt_servers (tables d))).

(** *** Templates and layouts *)

Record NewTemplate := mkNewTemplate {
  ntp_server_id : Id; ntp_name : bytes; ntp_permalink : bytes; ntp_subject : option bytes; ntp_html_body : option bytes;
  ntp_text_body : option bytes; ntp_layout_id : option Id }.
Record NewLayout := mkNewLayout {
  nly_server_id : Id; nly_name : bytes; nly_permalink : bytes; nly_html_wrapper : bytes; nly_text_wrapper : option bytes }.

Definition permalink_taken : StoreError := Conflict !"Permalink has already been taken".
Definition layout_exists s (layout_id : option Id) : bool := from_option (λ l, existsb (λ x, lay_id x =? l)%N (sd_layouts s)) true layout_id.
Definition pg_list_templates server_id : ServerDb → SRes (list TemplateRow) * ServerDb :=
  sd_query Templates (λ s, stable_sort (λ a b, tpl_id a <=? tpl_id b)%N (List.filter (λ t, tpl_server_id t =? server_id)%N (sd_templates s))).
Definition pg_template_by_permalink server_id (permalink : bytes) : ServerDb → SRes (option TemplateRow) * ServerDb :=
  sd_query Templates (λ s, List.find (λ t, (tpl_server_id t =? server_id)%N && (tpl_permalink t =b permalink)) (sd_templates s)).
Definition pg_create_template (new : NewTemplate) : ServerDb → SRes TemplateRow * ServerDb :=
  sd_insertion Templates (λ id s,
    let row := mkTemplateRow id (server_row_uuid Templates id) (ntp_server_id new) (ntp_name new) (ntp_permalink new) (ntp_subject new)
                 (ntp_html_body new) (ntp_text_body new) false (ntp_layout_id new) in
    if negb (has_server (ntp_server_id new) (sd_deployment s) && layout_exists s (ntp_layout_id new)) then (inl OtherError, s)
    else if existsb (λ t, (tpl_server_id t =? ntp_server_id new)%N && (tpl_permalink t =b ntp_permalink new)) (sd_templates s)
    then (inl permalink_taken, s)
    else (inr row, s <| sd_templates := sd_templates s ++ [row] |>)).
Definition pg_update_template (template : TemplateRow) : ServerDb → SRes TemplateRow * ServerDb :=
  sd_statement Update Templates (λ s,
    if negb (layout_exists s (tpl_layout_id template)) && existsb (λ t, tpl_id t =? tpl_id template)%N (sd_templates s) then (inl OtherError, s)
    else (inr template, s <| sd_templates := modify (λ t, tpl_id t =? tpl_id template)%N
      (λ t, t <| tpl_name := tpl_name template |> <| tpl_subject := tpl_subject template |> <| tpl_html_body := tpl_html_body template |>
              <| tpl_text_body := tpl_text_body template |> <| tpl_archived := tpl_archived template |>
              <| tpl_layout_id := tpl_layout_id template |>) (sd_templates s) |>)).

Definition pg_list_layouts server_id : ServerDb → SRes (list Layout) * ServerDb :=
  sd_query Layouts (λ s, stable_sort (λ a b, lay_id a <=? lay_id b)%N (List.filter (λ l, lay_server_id l =? server_id)%N (sd_layouts s))).
Definition pg_layout_by_permalink server_id (permalink : bytes) : ServerDb → SRes (option Layout) * ServerDb :=
  sd_query Layouts (λ s, List.find (λ l, (lay_server_id l =? server_id)%N && (lay_permalink l =b permalink)) (sd_layouts s)).
Definition is_layout server_id id (l : Layout) : bool := (lay_server_id l =? server_id)%N && (lay_id l =? id)%N.
Definition pg_layout_by_id server_id layout_id : ServerDb → SRes (option Layout) * ServerDb :=
  sd_query Layouts (λ s, List.find (is_layout server_id layout_id) (sd_layouts s)).
Definition pg_create_layout (new : NewLayout) : ServerDb → SRes Layout * ServerDb :=
  sd_insertion Layouts (λ id s,
    let row := mkLayout id (server_row_uuid Layouts id) (nly_server_id new) (nly_name new) (nly_permalink new) (nly_html_wrapper new)
                 (nly_text_wrapper new) in
    if negb (has_server (nly_server_id new) (sd_deployment s)) then (inl OtherError, s)
    else if existsb (λ l, (lay_server_id l =? nly_server_id new)%N && (lay_permalink l =b nly_permalink new)) (sd_layouts s)
    then (inl permalink_taken, s)
    else (inr row, s <| sd_layouts := sd_layouts s ++ [row] |>)).
Definition pg_update_layout (layout : Layout) : ServerDb → SRes Layout * ServerDb :=
  sd_statement Update Layouts (λ s, (inr layout, s <| sd_layouts := modify (λ l, lay_id l =? lay_id layout)%N
    (λ l, l <| lay_name := lay_name layout |> <| lay_html_wrapper := lay_html_wrapper layout |> <| lay_text_wrapper := lay_text_wrapper layout |>)
    (sd_layouts s) |>)).
(** [ON DELETE SET NULL] of [templates.layout_id]. *)
Definition pg_delete_layout server_id layout_id : ServerDb → SRes bool * ServerDb :=
  sd_statement Delete Layouts (λ s,
    if existsb (is_layout server_id layout_id) (sd_layouts s)
    then (inr true, s <| sd_layouts := discard (is_layout server_id layout_id) (sd_layouts s) |> <| sd_logos := delete layout_id (sd_logos s) |>
           <| sd_templates := modify (λ t, bool_decide (tpl_layout_id t = Some layout_id)) (λ t, t <| tpl_layout_id := None |>) (sd_templates s) |>)
    else (inr false, s)).
Definition pg_set_layout_logo server_id layout_id (data content_type : bytes) : ServerDb → SRes unit * ServerDb :=
  sd_statement Update Layouts (λ s,
    (inr tt, if existsb (is_layout server_id layout_id) (sd_layouts s) then s <| sd_logos := <[layout_id := (data, content_type)]> (sd_logos s) |> else s)).
Definition pg_layout_logo (layout_uuid : bytes) : ServerDb → SRes (option (bytes * bytes)) * ServerDb :=
  sd_query Layouts (λ s, l ← List.find (λ l, lay_uuid l =b layout_uuid) (sd_layouts s); sd_logos s !! lay_id l).
End Statements.
