(* ===== verification/ServerApi.v ===== *)
(** * ServerApi: streams, subscribers, templates and campaigns over HTTP

    The handlers of the server-token API in [camelmailer-api/src/server_api.rs] for
    message streams, their subscribers, templates and layouts, templated sends,
    broadcast campaigns, and the scheduler.  A handler awaits the database between its
    statements: [others n] is what other requests, workers and schedulers do to it
    before the [n]-th of them.  A spawned campaign is an [Expansion], the statements
    that are left of [expand_campaign], so that several of them and the requests
    interleave statement by statement. *)

From S2P Require Import Prelude RustStr Net Model SendLimit Message MemoryStore Queue MailDb Lifecycle Dkim Worker Webhooks PgSink Housekeeping PgStore Compose ApiSend.
From S2P Require Import Auth AuthStore AuthPg AppMailer AdminStore AdminPg Workspace AuthApi Authorize AdminApi Template ServerDb.

Definition split_once_str (sep s : bytes) : option (bytes * bytes) := i ← find_sub sep s; Some (take i s, drop (i + length sep) s).
Definition ELLIPSIS : bytes := map ascii_of_N [226; 128; 166]%N.
(** The text of a failing query is the driver's. *)
Definition STORAGE_ERROR : bytes := !"storage error".

Section ServerApi.
Context `{ORD : !HashOrder, CASE : !UnicodeCase, CRA : !Crates, PAY : !Payloads, MB : !MailBuilder, API : !ApiCrates SendMessage}
  `{AUTH : !AuthCrates, ADM : !AdminCrates, JS : !AdminJson, AUD : !AudienceCrates} (sql_lower : bytes → bytes) (api : ApiConfig).

(** The sending tables of the deployment. *)
Definition sending (s : ServerDb) : PgStore := refreshed (dp_store (sd_deployment s)).
Definition with_store (s : ServerDb) (store : PgStore) : ServerDb := s <| sd_deployment := (sd_deployment s) <| dp_store := store |> |>.

(** ** Expansion of a campaign *)

Definition CAMPAIGN_RECIPIENT_CAP : nat := 1000.
Definition CAMPAIGN_BATCH_SIZE : nat := 200.
Definition campaign_message (from subject html_body text_body : option bytes) (address permalink : bytes) : SendMessage :=
  mkSendMessage (AString <$> from) [AString address] [] [] [] subject html_body text_body [] [] None None (Some permalink).
Definition subscribed_addresses (l : list Subscription) : list bytes := map sub_address (List.filter (λ x, sub_status x =b !"subscribed") l).

(** The statements [expand_campaign] has before it: the stream of a claimed campaign
    and the list of subscribers; for every address the reads of [prepare_send], the
    transaction that stores, and the attribution; the progress after a batch and at
    the end. *)
Inductive Command :=
| Resolve
| ListSubscribers
| Prepare (address : bytes)
| StoreMessages (messages : list SendPlanMessage)
| Attribute (message_id : Z)
| Progress (status : bytes) (completed : bool).
Record Expansion := mkExpansion { ex_server : Server; ex_campaign : Campaign; ex_permalink : bytes; ex_sent : Z; ex_commands : list Command }.
#[export] Instance eta_Expansion : Eta Expansion := λ e,
  mkExpansion (ex_server e) (ex_campaign e) (ex_permalink e) (ex_sent e) (ex_commands e).

(** [chunks(n)]; [fuel] is the length of the list. *)
Fixpoint chunks {A} (fuel n : nat) (l : list A) : list (list A) :=
  match fuel, l with
  | S fuel, _ :: _ => take n l :: chunks fuel n (drop n l)
  | _, _ => []
  end.
Definition expansion_commands (addresses : list bytes) : list Command :=
  flat_map (λ batch, map Prepare batch ++ [Progress !"sending" false]) (chunks (length addresses) CAMPAIGN_BATCH_SIZE addresses)
  ++ [Progress !"sent" true].
(** [data.get("message_id").and_then(Value::as_i64)] *)
Definition message_id_of (data : Value) : option Z :=
  match data with
  | VObject members => match obj_get members !"message_id" with Some (VNumber printed) => parse_i64 printed | _ => None end
  | _ => None
  end.
Definition store_messages (server_id : Id) (messages : list SendPlanMessage) (s : ServerDb) : Api Value * ServerDb :=
  let '(response, store) := store_send_plan (sending s) server_id [PlanMessages messages] None in
  (response ← response; single_send_json response, with_store s store).

(** The next statement; [None] when the task is over. *)
Definition expansion_step (now : datetime) (nonce : Z) (e : Expansion) (s : ServerDb) : option Expansion * ServerDb :=
  let server_id := srv_id (ex_server e) in
  let campaign := ex_campaign e in
  match ex_commands e with
  | [] => (None, s)
  | Resolve :: _ =>
      let '(streams, s) := on_deployment (pg_list_streams server_id) s in
      (Some match List.find (λ m, str_id m =? cmp_stream_id campaign)%N (match streams with inr l => l | inl _ => [] end) with
            | Some m => e <| ex_permalink := str_permalink m |> <| ex_commands := [ListSubscribers] |>
            | None => e <| ex_commands := [Progress !"failed" true] |>
            end, s)
  | ListSubscribers :: _ =>
      let '(r, s) := pg_list_subscriptions server_id (cmp_stream_id campaign) s in
      (Some (e <| ex_commands := match r with
                                 | inr l => expansion_commands (subscribed_addresses l)
                                 | inl _ => [Progress !"failed" true]
                                 end |>), s)
  | Prepare address :: rest =>
      let message := campaign_message (cmp_from_address campaign) (cmp_subject campaign) (cmp_html_body campaign) (cmp_text_body campaign)
                       address (ex_permalink e) in
      (Some (e <| ex_commands := match prepare_send sql_lower api (sending s) now nonce (ex_server e) message 0 with
                                 | inr messages => StoreMessages messages :: rest
                                 | inl _ => rest
                                 end |>), s)
  | StoreMessages messages :: rest =>
      let '(r, s) := store_messages server_id messages s in
      (Some match r with
            | inr data => e <| ex_sent := (ex_sent e + 1)%Z |>
                            <| ex_commands := match message_id_of data with Some id => Attribute id :: rest | None => rest end |>
            | inl _ => e <| ex_commands := rest |>
            end, s)
  | Attribute message_id :: rest =>
      (Some (e <| ex_commands := rest |>), (pg_set_message_campaign server_id message_id (cmp_id campaign) s).2)
  | Progress status completed :: rest =>
      (Some (e <| ex_commands := rest |>),
       (pg_set_campaign_progress server_id (cmp_id campaign) (ex_sent e) status (if completed then Some now else None) s).2)
  end.
Definition spawn (server : Server) (campaign : Campaign) (permalink : bytes) : Expansion :=
  mkExpansion server campaign permalink 0 [ListSubscribers].

(** [expand_campaign] when nothing else runs; [clock n] is the time of its [n]-th
    statement and a nonce. *)
Fixpoint expand_campaign (fuel : nat) (clock : nat → datetime * Z) (e : Expansion) (s : ServerDb) : option Expansion * ServerDb :=
  match fuel with
  | O => (Some e, s)
  | S fuel =>
      match expansion_step (clock 0).1 (clock 0).2 e s with
      | (Some e, s) => expand_campaign fuel (clock ∘ S) e s
      | (None, s) => (None, s)
      end
  end.

(** The pass of the scheduler over one server: the due campaigns, claimed; the tick
    then expands them one after the other. *)
Definition scheduler_claim (now : datetime) (server : Server) (s : ServerDb) : list Expansion * ServerDb :=
  let '(due, s) := pg_claim_due_campaigns (srv_id server) now s in
  (map (λ c, mkExpansion server c [] 0 [Resolve]) (match due with inr l => l | inl _ => [] end), s).

Section Requests.
Context (others : nat → ServerDb → ServerDb) (server : Server).
#[local] Abbreviation H := (Handler ServerDb Response).
Local Abbreviation sid := (srv_id server).

(** The [n]-th statement, whose failure is a 500. *)
Definition step {A} (n : nat) (op : ServerDb → SRes A * ServerDb) : Handler ServerDb A := λ s,
  let '(r, s) := op (others n s) in (match r with inl _ => inl internal_error | inr a => inr a end, s).
(** An insertion whose conflict is a 422, and a statement whose failure is dropped. *)
Definition insert_step {A} (n : nat) (op : ServerDb → SRes A * ServerDb) : Handler ServerDb A := λ s, call op (others n s).
Definition ignored_step {A} (n : nat) (op : ServerDb → SRes A * ServerDb) : Handler ServerDb unit := λ s, ignore op (others n s).
Definition attempted_step {A} (n : nat) (op : ServerDb → SRes A * ServerDb) : Handler ServerDb (SRes A) := λ s, attempt op (others n s).
Definition existing {A} (n : nat) (op : ServerDb → SRes (option A) * ServerDb) : Handler ServerDb A := r ← step n op; require not_found r.

(** ** Streams *)

Definition stream_json (m : MessageStream) : Value :=
  VObject [(!"archived", VBool (str_archived m)); (!"id", number (str_id m)); (!"ip_pool_id", number_opt (str_ip_pool_id m));
           (!"name", VString (str_name m)); (!"permalink", VString (str_permalink m)); (!"stream_type", VString (str_stream_type m));
           (!"uuid", VString (str_uuid m))].
Definition stream_response (render : Value → H) (m : MessageStream) : H := render (object !"stream" (stream_json m)).
Definition streams_index : H :=
  streams ← step 0 (on_deployment (pg_list_streams sid));
  ok_data (object !"streams" (VArray (map stream_json streams))).
Record CreateStream := mkCreateStream {
  cst_name : option bytes; cst_permalink : option bytes; cst_stream_type : option bytes; cst_ip_pool_id : option Id }.
Definition valid_stream_type (t : bytes) : Handler ServerDb unit :=
  refuse_if (negb (one_of stream_types t)) (validation_error (!"Stream type " ++ debug_str t ++ !" is not valid")).
Definition streams_create (body : CreateStream) : H :=
  name ← param !"name" (cst_name body);
  let stream_type := from_option id !"transactional" (cst_stream_type body) in
  _ ← valid_stream_type stream_type;
  let permalink := from_option id (permalink_from name) (present (cst_permalink body)) in
  stream ← insert_step 0 (on_deployment (pg_create_stream (mkNewStream sid name permalink stream_type (cst_ip_pool_id body))));
  stream_response created_data stream.
(** [resolve_stream] *)
Definition resolve_stream (n : nat) (permalink : bytes) : Handler ServerDb MessageStream :=
  existing n (on_deployment (pg_stream_by_permalink sid permalink)).
Definition stream_show (permalink : bytes) : H := stream ← resolve_stream 0 permalink; stream_response ok_data stream.
Record UpdateStream := mkUpdateStream {
  ust_name : option bytes; ust_stream_type : option bytes; ust_archived : option bool; ust_ip_pool_id : option (option Id) }.
Definition stream_update (permalink : bytes) (body : UpdateStream) : H :=
  stream ← resolve_stream 0 permalink;
  let stream := stream <| str_name := from_option id (str_name stream) (present (ust_name body)) |> in
  _ ← from_option valid_stream_type (mret tt) (ust_stream_type body);
  stream ← step 1 (on_deployment (pg_update_stream
    (stream <| str_stream_type := from_option id (str_stream_type stream) (ust_stream_type body) |>
            <| str_archived := from_option id (str_archived stream) (ust_archived body) |>
            <| str_ip_pool_id := from_option id (str_ip_pool_id stream) (ust_ip_pool_id body) |>)));
  stream_response ok_data stream.
Definition stream_archive (permalink : bytes) : H :=
  stream ← resolve_stream 0 permalink;
  stream ← step 1 (on_deployment (pg_update_stream (stream <| str_archived := true |>)));
  stream_response ok_data stream.

(** ** Subscribers *)

Definition subscription_json (x : Subscription) : Value :=
  VObject [(!"address", VString (sub_address x)); (!"created_at", VString (json_datetime (sub_created_at x))); (!"id", number (sub_id x));
           (!"status", VString (sub_status x))].
Definition subscribers_index (permalink : bytes) : H :=
  stream ← resolve_stream 0 permalink;
  subscriptions ← step 1 (pg_list_subscriptions sid (str_id stream));
  ok_data (object !"subscribers" (VArray (map subscription_json subscriptions))).
Definition subscribers_create (permalink : bytes) (address status : option bytes) : H :=
  address ← param !"address" address;
  let status := from_option id !"subscribed" status in
  _ ← refuse_if (negb (one_of [!"subscribed"; !"unsubscribed"] status))
        (validation_error (!"Subscription status " ++ debug_str status ++ !" is not valid"));
  stream ← resolve_stream 0 permalink;
  subscription ← step 1 (pg_upsert_subscription sid (str_id stream) address status);
  created_data (object !"subscriber" (subscription_json subscription)).
Definition subscribers_delete (permalink address : bytes) : H :=
  stream ← resolve_stream 0 permalink;
  removed ← step 1 (pg_remove_subscription sid (str_id stream) address);
  ok_data (object !"deleted" (VBool removed)).
(** Blanks and repetitions are skipped; [n] statements have run, [added] of them here. *)
Fixpoint import_addresses (n : nat) (stream_id : Id) (addresses seen : list bytes) (added : N) : Handler ServerDb (nat * N) :=
  match addresses with
  | [] => mret (n, added)
  | address :: addresses =>
      let address := trim address in
      if bool_decide (address = []) || one_of seen address then import_addresses n stream_id addresses seen added
      else
        _ ← step n (pg_upsert_subscription sid stream_id address !"subscribed");
        import_addresses (S n) stream_id addresses (address :: seen) (added + 1)
  end.
Definition subscribers_import (permalink : bytes) (addresses : list bytes) : H :=
  stream ← resolve_stream 0 permalink;
  '(n, added) ← import_addresses 1 (str_id stream) addresses [] 0;
  subscriptions ← step n (pg_list_subscriptions sid (str_id stream));
  ok_data (VObject [(!"added", number added); (!"total", number (N.of_nat (length subscriptions)))]).
Definition subscriber_complaint (permalink address : bytes) : H :=
  stream ← resolve_stream 0 permalink;
  subscription ← step 1 (pg_record_complaint sid (str_id stream) address);
  ok_data (object !"subscriber" (subscription_json subscription)).

(** ** Layouts *)

Definition layout_json (l : Layout) : Value :=
  VObject [(!"html_wrapper", VString (lay_html_wrapper l)); (!"id", number (lay_id l)); (!"name", VString (lay_name l));
           (!"permalink", VString (lay_permalink l)); (!"text_wrapper", vstring_opt (lay_text_wrapper l)); (!"uuid", VString (lay_uuid l))].
Definition layout_response (render : Value → H) (l : Layout) : H := render (object !"layout" (layout_json l)).
Definition wrapper_error : ApiError := validation_error !"html_wrapper must embed the body with {{{ content }}} (raw interpolation)".
Definition valid_wrapper (wrapper : bytes) : Handler ServerDb unit :=
  refuse_if (negb (bool_decide (wrapper_has_raw_content wrapper = Some true))) wrapper_error.
Definition layouts_index : H :=
  layouts ← step 0 (pg_list_layouts sid);
  ok_data (object !"layouts" (VArray (map layout_json layouts))).
Record CreateLayout := mkCreateLayout {
  cly_name : option bytes; cly_permalink : option bytes; cly_html_wrapper : option bytes; cly_text_wrapper : option bytes }.
Definition layouts_create (body : CreateLayout) : H :=
  name ← param !"name" (cly_name body);
  html_wrapper ← param !"html_wrapper" (cly_html_wrapper body);
  _ ← valid_wrapper html_wrapper;
  let permalink := from_option id (permalink_from name) (present (cly_permalink body)) in
  layout ← insert_step 0 (pg_create_layout (mkNewLayout sid name permalink html_wrapper (present (cly_text_wrapper body))));
  layout_response created_data layout.
(** [strip_prefix("data:")] and [split_once(";base64,")]. *)
Definition data_url_parts (data_url : bytes) : option (bytes * bytes) :=
  rest ← strip_prefix !"data:" data_url; split_once_str !";base64," rest.
Definition MAX_LOGO : N := 1048576.
Definition layout_logo_upload (web_protocol web_hostname permalink : bytes) (data_url : option bytes) : H :=
  data_url ← param !"data_url" data_url;
  '(content_type, b64) ← require (validation_error (!"data_url must be a base64 data: URL (data:<type>;base64," ++ ELLIPSIS ++ !")")) (data_url_parts data_url);
  data ← require (validation_error !"data_url payload is not valid base64") (b64_decode_strict b64);
  _ ← refuse_if (MAX_LOGO <? N.of_nat (length data))%N (validation_error !"logo image exceeds the 1 MB limit");
  found ← step 0 (pg_layout_by_permalink sid permalink);
  layout ← require (404%N, !"NotFound", !"Layout " ++ debug_str permalink ++ !" does not exist") found;
  _ ← step 1 (pg_set_layout_logo sid (lay_id layout) data content_type);
  ok_data (object !"url" (VString (web_protocol ++ !"://" ++ web_hostname ++ !"/assets/layouts/" ++ lay_uuid layout ++ !"/logo"))).
Definition layout_show (permalink : bytes) : H := layout ← existing 0 (pg_layout_by_permalink sid permalink); layout_response ok_data layout.
Definition layout_update (permalink : bytes) (name html_wrapper text_wrapper : option bytes) : H :=
  layout ← existing 0 (pg_layout_by_permalink sid permalink);
  _ ← from_option valid_wrapper (mret tt) (present html_wrapper);
  layout ← step 1 (pg_update_layout
    (layout <| lay_name := from_option id (lay_name layout) (present name) |>
            <| lay_html_wrapper := from_option id (lay_html_wrapper layout) (present html_wrapper) |>
            <| lay_text_wrapper := match text_wrapper with Some _ => present text_wrapper | None => lay_text_wrapper layout end |>));
  layout_response ok_data layout.
Definition layout_destroy (permalink : bytes) : H :=
  layout ← existing 0 (pg_layout_by_permalink sid permalink);
  _ ← step 1 (pg_delete_layout sid (lay_id layout));
  render_deleted.

(** ** Templates *)

Definition template_json (t : TemplateRow) : Value :=
  VObject [(!"archived", VBool (tpl_archived t)); (!"html_body", vstring_opt (tpl_html_body t)); (!"id", number (tpl_id t));
           (!"layout_id", number_opt (tpl_layout_id t)); (!"name", VString (tpl_name t)); (!"permalink", VString (tpl_permalink t));
           (!"subject", vstring_opt (tpl_subject t)); (!"text_body", vstring_opt (tpl_text_body t)); (!"uuid", VString (tpl_uuid t))].
Definition template_response (render : Value → H) (t : TemplateRow) : H := render (object !"template" (template_json t)).
Definition templates_index : H :=
  templates ← step 0 (pg_list_templates sid);
  ok_data (object !"templates" (VArray (map template_json templates))).
(** The id of a layout; an empty permalink is none. *)
Definition resolve_layout (n : nat) (permalink : bytes) : Handler ServerDb (option Id) :=
  if bool_decide (permalink = []) then mret None
  else
    found ← attempted_step n (pg_layout_by_permalink sid permalink);
    match found with
    | inr (Some layout) => mret (Some (lay_id layout))
    | inr None => fail (validation_error (!"Layout " ++ debug_str permalink ++ !" does not exist"))
    | inl _ => fail (validation_error STORAGE_ERROR)
    end.
Record CreateTemplate := mkCreateTemplate {
  ctp_name : option bytes; ctp_permalink : option bytes; ctp_subject : option bytes; ctp_html_body : option bytes; ctp_text_body : option bytes;
  ctp_layout : option bytes }.
Definition templates_create (body : CreateTemplate) : H :=
  name ← param !"name" (ctp_name body);
  let permalink := from_option id (permalink_from name) (present (ctp_permalink body)) in
  layout_id ← resolve_layout 0 (from_option id [] (ctp_layout body));
  template ← insert_step 1 (pg_create_template (mkNewTemplate sid name permalink (ctp_subject body) (ctp_html_body body) (ctp_text_body body) layout_id));
  template_response created_data template.
Definition find_template (n : nat) (permalink : bytes) : Handler ServerDb TemplateRow := existing n (pg_template_by_permalink sid permalink).
Definition template_show (permalink : bytes) : H := template ← find_template 0 permalink; template_response ok_data template.
Record UpdateTemplate := mkUpdateTemplate {
  utp_name : option bytes; utp_subject : option bytes; utp_html_body : option bytes; utp_text_body : option bytes; utp_archived : option bool;
  utp_layout : option bytes }.
Definition or_else {A} (new old : option A) : option A := match new with Some _ => new | None => old end.
Definition template_update (permalink : bytes) (body : UpdateTemplate) : H :=
  template ← find_template 0 permalink;
  layout_id ← match utp_layout body with Some layout => resolve_layout 1 layout | None => mret (tpl_layout_id template) end;
  template ← step 2 (pg_update_template
    (template <| tpl_name := from_option id (tpl_name template) (present (utp_name body)) |>
              <| tpl_subject := or_else (utp_subject body) (tpl_subject template) |>
              <| tpl_html_body := or_else (utp_html_body body) (tpl_html_body template) |>
              <| tpl_text_body := or_else (utp_text_body body) (tpl_text_body template) |>
              <| tpl_archived := from_option id (tpl_archived template) (utp_archived body) |> <| tpl_layout_id := layout_id |>));
  template_response ok_data template.
Definition template_archive (permalink : bytes) : H :=
  template ← find_template 0 permalink;
  template ← step 1 (pg_update_template (template <| tpl_archived := true |>));
  template_response ok_data template.

(** *** Rendering *)

Definition show_render_error (e : RenderError) : bytes :=
  match e with
  | UnclosedTag => !"template has an unclosed tag"
  | UnclosedSection => !"template has an unclosed section"
  | UnexpectedClose path => !"unexpected closing tag " ++ debug_str path
  | MismatchedClose expected found => !"mismatched closing tag: expected " ++ debug_str expected ++ !", found " ++ debug_str found
  | TooDeep => !"template nests sections deeper than the limit of " ++ show_N (N.of_nat MAX_DEPTH)
  | OutputTooLarge => !"rendered output exceeds the limit of " ++ show_N MAX_OUTPUT ++ !" bytes"
  end.
(** The fuel of the parser is never short ([parse_total]). *)
Definition rendered (what : bytes) (r : option (result bytes)) : Api bytes :=
  match r with
  | Some (inr out) => inr out
  | Some (inl e) => inl (validation_error (what ++ !" render failed: " ++ show_render_error e))
  | None => inl internal_error
  end.
Definition render_field (model : Value) (field : option bytes) : Api (option bytes) :=
  match field with Some source => out ← rendered !"template" (render source model); inr (Some out) | None => inr None end.
Record Rendered := mkRendered { rf_subject : option bytes; rf_html_body : option bytes; rf_text_body : option bytes }.
Definition render_template_fields (t : TemplateRow) (model : Value) : Api Rendered :=
  subject ← render_field model (tpl_subject t);
  html_body ← render_field model (tpl_html_body t);
  text_body ← render_field model (tpl_text_body t);
  inr (mkRendered subject html_body text_body).
Definition wrap (model : Value) (wrapper content : option bytes) : Api (option bytes) :=
  match wrapper, content with
  | Some wrapper, Some content => out ← rendered !"layout" (render_in_layout wrapper model content); inr (Some out)
  | _, _ => inr content
  end.
Definition wrap_in_layout (layout : Layout) (model : Value) (r : Rendered) : Api Rendered :=
  html_body ← wrap model (Some (lay_html_wrapper layout)) (rf_html_body r);
  text_body ← wrap model (lay_text_wrapper layout) (rf_text_body r);
  inr (mkRendered (rf_subject r) html_body text_body).
Definition lift_api {A} (r : Api A) : Handler ServerDb A := λ s, (r, s).
(** A layout that is gone leaves the template bare. *)
Definition render_templated (n : nat) (t : TemplateRow) (model : Value) : Handler ServerDb Rendered :=
  r ← lift_api (render_template_fields t model);
  match tpl_layout_id t with
  | None => mret r
  | Some layout_id =>
      layout ← step n (pg_layout_by_id sid layout_id);
      match layout with Some layout => lift_api (wrap_in_layout layout model r) | None => mret r end
  end.
Definition template_model (model : option Value) : Value := from_option id (VObject []) model.
Definition template_render (permalink : bytes) (model : option Value) : H :=
  template ← find_template 0 permalink;
  r ← render_templated 1 template (template_model model);
  ok_data (object !"rendered" (VObject [(!"html_body", vstring_opt (rf_html_body r)); (!"subject", vstring_opt (rf_subject r));
                                        (!"text_body", vstring_opt (rf_text_body r))])).

(** The named template over inline fields. *)
Definition template_missing (permalink : bytes) : ApiError := validation_error (!"Message template " ++ debug_str permalink ++ !" does not exist").
Definition folded (n : nat) (permalink : bytes) (model : option Value) (inline : Rendered) : Handler ServerDb Rendered :=
  found ← step n (pg_template_by_permalink sid permalink);
  template ← require (template_missing permalink) found;
  r ← render_templated (n + 1) template (template_model model);
  mret (mkRendered (or_else (rf_subject r) (rf_subject inline)) (or_else (rf_html_body r) (rf_html_body inline))
          (or_else (rf_text_body r) (rf_text_body inline))).

(** *** Sends with a template *)

Record SendWithTemplate := mkSendWithTemplate { swt_message : SendMessage; swt_template : option bytes; swt_template_model : option Value }.
Definition inline_fields (m : SendMessage) : Rendered := mkRendered (sm_subject m) (sm_html_body m) (sm_text_body m).
Definition with_fields (r : Rendered) (m : SendMessage) : SendMessage :=
  mkSendMessage (sm_from m) (sm_to m) (sm_cc m) (sm_bcc m) (sm_reply_to m) (rf_subject r) (rf_html_body r) (rf_text_body r) (sm_headers m)
    (sm_attachments m) (sm_tag m) (sm_metadata m) (sm_stream m).
Definition build_templated_message (n : nat) (body : SendWithTemplate) : Handler ServerDb SendMessage :=
  permalink ← param !"template" (swt_template body);
  r ← folded n permalink (swt_template_model body) (inline_fields (swt_message body));
  mret (with_fields r (swt_message body)).

(** A statement that reads the sending tables, and the transaction that stores. *)
Definition reading_store {A} (n : nat) (f : PgStore → Api A) : Handler ServerDb A := λ s, let s := others n s in (f (sending s), s).
Definition storing {A} (n : nat) (f : PgStore → Api A * PgStore) : Handler ServerDb A := λ s,
  let s := others n s in
  let '(r, store) := f (sending s) in (r, with_store s store).
Definition try_handler {A} (h : Handler ServerDb A) : Handler ServerDb (Api A) := λ s, let '(r, s) := h s in (inr r, s).

Definition messages_send_with_template (now : datetime) (nonce : Z) (keys : list bytes) (payload : bytes) (body : SendWithTemplate) :
    Handler ServerDb Value :=
  idempotency ← lift_api (idempotency_request now keys !"messages.send_with_template" payload);
  cached ← reading_store 0 (λ st, cached_send_operation st sid idempotency);
  match cached with
  | Some response => lift_api (single_send_json response)
  | None =>
      prepared ← try_handler (message ← build_templated_message 1 body; reading_store 3 (λ st, prepare_send sql_lower api st now nonce server message 0));
      match prepared with
      | inr messages =>
          response ← storing 4 (λ st, store_send_plan st sid [PlanMessages messages] idempotency);
          lift_api (single_send_json response)
      | inl error => reading_store 4 (λ st, reconcile_single_send_error st sid idempotency error)
      end
  end.
(** The plan of a batch: an entry that fails is an error in its place. *)
Fixpoint templated_plan (n : nat) (now : datetime) (nonce : Z) (bodies : list SendWithTemplate) (pending : Z) : Handler ServerDb (nat * list SendPlanItem) :=
  match bodies with
  | [] => mret (n, [])
  | body :: bodies =>
      outcome ← try_handler (message ← build_templated_message n body; reading_store (n + 2) (λ st, prepare_send sql_lower api st now nonce server message pending));
      match outcome with
      | inr messages =>
          let k := Z.of_nat (length messages) in
          '(n, plan) ← templated_plan (n + 3) now (nonce + k + 1) bodies (pending + k); mret (n, PlanMessages messages :: plan)
      | inl (_, code, message) =>
          '(n, plan) ← templated_plan (n + 3) now (nonce + 1) bodies pending; mret (n, PlanError code message :: plan)
      end
  end.
Definition messages_send_with_template_batch (now : datetime) (nonce : Z) (keys : list bytes) (payload : bytes) (bodies : list SendWithTemplate) :
    Handler ServerDb Value :=
  idempotency ← lift_api (idempotency_request now keys !"messages.send_with_template_batch" payload);
  cached ← reading_store 0 (λ st, cached_send_operation st sid idempotency);
  match cached with
  | Some response => mret (batch_send_json response)
  | None =>
      '(n, plan) ← templated_plan 1 now nonce bodies 0;
      response ← storing n (λ st, store_send_plan st sid plan idempotency);
      mret (batch_send_json response)
  end.

(** ** Campaigns *)

Definition date_opt : option datetime → Value := opt_value (λ t, VString (json_datetime t)).
Definition campaign_members (c : Campaign) : list (bytes * Value) :=
  [(!"completed_at", date_opt (cmp_completed_at c)); (!"created_at", VString (json_datetime (cmp_created_at c)));
   (!"from", vstring_opt (cmp_from_address c)); (!"html_body", vstring_opt (cmp_html_body c)); (!"id", number (cmp_id c));
   (!"name", vstring_opt (cmp_name c)); (!"scheduled_at", date_opt (cmp_scheduled_at c)); (!"sent", VNumber (show_Z (cmp_sent c)));
   (!"status", VString (cmp_status c)); (!"stream_id", number (cmp_stream_id c)); (!"subject", vstring_opt (cmp_subject c));
   (!"text_body", vstring_opt (cmp_text_body c)); (!"total", VNumber (show_Z (cmp_total c)))].
Definition campaign_json (c : Campaign) : Value := VObject (campaign_members c).
Definition campaign_json_with_stream (c : Campaign) (stream : option MessageStream) : Value :=
  VObject (campaign_members c ++
    [(!"stream", VObject [(!"name", vstring_opt (str_name <$> stream)); (!"permalink", vstring_opt (str_permalink <$> stream))])]).
Definition campaign_stats_json (x : CampaignStats) : Value :=
  let n z := VNumber (show_Z z) in
  VObject [(!"clicked", n (cst_clicked x)); (!"delivered", n (cst_delivered x)); (!"failed", n (cst_failed x)); (!"opened", n (cst_opened x));
           (!"sent", n (cst_sent x)); (!"total", n (cst_total x)); (!"unsubscribed", n (cst_unsubscribed x))].

Definition broadcast_only (m : MessageStream) (message : bytes) : Handler ServerDb unit :=
  refuse_if (negb (is_broadcast_stream m)) (validation_error message).
Definition subscribed_count (n : nat) (stream_id : Id) : Handler ServerDb Z :=
  l ← step n (pg_list_subscriptions sid stream_id); mret (Z.of_nat (length (subscribed_addresses l))).

(** *** Sending at once *)

Record CampaignSend := mkCampaignSend {
  cse_from : option bytes; cse_subject : option bytes; cse_html_body : option bytes; cse_text_body : option bytes; cse_template : option bytes;
  cse_template_model : option Value }.
(** [enqueue_send] with its two statements. *)
Definition enqueue (n : nat) (now : datetime) (nonce : Z) (message : SendMessage) : Handler ServerDb Value :=
  messages ← reading_store n (λ st, prepare_send sql_lower api st now nonce server message 0);
  response ← storing (n + 1) (λ st, store_send_plan st sid [PlanMessages messages] None);
  lift_api (single_send_json response).
Fixpoint send_each (n : nat) (now : datetime) (nonce : Z) (message : bytes → SendMessage) (addresses : list bytes) (queued : N) : Handler ServerDb N :=
  match addresses with
  | [] => mret queued
  | address :: addresses =>
      _ ← enqueue n now nonce (message address); send_each (n + 2) now (nonce + 2) message addresses (queued + 1)
  end.
Definition campaign_send (now : datetime) (nonce : Z) (permalink : bytes) (body : CampaignSend) : H :=
  stream ← resolve_stream 0 permalink;
  _ ← broadcast_only stream !"campaigns can only be sent on a broadcast stream";
  let inline := mkRendered (cse_subject body) (cse_html_body body) (cse_text_body body) in
  content ← match present (cse_template body) with
            | Some template => folded 1 template (cse_template_model body) inline
            | None => mret inline
            end;
  subscriptions ← step 3 (pg_list_subscriptions sid (str_id stream));
  let subscribed := subscribed_addresses subscriptions in
  queued ← send_each 4 now nonce (λ address, campaign_message (cse_from body) (rf_subject content) (rf_html_body content) (rf_text_body content)
                                               address permalink) (take CAMPAIGN_RECIPIENT_CAP subscribed) 0;
  created_data (VObject [(!"queued", number queued); (!"skipped", number (N.of_nat (length subscribed - CAMPAIGN_RECIPIENT_CAP)))]).

(** *** Planning: a response, and the tasks that are spawned *)

#[local] Abbreviation Spawning := (Handler ServerDb (Response * list Expansion)).
Definition spawning (h : H) (tasks : list Expansion) : Spawning := r ← h; mret (r, tasks).
Record CreateCampaign := mkCreateCampaign {
  cca_name : option bytes; cca_from : option bytes; cca_subject : option bytes; cca_html_body : option bytes; cca_text_body : option bytes }.
Definition campaigns_create (now : datetime) (permalink : bytes) (body : CreateCampaign) : Spawning :=
  stream ← resolve_stream 0 permalink;
  _ ← broadcast_only stream !"campaigns can only be created on a broadcast stream";
  from ← param !"from" (cca_from body);
  total ← subscribed_count 1 (str_id stream);
  campaign ← step 2 (pg_create_campaign now (mkNewCampaign sid (str_id stream) (present (cca_name body)) (cca_subject body) (Some from)
                       (cca_html_body body) (cca_text_body body) total !"sending" None));
  spawning (created_data (object !"campaign" (campaign_json campaign))) [spawn server campaign permalink].
Definition campaigns_index (permalink : bytes) : H :=
  stream ← resolve_stream 0 permalink;
  campaigns ← step 1 (pg_list_campaigns sid (str_id stream));
  ok_data (object !"campaigns" (VArray (map campaign_json campaigns))).
Definition campaign_show (permalink : bytes) (campaign_id : Id) : H :=
  _ ← resolve_stream 0 permalink;
  campaign ← existing 1 (pg_get_campaign sid campaign_id);
  stats ← step 2 (pg_campaign_stats sid campaign_id);
  ok_data (VObject [(!"campaign", campaign_json campaign); (!"stats", campaign_stats_json stats)]).

Definition campaign_is_planned (status : bytes) : bool := one_of [!"draft"; !"scheduled"] status.
(** A failure counts as none. *)
Definition campaign_stream (n : nat) (stream_id : Id) : Handler ServerDb (option MessageStream) :=
  streams ← attempted_step n (on_deployment (pg_list_streams sid));
  mret (List.find (λ m, str_id m =? stream_id)%N (match streams with inr l => l | inl _ => [] end)).
Definition server_campaigns_index : H :=
  campaigns ← step 0 (pg_list_server_campaigns sid);
  streams ← attempted_step 1 (on_deployment (pg_list_streams sid));
  let stream_of c := List.find (λ m, str_id m =? cmp_stream_id c)%N (match streams with inr l => l | inl _ => [] end) in
  ok_data (object !"campaigns" (VArray (map (λ c, campaign_json_with_stream c (stream_of c)) campaigns))).
Record CreateServerCampaign := mkCreateServerCampaign {
  csc_stream : option bytes; csc_name : option bytes; csc_from : option bytes; csc_subject : option bytes; csc_html_body : option bytes;
  csc_text_body : option bytes; csc_scheduled_at : option datetime; csc_send_now : bool }.
(** Sending now wins over a schedule. *)
Definition initial_state (body : CreateServerCampaign) : bytes * option datetime :=
  if csc_send_now body then (!"sending", None)
  else match csc_scheduled_at body with Some at_ => (!"scheduled", Some at_) | None => (!"draft", None) end.
Definition server_campaigns_create (now : datetime) (body : CreateServerCampaign) : Spawning :=
  permalink ← param !"stream" (csc_stream body);
  found ← step 0 (on_deployment (pg_stream_by_permalink sid permalink));
  stream ← require (validation_error (!"Message stream " ++ debug_str permalink ++ !" does not exist")) found;
  _ ← broadcast_only stream !"campaigns can only target a broadcast stream";
  from ← param !"from" (csc_from body);
  total ← subscribed_count 1 (str_id stream);
  let '(status, scheduled_at) := initial_state body in
  campaign ← step 2 (pg_create_campaign now (mkNewCampaign sid (str_id stream) (present (csc_name body)) (csc_subject body) (Some from)
                       (csc_html_body body) (csc_text_body body) total status scheduled_at));
  spawning (created_data (object !"campaign" (campaign_json_with_stream campaign (Some stream))))
    (if csc_send_now body then [spawn server campaign permalink] else []).
Definition server_campaign_show (campaign_id : Id) : H :=
  campaign ← existing 0 (pg_get_campaign sid campaign_id);
  stream ← campaign_stream 1 (cmp_stream_id campaign);
  stats ← step 2 (pg_campaign_stats sid campaign_id);
  ok_data (VObject [(!"campaign", campaign_json_with_stream campaign stream); (!"stats", campaign_stats_json stats)]).

Definition planned_only (c : Campaign) (what : bytes) : Handler ServerDb unit :=
  refuse_if (negb (campaign_is_planned (cmp_status c))) (validation_error (!"a " ++ cmp_status c ++ !" campaign " ++ what)).
Definition campaign_response (n : nat) (c : Campaign) : H :=
  stream ← campaign_stream n (cmp_stream_id c);
  ok_data (object !"campaign" (campaign_json_with_stream c stream)).
Record UpdateCampaign := mkUpdateCampaign {
  ucg_name : option (option bytes); ucg_from : option bytes; ucg_subject : option (option bytes); ucg_html_body : option (option bytes);
  ucg_text_body : option (option bytes); ucg_scheduled_at : option (option datetime) }.
(** A schedule moves the campaign between draft and scheduled. *)
Definition campaign_update (body : UpdateCampaign) : CampaignUpdate :=
  mkCampaignUpdate (ucg_name body) (ucg_subject body) (Some <$> present (ucg_from body)) (ucg_html_body body) (ucg_text_body body)
    (ucg_scheduled_at body)
    (match ucg_scheduled_at body with Some (Some _) => Some !"scheduled" | Some None => Some !"draft" | None => None end) None.
Definition server_campaign_update (campaign_id : Id) (body : UpdateCampaign) : H :=
  campaign ← existing 0 (pg_get_campaign sid campaign_id);
  _ ← planned_only campaign !"can no longer be edited";
  campaign ← existing 1 (pg_update_campaign sid campaign_id (campaign_update body));
  campaign_response 2 campaign.
Definition server_campaign_send (campaign_id : Id) : Spawning :=
  campaign ← existing 0 (pg_get_campaign sid campaign_id);
  _ ← planned_only campaign !"cannot be sent";
  found ← campaign_stream 1 (cmp_stream_id campaign);
  stream ← require (500%N, !"InternalServerError", !"the campaign's audience stream is missing") found;
  total ← subscribed_count 2 (str_id stream);
  campaign ← existing 3 (pg_update_campaign sid campaign_id (mkCampaignUpdate None None None None None None (Some !"sending") (Some total)));
  spawning (ok_data (object !"campaign" (campaign_json_with_stream campaign (Some stream)))) [spawn server campaign (str_permalink stream)].
Definition server_campaign_cancel (campaign_id : Id) : H :=
  campaign ← existing 0 (pg_get_campaign sid campaign_id);
  _ ← planned_only campaign !"cannot be canceled";
  campaign ← existing 1 (pg_update_campaign sid campaign_id (mkCampaignUpdate None None None None None None (Some !"canceled") None));
  campaign_response 2 campaign.
End Requests.
End ServerApi.
