(* ===== verification/CampaignFacts.v ===== *)
(** * CampaignFacts: a campaign is sent once

    Campaigns under interleaving: requests on campaigns, the claims of schedulers, the
    statements of the expansions that run, and anything else that leaves the table of
    campaigns alone.  A request runs as a block; what goes wrong when two requests
    interleave is shown at the end. *)

From S2P Require Import RustStrFacts MemoryFacts Concrete MailDbFacts AuthStoreFacts AuthApiFacts ApiSendFacts Isolation.
From S2P Require Import Prelude RustStr Net Model SendLimit Message MemoryStore Queue MailDb Lifecycle Dkim Worker Webhooks PgSink Housekeeping PgStore Compose ApiSend.
From S2P Require Import Auth AuthStore AuthPg AppMailer AdminStore AdminPg Workspace AuthApi Authorize AdminApi Template ServerDb ServerApi HandlerLogic Tenancy.

(** The requests on campaigns. *)
Inductive CampaignCall :=
| CallCreate (permalink : bytes) (body : CreateCampaign)
| CallServerCreate (body : CreateServerCampaign)
| CallUpdate (id : Id) (body : UpdateCampaign)
| CallSend (id : Id)
| CallCancel (id : Id).
Record System := mkSystem { sy_db : ServerDb; sy_tasks : list Expansion; sy_spawned : list Id }.
Definition task_id (e : Expansion) : Id := cmp_id (ex_campaign e).

Section Campaigns.
Context `{ORD : !HashOrder, CASE : !UnicodeCase, CRA : !Crates, PAY : !Payloads, MB : !MailBuilder, API : !ApiCrates SendMessage}
  `{AUTH : !AuthCrates, ADM : !AdminCrates, JS : !AdminJson, AUD : !AudienceCrates} (sql_lower : bytes → bytes) (api : ApiConfig).

Definition alone : nat → ServerDb → ServerDb := λ _ s, s.
Definition run_campaign_call (now : datetime) (server : Server) (c : CampaignCall) : Handler ServerDb (Response * list Expansion) :=
  match c with
  | CallCreate permalink body => campaigns_create alone server now permalink body
  | CallServerCreate body => server_campaigns_create alone server now body
  | CallUpdate id body => spawning (server_campaign_update alone server id body) []
  | CallSend id => server_campaign_send alone server id
  | CallCancel id => spawning (server_campaign_cancel alone server id) []
  end.

(** What leaves the campaigns alone. *)
Definition same_campaigns (s s' : ServerDb) : Prop := sd_campaigns s' = sd_campaigns s ∧ sd_sequence s' Campaigns = sd_sequence s Campaigns.
Inductive sys_step : System → System → Prop :=
| step_call now server c s tasks spawned resp started s' :
    run_campaign_call now server c s = (inr (resp, started), s') →
    sys_step (mkSystem s tasks spawned) (mkSystem s' (tasks ++ started) (spawned ++ map task_id started))
| step_refused now server c s tasks spawned e s' :
    run_campaign_call now server c s = (inl e, s') → sys_step (mkSystem s tasks spawned) (mkSystem s' tasks spawned)
| step_claim now server s tasks spawned started s' :
    scheduler_claim now server s = (started, s') →
    sys_step (mkSystem s tasks spawned) (mkSystem s' (tasks ++ started) (spawned ++ map task_id started))
| step_task now nonce l e r s spawned e' s' :
    expansion_step sql_lower api now nonce e s = (e', s') →
    sys_step (mkSystem s (l ++ e :: r) spawned) (mkSystem s' (l ++ option_list e' ++ r) spawned)
(** A web server stops: a task is lost. *)
| step_lost l e r s spawned : sys_step (mkSystem s (l ++ e :: r) spawned) (mkSystem s (l ++ r) spawned)
| step_other s s' tasks spawned : same_campaigns s s' → sys_step (mkSystem s tasks spawned) (mkSystem s' tasks spawned).

(** ** The invariant *)

Definition planned (c : Campaign) : bool := campaign_is_planned (cmp_status c).
Definition command_ok (c : Command) : Prop := match c with Progress status _ => campaign_is_planned status = false | _ => True end.
Record campaigns_ok (s : ServerDb) (spawned : list Id) : Prop := mkCampaignsOk {
  ok_rows : Rows cmp_id cmp_id (λ _, True) (sd_sequence s Campaigns) (sd_campaigns s);
  ok_once : NoDup spawned;
  ok_spawned : Forall (λ i, (i < sd_sequence s Campaigns)%N) spawned;
  ok_planned : ∀ c, c ∈ sd_campaigns s → planned c = true → cmp_id c ∉ spawned;
}.
Definition system_ok (y : System) : Prop :=
  campaigns_ok (sy_db y) (sy_spawned y) ∧ Forall (λ e, Forall command_ok (ex_commands e)) (sy_tasks y) ∧
  map task_id (sy_tasks y) ⊆+ sy_spawned y.

Lemma same_ok s s' spawned : same_campaigns s s' → campaigns_ok s spawned → campaigns_ok s' spawned.
Proof. intros [Hc Hs] []. constructor; by rewrite ?Hc, ?Hs. Qed.
(** A change of rows that makes nothing planned that was not. *)
Lemma modify_ok s spawned P f : (∀ c, cmp_id (f c) = cmp_id c) →
  (∀ c, c ∈ sd_campaigns s → P c = true → planned (f c) = true → cmp_id c ∉ spawned) →
  campaigns_ok s spawned → campaigns_ok (s <| sd_campaigns := modify P f (sd_campaigns s) |>) spawned.
Proof.
  intros Hid Hf W. destruct W as [Wr Wo Ws Wp]. constructor; cbn; [|done|done|].
  - by eapply rows_modify.
  - intros c (x & -> & Hx)%list_elem_of_fmap Hc. destruct (P x) eqn:HP; [rewrite Hid|]; [by apply Hf|by apply Wp].
Qed.

(** ** Statements *)

Local Abbreviation reads s := (keeps (eq s)).
Lemma reads_step {A} s n (op : ServerDb → SRes A * ServerDb) (Q : A → Prop) : reads s op Q → reads s (step alone n op) Q.
Proof.
  intros Hop s' Hs. destruct (Hop s' Hs) as [H1 H2]. unfold step, alone. destruct (op s') as [[e|a] s1]; cbn in *; [done|].
  split; [done|]. intros ? [= <-]. by apply H2.
Qed.
Lemma reads_attempted {A} s n (op : ServerDb → SRes A * ServerDb) (Q : A → Prop) : reads s op Q → reads s (attempted_step alone n op) (λ _, True).
Proof. intros Hop. unfold attempted_step, alone. by eapply rule_any, rule_attempt. Qed.
Lemma reads_existing {A} s n (op : ServerDb → SRes (option A) * ServerDb) (Q : option A → Prop) :
  reads s op Q → reads s (existing alone n op) (λ a, Q (Some a)).
Proof. intros Hop. eapply rule_bind; [by apply reads_step|]. intros r Hr. apply rule_require. by intros a ->. Qed.
Lemma reads_sd {A} s table (rows : ServerDb → A) : reads s (sd_query table rows) (λ a, a = rows s).
Proof. intros ? <-. unfold sd_query. split; [done|]. cbn. destruct (sd_failing s Select table); [done|]. by intros a [= <-]. Qed.
Lemma reads_deployment {A} s table (rows : Deployment → A) : reads s (on_deployment (query table rows)) (λ a, a = rows (sd_deployment s)).
Proof.
  intros ? <-. unfold on_deployment, query. split; [by destruct s|]. cbn. destruct (dp_failing _ Select table); [done|]. by intros a [= <-].
Qed.
Lemma reads_stream s server n p : reads s (resolve_stream alone server n p) (λ _, True).
Proof. eapply rule_any, reads_existing, reads_deployment. Qed.
Lemma reads_count s server n stream_id : reads s (subscribed_count alone server n stream_id) (λ _, True).
Proof. eapply rule_bind; [eapply rule_any, reads_step, reads_sd|]. intros l _. apply rule_ret_any. Qed.
Lemma reads_campaign_stream s server n stream_id : reads s (campaign_stream alone server n stream_id) (λ _, True).
Proof. eapply rule_bind; [eapply reads_attempted, reads_deployment|]. intros l _. apply rule_ret_any. Qed.
Lemma reads_get s server n id : reads s (existing alone n (pg_get_campaign (srv_id server) id)) (λ c, c ∈ sd_campaigns s ∧ cmp_id c = id).
Proof.
  eapply rule_weaken; [eapply reads_existing, reads_sd|]. cbv beta. intros c Hc. symmetry in Hc.
  by apply find_elem in Hc as [Hin [_ E%N.eqb_eq]%andb_true_iff].
Qed.
Lemma reads_planned s c what : reads s (planned_only c what) (λ _, planned c = true).
Proof. apply rule_refuse, negb_false_iff. Qed.

(** *** Insertions and updates *)

(** What a request may leave behind: what it started is spawned. *)
Definition outcome (spawned : list Id) (o : (ApiError + Response * list Expansion) * ServerDb) : Prop :=
  match o with
  | (inl _, s') => campaigns_ok s' spawned
  | (inr (_, started), s') => campaigns_ok s' (spawned ++ map task_id started) ∧ Forall (λ e, Forall command_ok (ex_commands e)) started
  end.
Lemma sequence_ok s s' spawned : sd_campaigns s' = sd_campaigns s → (sd_sequence s Campaigns <= sd_sequence s' Campaigns)%N →
  campaigns_ok s spawned → campaigns_ok s' spawned.
Proof.
  intros Hc Hs W. destruct W as [Wr Wo Ws Wp]. constructor; rewrite ?Hc; [|done| |done].
  - by eapply rows_weaken; [| |exact Wr].
  - eapply Forall_impl; [exact Ws|]. cbn. lia.
Qed.
(** An id that is not spawned and not the id of a planned row may be spawned. *)
Lemma spawn_ok s spawned id : campaigns_ok s spawned → id ∉ spawned → (id < sd_sequence s Campaigns)%N →
  (∀ c, c ∈ sd_campaigns s → planned c = true → cmp_id c ≠ id) → campaigns_ok s (spawned ++ [id]).
Proof.
  intros [Wr Wo Ws Wp] Hfresh Hlt Hrow. constructor; [done| | |].
  - apply NoDup_app. split; [done|]. split; [|apply NoDup_singleton]. by intros i Hi ->%list_elem_of_singleton.
  - apply Forall_app. split; [done|]. by constructor.
  - intros c Hin Hc. apply not_elem_of_app. split; [by apply Wp|]. intros E%list_elem_of_singleton. by destruct (Hrow c).
Qed.
(** A new row is planned, or its task is spawned. *)
Lemma create_ok {A} s spawned n now new (f : Campaign → Handler ServerDb A) (P : (ApiError + A) * ServerDb → Prop) : campaigns_ok s spawned →
  (∀ e s', campaigns_ok s' spawned → P (inl e, s')) →
  (∀ c s', campaigns_ok s' spawned → (campaign_is_planned (nc_status new) = false → campaigns_ok s' (spawned ++ [cmp_id c])) → P (f c s')) →
  P ((step alone n (pg_create_campaign now new) ≫= f) s).
Proof.
  intros W He Hc. unfold mbind, handler_bind, step, alone, pg_create_campaign, sd_insertion, sd_statement.
  destruct (sd_failing s Insert Campaigns); [by apply He|].
  set (id := sd_sequence s Campaigns). set (s1 := s <| sd_sequence := _ |>). assert (Hseq : sd_sequence s1 Campaigns = (id + 1)%N) by done.
  assert (W1 : campaigns_ok s1 spawned) by (apply (sequence_ok s); [done|rewrite Hseq; unfold id; lia|done]).
  destruct (negb _); [by apply He|]. set (row := mkCampaign _ _ _ _ _ _ _ _ _ _ _ _ _ _). set (s2 := s1 <| sd_campaigns := _ |>).
  destruct W as [Wr Wo Ws Wp].
  assert (Hfresh : id ∉ spawned). { intros Hin. apply (proj1 (Forall_forall _ _) Ws) in Hin. cbn in Hin. unfold id in Hin. lia. }
  assert (W2 : campaigns_ok s2 spawned).
  { constructor; [|done|by apply (ok_spawned _ _ W1)|].
    - change (Rows cmp_id cmp_id (λ _, True) (id + 1) (sd_campaigns s ++ [row])).
      eapply rows_append; [|done|by eapply rows_fresh|done|exact Wr]. done.
    - cbn. intros c [Hin| ->%list_elem_of_singleton]%elem_of_app Hp; [by apply Wp|done]. }
  apply Hc; [done|]. intros Hst. apply spawn_ok; [done|done|change (id < sd_sequence s1 Campaigns)%N; rewrite Hseq; lia|].
  cbn. intros c [Hin| ->%list_elem_of_singleton]%elem_of_app Hp.
  - destruct (rows_below _ _ _ _ _ _ Wr Hin). unfold id. lia.
  - change (campaign_is_planned (nc_status new) = true) in Hp. congruence.
Qed.
(** An update of a planned row keeps its status, sets a planned one, or the task of the
    row is spawned. *)
Lemma update_ok {A} s spawned n server_id c u (f : Campaign → Handler ServerDb A) (P : (ApiError + A) * ServerDb → Prop) : campaigns_ok s spawned →
  c ∈ sd_campaigns s → planned c = true → (∀ e s', campaigns_ok s' spawned → P (inl e, s')) →
  (∀ c' s', cmp_id c' = cmp_id c → campaigns_ok s' spawned →
     (from_option campaign_is_planned true (cgu_status u) = false → campaigns_ok s' (spawned ++ [cmp_id c])) → P (f c' s')) →
  P ((existing alone n (pg_update_campaign server_id (cmp_id c) u) ≫= f) s).
Proof.
  intros W Hin Hpl He Hc. unfold existing, mbind, handler_bind, step, alone, pg_update_campaign.
  assert (Hfound : ∀ rows x, List.find (is_campaign server_id (cmp_id c)) rows = Some x → cmp_id x = cmp_id c).
  { intros rows x Hf. by apply find_elem in Hf as [_ [_ E%N.eqb_eq]%andb_true_iff]. }
  destruct (has_updates u) eqn:Hu; cbn [negb].
  2: { unfold pg_get_campaign, sd_query. destruct (sd_failing s Select Campaigns); [by apply He|]. cbn.
       destruct (List.find _ _) as [x|] eqn:Hf; cbn; [|by apply He]. apply Hc; [by eapply Hfound|done|].
       unfold has_updates in Hu. destruct (cgu_status u); [|done]. by rewrite orb_true_r in Hu. }
  unfold sd_statement. destruct (sd_failing s Update Campaigns); [by apply He|]. destruct (_ && _); [by apply He|].
  set (s1 := s <| sd_campaigns := _ |>). cbn [fst snd]. assert (W1 : campaigns_ok s1 spawned).
  { apply modify_ok; [done| |done]. intros x Hx [_ E%N.eqb_eq]%andb_true_iff _. rewrite E. by apply (ok_planned _ _ W). }
  cbn. destruct (List.find _ _) as [x|] eqn:Hf; cbn; [|by apply He]. pose proof Hf as [Hx Hxc]%find_elem. apply Hc; [by eapply Hfound|done|].
  intros Hst. destruct (rows_below _ _ _ _ _ _ (ok_rows _ _ W) Hin). apply spawn_ok; [done|by apply (ok_planned _ _ W)|done|].
  intros y Hy Hp E. assert (x = y) as -> by (eapply rows_same; [apply (ok_rows _ _ W1)|done..|]; rewrite E; by eapply Hfound).
  apply list_elem_of_fmap in Hx as (z & -> & _). destruct (is_campaign _ _ z) eqn:Hz; [|congruence].
  unfold planned in Hp. cbn in Hp. destruct (cgu_status u); [|done]. cbn in *. congruence.
Qed.

(** ** Requests, claims and tasks *)

Lemma spawning_ok s spawned (h : Handler ServerDb Response) tasks : keeps (eq s) h (λ _, True) → campaigns_ok s spawned →
  campaigns_ok s (spawned ++ map task_id tasks) → Forall (λ e, Forall command_ok (ex_commands e)) tasks → outcome spawned (spawning h tasks s).
Proof. intros Hh W W' Ht. unfold spawning. eapply rule_read; [exact Hh|done|]. by intros r _. Qed.
Lemma reads_response s server n c : reads s (campaign_response alone server n c) (λ _, True).
Proof. eapply rule_bind; [apply reads_campaign_stream|]. intros m _. apply rule_ret_any. Qed.
Lemma spawn_commands server c permalink : Forall (λ e, Forall command_ok (ex_commands e)) [spawn server c permalink].
Proof. by repeat constructor. Qed.
Tactic Notation "read_with" uconstr(H) := eapply rule_read; [apply H|by intros; cbn|].

Lemma campaigns_create_ok s spawned server now permalink body : campaigns_ok s spawned → outcome spawned (campaigns_create alone server now permalink body s).
Proof.
  intros W. unfold campaigns_create. read_with reads_stream. intros m _. read_with rule_refuse_any. intros [] _.
  read_with rule_param. intros from _. read_with reads_count. intros total _.
  apply (create_ok s spawned); [done|done|]. intros c s' W' Hsp. apply spawning_ok; [apply rule_ret_any|done|by apply Hsp|apply spawn_commands].
Qed.
Lemma server_campaigns_create_ok s spawned server now body : campaigns_ok s spawned → outcome spawned (server_campaigns_create alone server now body s).
Proof.
  intros W. unfold server_campaigns_create. read_with rule_param. intros permalink _.
  eapply rule_read; [eapply rule_any, reads_step, reads_deployment|done|]. intros found _.
  read_with rule_require_any. intros m _. read_with rule_refuse_any. intros [] _. read_with rule_param. intros from _.
  read_with reads_count. intros total _. destruct (initial_state body) as [status at_] eqn:Hst.
  apply (create_ok s spawned); [done|done|]. intros c s' W' Hsp. unfold initial_state in Hst.
  destruct (csc_send_now body); (apply spawning_ok; [apply rule_ret_any|done| |]); [|apply spawn_commands|by rewrite app_nil_r|done].
  apply Hsp. by injection Hst as <- _.
Qed.
(** A request that starts nothing. *)
Lemma quiet_ok s spawned (h : Handler ServerDb Response) : campaigns_ok (h s).2 spawned → outcome spawned (spawning h [] s).
Proof.
  intros W. unfold spawning, mbind, handler_bind. destruct (h s) as [[e|r] s']; cbn in *; [done|]. by rewrite app_nil_r.
Qed.
Lemma update_call_ok s spawned server id body : campaigns_ok s spawned → outcome spawned (spawning (server_campaign_update alone server id body) [] s).
Proof.
  intros W. apply quiet_ok. unfold server_campaign_update. eapply rule_read; [apply reads_get|done|]. intros c [Hin <-].
  eapply rule_read; [apply reads_planned|done|]. intros [] Hp.
  apply (update_ok s spawned _ _ _ _ _ (λ o, campaigns_ok o.2 spawned)); [done..|]. intros c' s' _ W' _.
  by destruct (reads_response s' server 2 c' s' eq_refl) as [<- _].
Qed.
Lemma cancel_call_ok s spawned server id : campaigns_ok s spawned → outcome spawned (spawning (server_campaign_cancel alone server id) [] s).
Proof.
  intros W. apply quiet_ok. unfold server_campaign_cancel. eapply rule_read; [apply reads_get|done|]. intros c [Hin <-].
  eapply rule_read; [apply reads_planned|done|]. intros [] Hp.
  apply (update_ok s spawned _ _ _ _ _ (λ o, campaigns_ok o.2 spawned)); [done..|]. intros c' s' _ W' _.
  by destruct (reads_response s' server 2 c' s' eq_refl) as [<- _].
Qed.
Lemma send_call_ok s spawned server id : campaigns_ok s spawned → outcome spawned (server_campaign_send alone server id s).
Proof.
  intros W. unfold server_campaign_send. eapply rule_read; [apply reads_get|done|]. intros c [Hin <-].
  eapply rule_read; [apply reads_planned|done|]. intros [] Hp. read_with reads_campaign_stream. intros found _.
  read_with rule_require_any. intros m _. read_with reads_count. intros total _.
  apply (update_ok s spawned); [done..|]. intros c' s' Hid W' Hsp. apply spawning_ok; [apply rule_ret_any|done| |apply spawn_commands].
  change (campaigns_ok s' (spawned ++ [cmp_id c'])). rewrite Hid. by apply Hsp.
Qed.
Lemma campaign_call_ok now server c s spawned : campaigns_ok s spawned → outcome spawned (run_campaign_call now server c s).
Proof.
  destruct c; cbn [run_campaign_call];
    [apply campaigns_create_ok|apply server_campaigns_create_ok|apply update_call_ok|apply send_call_ok|apply cancel_call_ok].
Qed.

(** A claim spawns the due rows and makes them [sending]. *)
Lemma claim_ok now server s spawned started s' : scheduler_claim now server s = (started, s') → campaigns_ok s spawned →
  campaigns_ok s' (spawned ++ map task_id started) ∧ Forall (λ e, Forall command_ok (ex_commands e)) started.
Proof.
  intros E W. unfold scheduler_claim, pg_claim_due_campaigns, sd_statement in E. destruct (sd_failing s Update Campaigns).
  { injection E as <- <-. by rewrite app_nil_r. }
  injection E as <- <-. set (due := List.filter _ (sd_campaigns s)). set (claim := λ c : Campaign, c <| cmp_status := !"sending" |>).
  split. 2: { rewrite !map_map. apply Forall_map, Forall_forall. intros c _. by repeat constructor. }
  rewrite !map_map. change (map _ due) with (map cmp_id due).
  assert (Hdue : ∀ c, c ∈ due → c ∈ sd_campaigns s ∧ planned c = true).
  { intros c [Hc [[_ E%bytes_eqb_eq]%andb_true_iff _]%andb_true_iff]%list_elem_of_In%filter_In. split; [by apply list_elem_of_In|].
    unfold planned. by rewrite E. }
  assert (W1 : campaigns_ok (s <| sd_campaigns := modify (is_due (srv_id server) now) claim (sd_campaigns s) |>) spawned) by by apply modify_ok.
  destruct W1 as [Wr Wo Ws Wp], W as [Vr Vo Vs Vp]. constructor; [done| | |].
  - apply NoDup_app. split; [done|]. split; [|apply NoDup_map_filter, (rows_ids _ _ _ _ _ Vr)].
    intros i Hi (c & -> & [Hin Hp]%Hdue)%list_elem_of_fmap. by eapply Vp.
  - apply Forall_app. split; [done|]. apply Forall_map, Forall_forall. intros c [Hin _]%Hdue. by apply (rows_below _ _ _ _ _ _ Vr).
  - intros c Hin Hp. apply not_elem_of_app. split; [by apply Wp|]. intros (d & E & Hd)%list_elem_of_fmap.
    apply list_elem_of_fmap in Hin as (x & -> & Hx). destruct (is_due (srv_id server) now x) eqn:Hx'; [done|].
    destruct (Hdue d Hd) as [Hd' _]. assert (x = d) as -> by (eapply rows_same; [exact Vr|done..]). unfold due in Hd.
    apply list_elem_of_In, filter_In in Hd as [_ Hd]. congruence.
Qed.

(** The statements of a task set no planned status. *)
Lemma expansion_commands_ok addresses : Forall command_ok (expansion_commands addresses).
Proof.
  unfold expansion_commands. apply Forall_app. split; [|by repeat constructor]. apply Forall_flat_map, Forall_forall. intros batch _.
  apply Forall_app. split; [|by repeat constructor]. by apply Forall_map, Forall_forall.
Qed.
Lemma task_ok now nonce e s spawned e' s' : expansion_step sql_lower api now nonce e s = (e', s') → campaigns_ok s spawned →
  Forall command_ok (ex_commands e) → campaigns_ok s' spawned ∧ Forall (λ e, Forall command_ok (ex_commands e)) (option_list e').
Proof.
  intros E W He. unfold expansion_step in E. destruct (ex_commands e) as [|c rest] eqn:Hc; [by injection E as <- <-|].
  apply Forall_cons in He as [Hok Hrest].
  assert (Hone : ∀ e0 : Expansion, Forall command_ok (ex_commands e0) → Forall (λ e, Forall command_ok (ex_commands e)) (option_list (Some e0)))
    by (intros; by constructor).
  destruct c as [| |address|messages|message_id|status completed].
  - unfold on_deployment, pg_list_streams, query in E. injection E as <- <-. split; [by apply (same_ok s)|]. apply Hone.
    destruct (dp_failing _ Select Streams); [by repeat constructor|]. destruct (List.find _ _); by repeat constructor.
  - unfold pg_list_subscriptions, sd_query in E. injection E as <- <-. split; [done|]. apply Hone.
    destruct (sd_failing s Select Subscriptions); [by repeat constructor|]. apply expansion_commands_ok.
  - injection E as <- <-. split; [done|]. apply Hone. cbn. destruct (prepare_send _ _ _ _ _ _ _ _); [done|]. by constructor.
  - unfold store_messages in E. destruct (store_send_plan _ _ _ _) as [response store]. injection E as <- <-.
    split; [by apply (same_ok s)|]. apply Hone. destruct (response ≫= single_send_json); [done|]. cbn. destruct (message_id_of _); [by constructor|done].
  - injection E as <- <-. split; [|by apply Hone]. unfold pg_set_message_campaign, sd_statement.
    destruct (sd_failing s Update CampaignMessages); [done|]. destruct (existsb _ _); [|done]. by apply (same_ok s).
  - injection E as <- <-. split; [|by apply Hone]. unfold pg_set_campaign_progress, sd_statement.
    destruct (sd_failing s Update Campaigns); [done|]. cbn. apply modify_ok; [done| |done]. intros c _ _ Hp.
    change (campaign_is_planned status = true) in Hp. change (campaign_is_planned status = false) in Hok. congruence.
Qed.
(** A task stays with its campaign. *)
Lemma step_campaign now nonce e s :
  (expansion_step sql_lower api now nonce e s).1 = None ∨
  ∃ e', (expansion_step sql_lower api now nonce e s).1 = Some e' ∧ ex_campaign e' = ex_campaign e ∧ ex_server e' = ex_server e.
Proof.
  unfold expansion_step. destruct (ex_commands e) as [|[| |address|messages|message_id|status completed] rest]; [by left|right..].
  - destruct (on_deployment _ s) as [[?|?] ?]; eexists; (split; [done|]); by destruct (List.find _ _).
  - destruct (pg_list_subscriptions _ _ s) as [[?|?] ?]; by eexists.
  - by eexists.
  - destruct (store_messages _ _ s) as [[?|?] ?]; by eexists.
  - by eexists.
  - by eexists.
Qed.
Lemma submseteq_started (l1 l2 l : list Id) : l1 ⊆+ l → l1 ++ l2 ⊆+ l ++ l2.
Proof. intros H. by apply submseteq_app. Qed.
Lemma system_step y y' : sys_step y y' → system_ok y → system_ok y'.
Proof.
  intros Hstep (W & Ht & Hsub). destruct Hstep as [now server c s tasks spawned resp started s' E|now server c s tasks spawned e s' E
    |now server s tasks spawned started s' E|now nonce l e r s spawned e' s' E|l e r s spawned|s s' tasks spawned Hs]; cbn in *.
  - pose proof (campaign_call_ok now server c s spawned W) as Ho. rewrite E in Ho. destruct Ho as [W' Hs]. split; [done|]. split; [by apply Forall_app|].
    cbn. rewrite map_app. by apply submseteq_started.
  - pose proof (campaign_call_ok now server c s spawned W) as Ho. by rewrite E in Ho.
  - destruct (claim_ok now server s spawned started s' E W) as [W' Hs]. split; [done|]. split; [by apply Forall_app|].
    cbn. rewrite map_app. by apply submseteq_started.
  - apply Forall_app in Ht as [Hl [He Hr]%Forall_cons]. destruct (task_ok now nonce e s spawned e' s' E W He) as [W' He'].
    split; [done|]. split; [by repeat (apply Forall_app; split)|]. cbn. rewrite map_app in Hsub |- *. cbn in Hsub. rewrite map_app.
    etransitivity; [|exact Hsub]. destruct (step_campaign now nonce e s) as [Hn|(e2 & Hn & Hc & _)]; rewrite E in Hn; cbn in Hn; subst e'; cbn.
    + apply submseteq_app; [done|]. by apply submseteq_cons.
    + unfold task_id at 2. by rewrite Hc.
  - split; [done|]. apply Forall_app in Ht as [Hl [He Hr]%Forall_cons]. split; [by apply Forall_app|]. cbn. rewrite map_app in Hsub |- *.
    etransitivity; [|exact Hsub]. apply submseteq_app; [done|]. by apply submseteq_cons.
  - split; [by eapply same_ok|done].
Qed.

(** C25: Whatever requests on campaigns, scheduler passes, statements of running
    expansions, stops of web servers and other changes follow on one another, in any
    order: no campaign is expanded twice, of the expansions that run no two are of the
    same campaign, and a campaign that can still be edited, sent or canceled has not
    been expanded. *)
Theorem campaign_expanded_once s y : Rows cmp_id cmp_id (λ _, True) (sd_sequence s Campaigns) (sd_campaigns s) →
  rtc sys_step (mkSystem s [] []) y →
  NoDup (sy_spawned y) ∧ NoDup (map task_id (sy_tasks y)) ∧
  ∀ c, c ∈ sd_campaigns (sy_db y) → campaign_is_planned (cmp_status c) = true → cmp_id c ∉ sy_spawned y.
Proof.
  intros Hrows Hrun. assert (system_ok y) as ([_ Ho _ Hp] & _ & Hsub).
  { assert (system_ok (mkSystem s [] [])) as W.
    { split; [|by split]. constructor; cbn; [done|constructor|constructor|]. by intros c _ _ ?%not_elem_of_nil. }
    clear Hrows. induction Hrun; [done|]. apply IHHrun. by eapply system_step. }
  split; [done|]. split; [|done]. destruct (submseteq_Permutation _ _ Hsub) as [rest E]. rewrite E in Ho. by apply NoDup_app in Ho as [? _].
Qed.

(** ** An expansion ends *)

Definition weight (c : Command) : nat :=
  match c with Prepare _ => 3 | StoreMessages _ => 2 | Attribute _ => 1 | Progress _ _ => 1 | Resolve | ListSubscribers => 0 end.
Definition weights (l : list Command) : nat := list_sum (map weight l).
Definition simple (c : Command) : Prop := match c with Resolve | ListSubscribers => False | _ => True end.
(** What the last progress needs: the statement works and the row is there. *)
Definition updatable (server_id id : Id) (s : ServerDb) : Prop :=
  sd_failing s Update Campaigns = false ∧ existsb (is_campaign server_id id) (sd_campaigns s) = true.
Lemma weights_app l l' : weights (l ++ l') = weights l + weights l'.
Proof. unfold weights. by rewrite map_app, list_sum_app. Qed.
Lemma same_updatable server_id id s s' : sd_failing s' = sd_failing s → sd_campaigns s' = sd_campaigns s →
  updatable server_id id s → updatable server_id id s'.
Proof. unfold updatable. by intros -> ->. Qed.
Lemma modify_existsb {A} (P Q : A → bool) f l : (∀ x, Q (f x) = Q x) → existsb Q (modify P f l) = existsb Q l.
Proof. intros HQ. unfold modify. induction l as [|x l IH]; [done|]. cbn. rewrite IH. by destruct (P x); rewrite ?HQ. Qed.

(** A statement is replaced by lighter ones. *)
Definition progressed (e : Expansion) (c : Command) (rest : list Command) (id : Id) (o : option Expansion * ServerDb) : Prop :=
  ∃ e' s' l, o = (Some e', s') ∧ ex_commands e' = l ++ rest ∧ (weights l < weight c)%nat ∧ Forall simple l ∧
    ex_server e' = ex_server e ∧ ex_campaign e' = ex_campaign e ∧ updatable (srv_id (ex_server e)) id s'.
Lemma progress_intro e c rest id sent s l : (weights l < weight c)%nat → Forall simple l → updatable (srv_id (ex_server e)) id s →
  progressed e c rest id (Some (mkExpansion (ex_server e) (ex_campaign e) (ex_permalink e) sent (l ++ rest)), s).
Proof. intros. by eexists _, _, l. Qed.
Lemma simple_step now nonce e c rest s id : ex_commands e = c :: rest → simple c → updatable (srv_id (ex_server e)) id s →
  progressed e c rest id (expansion_step sql_lower api now nonce e s).
Proof.
  intros Hc Hs U. unfold expansion_step. rewrite Hc. destruct c as [| |address|messages|message_id|status completed]; try done.
  - destruct (prepare_send _ _ _ _ _ _ _ _) as [?|messages].
    + apply (progress_intro e _ rest _ (ex_sent e) _ []); [cbn; lia|done|done].
    + apply (progress_intro e _ rest _ (ex_sent e) _ [StoreMessages messages]); [cbn; lia|by repeat constructor|done].
  - unfold store_messages. destruct (store_send_plan _ _ _ _) as [response store].
    assert (U' : updatable (srv_id (ex_server e)) id (with_store s store)) by (by apply (same_updatable _ _ s)).
    destruct (response ≫= single_send_json) as [?|data]; [apply (progress_intro e _ rest _ (ex_sent e) _ []); [cbn; lia|done|done]|].
    destruct (message_id_of data) as [i|]; [apply (progress_intro e _ rest _ (ex_sent e + 1) _ [Attribute i])
      |apply (progress_intro e _ rest _ (ex_sent e + 1) _ [])]; try done; [cbn; lia|by repeat constructor|cbn; lia].
  - apply (progress_intro e _ rest _ (ex_sent e) _ []); [cbn; lia|done|]. unfold pg_set_message_campaign, sd_statement.
    destruct (sd_failing s Update CampaignMessages); [done|]. by destruct (existsb _ (db_messages _)); [apply (same_updatable _ _ s)|].
  - apply (progress_intro e _ rest _ (ex_sent e) _ []); [cbn; lia|done|]. unfold pg_set_campaign_progress, sd_statement.
    destruct U as [U1 U2]. rewrite U1. split; [done|]. cbn. by rewrite modify_existsb.
Qed.
(** Enough fuel runs the task to its last progress. *)
Definition finished (e : Expansion) (status : bytes) (s : ServerDb) : Prop :=
  ∃ x, List.find (is_campaign (srv_id (ex_server e)) (cmp_id (ex_campaign e))) (sd_campaigns s) = Some x ∧
    cmp_status x = status ∧ is_Some (cmp_completed_at x).
Lemma find_modified (P : Campaign → bool) f l : (∀ x, P (f x) = P x) → existsb P l = true →
  ∃ x, List.find P (modify P f l) = Some (f x).
Proof.
  intros HP. unfold modify. induction l as [|x l IH]; [done|]. cbn. destruct (P x) eqn:E; cbn.
  - intros _. rewrite HP, E. by exists x.
  - rewrite E. exact IH.
Qed.
Lemma last_step now nonce e s status : ex_commands e = [Progress status true] → updatable (srv_id (ex_server e)) (cmp_id (ex_campaign e)) s →
  ∃ e' s', expansion_step sql_lower api now nonce e s = (Some e', s') ∧ ex_commands e' = [] ∧ finished e status s'.
Proof.
  intros Hc [U1 U2]. unfold expansion_step. rewrite Hc. eexists _, _. split; [done|]. split; [done|].
  unfold pg_set_campaign_progress, sd_statement, finished. rewrite U1. cbn.
  match goal with |- context [modify _ ?f _] => destruct (find_modified (is_campaign (srv_id (ex_server e)) (cmp_id (ex_campaign e))) f (sd_campaigns s)) as [x Hx] end;
    [done|done|]. rewrite Hx. eexists. split; [done|]. by split.
Qed.
Lemma expand_finishes fuel clock e s l status : ex_commands e = l ++ [Progress status true] → Forall simple l →
  updatable (srv_id (ex_server e)) (cmp_id (ex_campaign e)) s → (weights l + 1 < fuel)%nat →
  ∃ s', expand_campaign sql_lower api fuel clock e s = (None, s') ∧ finished e status s'.
Proof.
  revert clock e s l. induction fuel as [|fuel IH]; intros clock e s l Hc Hl U Hf; [lia|]. cbn [expand_campaign].
  destruct l as [|c l].
  - destruct (last_step (clock 0).1 (clock 0).2 e s status Hc U) as (e' & s' & -> & He & Hfin). destruct fuel as [|fuel]; [cbn in Hf; lia|].
    cbn [expand_campaign]. unfold expansion_step. rewrite He. by exists s'.
  - apply Forall_cons in Hl as [Hs Hl].
    destruct (simple_step (clock 0).1 (clock 0).2 e c (l ++ [Progress status true]) s _ Hc Hs U) as (e' & s' & l' & -> & He & Hw & Hl' & Hsv & Hcm & U').
    assert (finished e status = finished e' status) as -> by (unfold finished; by rewrite Hsv, Hcm).
    apply (IH _ _ _ (l' ++ l)); [by rewrite <- app_assoc|by apply Forall_app|by rewrite Hsv, Hcm|].
    rewrite weights_app. change (weights (c :: l)) with (weight c + weights l)%nat in Hf. lia.
Qed.

Definition batch_commands (batch : list bytes) : list Command := map Prepare batch ++ [Progress !"sending" false].
Lemma batches_simple (l : list (list bytes)) : Forall simple (flat_map batch_commands l).
Proof.
  apply Forall_flat_map, Forall_forall. intros batch _. apply Forall_app. split; [|by repeat constructor].
  by apply Forall_map, Forall_forall.
Qed.
Lemma batch_weight batch : weights (batch_commands batch) = (3 * length batch + 1)%nat.
Proof.
  unfold batch_commands. rewrite weights_app. change (weights [Progress !"sending" false]) with 1%nat. f_equal.
  induction batch as [|x batch IH]; [done|].
  change (weights (map Prepare (x :: batch))) with (3 + weights (map Prepare batch))%nat. rewrite IH. cbn. lia.
Qed.
Lemma batches_weight fuel n addresses : (0 < n)%nat → (weights (flat_map batch_commands (chunks fuel n addresses)) <= 4 * length addresses)%nat.
Proof.
  intros Hn. revert addresses. induction fuel as [|fuel IH]; intros addresses; [cbn; lia|]. cbn [chunks].
  destruct addresses as [|x l] eqn:E; [cbn; lia|]. rewrite <- E. cbn [flat_map]. rewrite weights_app, batch_weight.
  specialize (IH (drop n addresses)). rewrite length_drop in IH. rewrite length_take.
  assert (0 < length addresses)%nat by (rewrite E; cbn; lia). lia.
Qed.

(** C27: An expansion that nothing disturbs ends: after the list of subscribers at most
    three statements per address, one per batch and the last one.  The campaign is then
    completed, as [sent], or as [failed] when the subscribers could not be read,
    whatever the sends to single addresses came to. *)
Theorem expansion_finishes fuel clock server c permalink s :
  let subscribed := subscribed_addresses (subscriptions_of (srv_id server) (cmp_stream_id c) s) in
  sd_failing s Update Campaigns = false → existsb (is_campaign (srv_id server) (cmp_id c)) (sd_campaigns s) = true →
  (4 * length subscribed + 3 <= fuel)%nat →
  ∃ s' x, expand_campaign sql_lower api fuel clock (spawn server c permalink) s = (None, s') ∧
    List.find (is_campaign (srv_id server) (cmp_id c)) (sd_campaigns s') = Some x ∧ is_Some (cmp_completed_at x) ∧
    cmp_status x = (if sd_failing s Select Subscriptions then !"failed" else !"sent").
Proof.
  intros subscribed Hup Hrow Hf. destruct fuel as [|fuel]; [lia|]. cbn [expand_campaign].
  unfold expansion_step. cbn [ex_commands spawn]. unfold pg_list_subscriptions, sd_query. fold subscribed. destruct (sd_failing s Select Subscriptions).
  - edestruct (expand_finishes fuel (clock ∘ Datatypes.S) (mkExpansion server c permalink 0 [Progress !"failed" true]) s [] !"failed")
      as (s' & E & x & Hx & Hst & Hco); [done|done|done|cbn; lia|]. by exists s', x.
  - edestruct (expand_finishes fuel (clock ∘ Datatypes.S) (mkExpansion server c permalink 0 (expansion_commands subscribed)) s
      (flat_map batch_commands (chunks (length subscribed) CAMPAIGN_BATCH_SIZE subscribed)) !"sent") as (s' & E & x & Hx & Hst & Hco);
      [done|apply batches_simple|done| |by exists s', x].
    pose proof (batches_weight (length subscribed) CAMPAIGN_BATCH_SIZE subscribed ltac:(unfold CAMPAIGN_BATCH_SIZE; lia)). lia.
Qed.
(** ** Two requests at once *)

(** No statement fails. *)
Definition works (s : ServerDb) : Prop :=
  (∀ v t, sd_failing s v t = false) ∧ (∀ v t, dp_failing (sd_deployment s) v t = false).

Lemma existing_ok {A} others n (op : ServerDb → SRes (option A) * ServerDb) s a s' : op (others n s) = (inr (Some a), s') →
  existing others n op s = (inr a, s').
Proof. intros H. unfold existing. rewrite (bind_ok _ _ _ (Some a) s'); [done|]. unfold step. by rewrite H. Qed.
Lemma count_ok others n server stream_id s : works s → others n s = s → ∃ total, subscribed_count others server n stream_id s = (inr total, s).
Proof.
  intros [W _] Ho. eexists. unfold subscribed_count.
  rewrite (bind_ok _ _ _ (subscriptions_of (srv_id server) stream_id s) s); [reflexivity|].
  unfold step, pg_list_subscriptions, sd_query. by rewrite Ho, W.
Qed.
Definition streams_of (server : Server) (s : ServerDb) : list MessageStream :=
  stable_sort (λ a b, str_id a <=? str_id b)%N (List.filter (λ m, str_server_id m =? srv_id server)%N (sd_streams s)).
Lemma stream_ok others n server stream_id s : works s → others n s = s →
  campaign_stream others server n stream_id s = (inr (List.find (λ m, str_id m =? stream_id)%N (streams_of server s)), s).
Proof.
  intros [_ W] Ho. unfold campaign_stream. rewrite (bind_ok _ _ _ (inr (streams_of server s)) s); [done|].
  unfold attempted_step, attempt, on_deployment, pg_list_streams, query. rewrite Ho, W. by destruct s.
Qed.
(** An update does not look at the status of the row. *)
Lemma updated_is server_id id u x : is_campaign server_id id (updated_campaign u x) = is_campaign server_id id x.
Proof. destruct x. reflexivity. Qed.
Lemma updated_id u x : cmp_id (updated_campaign u x) = cmp_id x.
Proof. destruct x. reflexivity. Qed.
Lemma update_finds server_id id u s : works s → has_updates u = true → from_option (one_of campaign_statuses) true (cgu_status u) = true →
  existsb (is_campaign server_id id) (sd_campaigns s) = true →
  ∃ c' s', pg_update_campaign server_id id u s = (inr (Some c'), s') ∧ cmp_id c' = id ∧ works s' ∧
    existsb (is_campaign server_id id) (sd_campaigns s') = true.
Proof.
  intros W Hu Hs Hin. pose proof (modify_existsb (is_campaign server_id id) _ _ (sd_campaigns s) (updated_is server_id id u)) as Hex.
  rewrite Hin in Hex. destruct (find_modified _ (updated_campaign u) (sd_campaigns s) (updated_is server_id id u) Hin) as [x Hx].
  exists (updated_campaign u x), (s <| sd_campaigns := modify (is_campaign server_id id) (updated_campaign u) (sd_campaigns s) |>).
  unfold pg_update_campaign. rewrite Hu. cbn [negb]. unfold sd_statement. destruct W as [W1 W2]. rewrite W1, Hs. cbn [negb andb]. cbv zeta.
  split; [by rewrite Hx|]. apply find_some in Hx as [_ H]. rewrite updated_is in H. apply andb_true_iff in H as [_ H%N.eqb_eq].
  split; [by rewrite updated_id|]. split; [by split|exact Hex].
Qed.
Lemma mark_sending_ok others server id total s : works (others 3 s) → existsb (is_campaign (srv_id server) id) (sd_campaigns (others 3 s)) = true →
  ∃ c' s', existing others 3 (pg_update_campaign (srv_id server) id (mkCampaignUpdate None None None None None None (Some !"sending") (Some total))) s
    = (inr c', s') ∧ cmp_id c' = id ∧ works s' ∧ existsb (is_campaign (srv_id server) id) (sd_campaigns s') = true.
Proof.
  intros W Hin. edestruct (update_finds (srv_id server) id (mkCampaignUpdate None None None None None None (Some !"sending") (Some total)))
    as (c' & s' & E & H); [exact W|reflexivity|reflexivity|exact Hin|].
  exists c', s'. split; [by apply existing_ok|exact H].
Qed.

(** A request to send that finds the campaign planned starts an expansion when the
    campaign is still there at its update. *)
Lemma send_starts others server id s c stream : (∀ n, n < 3 → others n s = s) → works s → works (others 3 s) →
  List.find (is_campaign (srv_id server) id) (sd_campaigns s) = Some c → campaign_is_planned (cmp_status c) = true →
  List.find (λ m, str_id m =? cmp_stream_id c)%N (streams_of server s) = Some stream →
  existsb (is_campaign (srv_id server) id) (sd_campaigns (others 3 s)) = true →
  let o := server_campaign_send others server id s in
  ∃ resp c', o.1 = inr (resp, [spawn server c' (str_permalink stream)]) ∧ cmp_id c' = id ∧ works o.2 ∧
    existsb (is_campaign (srv_id server) id) (sd_campaigns o.2) = true.
Proof.
  intros Ho W V Hc Hp Hst Hin. unfold server_campaign_send.
  rewrite (bind_ok _ _ _ c s).
  2: { apply existing_ok. unfold pg_get_campaign, sd_query. rewrite (Ho 0) by lia. destruct W as [W _]. by rewrite W, Hc. }
  rewrite (bind_ok _ _ _ tt s) by (unfold planned_only, refuse_if; by rewrite Hp).
  rewrite (bind_ok _ _ _ (Some stream) s) by (rewrite stream_ok by (done || apply Ho; lia); by rewrite Hst).
  rewrite (bind_ok _ _ _ stream s) by done.
  destruct (count_ok others 2 server (str_id stream) s W (Ho 2 ltac:(lia))) as [total Ht]. rewrite (bind_ok _ _ _ total s) by done.
  destruct (mark_sending_ok others server id total s V Hin) as (c' & s' & E & Hid & W' & Hin'). rewrite (bind_ok _ _ _ c' s') by done.
  by eexists _, c'.
Qed.

(** C26: What [campaign_expanded_once] takes a request to be matters: between the check
    and the update of a request to send, which are two transactions, a second one for
    the same campaign passes the same check.  Whatever the state, if the campaign is
    planned, its stream is there and no statement fails, both are answered with
    success and both start an expansion of the campaign. *)
Theorem concurrent_sends_expand_twice server id s c stream : works s →
  List.find (is_campaign (srv_id server) id) (sd_campaigns s) = Some c → campaign_is_planned (cmp_status c) = true →
  List.find (λ m, str_id m =? cmp_stream_id c)%N (streams_of server s) = Some stream →
  let second := server_campaign_send alone server id s in
  let first := server_campaign_send (λ n s, if bool_decide (n = 3) then second.2 else s) server id s in
  ∃ resp c1 resp' c2, first.1 = inr (resp, [spawn server c1 (str_permalink stream)]) ∧ cmp_id c1 = id ∧
    second.1 = inr (resp', [spawn server c2 (str_permalink stream)]) ∧ cmp_id c2 = id.
Proof.
  intros W Hc Hp Hst second first.
  assert (existsb (is_campaign (srv_id server) id) (sd_campaigns s) = true) as Hin.
  { apply find_some in Hc as [H1 H2]. apply existsb_exists. by exists c. }
  destruct (send_starts alone server id s c stream) as (resp' & c2 & H1 & H2 & H3 & H4); [done..|].
  destruct (send_starts (λ n s, if bool_decide (n = 3) then second.2 else s) server id s c stream) as (resp & c1 & G1 & G2 & _); try done.
  { intros n Hn. by rewrite bool_decide_eq_false_2 by lia. }
  by exists resp, c1, resp', c2.
Qed.
End Campaigns.

(** ** A draft, its audience, and requests that interleave *)

#[local] Existing Instances concrete_crates concrete_case concrete_order concrete_payloads fx_mail_builder fx_api concrete_auth concrete_admin
  concrete_json.
Definition concrete_audience : AudienceCrates :=
  {| subscription_id _ _ _ := 1%N; subscription_created_at _ _ _ := 0%Z; suppression_created_at _ := 0%Z; server_row_uuid _ id := show_N id |}.
#[local] Existing Instance concrete_audience.

Definition fx_draft : Campaign :=
  mkCampaign 1 1 7 (Some !"Spring") (Some !"News") (Some !"me@a.example") None (Some !"hi") !"draft" 0 0 None 0 None.
Definition fx_audience : ServerDb :=
  mkServerDb (mkDeployment fx_api_pg (mkPgAuth accounts_empty (λ _, 1%N) (λ _, false)) [] ∅ ∅ [] [] (λ _, 8%N) (λ _ _, false))
    [fx_draft] ∅ [] [] ∅ (λ _, 2%N) (λ _ _, false).
Definition fx_request (others : nat → ServerDb → ServerDb) (s : ServerDb) := server_campaign_send others server_a 1 s.
Definition started (o : (ApiError + Response * list Expansion) * ServerDb) : list Expansion := match o with (inr (_, l), _) => l | _ => [] end.
(** The tasks one after the other; no two statements have a nonce in common. *)
Definition expand_each (tasks : list Expansion) (s : ServerDb) : ServerDb :=
  (fold_left (λ '(k, s) e, ((k + 20)%Z, (expand_campaign to_ascii_lowercase fx_api_config 20 (λ n, (0, k + Z.of_nat n)%Z) e s).2)) tasks (0%Z, s)).2.
Definition recipients (s : ServerDb) : list bytes := map (λ r, sg_rcpt_to (MailDb.stored r)) (db_messages (sd_mail s)).

(** Two requests for the draft: each subscriber gets the mail of both expansions. *)
Theorem concurrent_sends_expand_twice_witness :
  let second := fx_request alone fx_audience in
  let first := fx_request (λ n s, if bool_decide (n = 3) then second.2 else s) fx_audience in
  (∃ e1 e2, started first = [e1] ∧ started second = [e2] ∧ task_id e1 = 1%N ∧ task_id e2 = 1%N) ∧
  recipients (expand_each (started second ++ started first) first.2) = [!"r@x.example"; !"r@x.example"].
Proof.
  split; [|vm_compute; reflexivity].
  destruct (concurrent_sends_expand_twice server_a 1 fx_audience fx_draft fx_stream) as (r1 & c1 & r2 & c2 & H1 & H2 & H3 & H4);
    [by split|vm_compute; reflexivity..|].
  exists (spawn server_a c1 !"news"), (spawn server_a c2 !"news"). unfold fx_request.
  destruct (server_campaign_send (λ n s, if bool_decide (n = 3) then _ else s) _ _ _) as [o1 s1]. cbn in H1. rewrite H1.
  destruct (server_campaign_send alone _ _ _) as [o2 s2]. cbn in H3. rewrite H3. done.
Defined.

(** The draft is sent once; one that follows is refused. *)
Lemma call_run `{!HashOrder, !UnicodeCase, !Crates, !Payloads, !MailBuilder, !ApiCrates SendMessage, !AuthCrates, !AdminCrates, !AdminJson, !AudienceCrates}
    sql_lower api now server c s :
  let o := run_campaign_call now server c s in
  rtc (sys_step sql_lower api) (mkSystem s [] []) (mkSystem o.2 (started o) (map task_id (started o))).
Proof.
  intros o. destruct o as [[e|[resp l]] s'] eqn:E; apply rtc_once; [by eapply step_refused|by apply (step_call _ _ now server c s [] [] resp l)].
Qed.
Definition fx_sent : (ApiError + Response * list Expansion) * ServerDb := run_campaign_call 0 server_a (CallSend 1) fx_audience.
Definition fx_system : System := mkSystem fx_sent.2 (started fx_sent) (map task_id (started fx_sent)).
Theorem campaign_expanded_once_witness :
  NoDup (sy_spawned fx_system) ∧ map task_id (sy_tasks fx_system) = [1%N] ∧ ∃ e, (fx_request alone (sy_db fx_system)).1 = inl e.
Proof.
  assert (Rows cmp_id cmp_id (λ _, True) (sd_sequence fx_audience Campaigns) (sd_campaigns fx_audience)) as Hrows.
  { constructor; [by apply NoDup_singleton|by apply NoDup_singleton|]. constructor; [|constructor]. by split. }
  destruct (campaign_expanded_once to_ascii_lowercase fx_api_config fx_audience fx_system Hrows
    (call_run to_ascii_lowercase fx_api_config 0 server_a (CallSend 1) fx_audience)) as (H & _ & _).
  split; [exact H|]. split; [by vm_compute|]. eexists. vm_compute. reflexivity.
Defined.
(** Eight statements, and the campaign is sent. *)
Theorem expansion_finishes_witness :
  subscribed_addresses (subscriptions_of 1 7 fx_audience) = [!"r@x.example"] ∧
  ∃ s' x, expand_campaign to_ascii_lowercase fx_api_config 8 (λ n, (0, Z.of_nat n)%Z) (spawn server_a fx_draft !"news") fx_audience = (None, s') ∧
    List.find (is_campaign 1 1) (sd_campaigns s') = Some x ∧ is_Some (cmp_completed_at x) ∧ cmp_status x = !"sent".
Proof.
  split; [by vm_compute|].
  apply (expansion_finishes to_ascii_lowercase fx_api_config 8 (λ n, (0, Z.of_nat n)%Z) server_a fx_draft !"news" fx_audience); [done|done|].
  apply Nat.leb_le. vm_compute. reflexivity.
Defined.
